(** * Data Alchemist: validation engine, rule inference and weight normaliser

    A shallow embedding of the TypeScript sources

      - [src/lib/validation.ts]         (class [DataValidator] and the entity types),
      - [src/lib/ai-engine.ts]          ([convertToRule], [generateRuleRecommendations],
                                         [searchData], [suggestCorrections],
                                         [mapHeaders], and the parser of files
                                         listed after them),
      - [src/components/grid/DataGrid.tsx] ([handleWeightChange], [getCellErrors]),
      - [src/components/validation/ValidationPanel.tsx], [src/components/rules/RuleBuilder.tsx]
        and the export panel            (the callers of the above),

    followed by the properties of the specification that concern them, and
    by further properties of the same code.

    Modelling conventions.
      - The inputs have the types that the TypeScript interfaces declare.
      - A JavaScript string is a [string]: a sequence of code units, here
        restricted to the range 0..255.
      - Entity fields declared [number] hold integers (section 3 of the
        specification) and are modelled by [Z]: they are added, compared
        and parsed exactly and printed in decimal, as JavaScript does with
        integers of the safe range (beyond it the code rounds to binary64,
        and prints an exponent from 1e21 on).  Weights and confidences are
        fractions and are modelled by IEEE-754 binary64 numbers ([float]),
        the representation of a JavaScript number; the real number that
        such a number stands for is read off the specification of the
        operations in the standard library ([Floats.SpecFloat]).
      - A [Set<string>] that is only added to and queried is a [gset string];
        a [Map] that is iterated is an association list in insertion order.
      - Exceptions are explicit: a computation that may throw has type
        [completion A]; [try]/[catch] is [try_catch].
      - [Date.now()] is an input of the functions that read the clock.
      - [Array.prototype.sort] is stable; it is modelled by a stable
        insertion sort, which returns what any stable sort returns when the
        comparison is a consistent order. *)

From Stdlib Require Import ZArith List String Ascii Bool Lia Floats QArith.
From Stdlib Require Import Numbers.DecimalString Sorting.Permutation Sorting.Sorted.
From Stdlib Require Structures.OrderedTypeEx.
From Stdlib Require Import Lqa.
From Stdlib Require Reals Lra.
From stdpp Require Import gmap strings.
Import ListNotations.

Set Warnings "-inexact-float,-register-all".

Local Open Scope string_scope.
Local Open Scope list_scope.
Local Open Scope Z_scope.

(* ===================================================================== *)
(** ** Part I.  The JavaScript run-time operations the sources rely on    *)
(* ===================================================================== *)

Module JS.

(** *** Strings *)

(** [WhiteSpace] and [LineTerminator] code units below 256: TAB, LF, VT,
    FF, CR, SP and NBSP.  They are what [trim] strips and what [\s]
    matches. *)
Definition isWhiteSpace (c : ascii) : bool :=
  let n := nat_of_ascii c in
  ((9 <=? n)%nat && (n <=? 13)%nat) || (n =? 32)%nat || (n =? 160)%nat.

Fixpoint trimStart (s : string) : string :=
  match s with
  | EmptyString => EmptyString
  | String c s' => if isWhiteSpace c then trimStart s' else s
  end.

Fixpoint reverse_onto (s acc : string) : string :=
  match s with
  | EmptyString => acc
  | String c s' => reverse_onto s' (String c acc)
  end.

Definition reverse (s : string) : string := reverse_onto s EmptyString.

Definition trimEnd (s : string) : string := reverse (trimStart (reverse s)).

(** [s.trim()] *)
Definition trim (s : string) : string := trimEnd (trimStart s).

(** [s.split(sep)] for a separator of one code unit.  The result is
    never empty: splitting the empty string gives one empty piece. *)
Fixpoint split (sep : ascii) (s : string) : list string :=
  match s with
  | EmptyString => [EmptyString]
  | String c s' =>
      if Ascii.eqb c sep then EmptyString :: split sep s'
      else match split sep s' with
           | piece :: pieces => String c piece :: pieces
           | [] => [String c EmptyString]
           end
  end.

(** [l.join(sep)] *)
Definition join (sep : string) (l : list string) : string := String.concat sep l.

(** [s.includes(sub)] *)
Fixpoint includes (s sub : string) : bool :=
  String.prefix sub s ||
  match s with
  | EmptyString => false
  | String _ s' => includes s' sub
  end.

(** [s.startsWith(p)] *)
Definition startsWith (s p : string) : bool := String.prefix p s.

Definition lowerChar (c : ascii) : ascii :=
  let n := nat_of_ascii c in
  if ((65 <=? n)%nat && (n <=? 90)%nat)
     || ((192 <=? n)%nat && (n <=? 222)%nat && negb (n =? 215)%nat)
  then ascii_of_nat (n + 32) else c.

(** [s.toLowerCase()] *)
Fixpoint toLowerCase (s : string) : string :=
  match s with
  | EmptyString => EmptyString
  | String c s' => String (lowerChar c) (toLowerCase s')
  end.

(** [String(n)] and [`${n}`] for an integer [n]. *)
Definition showZ (n : Z) : string := NilZero.string_of_int (Z.to_int n).

Definition showNat (n : nat) : string := showZ (Z.of_nat n).

(** [l.includes(x)] on an array of strings. *)
Definition arrayIncludes (l : list string) (x : string) : bool :=
  existsb (String.eqb x) l.

(** [s.has(x)] on a [Set<string>]. *)
Definition setHas (s : gset string) (x : string) : bool := bool_decide (x ∈ s).

(** [s.add(x)] *)
Definition setAdd (s : gset string) (x : string) : gset string := s ∪ {[ x ]}.

(** [new Set(l)] *)
Definition setOf (l : list string) : gset string := list_to_set l.


(** *** [JSON.parse]

    The grammar of ECMA-404.  String and number values keep their source
    text: the sources only ask whether a text parses, whether the value is
    an array, how long it is and whether its elements are numbers. *)

Inductive JSON : Type :=
| JNull
| JBool (b : bool)
| JNumber (literal : string)
| JString (raw : string)
| JArray (elements : list JSON)
| JObject (members : list (string * JSON)).

Definition isJSONSpace (c : ascii) : bool :=
  let n := nat_of_ascii c in
  (n =? 32)%nat || (n =? 9)%nat || (n =? 10)%nat || (n =? 13)%nat.

Definition isDigit (c : ascii) : bool :=
  let n := nat_of_ascii c in (48 <=? n)%nat && (n <=? 57)%nat.

Definition isHexDigit (c : ascii) : bool :=
  let n := nat_of_ascii c in
  isDigit c || ((65 <=? n)%nat && (n <=? 70)%nat) || ((97 <=? n)%nat && (n <=? 102)%nat).

Fixpoint skipSpace (s : string) : string :=
  match s with
  | String c s' => if isJSONSpace c then skipSpace s' else s
  | EmptyString => EmptyString
  end.

(** The longest run of digits at the head of [s], and what follows it. *)
Fixpoint takeDigits (s : string) : string * string :=
  match s with
  | String c s' =>
      if isDigit c then let (ds, rest) := takeDigits s' in (String c ds, rest)
      else (EmptyString, s)
  | EmptyString => (EmptyString, EmptyString)
  end.

(** One or more digits. *)
Definition takeDigits1 (s : string) : option (string * string) :=
  match takeDigits s with
  | (EmptyString, _) => None
  | r => Some r
  end.

(** [int]: a single [0], or a digit from 1 to 9 followed by digits. *)
Definition lexInt (s : string) : option (string * string) :=
  match s with
  | String "0" rest => Some ("0", rest)
  | _ => takeDigits1 s
  end.

Definition lexFrac (s : string) : option (string * string) :=
  match s with
  | String "." s' =>
      match takeDigits1 s' with
      | Some (ds, rest) => Some (String "." ds, rest)
      | None => None
      end
  | _ => Some (EmptyString, s)
  end.

Definition lexSign (s : string) : string * string :=
  match s with
  | String "+" s' => ("+", s')
  | String "-" s' => ("-", s')
  | _ => (EmptyString, s)
  end.

Definition lexExp (s : string) : option (string * string) :=
  match s with
  | String c s' =>
      if Ascii.eqb c "e" || Ascii.eqb c "E" then
        let (sg, s'') := lexSign s' in
        match takeDigits1 s'' with
        | Some (ds, rest) => Some (String c (sg +:+ ds), rest)
        | None => None
        end
      else Some (EmptyString, s)
  | EmptyString => Some (EmptyString, s)
  end.

(** [number]: [-? int frac? exp?] *)
Definition lexNumber (s : string) : option (string * string) :=
  let (minus, s0) := match s with
                     | String "-" s' => ("-", s')
                     | _ => (EmptyString, s)
                     end in
  match lexInt s0 with
  | None => None
  | Some (i, s1) =>
      match lexFrac s1 with
      | None => None
      | Some (f, s2) =>
          match lexExp s2 with
          | None => None
          | Some (e, s3) => Some (minus +:+ i +:+ f +:+ e, s3)
          end
      end
  end.

(** The double quote. *)
Definition quote : ascii := "034"%char.

(** The string made of one double quote. *)
Definition dq : string := String quote EmptyString.

Definition isSimpleEscape (c : ascii) : bool :=
  existsb (Ascii.eqb c) [quote ; "\" ; "/" ; "b" ; "f" ; "n" ; "r" ; "t"]%char.

(** The characters of a string literal after its opening quote, up to the
    closing one. *)
Fixpoint lexString (s : string) : option (string * string) :=
  match s with
  | EmptyString => None
  | String c s' =>
      if Ascii.eqb c quote then Some (EmptyString, s')
      else if Ascii.eqb c "\" then
        match s' with
        | String "u" (String h1 (String h2 (String h3 (String h4 s'')))) =>
            if isHexDigit h1 && isHexDigit h2 && isHexDigit h3 && isHexDigit h4 then
              match lexString s'' with
              | Some (body, rest) =>
                  Some (String c (String "u" (String h1 (String h2 (String h3
                          (String h4 body))))), rest)
              | None => None
              end
            else None
        | String e s'' =>
            if isSimpleEscape e then
              match lexString s'' with
              | Some (body, rest) => Some (String c (String e body), rest)
              | None => None
              end
            else None
        | EmptyString => None
        end
      else if (nat_of_ascii c <? 32)%nat then None
      else match lexString s' with
           | Some (body, rest) => Some (String c body, rest)
           | None => None
           end
  end.

(** [s] starts with the keyword [kw]: what follows it. *)
Fixpoint expect (kw s : string) : option string :=
  match kw, s with
  | EmptyString, _ => Some s
  | String k kw', String c s' => if Ascii.eqb k c then expect kw' s' else None
  | String _ _, EmptyString => None
  end.

(** [parseValue] reads one value at the head of [s] (after white space)
    and returns it with the rest of the text; [parseElements] reads the
    elements of an array after its first one has been found to exist, and
    [parseMembers] the members of an object.  Every call that does not
    consume a character is followed by one that does, so twice the length
    of the text bounds the depth of the calls. *)
Fixpoint parseValue (fuel : nat) (s : string) : option (JSON * string) :=
  match fuel with
  | O => None
  | S fuel' =>
      match skipSpace s with
      | EmptyString => None
      | String c s' =>
          if Ascii.eqb c "[" then
            match skipSpace s' with
            | String "]" rest => Some (JArray [], rest)
            | _ =>
                match parseElements fuel' s' with
                | Some (vs, rest) => Some (JArray vs, rest)
                | None => None
                end
            end
          else if Ascii.eqb c "{" then
            match skipSpace s' with
            | String "}" rest => Some (JObject [], rest)
            | _ =>
                match parseMembers fuel' s' with
                | Some (ms, rest) => Some (JObject ms, rest)
                | None => None
                end
            end
          else if Ascii.eqb c quote then
            match lexString s' with
            | Some (raw, rest) => Some (JString raw, rest)
            | None => None
            end
          else if Ascii.eqb c "-" || isDigit c then
            match lexNumber (String c s') with
            | Some (lit, rest) => Some (JNumber lit, rest)
            | None => None
            end
          else if Ascii.eqb c "t" then
            match expect "rue" s' with
            | Some rest => Some (JBool true, rest)
            | None => None
            end
          else if Ascii.eqb c "f" then
            match expect "alse" s' with
            | Some rest => Some (JBool false, rest)
            | None => None
            end
          else if Ascii.eqb c "n" then
            match expect "ull" s' with
            | Some rest => Some (JNull, rest)
            | None => None
            end
          else None
      end
  end

with parseElements (fuel : nat) (s : string) : option (list JSON * string) :=
  match fuel with
  | O => None
  | S fuel' =>
      match parseValue fuel' s with
      | None => None
      | Some (v, s1) =>
          match skipSpace s1 with
          | String "]" rest => Some ([v], rest)
          | String "," s2 =>
              match parseElements fuel' s2 with
              | Some (vs, rest) => Some (v :: vs, rest)
              | None => None
              end
          | _ => None
          end
      end
  end

with parseMembers (fuel : nat) (s : string) : option (list (string * JSON) * string) :=
  match fuel with
  | O => None
  | S fuel' =>
      match skipSpace s with
      | String c s0 =>
          if Ascii.eqb c quote then
            match lexString s0 with
            | None => None
            | Some (key, s1) =>
                match skipSpace s1 with
                | String ":" s2 =>
                    match parseValue fuel' s2 with
                    | None => None
                    | Some (v, s3) =>
                        match skipSpace s3 with
                        | String "}" rest => Some ([(key, v)], rest)
                        | String "," s4 =>
                            match parseMembers fuel' s4 with
                            | Some (ms, rest) => Some ((key, v) :: ms, rest)
                            | None => None
                            end
                        | _ => None
                        end
                    end
                | _ => None
                end
            end
          else None
      | EmptyString => None
      end
  end.

(** The whole text is one value, with white space around it at most. *)
Definition parseText (s : string) : option JSON :=
  match parseValue (2 * String.length s + 2) s with
  | Some (v, rest) =>
      match skipSpace rest with
      | EmptyString => Some v
      | _ => None
      end
  | None => None
  end.

(** The elements of an array ([[]] for the other values, which have none). *)
Definition elements (v : JSON) : list JSON :=
  match v with JArray l => l | _ => [] end.

(** [Array.isArray(v)] *)
Definition isArray (v : JSON) : bool :=
  match v with JArray _ => true | _ => false end.

(** [typeof v === 'number'] *)
Definition isNumber (v : JSON) : bool :=
  match v with JNumber _ => true | _ => false end.

(** *** Exceptions *)

Inductive exn : Type :=
| SyntaxError (message : string)
| TypeError (message : string).

Inductive completion (A : Type) : Type :=
| Normal (value : A)
| Throw (e : exn).
Arguments Normal {A} value.
Arguments Throw {A} e.

Definition bind {A B} (c : completion A) (k : A -> completion B) : completion B :=
  match c with
  | Normal a => k a
  | Throw e => Throw e
  end.

(** [try { body } catch { handler }] *)
Definition try_catch {A} (body : completion A) (handler : exn -> completion A)
  : completion A :=
  match body with
  | Normal a => Normal a
  | Throw e => handler e
  end.

(** [JSON.parse(s)]: the value, or a [SyntaxError]. *)
Definition JSON_parse (s : string) : completion JSON :=
  match parseText s with
  | Some v => Normal v
  | None => Throw (SyntaxError "Unexpected token in JSON")
  end.

(** [l.forEach(x => ...)] where the callback updates a local variable of
    type [S]: the variable is threaded through the iterations, and an
    exception that escapes the callback ends the loop. *)
Fixpoint forEach {A S} (l : list A) (body : S -> A -> completion S) (s : S)
  : completion S :=
  match l with
  | [] => Normal s
  | x :: l' => bind (body s x) (forEach l' body)
  end.

(** *** Arrays and maps *)

(** [l.sort(compare)], where [before x y] says that [compare(x, y) < 0].
    The sort is stable: an element is placed after the elements already
    there that it does not come before. *)
Fixpoint insertSorted {A} (before : A -> A -> bool) (x : A) (l : list A) : list A :=
  match l with
  | [] => [x]
  | y :: l' => if before x y then x :: y :: l' else y :: insertSorted before x l'
  end.

Definition sortBy {A} (before : A -> A -> bool) (l : list A) : list A :=
  fold_left (fun sorted x => insertSorted before x sorted) l [].

(** [l.sort()] on strings: by code units. *)
Definition sort (l : list string) : list string := sortBy String.ltb l.

(** A [Map<string, V>]: its entries in insertion order. *)
Definition Map (V : Type) : Type := list (string * V).

(** [m.has(k)] *)
Definition mapHas {V} (m : Map V) (k : string) : bool :=
  existsb (fun '(k', _) => String.eqb k' k) m.

(** [m.get(k)] *)
Definition mapGet {V} (m : Map V) (k : string) : option V :=
  match List.find (fun '(k', _) => String.eqb k' k) m with
  | Some (_, v) => Some v
  | None => None
  end.

(** [m.set(k, v)]: a key already there keeps its place. *)
Fixpoint mapSet {V} (m : Map V) (k : string) (v : V) : Map V :=
  match m with
  | [] => [(k, v)]
  | (k', v') :: m' =>
      if String.eqb k' k then (k', v) :: m' else (k', v') :: mapSet m' k v
  end.

(** *** Numbers *)

(** The number that an integer denotes (exact in the safe range). *)
Definition ofZ (n : Z) : float :=
  match n with
  | Z0 => PrimFloat.zero
  | Zpos _ => PrimFloat.of_uint63 (Uint63.of_Z n)
  | Zneg _ => PrimFloat.opp (PrimFloat.of_uint63 (Uint63.of_Z (- n)))
  end.

Definition ofNat (n : nat) : float := ofZ (Z.of_nat n).

(** [Math.min(a, b)] *)
Definition Math_min (a b : float) : float :=
  if PrimFloat.is_nan a then a
  else if PrimFloat.is_nan b then b
  else if PrimFloat.ltb b a then b
  else if PrimFloat.ltb a b then a
  else if PrimFloat.get_sign b then b else a.

(** [Math.max(...l)] on integers; the sources call it on a list that is not
    empty. *)
Definition Math_max (l : list Z) : Z :=
  match l with
  | [] => 0
  | x :: l' => fold_left Z.max l' x
  end.

(** [Math.floor(x)] for a finite [x], as an integer. *)
Definition Math_floor (x : float) : Z :=
  match Prim2SF x with
  | S754_finite negative m e =>
      let n := if negative then Zneg m else Zpos m in
      if 0 <=? e then n * 2 ^ e else n / 2 ^ (- e)
  | _ => 0
  end.

(** [parseInt(s)] in base ten: the integer that the digits at the head of
    [s] denote, after white space and a sign; [None] is [NaN]. *)
Fixpoint digitsValue (acc : Z) (s : string) : Z :=
  match s with
  | String c s' =>
      if isDigit c then digitsValue (10 * acc + Z.of_nat (nat_of_ascii c - 48)) s'
      else acc
  | EmptyString => acc
  end.

Definition parseInt (s : string) : option Z :=
  let s := trimStart s in
  let (negative, s) := match s with
                       | String "-" s' => (true, s')
                       | String "+" s' => (false, s')
                       | _ => (false, s)
                       end in
  match s with
  | String c _ =>
      if isDigit c then Some (if negative then - digitsValue 0 s else digitsValue 0 s)
      else None
  | EmptyString => None
  end.

End JS.

Notation "'let*' x ':=' c 'in' k" := (JS.bind c (fun x => k))
  (at level 10, x name, c at level 100, k at level 200).

(* ===================================================================== *)
(** ** Part II.  The entity model ([@/types])                             *)
(* ===================================================================== *)

Record Client : Type := {
  ClientID : string;
  ClientName : string;
  PriorityLevel : Z;
  RequestedTaskIDs : string;
  GroupTag : string;
  AttributesJSON : string
}.

Record Worker : Type := {
  WorkerID : string;
  WorkerName : string;
  Skills : string;
  AvailableSlots : string;
  MaxLoadPerPhase : Z;
  WorkerGroup : string;
  QualificationLevel : Z
}.

Record Task : Type := {
  TaskID : string;
  TaskName : string;
  Category : string;
  Duration : Z;
  RequiredSkills : string;
  PreferredPhases : string;
  MaxConcurrent : Z
}.

(** ['error' | 'warning'] *)
Inductive Severity : Type := error | warning.

(** ['client' | 'worker' | 'task'] *)
Module Entity.
Inductive t : Type := client | worker | task.
End Entity.

Module ValidationError.
Record t : Type := {
  id : string;
  type : Severity;
  message : string;
  entity : Entity.t;
  entityId : string;
  field : option string;
  suggestion : option string
}.
End ValidationError.

(** [BusinessRule['type']] *)
Inductive RuleType : Type :=
| coRun | slotRestriction | loadLimit | phaseWindow | patternMatch | precedenceOverride.

(** A value stored in [parameters : Record<string, any>]. *)
Inductive ParamValue : Type :=
| PString (s : string)
| PNumber (n : Z)
| PNaN
| PStrings (l : list string).

Module BusinessRule.
Record t : Type := {
  id : string;
  type : RuleType;
  name : string;
  description : string;
  parameters : list (string * ParamValue);
  priority : Z;
  active : bool
}.
End BusinessRule.

Module AIRuleRecommendation.
Record t : Type := {
  id : string;
  type : RuleType;
  description : string;
  confidence : float;
  parameters : list (string * ParamValue);
  reasoning : string
}.
End AIRuleRecommendation.

Record PriorityWeights (number : Type) : Type := {
  priorityLevel : number;
  taskFulfillment : number;
  fairness : number;
  workloadBalance : number;
  skillMatch : number;
  phasePreference : number
}.
Arguments priorityLevel {number} _.
Arguments taskFulfillment {number} _.
Arguments fairness {number} _.
Arguments workloadBalance {number} _.
Arguments skillMatch {number} _.
Arguments phasePreference {number} _.

(** [keyof PriorityWeights] *)
Inductive WeightField : Type :=
| fPriorityLevel | fTaskFulfillment | fFairness | fWorkloadBalance | fSkillMatch
| fPhasePreference.

(* ===================================================================== *)
(** ** Part III.  [class DataValidator] ([src/lib/validation.ts])         *)
(* ===================================================================== *)

Module DataValidator.
Import ValidationError.

(** The private fields set by the constructor. *)
Record this_t : Type := new {
  clients : list Client;
  workers : list Worker;
  tasks : list Task
}.

(** [errors.push(e)] *)
Definition push {A} (errors : list A) (e : A) : list A := errors ++ [e].

(** The value of [client[field]]. *)
Inductive FieldValue : Type :=
| VString (s : string)
| VNumber (n : Z)
| VUndefined.

Definition clientField (c : Client) (f : string) : FieldValue :=
  if String.eqb f "ClientID" then VString (ClientID c)
  else if String.eqb f "ClientName" then VString (ClientName c)
  else if String.eqb f "PriorityLevel" then VNumber (PriorityLevel c)
  else if String.eqb f "RequestedTaskIDs" then VString (RequestedTaskIDs c)
  else if String.eqb f "GroupTag" then VString (GroupTag c)
  else if String.eqb f "AttributesJSON" then VString (AttributesJSON c)
  else VUndefined.

(** [!v] *)
Definition not_ (v : FieldValue) : bool :=
  match v with
  | VString s => String.eqb s ""
  | VNumber n => n =? 0
  | VUndefined => true
  end.

(** [v === ''] *)
Definition isEmptyString (v : FieldValue) : bool :=
  match v with
  | VString s => String.eqb s ""
  | _ => false
  end.

Definition missingField (client : Client) (field_ : string) : t :=
  {| id := "missing-" +:+ ClientID client +:+ "-" +:+ field_;
     type := error;
     message := "Missing required field: " +:+ field_;
     entity := Entity.client;
     entityId := ClientID client;
     field := Some field_;
     suggestion := Some ("Please provide a value for " +:+ field_) |}.

Definition requiredClientFields : list string :=
  ["ClientID"; "ClientName"; "PriorityLevel"].

Definition validateMissingColumns (this : this_t) : JS.completion (list t) :=
  let errors : list t := [] in
  JS.forEach (clients this) (fun errors client =>
    JS.forEach requiredClientFields (fun errors field_ =>
      if not_ (clientField client field_) || isEmptyString (clientField client field_)
      then JS.Normal (push errors (missingField client field_))
      else JS.Normal errors) errors) errors.

Definition duplicateClient (client : Client) : t :=
  {| id := "duplicate-client-" +:+ ClientID client;
     type := error;
     message := "Duplicate ClientID: " +:+ ClientID client;
     entity := Entity.client;
     entityId := ClientID client;
     field := None;
     suggestion := Some "Ensure all ClientIDs are unique" |}.

Definition duplicateWorker (worker : Worker) : t :=
  {| id := "duplicate-worker-" +:+ WorkerID worker;
     type := error;
     message := "Duplicate WorkerID: " +:+ WorkerID worker;
     entity := Entity.worker;
     entityId := WorkerID worker;
     field := None;
     suggestion := Some "Ensure all WorkerIDs are unique" |}.

Definition duplicateTask (task : Task) : t :=
  {| id := "duplicate-task-" +:+ TaskID task;
     type := error;
     message := "Duplicate TaskID: " +:+ TaskID task;
     entity := Entity.task;
     entityId := TaskID task;
     field := None;
     suggestion := Some "Ensure all TaskIDs are unique" |}.

(** One of the three loops of [validateDuplicateIDs]: the set of the IDs
    seen so far and the array [errors] are the variables the callback
    updates. *)
Definition duplicateLoop {A} (key : A -> string) (mk : A -> t) (l : list A)
    (errors : list t) : JS.completion (gset string * list t) :=
  let ids : gset string := ∅ in
  JS.forEach l (fun '(ids, errors) x =>
    let errors := if JS.setHas ids (key x) then push errors (mk x) else errors in
    JS.Normal (JS.setAdd ids (key x), errors)) (ids, errors).

Definition validateDuplicateIDs (this : this_t) : JS.completion (list t) :=
  let errors : list t := [] in
  let* r := duplicateLoop ClientID duplicateClient (clients this) errors in
  let* r := duplicateLoop WorkerID duplicateWorker (workers this) (snd r) in
  let* r := duplicateLoop TaskID duplicateTask (tasks this) (snd r) in
  JS.Normal (snd r).

Definition malformedSlots (worker : Worker) : t :=
  {| id := "malformed-slots-" +:+ WorkerID worker;
     type := error;
     message := "Malformed AvailableSlots: " +:+ AvailableSlots worker;
     entity := Entity.worker;
     entityId := WorkerID worker;
     field := Some "AvailableSlots";
     suggestion := Some "AvailableSlots should be an array of numbers, e.g., [1,2,3]" |}.

Definition invalidSlots (worker : Worker) : t :=
  {| id := "invalid-slots-" +:+ WorkerID worker;
     type := error;
     message := "Invalid AvailableSlots format: " +:+ AvailableSlots worker;
     entity := Entity.worker;
     entityId := WorkerID worker;
     field := Some "AvailableSlots";
     suggestion := Some "AvailableSlots should be an array of numbers, e.g., [1,2,3]" |}.

Definition validateMalformedLists (this : this_t) : JS.completion (list t) :=
  let errors : list t := [] in
  JS.forEach (workers this) (fun errors worker =>
    JS.try_catch
      (let* slots := JS.JSON_parse (AvailableSlots worker) in
       if negb (JS.isArray slots) || negb (forallb JS.isNumber (JS.elements slots))
       then JS.Normal (push errors (malformedSlots worker))
       else JS.Normal errors)
      (fun _ => JS.Normal (push errors (invalidSlots worker))))
    errors.

Definition priorityRange (client : Client) : t :=
  {| id := "priority-range-" +:+ ClientID client;
     type := error;
     message := "PriorityLevel out of range: " +:+ JS.showZ (PriorityLevel client);
     entity := Entity.client;
     entityId := ClientID client;
     field := Some "PriorityLevel";
     suggestion := Some "PriorityLevel must be between 1 and 5" |}.

Definition durationRange (task : Task) : t :=
  {| id := "duration-range-" +:+ TaskID task;
     type := error;
     message := "Duration must be at least 1: " +:+ JS.showZ (Duration task);
     entity := Entity.task;
     entityId := TaskID task;
     field := Some "Duration";
     suggestion := Some "Duration should be a positive number" |}.

Definition validateOutOfRangeValues (this : this_t) : JS.completion (list t) :=
  let errors : list t := [] in
  let* errors := JS.forEach (clients this) (fun errors client =>
    if (PriorityLevel client <? 1) || (PriorityLevel client >? 5)
    then JS.Normal (push errors (priorityRange client))
    else JS.Normal errors) errors in
  JS.forEach (tasks this) (fun errors task =>
    if Duration task <? 1
    then JS.Normal (push errors (durationRange task))
    else JS.Normal errors) errors.

(** [s] used as a condition: a string is truthy when it is not empty. *)
Definition truthy (s : string) : bool := negb (String.eqb s "").

Definition brokenJSON (client : Client) : t :=
  {| id := "broken-json-" +:+ ClientID client;
     type := error;
     message := "Invalid JSON in AttributesJSON";
     entity := Entity.client;
     entityId := ClientID client;
     field := Some "AttributesJSON";
     suggestion := Some "Please provide valid JSON format" |}.

Definition validateBrokenJSON (this : this_t) : JS.completion (list t) :=
  let errors : list t := [] in
  JS.forEach (clients this) (fun errors client =>
    if truthy (AttributesJSON client)
       && negb (String.eqb (JS.trim (AttributesJSON client)) "")
    then
      JS.try_catch
        (let* _ := JS.JSON_parse (AttributesJSON client) in JS.Normal errors)
        (fun _ => JS.Normal (push errors (brokenJSON client)))
    else JS.Normal errors) errors.

Definition unknownTask (client : Client) (taskId : string) : t :=
  {| id := "unknown-task-" +:+ ClientID client +:+ "-" +:+ taskId;
     type := error;
     message := "Unknown TaskID referenced: " +:+ taskId;
     entity := Entity.client;
     entityId := ClientID client;
     field := Some "RequestedTaskIDs";
     suggestion := Some ("TaskID " +:+ taskId +:+ " does not exist in tasks data") |}.

Definition validateUnknownReferences (this : this_t) : JS.completion (list t) :=
  let errors : list t := [] in
  let taskIds := JS.setOf (map TaskID (tasks this)) in
  JS.forEach (clients this) (fun errors client =>
    if truthy (RequestedTaskIDs client) then
      let requestedIds := map JS.trim (JS.split "," (RequestedTaskIDs client)) in
      JS.forEach requestedIds (fun errors taskId =>
        if negb (JS.setHas taskIds taskId)
        then JS.Normal (push errors (unknownTask client taskId))
        else JS.Normal errors) errors
    else JS.Normal errors) errors.

Definition validateCircularCoRuns (this : this_t) : JS.completion (list t) :=
  JS.Normal [].

Definition overloaded (worker : Worker) (slots : JS.JSON) : t :=
  {| id := "overloaded-" +:+ WorkerID worker;
     type := warning;
     message := "Worker has more MaxLoadPerPhase (" +:+ JS.showZ (MaxLoadPerPhase worker)
                +:+ ") than AvailableSlots ("
                +:+ JS.showNat (length (JS.elements slots)) +:+ ")";
     entity := Entity.worker;
     entityId := WorkerID worker;
     field := None;
     suggestion := Some "Consider reducing MaxLoadPerPhase or increasing AvailableSlots" |}.

Definition validateOverloadedWorkers (this : this_t) : JS.completion (list t) :=
  let errors : list t := [] in
  JS.forEach (workers this) (fun errors worker =>
    JS.try_catch
      (let* slots := JS.JSON_parse (AvailableSlots worker) in
       if JS.isArray slots
          && (Z.of_nat (length (JS.elements slots)) <? MaxLoadPerPhase worker)
       then JS.Normal (push errors (overloaded worker slots))
       else JS.Normal errors)
      (fun _ => JS.Normal errors)) errors.

Definition validatePhaseSlotSaturation (this : this_t) : JS.completion (list t) :=
  JS.Normal [].

Definition skillCoverage (task : Task) (skill : string) : t :=
  {| id := "skill-coverage-" +:+ TaskID task +:+ "-" +:+ skill;
     type := error;
     message := "No worker has required skill: " +:+ skill;
     entity := Entity.task;
     entityId := TaskID task;
     field := Some "RequiredSkills";
     suggestion :=
       Some ("Add workers with skill " +:+ JS.dq +:+ skill +:+ JS.dq
             +:+ " or remove this skill requirement") |}.

Definition validateSkillCoverage (this : this_t) : JS.completion (list t) :=
  let errors : list t := [] in
  let workerSkills : gset string := ∅ in
  let* workerSkills := JS.forEach (workers this) (fun workerSkills worker =>
    let skills := map JS.trim (JS.split "," (Skills worker)) in
    JS.forEach skills (fun workerSkills skill =>
      JS.Normal (JS.setAdd workerSkills skill)) workerSkills) workerSkills in
  JS.forEach (tasks this) (fun errors task =>
    let requiredSkills := map JS.trim (JS.split "," (RequiredSkills task)) in
    JS.forEach requiredSkills (fun errors skill =>
      if negb (JS.setHas workerSkills skill)
      then JS.Normal (push errors (skillCoverage task skill))
      else JS.Normal errors) errors) errors.

Definition maxConcurrent (task : Task) (qualifiedWorkers : list Worker) : t :=
  {| id := "max-concurrent-" +:+ TaskID task;
     type := warning;
     message := "MaxConcurrent (" +:+ JS.showZ (MaxConcurrent task)
                +:+ ") exceeds qualified workers ("
                +:+ JS.showNat (length qualifiedWorkers) +:+ ")";
     entity := Entity.task;
     entityId := TaskID task;
     field := Some "MaxConcurrent";
     suggestion :=
       Some ("Consider reducing MaxConcurrent to "
             +:+ JS.showNat (length qualifiedWorkers)
             +:+ " or adding more qualified workers") |}.

Definition validateMaxConcurrency (this : this_t) : JS.completion (list t) :=
  let errors : list t := [] in
  JS.forEach (tasks this) (fun errors task =>
    let requiredSkills := map JS.trim (JS.split "," (RequiredSkills task)) in
    let qualifiedWorkers := List.filter (fun worker =>
      let workerSkills := map JS.trim (JS.split "," (Skills worker)) in
      forallb (fun skill => JS.arrayIncludes workerSkills skill) requiredSkills)
      (workers this) in
    if MaxConcurrent task >? Z.of_nat (length qualifiedWorkers)
    then JS.Normal (push errors (maxConcurrent task qualifiedWorkers))
    else JS.Normal errors) errors.

Definition validateConflictingRules (this : this_t) : JS.completion (list t) :=
  JS.Normal [].

(** [errors.push(...more)] *)
Definition pushAll {A} (errors more : list A) : list A := errors ++ more.

Definition validateAll (this : this_t) : JS.completion (list t) :=
  let errors : list t := [] in
  let* r := validateMissingColumns this in let errors := pushAll errors r in
  let* r := validateDuplicateIDs this in let errors := pushAll errors r in
  let* r := validateMalformedLists this in let errors := pushAll errors r in
  let* r := validateOutOfRangeValues this in let errors := pushAll errors r in
  let* r := validateBrokenJSON this in let errors := pushAll errors r in
  let* r := validateUnknownReferences this in let errors := pushAll errors r in
  let* r := validateCircularCoRuns this in let errors := pushAll errors r in
  let* r := validateOverloadedWorkers this in let errors := pushAll errors r in
  let* r := validatePhaseSlotSaturation this in let errors := pushAll errors r in
  let* r := validateSkillCoverage this in let errors := pushAll errors r in
  let* r := validateMaxConcurrency this in let errors := pushAll errors r in
  let* r := validateConflictingRules this in let errors := pushAll errors r in
  JS.Normal errors.

End DataValidator.

(* ===================================================================== *)
(** ** Part IV.  Regular expressions                                      *)
(* ===================================================================== *)

(** The backtracking matcher of ECMAScript, for the constructs the sources
    use: a pattern is tried at every start position from the left, and at
    each position the alternatives are explored in priority order (a greedy
    quantifier tries one more iteration first, a lazy one tries to stop
    first); the first complete match wins. *)
Module RegExp.

Inductive pattern : Type :=
| Empty
| Lit (c : ascii)
| Class (p : ascii -> bool)
| Seq (r1 r2 : pattern)
| Alt (r1 r2 : pattern)
| Star (greedy : bool) (r : pattern)
| Group (n : nat) (r : pattern).

(** [r?] *)
Definition Opt (r : pattern) : pattern := Alt r Empty.

(** [r+] *)
Definition Plus (r : pattern) : pattern := Seq r (Star true r).

(** The characters of [s] one after the other. *)
Fixpoint Str (s : string) : pattern :=
  match s with
  | EmptyString => Empty
  | String c s' => Seq (Lit c) (Str s')
  end.

Fixpoint SeqAll (rs : list pattern) : pattern :=
  match rs with
  | [] => Empty
  | [r] => r
  | r :: rs' => Seq r (SeqAll rs')
  end.

(** A regular expression literal [/source/] or [/source/i]. *)
Record t : Type := { source : pattern; ignoreCase : bool }.

(** [\d] *)
Definition digit : ascii -> bool := JS.isDigit.

(** [\s] *)
Definition space : ascii -> bool := JS.isWhiteSpace.

(** [.]: any code unit but a line terminator. *)
Definition dot (c : ascii) : bool :=
  negb (Ascii.eqb c "010" || Ascii.eqb c "013").

Definition between (lo hi : ascii) (c : ascii) : bool :=
  (nat_of_ascii lo <=? nat_of_ascii c)%nat && (nat_of_ascii c <=? nat_of_ascii hi)%nat.

(** The canonical form of a code unit under the flag [i]: its upper case. *)
Definition canonicalize (c : ascii) : ascii :=
  let n := nat_of_ascii c in
  if ((97 <=? n)%nat && (n <=? 122)%nat)
     || ((224 <=? n)%nat && (n <=? 254)%nat && negb (n =? 247)%nat)
  then ascii_of_nat (n - 32) else c.

(** The code units with the canonical form of [c]: [c], its upper case and
    its lower case. *)
Definition sameCase (c : ascii) : list ascii := [c; canonicalize c; JS.lowerChar c].

Definition litMatches (i : bool) (a c : ascii) : bool :=
  if i then Ascii.eqb (canonicalize a) (canonicalize c) else Ascii.eqb a c.

Definition classMatches (i : bool) (p : ascii -> bool) (c : ascii) : bool :=
  if i then existsb p (sameCase c) else p c.

(** The captures of a match: the text of the groups that took part. *)
Definition captures : Type := list (nat * string).

Definition capture (n : nat) (caps : captures) : option string :=
  match List.find (fun '(m, _) => (m =? n)%nat) caps with
  | Some (_, text) => Some text
  | None => None
  end.

Definition setCapture (n : nat) (text : string) (caps : captures) : captures :=
  (n, text) :: List.filter (fun '(m, _) => negb (m =? n)%nat) caps.

(** What [s] has before its suffix [rest]. *)
Definition consumed (s rest : string) : string :=
  String.substring 0 (String.length s - String.length rest) s.

Definition orElse {A} (x y : option A) : option A :=
  match x with Some _ => x | None => y end.

(** [run i r s caps k]: match [r] at the head of [s] and hand what is left
    to the continuation [k]; when [k] fails, the next alternative of [r] is
    tried.  An iteration of a quantifier that consumes nothing is given up,
    as the language prescribes, so the number of iterations is bounded by
    the length of the text. *)
Fixpoint run {R} (i : bool) (r : pattern) (s : string) (caps : captures)
    (k : string -> captures -> option R) {struct r} : option R :=
  match r with
  | Empty => k s caps
  | Lit a =>
      match s with
      | String c s' => if litMatches i a c then k s' caps else None
      | EmptyString => None
      end
  | Class p =>
      match s with
      | String c s' => if classMatches i p c then k s' caps else None
      | EmptyString => None
      end
  | Seq r1 r2 => run i r1 s caps (fun s' caps' => run i r2 s' caps' k)
  | Alt r1 r2 => orElse (run i r1 s caps k) (run i r2 s caps k)
  | Star greedy r' =>
      (fix iterate (n : nat) (s : string) (caps : captures) {struct n} : option R :=
         match n with
         | O => k s caps
         | S n' =>
             let more :=
               run i r' s caps (fun s' caps' =>
                 if (String.length s' <? String.length s)%nat
                 then iterate n' s' caps' else None) in
             if greedy then orElse more (k s caps) else orElse (k s caps) more
         end) (String.length s) s caps
  | Group n r' => run i r' s caps (fun s' caps' => k s' (setCapture n (consumed s s') caps'))
  end.

(** The match object: where the match starts, its text and its groups. *)
Record result : Type := { index : nat; matched : string; groups : captures }.

(** [m[n]] for [n >= 1]: the text of group [n], [undefined] ([None]) when
    the group took no part in the match. *)
Definition group (n : nat) (m : result) : option string := capture n (groups m).

Definition matchAt (re : t) (s : string) (start : nat) : option result :=
  run (ignoreCase re) (source re) s []
    (fun rest caps => Some {| index := start; matched := consumed s rest; groups := caps |}).

Fixpoint search (re : t) (s : string) (start : nat) : option result :=
  orElse (matchAt re s start)
    match s with
    | EmptyString => None
    | String _ s' => search re s' (S start)
    end.

(** [s.match(re)] for a regular expression without the flag [g]: the
    leftmost match, or [null]. *)
Definition match_ (s : string) (re : t) : option result := search re s 0.

End RegExp.
(* ===================================================================== *)
(** ** Part V.  [class AIEngine] ([src/lib/ai-engine.ts])                 *)
(* ===================================================================== *)

Module AIEngine.
Import RegExp.

(** The private fields set by the constructor. *)
Record this_t : Type := new {
  clients : list Client;
  workers : list Worker;
  tasks : list Task
}.

(** [a-zA-Z0-9,\s] *)
Definition taskIdChar (c : ascii) : bool :=
  between "a" "z" c || between "A" "Z" c || between "0" "9" c
  || Ascii.eqb c "," || space c.

(** [/task[s]?\s*([a-zA-Z0-9,\s]+)/i] *)
Definition taskPattern : RegExp.t :=
  {| source := SeqAll [Str "task"; Opt (Class (Ascii.eqb "s")); Star true (Class space);
                       Group 1 (Plus (Class taskIdChar))];
     ignoreCase := true |}.

(** [/(\d+).*?tasks?/i] *)
Definition limitPattern : RegExp.t :=
  {| source := SeqAll [Group 1 (Plus (Class digit)); Star false (Class dot);
                       Str "task"; Opt (Lit "s")];
     ignoreCase := true |}.

(** [/phase[s]?\s*(\d+(?:-\d+)?|\[\d+(?:,\d+)*\])/i] *)
Definition phasePattern : RegExp.t :=
  {| source :=
       SeqAll [Str "phase"; Opt (Class (Ascii.eqb "s")); Star true (Class space);
               Group 1 (Alt (Seq (Plus (Class digit))
                                 (Opt (Seq (Lit "-") (Plus (Class digit)))))
                            (SeqAll [Lit "["; Plus (Class digit);
                                     Star true (Seq (Lit ",") (Plus (Class digit)));
                                     Lit "]"]))];
     ignoreCase := true |}.

(** [m[1]] used as a string: a [TypeError] when the group is [undefined]. *)
Definition group1 (m : RegExp.result) : JS.completion string :=
  match RegExp.group 1 m with
  | Some text => JS.Normal text
  | None => JS.Throw (JS.TypeError "Cannot read properties of undefined")
  end.

(** A number spliced into a template string or stored as a parameter. *)
Definition showNumber (n : option Z) : string :=
  match n with Some n => JS.showZ n | None => "NaN" end.

Definition numberParam (n : option Z) : ParamValue :=
  match n with Some n => PNumber n | None => PNaN end.

Definition coRunRule (now : Z) (taskIds : list string) : BusinessRule.t :=
  {| BusinessRule.id := "corun-" +:+ JS.showZ now;
     BusinessRule.type := coRun;
     BusinessRule.name := "Co-run Tasks";
     BusinessRule.description := "Tasks " +:+ JS.join ", " taskIds +:+ " must run together";
     BusinessRule.parameters := [("tasks", PStrings taskIds)];
     BusinessRule.priority := 1;
     BusinessRule.active := true |}.

Definition loadLimitRule (now : Z) (maxTasks : option Z) : BusinessRule.t :=
  {| BusinessRule.id := "loadlimit-" +:+ JS.showZ now;
     BusinessRule.type := loadLimit;
     BusinessRule.name := "Load Limit";
     BusinessRule.description := "Maximum " +:+ showNumber maxTasks +:+ " tasks per phase";
     BusinessRule.parameters := [("maxSlotsPerPhase", numberParam maxTasks)];
     BusinessRule.priority := 1;
     BusinessRule.active := true |}.

Definition phaseWindowRule (now : Z) (phaseSpec : string) : BusinessRule.t :=
  {| BusinessRule.id := "phasewindow-" +:+ JS.showZ now;
     BusinessRule.type := phaseWindow;
     BusinessRule.name := "Phase Window";
     BusinessRule.description := "Restrict to phases " +:+ phaseSpec;
     BusinessRule.parameters := [("allowedPhases", PString phaseSpec)];
     BusinessRule.priority := 1;
     BusinessRule.active := true |}.

(** [convertToRule(naturalLanguageRule)]; [now] is what [Date.now()]
    returns during the call, and [None] is [null].  Each of the three
    blocks either returns its rule or falls through to what follows it. *)
Definition convertToRule (now : Z) (naturalLanguageRule : string)
  : JS.completion (option BusinessRule.t) :=
  let rule := JS.toLowerCase naturalLanguageRule in
  (* Co-run detection *)
  let* returned :=
    if JS.includes rule "together" || JS.includes rule "same time"
       || JS.includes rule "co-run"
    then
      match match_ rule taskPattern with
      | Some taskMatch =>
          let* text := group1 taskMatch in
          let taskIds := map JS.trim (JS.split "," text) in
          JS.Normal (Some (coRunRule now taskIds))
      | None => JS.Normal None
      end
    else JS.Normal None in
  match returned with
  | Some r => JS.Normal (Some r)
  | None =>
  (* Load limit detection *)
  let* returned :=
    if JS.includes rule "limit" || JS.includes rule "maximum"
       || JS.includes rule "no more than"
    then
      match match_ rule limitPattern with
      | Some limitMatch =>
          let* text := group1 limitMatch in
          let maxTasks := JS.parseInt text in
          JS.Normal (Some (loadLimitRule now maxTasks))
      | None => JS.Normal None
      end
    else JS.Normal None in
  match returned with
  | Some r => JS.Normal (Some r)
  | None =>
  (* Phase window detection *)
  let* returned :=
    if JS.includes rule "phase" && (JS.includes rule "only" || JS.includes rule "must")
    then
      match match_ rule phasePattern with
      | Some phaseMatch =>
          let* phaseSpec := group1 phaseMatch in
          JS.Normal (Some (phaseWindowRule now phaseSpec))
      | None => JS.Normal None
      end
    else JS.Normal None in
  match returned with
  | Some r => JS.Normal (Some r)
  | None => JS.Normal None
  end end end.

(** The element type of the array that [analyzeTaskPatterns] returns. *)
Record TaskGroup : Type := {
  group_tasks : list string;
  commonSkills : list string;
  group_confidence : float
}.

(** [skillGroups.get(skillKey)!.push(task.TaskID)]: the array stored under
    the key grows in place. *)
Definition mapPush (m : JS.Map (list string)) (k x : string) : JS.Map (list string) :=
  match JS.mapGet m k with
  | Some l => JS.mapSet m k (l ++ [x])
  | None => m
  end.

Definition analyzeTaskPatterns (this : this_t) : list TaskGroup :=
  let groups : list TaskGroup := [] in
  (* Group tasks by similar skill requirements *)
  let skillGroups : JS.Map (list string) := [] in
  let skillGroups :=
    fold_left (fun skillGroups task =>
      let skills := JS.sort (map JS.trim (JS.split "," (RequiredSkills task))) in
      let skillKey := JS.join "|" skills in
      let skillGroups :=
        if negb (JS.mapHas skillGroups skillKey)
        then JS.mapSet skillGroups skillKey [] else skillGroups in
      mapPush skillGroups skillKey (TaskID task)) (tasks this) skillGroups in
  fold_left (fun groups '(skillKey, taskIds) =>
    if (1 <? length taskIds)%nat
    then groups ++ [{| group_tasks := taskIds;
                       commonSkills := JS.split "|" skillKey;
                       group_confidence :=
                         JS.Math_min 0.9 (0.5 + JS.ofNat (length taskIds) * 0.1) |}]
    else groups) skillGroups groups.

(** The element type of the array that [analyzeWorkerOverload] returns. *)
Record OverloadedGroup : Type := {
  workerGroup : string;
  suggestedLimit : Z;
  overload_confidence : float
}.

Definition analyzeWorkerOverload (this : this_t) : list OverloadedGroup :=
  let overloadedGroups : list OverloadedGroup := [] in
  let groupCapacity : JS.Map (list Z) := [] in
  let groupCapacity :=
    fold_left (fun groupCapacity worker =>
      let groupCapacity :=
        if negb (JS.mapHas groupCapacity (WorkerGroup worker))
        then JS.mapSet groupCapacity (WorkerGroup worker) [] else groupCapacity in
      match JS.mapGet groupCapacity (WorkerGroup worker) with
      | Some capacities =>
          JS.mapSet groupCapacity (WorkerGroup worker)
            (capacities ++ [MaxLoadPerPhase worker])
      | None => groupCapacity
      end) (workers this) groupCapacity in
  fold_left (fun overloadedGroups '(group, capacities) =>
    let avgCapacity :=
      (JS.ofZ (fold_left (fun a b => (a + b)%Z) capacities 0%Z)
       / JS.ofNat (length capacities))%float in
    let maxCapacity := JS.Math_max capacities in
    if (avgCapacity * 1.5 <? JS.ofZ maxCapacity)%float
    then overloadedGroups ++ [{| workerGroup := group;
                                 suggestedLimit := JS.Math_floor (avgCapacity * 1.2)%float;
                                 overload_confidence := 0.75%float |}]
    else overloadedGroups) groupCapacity overloadedGroups.

(** The element type of the array that [analyzeSkillGaps] returns. *)
Record SkillGap : Type := {
  skill : string;
  taskCount : Z;
  workerCount : Z;
  gap_confidence : float
}.

(** [m.set(k, (m.get(k) || 0) + 1)] *)
Definition countOne (m : JS.Map Z) (k : string) : JS.Map Z :=
  JS.mapSet m k (match JS.mapGet m k with Some n => n | None => 0 end + 1).

Definition analyzeSkillGaps (this : this_t) : list SkillGap :=
  let skillGaps : list SkillGap := [] in
  let skillDemand : JS.Map Z := [] in
  let skillSupply : JS.Map Z := [] in
  (* Count skill demand from tasks *)
  let skillDemand :=
    fold_left (fun skillDemand task =>
      let skills := map JS.trim (JS.split "," (RequiredSkills task)) in
      fold_left countOne skills skillDemand) (tasks this) skillDemand in
  (* Count skill supply from workers *)
  let skillSupply :=
    fold_left (fun skillSupply worker =>
      let skills := map JS.trim (JS.split "," (Skills worker)) in
      fold_left countOne skills skillSupply) (workers this) skillSupply in
  (* Find gaps *)
  fold_left (fun skillGaps '(skill_, demand) =>
    let supply := match JS.mapGet skillSupply skill_ with Some n => n | None => 0%Z end in
    let ratio := (JS.ofZ supply / JS.ofZ demand)%float in
    if (ratio <? 0.5)%float
    then skillGaps ++ [{| skill := skill_;
                          taskCount := demand;
                          workerCount := supply;
                          gap_confidence :=
                            JS.Math_min 0.9 (0.5 + JS.ofZ (demand - supply) * 0.1) |}]
    else skillGaps) skillDemand skillGaps.

Definition coRunRecommendation (now : Z) (group : TaskGroup) : AIRuleRecommendation.t :=
  {| AIRuleRecommendation.id := "corun-rec-" +:+ JS.showZ now;
     AIRuleRecommendation.type := coRun;
     AIRuleRecommendation.description :=
       "Tasks " +:+ JS.join ", " (group_tasks group)
       +:+ " often have similar requirements";
     AIRuleRecommendation.confidence := group_confidence group;
     AIRuleRecommendation.parameters := [("tasks", PStrings (group_tasks group))];
     AIRuleRecommendation.reasoning :=
       "These tasks share " +:+ JS.showNat (length (commonSkills group))
       +:+ " common skills and have similar durations" |}.

Definition loadLimitRecommendation (now : Z) (group : OverloadedGroup)
  : AIRuleRecommendation.t :=
  {| AIRuleRecommendation.id := "loadlimit-rec-" +:+ JS.showZ now;
     AIRuleRecommendation.type := loadLimit;
     AIRuleRecommendation.description :=
       "Limit " +:+ workerGroup group +:+ " to " +:+ JS.showZ (suggestedLimit group)
       +:+ " tasks per phase";
     AIRuleRecommendation.confidence := overload_confidence group;
     AIRuleRecommendation.parameters :=
       [("workerGroup", PString (workerGroup group));
        ("maxSlotsPerPhase", PNumber (suggestedLimit group))];
     AIRuleRecommendation.reasoning :=
       "Workers in " +:+ workerGroup group
       +:+ " are currently overloaded based on capacity analysis" |}.

Definition skillRecommendation (now : Z) (gap : SkillGap) : AIRuleRecommendation.t :=
  {| AIRuleRecommendation.id := "skill-rec-" +:+ JS.showZ now;
     AIRuleRecommendation.type := patternMatch;
     AIRuleRecommendation.description :=
       "Consider adding workers with " +:+ skill gap +:+ " skill";
     AIRuleRecommendation.confidence := gap_confidence gap;
     AIRuleRecommendation.parameters := [("skill", PString (skill gap))];
     AIRuleRecommendation.reasoning :=
       JS.showZ (taskCount gap) +:+ " tasks require " +:+ skill gap +:+ " but only "
       +:+ JS.showZ (workerCount gap) +:+ " workers have this skill" |}.

(** [(a, b) => b.confidence - a.confidence] is negative. *)
Definition byConfidence (a b : AIRuleRecommendation.t) : bool :=
  (AIRuleRecommendation.confidence b - AIRuleRecommendation.confidence a <? 0)%float.

(** [generateRuleRecommendations()].  [Date.now()] is read once for each
    recommendation pushed: [clock n] is what it returns the [n]-th time
    (from 0), and the number of readings so far is threaded with the array
    [recommendations]. *)
Definition generateRuleRecommendations (clock : nat -> Z) (this : this_t)
  : list AIRuleRecommendation.t :=
  let recommendations : list AIRuleRecommendation.t := [] in
  let readings := 0%nat in
  (* Analyze task patterns for co-run recommendations *)
  let taskGroups := analyzeTaskPatterns this in
  let '(recommendations, readings) :=
    fold_left (fun '(recommendations, readings) group =>
      if (1 <? length (group_tasks group))%nat
      then (recommendations ++ [coRunRecommendation (clock readings) group], S readings)
      else (recommendations, readings)) taskGroups (recommendations, readings) in
  (* Analyze worker overload patterns *)
  let overloadedGroups := analyzeWorkerOverload this in
  let '(recommendations, readings) :=
    fold_left (fun '(recommendations, readings) group =>
      (recommendations ++ [loadLimitRecommendation (clock readings) group], S readings))
      overloadedGroups (recommendations, readings) in
  (* Analyze skill gaps *)
  let skillGaps := analyzeSkillGaps this in
  let '(recommendations, readings) :=
    fold_left (fun '(recommendations, readings) gap =>
      (recommendations ++ [skillRecommendation (clock readings) gap], S readings))
      skillGaps (recommendations, readings) in
  JS.sortBy byConfidence recommendations.

End AIEngine.

(* ===================================================================== *)
(** ** Part V-b.  Corrections: [AIEngine.suggestCorrections]              *)
(**    ([src/lib/ai-engine.ts]), and the panel that counts the findings   *)
(**    and applies the corrections                                        *)
(**    ([src/components/validation/ValidationPanel.tsx])                  *)
(* ===================================================================== *)

(** The element type of the array that [suggestCorrections] returns.  The
    two values are numbers in every correction that is made. *)
Module Correction.
Record t : Type := {
  id : string;
  field : string;
  currentValue : Z;
  suggestedValue : Z;
  confidence : float;
  reasoning : string
}.
End Correction.

(** [data : any[]]: the rows of one of the three collections. *)
Inductive Rows : Type :=
| clientRows (data : list Client)
| workerRows (data : list Worker)
| taskRows (data : list Task).

Module Corrections.

(** [task.Duration > 3 || task.RequiredSkills.split(',').length > 2] *)
Definition complex (task : Task) : bool :=
  (Duration task >? 3) || (2 <? length (JS.split "," (RequiredSkills task)))%nat.

Definition priorityCorrection (client : Client) (complexTasks : list string)
  : Correction.t :=
  {| Correction.id := ClientID client;
     Correction.field := "PriorityLevel";
     Correction.currentValue := PriorityLevel client;
     Correction.suggestedValue := 4;
     Correction.confidence := 0.75%float;
     Correction.reasoning :=
       "Client has " +:+ JS.showNat (length complexTasks)
       +:+ " complex tasks but low priority" |}.

(** [suggestCorrections(data, entity)].  Rows of workers or of tasks have
    no [RequestedTaskIDs], so that nothing is pushed for them. *)
Definition suggestCorrections (this : AIEngine.this_t) (data : Rows) (entity : Entity.t)
  : list Correction.t :=
  let corrections : list Correction.t := [] in
  match entity with
  | Entity.client =>
      match data with
      | clientRows data =>
          fold_left (fun corrections client =>
            (* Suggest priority corrections based on task complexity *)
            if DataValidator.truthy (RequestedTaskIDs client) then
              let requestedTasks := map JS.trim (JS.split "," (RequestedTaskIDs client)) in
              let complexTasks := List.filter (fun taskId =>
                match List.find (fun t => String.eqb (TaskID t) taskId)
                        (AIEngine.tasks this) with
                | Some task => complex task
                | None => false
                end) requestedTasks in
              if (0 <? length complexTasks)%nat && (PriorityLevel client <? 3)
              then corrections ++ [priorityCorrection client complexTasks]
              else corrections
            else corrections) data corrections
      | _ => corrections
      end
  | _ => corrections
  end.

End Corrections.

Module ValidationPanel.

(** [{ ...client, [field]: value }] for a number [value].  The result is
    a [Client] unless [field] is one of the fields declared [string]; a
    key that the interface does not declare adds a property that the typed
    code never reads. *)
Definition withClientField (client : Client) (field_ : string) (value : Z)
  : option Client :=
  if String.eqb field_ "PriorityLevel" then
    Some {| ClientID := ClientID client; ClientName := ClientName client;
            PriorityLevel := value; RequestedTaskIDs := RequestedTaskIDs client;
            GroupTag := GroupTag client; AttributesJSON := AttributesJSON client |}
  else if JS.arrayIncludes
            ["ClientID"; "ClientName"; "RequestedTaskIDs"; "GroupTag"; "AttributesJSON"]
            field_
  then None
  else Some client.

Definition withWorkerField (worker : Worker) (field_ : string) (value : Z)
  : option Worker :=
  if String.eqb field_ "MaxLoadPerPhase" then
    Some {| WorkerID := WorkerID worker; WorkerName := WorkerName worker;
            Skills := Skills worker; AvailableSlots := AvailableSlots worker;
            MaxLoadPerPhase := value; WorkerGroup := WorkerGroup worker;
            QualificationLevel := QualificationLevel worker |}
  else if String.eqb field_ "QualificationLevel" then
    Some {| WorkerID := WorkerID worker; WorkerName := WorkerName worker;
            Skills := Skills worker; AvailableSlots := AvailableSlots worker;
            MaxLoadPerPhase := MaxLoadPerPhase worker; WorkerGroup := WorkerGroup worker;
            QualificationLevel := value |}
  else if JS.arrayIncludes
            ["WorkerID"; "WorkerName"; "Skills"; "AvailableSlots"; "WorkerGroup"] field_
  then None
  else Some worker.

Definition withTaskField (task : Task) (field_ : string) (value : Z) : option Task :=
  if String.eqb field_ "Duration" then
    Some {| TaskID := TaskID task; TaskName := TaskName task; Category := Category task;
            Duration := value; RequiredSkills := RequiredSkills task;
            PreferredPhases := PreferredPhases task; MaxConcurrent := MaxConcurrent task |}
  else if String.eqb field_ "MaxConcurrent" then
    Some {| TaskID := TaskID task; TaskName := TaskName task; Category := Category task;
            Duration := Duration task; RequiredSkills := RequiredSkills task;
            PreferredPhases := PreferredPhases task; MaxConcurrent := value |}
  else if JS.arrayIncludes
            ["TaskID"; "TaskName"; "Category"; "RequiredSkills"; "PreferredPhases"] field_
  then None
  else Some task.

(** [l.map(f)] for an [f] that may leave the typed model. *)
Fixpoint mapTyped {A} (f : A -> option A) (l : list A) : option (list A) :=
  match l with
  | [] => Some []
  | x :: l' =>
      match f x, mapTyped f l' with
      | Some y, Some l'' => Some (y :: l'')
      | _, _ => None
      end
  end.

(** The counters of an entity in the summary. *)
Record Counts : Type := { errors : nat; warnings : nat }.

Record Summary : Type := { client : Counts; worker : Counts; task : Counts }.

(** [summary[entity]] *)
Definition counts (summary : Summary) (entity : Entity.t) : Counts :=
  match entity with
  | Entity.client => client summary
  | Entity.worker => worker summary
  | Entity.task => task summary
  end.

(** [summary[entity] = c] *)
Definition setCounts (summary : Summary) (entity : Entity.t) (c : Counts) : Summary :=
  match entity with
  | Entity.client => {| client := c; worker := worker summary; task := task summary |}
  | Entity.worker => {| client := client summary; worker := c; task := task summary |}
  | Entity.task => {| client := client summary; worker := worker summary; task := c |}
  end.

Definition errorsByEntity (validationErrors : list ValidationError.t) : Summary :=
  let summary :=
    {| client := {| errors := 0; warnings := 0 |};
       worker := {| errors := 0; warnings := 0 |};
       task := {| errors := 0; warnings := 0 |} |} in
  fold_left (fun summary error_ =>
    let entity := ValidationError.entity error_ in
    match ValidationError.type error_ with
    | error =>
        setCounts summary entity
          {| errors := S (errors (counts summary entity));
             warnings := warnings (counts summary entity) |}
    | warning =>
        setCounts summary entity
          {| errors := errors (counts summary entity);
             warnings := S (warnings (counts summary entity)) |}
    end) validationErrors summary.

Definition totalErrors (validationErrors : list ValidationError.t) : nat :=
  length (List.filter (fun e => match ValidationError.type e with
                                | error => true
                                | warning => false
                                end) validationErrors).

Definition totalWarnings (validationErrors : list ValidationError.t) : nat :=
  length (List.filter (fun e => match ValidationError.type e with
                                | warning => true
                                | error => false
                                end) validationErrors).

Section Panel.

(** The properties of the component. *)
Variable clients : list Client.
Variable workers : list Worker.
Variable tasks : list Task.

(** [applyCorrection(correction)]: the arguments of the call of
    [onDataChange]. *)
Definition applyCorrection (correction : Correction.t) : option (Entity.t * Rows) :=
  let entityType :=
    if JS.startsWith (Correction.id correction) "C" then Entity.client
    else if JS.startsWith (Correction.id correction) "W" then Entity.worker
    else Entity.task in
  match entityType with
  | Entity.client =>
      let updatedClients := mapTyped (fun client =>
        if String.eqb (ClientID client) (Correction.id correction)
        then withClientField client (Correction.field correction)
               (Correction.suggestedValue correction)
        else Some client) clients in
      option_map (fun updatedClients => (Entity.client, clientRows updatedClients))
        updatedClients
  | Entity.worker =>
      let updatedWorkers := mapTyped (fun worker =>
        if String.eqb (WorkerID worker) (Correction.id correction)
        then withWorkerField worker (Correction.field correction)
               (Correction.suggestedValue correction)
        else Some worker) workers in
      option_map (fun updatedWorkers => (Entity.worker, workerRows updatedWorkers))
        updatedWorkers
  | Entity.task =>
      let updatedTasks := mapTyped (fun task =>
        if String.eqb (TaskID task) (Correction.id correction)
        then withTaskField task (Correction.field correction)
               (Correction.suggestedValue correction)
        else Some task) tasks in
      option_map (fun updatedTasks => (Entity.task, taskRows updatedTasks)) updatedTasks
  end.

End Panel.

End ValidationPanel.

(* ===================================================================== *)
(** ** Part VI-b.  The grid's view of the findings ([DataGrid.tsx])       *)
(* ===================================================================== *)

Module DataGrid.

(** [a === b] on entity names. *)
Definition sameEntity (a b : Entity.t) : bool :=
  match a, b with
  | Entity.client, Entity.client => true
  | Entity.worker, Entity.worker => true
  | Entity.task, Entity.task => true
  | _, _ => false
  end.

(** [error.field === field]: an absent field is [undefined], which is not
    a string. *)
Definition sameField (f : option string) (field_ : string) : bool :=
  match f with
  | Some f' => String.eqb f' field_
  | None => false
  end.

Section Grid.

(** The properties of the component. *)
Variable entityType : Entity.t.
Variable validationErrors : list ValidationError.t.

Definition getEntityErrors (entityId : string) : list ValidationError.t :=
  List.filter (fun error_ =>
    sameEntity (ValidationError.entity error_) entityType
    && String.eqb (ValidationError.entityId error_) entityId) validationErrors.

Definition getCellErrors (entityId field_ : string) : list ValidationError.t :=
  List.filter (fun error_ =>
    sameEntity (ValidationError.entity error_) entityType
    && String.eqb (ValidationError.entityId error_) entityId
    && sameField (ValidationError.field error_) field_) validationErrors.

End Grid.

End DataGrid.

(* ===================================================================== *)
(** ** Part VI-c.  Comma-separated values: [FileParser.parseCSVLine]      *)
(**    (the parser listed after [mapHeaders] in [src/lib/ai-engine.ts])   *)
(**    and [convertToCSV] of the export panel ([src/unnamed/part_000])    *)
(* ===================================================================== *)

Module FileParser.

(** [parseCSVLine(line)]: the loop runs over the code units of [line];
    its state is the array [result], the string [current] and the flag
    [inQuotes]. *)
Definition parseCSVLine (line : string) : list string :=
  let result : list string := [] in
  let current := "" in
  let inQuotes := false in
  let '(result, current, inQuotes) :=
    fold_left (fun '(result, current, inQuotes) char =>
      if Ascii.eqb char JS.quote then (result, current, negb inQuotes)
      else if Ascii.eqb char "," && negb inQuotes
           then (result ++ [JS.trim current], "", inQuotes)
           else (result, current +:+ String char "", inQuotes))
      (list_ascii_of_string line) (result, current, inQuotes) in
  result ++ [JS.trim current].

(** A JSON string literal. *)
Definition q (s : string) : string := JS.dq +:+ s +:+ JS.dq.

(** [generateSampleData()] *)
Definition generateSampleData : list Client * list Worker * list Task :=
  let clients : list Client :=
    [{| ClientID := "C001"; ClientName := "TechCorp Solutions"; PriorityLevel := 5;
        RequestedTaskIDs := "T001,T002,T003"; GroupTag := "Enterprise";
        AttributesJSON :=
          "{" +:+ q "industry" +:+ ": " +:+ q "Technology" +:+ ", " +:+ q "size" +:+ ": "
          +:+ q "Large" +:+ "}" |};
     {| ClientID := "C002"; ClientName := "Healthcare Plus"; PriorityLevel := 4;
        RequestedTaskIDs := "T004,T005"; GroupTag := "Healthcare";
        AttributesJSON :=
          "{" +:+ q "industry" +:+ ": " +:+ q "Healthcare" +:+ ", " +:+ q "compliance"
          +:+ ": " +:+ q "HIPAA" +:+ "}" |};
     {| ClientID := "C003"; ClientName := "StartupX"; PriorityLevel := 2;
        RequestedTaskIDs := "T006,T007"; GroupTag := "Startup";
        AttributesJSON :=
          "{" +:+ q "stage" +:+ ": " +:+ q "Series A" +:+ ", " +:+ q "team_size"
          +:+ ": 15}" |}] in
  let workers : list Worker :=
    [{| WorkerID := "W001"; WorkerName := "Alice Johnson";
        Skills := "JavaScript,React,Node.js"; AvailableSlots := "[1,2,3,4,5]";
        MaxLoadPerPhase := 3; WorkerGroup := "Frontend"; QualificationLevel := 5 |};
     {| WorkerID := "W002"; WorkerName := "Bob Smith";
        Skills := "Python,Django,PostgreSQL"; AvailableSlots := "[1,3,5]";
        MaxLoadPerPhase := 2; WorkerGroup := "Backend"; QualificationLevel := 4 |};
     {| WorkerID := "W003"; WorkerName := "Carol Davis";
        Skills := "Java,Spring,MongoDB"; AvailableSlots := "[2,4,6]";
        MaxLoadPerPhase := 2; WorkerGroup := "Backend"; QualificationLevel := 4 |};
     {| WorkerID := "W004"; WorkerName := "David Wilson";
        Skills := "React,TypeScript,GraphQL"; AvailableSlots := "[1,2,3]";
        MaxLoadPerPhase := 3; WorkerGroup := "Frontend"; QualificationLevel := 5 |}] in
  let tasks : list Task :=
    [{| TaskID := "T001"; TaskName := "Frontend Development"; Category := "Development";
        Duration := 3; RequiredSkills := "JavaScript,React"; PreferredPhases := "[1,2,3]";
        MaxConcurrent := 2 |};
     {| TaskID := "T002"; TaskName := "API Integration"; Category := "Integration";
        Duration := 2; RequiredSkills := "JavaScript,Node.js";
        PreferredPhases := "[2,3,4]"; MaxConcurrent := 1 |};
     {| TaskID := "T003"; TaskName := "Database Design"; Category := "Database";
        Duration := 4; RequiredSkills := "PostgreSQL"; PreferredPhases := "[1,2]";
        MaxConcurrent := 1 |};
     {| TaskID := "T004"; TaskName := "HIPAA Compliance"; Category := "Compliance";
        Duration := 2; RequiredSkills := "Java,Spring"; PreferredPhases := "[3,4,5]";
        MaxConcurrent := 1 |};
     {| TaskID := "T005"; TaskName := "Healthcare Dashboard"; Category := "UI/UX";
        Duration := 3; RequiredSkills := "React,TypeScript"; PreferredPhases := "[4,5,6]";
        MaxConcurrent := 2 |};
     {| TaskID := "T006"; TaskName := "MVP Development"; Category := "Development";
        Duration := 5; RequiredSkills := "Python,Django";
        PreferredPhases := "[1,2,3,4,5]"; MaxConcurrent := 1 |};
     {| TaskID := "T007"; TaskName := "Mobile App"; Category := "Mobile";
        Duration := 4; RequiredSkills := "React,GraphQL"; PreferredPhases := "[3,4,5,6]";
        MaxConcurrent := 1 |}] in
  (clients, workers, tasks).

End FileParser.

Module ExportPanel.

(** A row of [data : any[]], read by [row[header]]. *)
Definition Row : Type := string -> DataValidator.FieldValue.

(** [value.replace] of every quote by two quotes. *)
Fixpoint doubleQuotes (value : string) : string :=
  match value with
  | EmptyString => EmptyString
  | String c value' =>
      if Ascii.eqb c JS.quote
      then String JS.quote (String JS.quote (doubleQuotes value'))
      else String c (doubleQuotes value')
  end.

(** The callback of [headers.map]: what is put in the cell of [value]. *)
Definition cell (value : DataValidator.FieldValue) : DataValidator.FieldValue :=
  match value with
  | DataValidator.VString s =>
      (* Handle commas and quotes in values *)
      if JS.includes s "," || JS.includes s JS.dq
      then DataValidator.VString (JS.dq +:+ doubleQuotes s +:+ JS.dq)
      else if DataValidator.not_ value then DataValidator.VString "" else value
  | _ => if DataValidator.not_ value then DataValidator.VString "" else value
  end.

(** The text of an element in [Array.prototype.join]. *)
Definition joined (value : DataValidator.FieldValue) : string :=
  match value with
  | DataValidator.VString s => s
  | DataValidator.VNumber n => JS.showZ n
  | DataValidator.VUndefined => ""
  end.

(** The line feed. *)
Definition newline : string := String "010"%char EmptyString.

Definition convertToCSV (data : list Row) (headers : list string) : string :=
  let csvHeaders := JS.join "," headers in
  let csvRows := map (fun row =>
    JS.join "," (map (fun header => joined (cell (row header))) headers)) data in
  JS.join newline (csvHeaders :: csvRows).

End ExportPanel.

(* ===================================================================== *)
(** ** Part VI-e.  [AIEngine.mapHeaders] ([src/lib/ai-engine.ts])         *)
(* ===================================================================== *)

Module Headers.

Definition clientFieldMappings : JS.Map string :=
  [("client_id", "ClientID"); ("clientid", "ClientID"); ("id", "ClientID");
   ("client_name", "ClientName"); ("clientname", "ClientName"); ("name", "ClientName");
   ("priority", "PriorityLevel"); ("priority_level", "PriorityLevel");
   ("requested_tasks", "RequestedTaskIDs"); ("task_ids", "RequestedTaskIDs");
   ("group", "GroupTag"); ("attributes", "AttributesJSON")].

Definition workerFieldMappings : JS.Map string :=
  [("worker_id", "WorkerID"); ("workerid", "WorkerID"); ("id", "WorkerID");
   ("worker_name", "WorkerName"); ("workername", "WorkerName"); ("name", "WorkerName");
   ("skill", "Skills"); ("skills", "Skills");
   ("available_slots", "AvailableSlots"); ("slots", "AvailableSlots");
   ("max_load", "MaxLoadPerPhase"); ("maxload", "MaxLoadPerPhase");
   ("group", "WorkerGroup"); ("qualification", "QualificationLevel")].

Definition taskFieldMappings : JS.Map string :=
  [("task_id", "TaskID"); ("taskid", "TaskID"); ("id", "TaskID");
   ("task_name", "TaskName"); ("taskname", "TaskName"); ("name", "TaskName");
   ("category", "Category"); ("duration", "Duration");
   ("required_skills", "RequiredSkills"); ("skills", "RequiredSkills");
   ("preferred_phases", "PreferredPhases"); ("phases", "PreferredPhases");
   ("max_concurrent", "MaxConcurrent"); ("concurrent", "MaxConcurrent")].

(** [{ ...a, ...b }]: the properties of [a], then those of [b]; a key of
    [a] that [b] has too keeps its place and takes the value of [b]. *)
Definition spread {V} (a b : JS.Map V) : JS.Map V :=
  fold_left (fun m '(k, v) => JS.mapSet m k v) b a.

(** [.replace(/[^a-z0-9]/g, '_')] *)
Fixpoint underscore (s : string) : string :=
  match s with
  | EmptyString => EmptyString
  | String c s' =>
      String (if RegExp.between "a" "z" c || RegExp.between "0" "9" c then c else "_"%char)
        (underscore s')
  end.

(** What a property of [allMappings] or of [mapping] holds: the name of
    a field or, under the name of a property that every object inherits,
    that property. *)
Inductive Value : Type :=
| FieldName (name : string)
| ObjectConstructor
| ObjectPrototype
| Undefined.

(** [v] used as a condition. *)
Definition truthy (v : Value) : bool :=
  match v with
  | FieldName name => negb (String.eqb name "")
  | ObjectConstructor | ObjectPrototype => true
  | Undefined => false
  end.

(** [allMappings[key]] for a key without upper-case letters: an own
    property, or one of the two inherited properties whose name has no
    upper-case letter. *)
Definition property (allMappings : JS.Map string) (key : string) : Value :=
  match JS.mapGet allMappings key with
  | Some name => FieldName name
  | None =>
      if String.eqb key "constructor" then ObjectConstructor
      else if String.eqb key "__proto__" then ObjectPrototype
      else Undefined
  end.

(** [mapping[header] = value]: the key [__proto__] sets the prototype and
    makes no property. *)
Definition assign (mapping : gmap string Value) (header : string) (value : Value)
  : gmap string Value :=
  if String.eqb header "__proto__" then mapping else <[header := value]> mapping.

(** [mapHeaders(headers)]: the own properties of the object returned. *)
Definition mapHeaders (headers : list string) : gmap string Value :=
  let mapping : gmap string Value := ∅ in
  fold_left (fun mapping header =>
    let normalizedHeader := underscore (JS.toLowerCase header) in
    (* Try all mappings *)
    let allMappings :=
      spread (spread clientFieldMappings workerFieldMappings) taskFieldMappings in
    if truthy (property allMappings normalizedHeader)
    then assign mapping header (property allMappings normalizedHeader)
    else
      (* Fuzzy matching for partial matches *)
      let bestMatch := List.find (fun key =>
        JS.includes key normalizedHeader || JS.includes normalizedHeader key)
        (map fst allMappings) in
      match bestMatch with
      | Some bestMatch => assign mapping header (property allMappings bestMatch)
      | None => mapping
      end) headers mapping.

End Headers.

(* ===================================================================== *)
(** ** Part VI-f.  The rule builder ([src/components/rules/RuleBuilder.tsx]) *)
(* ===================================================================== *)

Module RuleBuilder.

Section Component.

(** The property [businessRules] and the state [aiRecommendations] of the
    component. *)
Variable businessRules : list BusinessRule.t.
Variable aiRecommendations : list AIRuleRecommendation.t.

(** [handleRemoveRule(ruleId)]: the argument of [onRulesChange]. *)
Definition handleRemoveRule (ruleId : string) : list BusinessRule.t :=
  List.filter (fun rule => negb (String.eqb (BusinessRule.id rule) ruleId)) businessRules.

(** [handleToggleRule(ruleId)]: the argument of [onRulesChange]. *)
Definition handleToggleRule (ruleId : string) : list BusinessRule.t :=
  map (fun rule =>
    if String.eqb (BusinessRule.id rule) ruleId
    then {| BusinessRule.id := BusinessRule.id rule;
            BusinessRule.type := BusinessRule.type rule;
            BusinessRule.name := BusinessRule.name rule;
            BusinessRule.description := BusinessRule.description rule;
            BusinessRule.parameters := BusinessRule.parameters rule;
            BusinessRule.priority := BusinessRule.priority rule;
            BusinessRule.active := negb (BusinessRule.active rule) |}
    else rule) businessRules.

(** [acceptRecommendation(recommendation)]: the argument of
    [onRulesChange] and the new state [aiRecommendations]. *)
Definition acceptRecommendation (recommendation : AIRuleRecommendation.t)
  : list BusinessRule.t * list AIRuleRecommendation.t :=
  let rule :=
    {| BusinessRule.id := AIRuleRecommendation.id recommendation;
       BusinessRule.type := AIRuleRecommendation.type recommendation;
       BusinessRule.name := AIRuleRecommendation.description recommendation;
       BusinessRule.description := AIRuleRecommendation.reasoning recommendation;
       BusinessRule.parameters := AIRuleRecommendation.parameters recommendation;
       BusinessRule.priority := 1;
       BusinessRule.active := true |} in
  (businessRules ++ [rule],
   List.filter (fun r => negb (String.eqb (AIRuleRecommendation.id r)
                                 (AIRuleRecommendation.id recommendation)))
     aiRecommendations).

End Component.

End RuleBuilder.

(* ===================================================================== *)
(** ** Part VI-d.  [AIEngine.searchData] ([src/lib/ai-engine.ts])         *)
(* ===================================================================== *)

(** [AISearchResult]; [matches : any[]] holds rows of the entity. *)
Module AISearchResult.
Record t : Type := {
  entity : Entity.t;
  matches : Rows;
  confidence : float;
  query : string
}.
End AISearchResult.

Module Search.
Import RegExp.

(** [a-zA-Z] *)
Definition letter (c : ascii) : bool := between "a" "z" c || between "A" "Z" c.

(** [/duration.*?(\d+)/i] *)
Definition durationPattern : RegExp.t :=
  {| source := SeqAll [Str "duration"; Star false (Class dot); Group 1 (Plus (Class digit))];
     ignoreCase := true |}.

(** [/phase.*?(\d+)/i] *)
Definition phasePattern : RegExp.t :=
  {| source := SeqAll [Str "phase"; Star false (Class dot); Group 1 (Plus (Class digit))];
     ignoreCase := true |}.

(** [/skill.*?([a-zA-Z]+)/i] *)
Definition skillPattern : RegExp.t :=
  {| source := SeqAll [Str "skill"; Star false (Class dot); Group 1 (Plus (Class letter))];
     ignoreCase := true |}.

(** [/priority.*?(\d+)/i] *)
Definition priorityPattern : RegExp.t :=
  {| source := SeqAll [Str "priority"; Star false (Class dot);
                       Group 1 (Plus (Class digit))];
     ignoreCase := true |}.

(** [parseInt(m[1])]: [NaN] ([None]) when the group is [undefined].  The
    integer is compared with entity fields only, which are of the safe
    range: there the rounding of a longer numeral makes no difference. *)
Definition parseIntGroup1 (m : RegExp.result) : option Z :=
  match RegExp.group 1 m with
  | Some text => JS.parseInt text
  | None => None
  end.

(** [m[1]] as the argument of [includes]: [undefined] is searched for as
    the text of its name. *)
Definition searchedGroup1 (m : RegExp.result) : string :=
  match RegExp.group 1 m with
  | Some text => text
  | None => "undefined"
  end.

(** Comparisons of a number with a parsed one: all false on [NaN]. *)
Definition gt (n : Z) (target : option Z) : bool :=
  match target with Some t => n >? t | None => false end.

Definition lt (n : Z) (target : option Z) : bool :=
  match target with Some t => n <? t | None => false end.

Definition strictEq (n : Z) (target : option Z) : bool :=
  match target with Some t => n =? t | None => false end.

(** [l.filter(f)] for a callback that may throw. *)
Definition filter_ {A} (f : A -> JS.completion bool) (l : list A)
  : JS.completion (list A) :=
  JS.forEach l (fun kept x =>
    let* keep := f x in JS.Normal (if keep then kept ++ [x] else kept)) [].

(** The callback of [this.tasks.filter]. *)
Definition taskMatch (normalizedQuery : string) (task : Task) : JS.completion bool :=
  let match_ := false in
  (* Check duration conditions *)
  let durationMatch := RegExp.match_ normalizedQuery durationPattern in
  let match_ :=
    match durationMatch with
    | Some durationMatch =>
        let targetDuration := parseIntGroup1 durationMatch in
        let match_ :=
          if JS.includes normalizedQuery "more than" && gt (Duration task) targetDuration
          then true else match_ in
        let match_ :=
          if JS.includes normalizedQuery "less than" && lt (Duration task) targetDuration
          then true else match_ in
        if JS.includes normalizedQuery "equal" && strictEq (Duration task) targetDuration
        then true else match_
    | None => match_
    end in
  (* Check phase conditions *)
  let phaseMatch := RegExp.match_ normalizedQuery phasePattern in
  let match_ :=
    match phaseMatch with
    | Some phaseMatch =>
        let targetPhase := searchedGroup1 phaseMatch in
        if JS.includes (PreferredPhases task) targetPhase then true else match_
    | None => match_
    end in
  (* Check skill conditions *)
  let skillMatch := RegExp.match_ normalizedQuery skillPattern in
  let* match_ :=
    match skillMatch with
    | Some skillMatch =>
        let* targetSkill := AIEngine.group1 skillMatch in
        JS.Normal
          (if JS.includes (JS.toLowerCase (RequiredSkills task)) (JS.toLowerCase targetSkill)
           then true else match_)
    | None => JS.Normal match_
    end in
  (* General text search *)
  let match_ :=
    if JS.includes normalizedQuery (JS.toLowerCase (TaskName task))
       || JS.includes normalizedQuery (JS.toLowerCase (Category task))
    then true else match_ in
  JS.Normal match_.

(** The callback of [this.clients.filter]. *)
Definition clientMatch (normalizedQuery : string) (client : Client)
  : JS.completion bool :=
  let match_ := false in
  (* Check priority conditions *)
  let priorityMatch := RegExp.match_ normalizedQuery priorityPattern in
  let match_ :=
    match priorityMatch with
    | Some priorityMatch =>
        let targetPriority := parseIntGroup1 priorityMatch in
        let match_ :=
          if JS.includes normalizedQuery "priority"
             && strictEq (PriorityLevel client) targetPriority
          then true else match_ in
        let match_ :=
          if JS.includes normalizedQuery "high priority" && (PriorityLevel client >=? 4)
          then true else match_ in
        if JS.includes normalizedQuery "low priority" && (PriorityLevel client <=? 2)
        then true else match_
    | None => match_
    end in
  (* General text search *)
  let match_ :=
    if JS.includes normalizedQuery (JS.toLowerCase (ClientName client))
       || JS.includes normalizedQuery (JS.toLowerCase (GroupTag client))
    then true else match_ in
  JS.Normal match_.

(** The callback of [this.workers.filter]. *)
Definition workerMatch (normalizedQuery : string) (worker : Worker)
  : JS.completion bool :=
  let match_ := false in
  (* Check skill conditions *)
  let skillMatch := RegExp.match_ normalizedQuery skillPattern in
  let* match_ :=
    match skillMatch with
    | Some skillMatch =>
        let* targetSkill := AIEngine.group1 skillMatch in
        JS.Normal
          (if JS.includes (JS.toLowerCase (Skills worker)) (JS.toLowerCase targetSkill)
           then true else match_)
    | None => JS.Normal match_
    end in
  (* Check availability *)
  let* match_ :=
    if JS.includes normalizedQuery "available" then
      JS.try_catch
        (let* slots := JS.JSON_parse (AvailableSlots worker) in
         JS.Normal (if JS.isArray slots && (0 <? length (JS.elements slots))%nat
                    then true else match_))
        (fun _ => (* Skip malformed slots *) JS.Normal match_)
    else JS.Normal match_ in
  (* General text search *)
  let match_ :=
    if JS.includes normalizedQuery (JS.toLowerCase (WorkerName worker))
       || JS.includes normalizedQuery (JS.toLowerCase (WorkerGroup worker))
    then true else match_ in
  JS.Normal match_.

(** [searchData(query)]: the value the promise resolves to, or the
    exception it is rejected with. *)
Definition searchData (this : AIEngine.this_t) (query : string)
  : JS.completion (list AISearchResult.t) :=
  let results : list AISearchResult.t := [] in
  let normalizedQuery := JS.toLowerCase query in
  (* Search tasks *)
  let* results :=
    if JS.includes normalizedQuery "task" then
      let* taskMatches := filter_ (taskMatch normalizedQuery) (AIEngine.tasks this) in
      JS.Normal
        (if (0 <? length taskMatches)%nat
         then results ++ [{| AISearchResult.entity := Entity.task;
                             AISearchResult.matches := taskRows taskMatches;
                             AISearchResult.confidence := 0.85%float;
                             AISearchResult.query := query |}]
         else results)
    else JS.Normal results in
  (* Search clients *)
  let* results :=
    if JS.includes normalizedQuery "client" then
      let* clientMatches :=
        filter_ (clientMatch normalizedQuery) (AIEngine.clients this) in
      JS.Normal
        (if (0 <? length clientMatches)%nat
         then results ++ [{| AISearchResult.entity := Entity.client;
                             AISearchResult.matches := clientRows clientMatches;
                             AISearchResult.confidence := 0.80%float;
                             AISearchResult.query := query |}]
         else results)
    else JS.Normal results in
  (* Search workers *)
  let* results :=
    if JS.includes normalizedQuery "worker" then
      let* workerMatches :=
        filter_ (workerMatch normalizedQuery) (AIEngine.workers this) in
      JS.Normal
        (if (0 <? length workerMatches)%nat
         then results ++ [{| AISearchResult.entity := Entity.worker;
                             AISearchResult.matches := workerRows workerMatches;
                             AISearchResult.confidence := 0.80%float;
                             AISearchResult.query := query |}]
         else results)
    else JS.Normal results in
  JS.Normal results.

End Search.
(* ===================================================================== *)
(** ** Part VI.  [PriorityPanel] ([src/components/grid/DataGrid.tsx])     *)
(* ===================================================================== *)

Module PriorityPanel.

(** The arithmetic of the weights.  A JavaScript number is a binary64
    floating-point number ([binary64] below); [exact] is the same
    arithmetic without rounding, on rationals, in which the algebra of the
    normalisation can be stated. *)
Record Arithmetic : Type := {
  number : Type;
  ofInt : Z -> number;
  plus : number -> number -> number;
  over : number -> number -> number;
  greater : number -> number -> bool
}.

Definition binary64 : Arithmetic :=
  {| number := float;
     ofInt := JS.ofZ;
     plus := PrimFloat.add;
     over := PrimFloat.div;
     greater := fun a b => PrimFloat.ltb b a |}.

Definition exact : Arithmetic :=
  {| number := Q;
     ofInt := inject_Z;
     plus := Qplus;
     over := Qdiv;
     greater := fun a b => negb (Qle_bool a b) |}.

Section Weights.
Variable A : Arithmetic.
Let weights : Type := PriorityWeights (number A).

(** [w[field]] *)
Definition get (w : weights) (field : WeightField) : number A :=
  match field with
  | fPriorityLevel => priorityLevel w
  | fTaskFulfillment => taskFulfillment w
  | fFairness => fairness w
  | fWorkloadBalance => workloadBalance w
  | fSkillMatch => skillMatch w
  | fPhasePreference => phasePreference w
  end.

(** [{ ...w, [field]: x }] *)
Definition set (w : weights) (field : WeightField) (x : number A) : weights :=
  match field with
  | fPriorityLevel =>
      Build_PriorityWeights _ x (taskFulfillment w) (fairness w) (workloadBalance w)
        (skillMatch w) (phasePreference w)
  | fTaskFulfillment =>
      Build_PriorityWeights _ (priorityLevel w) x (fairness w) (workloadBalance w)
        (skillMatch w) (phasePreference w)
  | fFairness =>
      Build_PriorityWeights _ (priorityLevel w) (taskFulfillment w) x (workloadBalance w)
        (skillMatch w) (phasePreference w)
  | fWorkloadBalance =>
      Build_PriorityWeights _ (priorityLevel w) (taskFulfillment w) (fairness w) x
        (skillMatch w) (phasePreference w)
  | fSkillMatch =>
      Build_PriorityWeights _ (priorityLevel w) (taskFulfillment w) (fairness w)
        (workloadBalance w) x (phasePreference w)
  | fPhasePreference =>
      Build_PriorityWeights _ (priorityLevel w) (taskFulfillment w) (fairness w)
        (workloadBalance w) (skillMatch w) x
  end.

(** [Object.keys(w)], in the order of the properties. *)
Definition keys : list WeightField :=
  [fPriorityLevel; fTaskFulfillment; fFairness; fWorkloadBalance; fSkillMatch;
   fPhasePreference].

(** [Object.values(w)] *)
Definition values (w : weights) : list (number A) := map (get w) keys.

(** [Object.values(w).reduce((sum, weight) => sum + weight, 0)] *)
Definition totalWeight (w : weights) : number A :=
  fold_left (fun sum weight => plus A sum weight) (values w) (ofInt A 0).

(** [handleWeightChange(field, value)]: the weights handed to
    [onWeightsChange]; [priorityWeights] is the property of the component. *)
Definition handleWeightChange (priorityWeights : weights) (field : WeightField)
    (value : number A) : weights :=
  let newWeights := set priorityWeights field (over A value (ofInt A 100)) in
  (* Ensure all weights sum to 1 *)
  let total := totalWeight newWeights in
  let newWeights :=
    if greater A total (ofInt A 0)
    then fold_left (fun newWeights key =>
           set newWeights key (over A (get newWeights key) total)) keys newWeights
    else newWeights in
  newWeights.

End Weights.

(** A record of six binary64 weights. *)
Definition weightsOf (priorityLevel taskFulfillment fairness workloadBalance skillMatch
    phasePreference : float) : PriorityWeights float :=
  Build_PriorityWeights float priorityLevel taskFulfillment fairness workloadBalance
    skillMatch phasePreference.

(** The initial state of the page. *)
Definition initial : PriorityWeights float := weightsOf 0.3 0.25 0.2 0.15 0.05 0.05.

Definition presetProfiles : list (string * PriorityWeights float) :=
  [("maximize-fulfillment", weightsOf 0.15 0.35 0.15 0.15 0.15 0.05);
   ("fair-distribution", weightsOf 0.2 0.2 0.3 0.15 0.1 0.05);
   ("minimize-workload", weightsOf 0.15 0.2 0.15 0.35 0.1 0.05);
   ("skill-optimization", weightsOf 0.2 0.2 0.15 0.15 0.25 0.05);
   ("priority-focused", weightsOf 0.4 0.25 0.15 0.1 0.05 0.05)].

End PriorityPanel.
(* ===================================================================== *)
(** ** Part VII.  Vocabulary of the properties                            *)
(* ===================================================================== *)

(** The errors of [errors] whose [id] starts with [tag]. *)
Definition tagged (tag : string) (errors : list ValidationError.t) : list ValidationError.t :=
  List.filter (fun e => JS.startsWith (ValidationError.id e) tag) errors.

(** Every [id] of [errors] starts with one of [tags]. *)
Definition allTagged (tags : list string) (errors : list ValidationError.t) : Prop :=
  Forall (fun e => existsb (JS.startsWith (ValidationError.id e)) tags = true) errors.

(** No string starts with both [tag] and one of [tags]. *)
Definition apart (tag : string) (tags : list string) : bool :=
  forallb (fun tag' => negb (String.prefix tag tag') && negb (String.prefix tag' tag)) tags.

(** The elements of [l] that are not the first one with their key: the one
    at position [i] is kept when its key occurs among the [i] elements
    before it. *)
Definition laterOccurrences {A} (key : A -> string) (l : list A) : list A :=
  flat_map (fun i =>
    match nth_error l i with
    | Some x => if JS.arrayIncludes (map key (firstn i l)) (key x) then [x] else []
    | None => []
    end) (seq 0 (length l)).

(** How many elements of [l] have the key [k]. *)
Definition occurrences {A} (key : A -> string) (k : string) (l : list A) : nat :=
  length (List.filter (fun x => String.eqb (key x) k) l).

(** How many errors of [errors] have the identifier [i]. *)
Definition withId (i : string) (errors : list ValidationError.t) : list ValidationError.t :=
  List.filter (fun e => String.eqb (ValidationError.id e) i) errors.

(** What each check of the validator pushes onto [errors] for one record. *)
Module Pushed.
Import DataValidator.

Definition missing (client : Client) : list ValidationError.t :=
  flat_map (fun field_ =>
    if not_ (clientField client field_) || isEmptyString (clientField client field_)
    then [missingField client field_] else []) requiredClientFields.

Definition malformed (worker : Worker) : list ValidationError.t :=
  match JS.JSON_parse (AvailableSlots worker) with
  | JS.Normal slots =>
      if negb (JS.isArray slots) || negb (forallb JS.isNumber (JS.elements slots))
      then [malformedSlots worker] else []
  | JS.Throw _ => [invalidSlots worker]
  end.

Definition priority (client : Client) : list ValidationError.t :=
  if (PriorityLevel client <? 1) || (PriorityLevel client >? 5)
  then [priorityRange client] else [].

Definition duration (task : Task) : list ValidationError.t :=
  if Duration task <? 1 then [durationRange task] else [].

Definition broken (client : Client) : list ValidationError.t :=
  if truthy (AttributesJSON client)
     && negb (String.eqb (JS.trim (AttributesJSON client)) "")
  then match JS.JSON_parse (AttributesJSON client) with
       | JS.Normal _ => []
       | JS.Throw _ => [brokenJSON client]
       end
  else [].

(** The pieces of a comma-separated list, trimmed. *)
Definition pieces (s : string) : list string := map JS.trim (JS.split "," s).

Definition unknown (tasks : list Task) (client : Client) : list ValidationError.t :=
  if truthy (RequestedTaskIDs client)
  then map (unknownTask client)
         (List.filter (fun taskId => negb (JS.arrayIncludes (map TaskID tasks) taskId))
            (pieces (RequestedTaskIDs client)))
  else [].

Definition overload (worker : Worker) : list ValidationError.t :=
  match JS.JSON_parse (AvailableSlots worker) with
  | JS.Normal slots =>
      if JS.isArray slots
         && (Z.of_nat (length (JS.elements slots)) <? MaxLoadPerPhase worker)
      then [overloaded worker slots] else []
  | JS.Throw _ => []
  end.

(** Every skill of every worker. *)
Definition allSkills (workers : list Worker) : list string :=
  flat_map (fun worker => pieces (Skills worker)) workers.

Definition coverage (workers : list Worker) (task : Task) : list ValidationError.t :=
  map (skillCoverage task)
    (List.filter (fun skill => negb (JS.arrayIncludes (allSkills workers) skill))
       (pieces (RequiredSkills task))).

Definition qualified (workers : list Worker) (task : Task) : list Worker :=
  List.filter (fun worker =>
    forallb (fun skill => JS.arrayIncludes (pieces (Skills worker)) skill)
      (pieces (RequiredSkills task))) workers.

Definition concurrency (workers : list Worker) (task : Task) : list ValidationError.t :=
  if MaxConcurrent task >? Z.of_nat (length (qualified workers task))
  then [maxConcurrent task (qualified workers task)] else [].

Definition duplicates (this : this_t) : list ValidationError.t :=
  map duplicateClient (laterOccurrences ClientID (clients this))
  ++ map duplicateWorker (laterOccurrences WorkerID (workers this))
  ++ map duplicateTask (laterOccurrences TaskID (tasks this)).

(** All of them, in the order of [validateAll]. *)
Definition all (this : this_t) : list ValidationError.t :=
  flat_map missing (clients this)
  ++ duplicates this
  ++ flat_map malformed (workers this)
  ++ (flat_map priority (clients this) ++ flat_map duration (tasks this))
  ++ flat_map broken (clients this)
  ++ flat_map (unknown (tasks this)) (clients this)
  ++ flat_map overload (workers this)
  ++ flat_map (coverage (workers this)) (tasks this)
  ++ flat_map (concurrency (workers this)) (tasks this).

End Pushed.

(** The errors of [errors] reported on the field [AvailableSlots]. *)
Definition aboutSlots (errors : list ValidationError.t) : list ValidationError.t :=
  List.filter (fun e => match ValidationError.field e with
                        | Some f => String.eqb f "AvailableSlots"
                        | None => false
                        end) errors.

(** **** Regular expressions *)

(** Every way through [r] goes through the group [n]. *)
Fixpoint binds (n : nat) (r : RegExp.pattern) : bool :=
  match r with
  | RegExp.Seq r1 r2 => binds n r1 || binds n r2
  | RegExp.Alt r1 r2 => binds n r1 && binds n r2
  | RegExp.Group m r' => (m =? n)%nat || binds n r'
  | _ => false
  end.

Definition defined (n : nat) (caps : RegExp.captures) : Prop :=
  RegExp.capture n caps <> None.

(** **** The three categories of [convertToRule] *)

Definition coRunPhrase (rule : string) : bool :=
  JS.includes rule "together" || JS.includes rule "same time" || JS.includes rule "co-run".

Definition loadLimitPhrase (rule : string) : bool :=
  JS.includes rule "limit" || JS.includes rule "maximum" || JS.includes rule "no more than".

Definition phaseWindowPhrase (rule : string) : bool :=
  JS.includes rule "phase" && (JS.includes rule "only" || JS.includes rule "must").

Definition matches (rule : string) (re : RegExp.t) : bool :=
  match RegExp.match_ rule re with Some _ => true | None => false end.

(** The category that yields the rule: the first one, in the order co-run,
    load limit, phase window, whose phrase and pattern are both found. *)
Definition yielding (rule : string) : option RuleType :=
  if coRunPhrase rule && matches rule AIEngine.taskPattern then Some coRun
  else if loadLimitPhrase rule && matches rule AIEngine.limitPattern then Some loadLimit
  else if phaseWindowPhrase rule && matches rule AIEngine.phasePattern then Some phaseWindow
  else None.

(** [r] with its [id] replaced. *)
Definition withRuleId (i : string) (r : BusinessRule.t) : BusinessRule.t :=
  {| BusinessRule.id := i;
     BusinessRule.type := BusinessRule.type r;
     BusinessRule.name := BusinessRule.name r;
     BusinessRule.description := BusinessRule.description r;
     BusinessRule.parameters := BusinessRule.parameters r;
     BusinessRule.priority := BusinessRule.priority r;
     BusinessRule.active := BusinessRule.active r |}.

(** The prefix of the [id] of a rule of each type that [convertToRule]
    yields. *)
Definition idPrefix (t : RuleType) : string :=
  match t with
  | coRun => "corun-"
  | loadLimit => "loadlimit-"
  | phaseWindow => "phasewindow-"
  | _ => ""
  end.

(** **** Co-run grouping *)

(** The order of strings by code units. *)
Definition le (x y : string) : Prop := String.leb x y = true.

(** The key under which [analyzeTaskPatterns] files a task: its trimmed
    required skills, sorted and joined by a bar. *)
Definition skillKey (task : Task) : string :=
  JS.join "|" (JS.sort (map JS.trim (JS.split "," (RequiredSkills task)))).

(** The elements of [l] that are the first one with their key. *)
Definition firstOccurrences {A} (key : A -> string) (l : list A) : list A :=
  flat_map (fun i =>
    match nth_error l i with
    | Some x => if JS.arrayIncludes (map key (firstn i l)) (key x) then [] else [x]
    | None => []
    end) (seq 0 (length l)).

(** The IDs of the tasks filed under the key [k], in the order of the
    collection. *)
Definition filedUnder (k : string) (tasks : list Task) : list string :=
  map TaskID (List.filter (fun task => String.eqb (skillKey task) k) tasks).

(** The partition of the tasks by key: a class for each key, in the order
    in which the keys first occur. *)
Definition partition (tasks : list Task) : list (string * list string) :=
  map (fun task => (skillKey task, filedUnder (skillKey task) tasks))
    (firstOccurrences skillKey tasks).

(** The map with the keys [ks], in this order, and the value [f k] under
    the key [k]. *)
Definition tabulate {V} (f : string -> V) (ks : list string) : JS.Map V :=
  map (fun k => (k, f k)) ks.

(** The group that [analyzeTaskPatterns] makes of a class. *)
Definition taskGroupOf (class : string * list string) : AIEngine.TaskGroup :=
  {| AIEngine.group_tasks := snd class;
     AIEngine.commonSkills := JS.split "|" (fst class);
     AIEngine.group_confidence :=
       JS.Math_min 0.9 (0.5 + JS.ofNat (length (snd class)) * 0.1) |}.

(** The classes of at least two tasks. *)
Definition shared (classes : list (string * list string)) : list (string * list string) :=
  List.filter (fun class => (1 <? length (snd class))%nat) classes.

(** The recommendations pushed for [l], the first of them with the [n]-th
    reading of the clock. *)
Fixpoint stamped {A} (mk : Z -> A -> AIRuleRecommendation.t) (clock : nat -> Z) (n : nat)
    (l : list A) : list AIRuleRecommendation.t :=
  match l with
  | [] => []
  | x :: l' => mk (clock n) x :: stamped mk clock (S n) l'
  end.

Definition isCoRun (r : AIRuleRecommendation.t) : bool :=
  match AIRuleRecommendation.type r with coRun => true | _ => false end.

(** The co-run recommendations of [recommendations]. *)
Definition coRuns (recommendations : list AIRuleRecommendation.t)
  : list AIRuleRecommendation.t :=
  List.filter isCoRun recommendations.

(** **** Weights *)

(** [|x - 1.0| < 1e-6] *)
Definition sumsToOne (x : float) : bool :=
  PrimFloat.ltb (PrimFloat.abs (x - 1)) 1e-6.

(** The records the page starts from, and the positions of a slider. *)
Definition pageRecords : list (PriorityWeights float) :=
  PriorityPanel.initial :: map snd PriorityPanel.presetProfiles.

Definition sliderPositions : list float :=
  map (fun n => JS.ofNat (5 * n)) (seq 0 21).


(** **** Records with one field changed *)

(** [{ ...worker, AvailableSlots: slots }] *)
Definition withSlots (worker : Worker) (slots : string) : Worker :=
  {| WorkerID := WorkerID worker; WorkerName := WorkerName worker;
     Skills := Skills worker; AvailableSlots := slots;
     MaxLoadPerPhase := MaxLoadPerPhase worker; WorkerGroup := WorkerGroup worker;
     QualificationLevel := QualificationLevel worker |}.

(** [{ ...client, AttributesJSON: json }] *)
Definition withAttributes (client : Client) (json : string) : Client :=
  {| ClientID := ClientID client; ClientName := ClientName client;
     PriorityLevel := PriorityLevel client; RequestedTaskIDs := RequestedTaskIDs client;
     GroupTag := GroupTag client; AttributesJSON := json |}.

(** The twelve checks, in the order in which [validateAll] runs them. *)
Definition checks
  : list (DataValidator.this_t -> JS.completion (list ValidationError.t)) :=
  [DataValidator.validateMissingColumns; DataValidator.validateDuplicateIDs;
   DataValidator.validateMalformedLists; DataValidator.validateOutOfRangeValues;
   DataValidator.validateBrokenJSON; DataValidator.validateUnknownReferences;
   DataValidator.validateCircularCoRuns; DataValidator.validateOverloadedWorkers;
   DataValidator.validatePhaseSlotSaturation; DataValidator.validateSkillCoverage;
   DataValidator.validateMaxConcurrency; DataValidator.validateConflictingRules].

(** **** The numbers that binary64 stands for *)

Module Binary64.
Import Reals.
Local Open Scope R_scope.

(** [2^e] *)
Definition bpow (e : Z) : R := powerRZ 2 e.

(** The real number that a binary floating-point number stands for; the
    infinities and NaN stand for no number, and are given 0. *)
Definition SF2R (x : spec_float) : R :=
  match x with
  | S754_finite s m e => IZR (cond_Zopp s (Zpos m)) * bpow e
  | _ => 0
  end.

(** The real number that the binary64 number [x] stands for. *)
Definition valueOf (x : float) : R := SF2R (Prim2SF x).

(** Zero, or a finite number above it. *)
Definition nonnegative (x : spec_float) : Prop :=
  match x with
  | S754_zero _ | S754_finite false _ _ => True
  | _ => False
  end.

(** [m * 2^e <= v < (m + 1) * 2^e], with [v = m * 2^e] exactly when
    [exact] says so. *)
Definition inbetween (m : Z) (exact : bool) (e : Z) (v : R) : Prop :=
  IZR m * bpow e <= v < IZR (m + 1) * bpow e /\
  (if exact then v = IZR m * bpow e else IZR m * bpow e < v).

(** Nothing but zeros has been shifted out of the mantissa of [mrs]. *)
Definition exactly (mrs : shr_record) : bool := negb (shr_r mrs || shr_s mrs).

(** The location [l] is that of the number itself. *)
Definition isExact (l : location) : bool :=
  match l with loc_Exact => true | loc_Inexact _ => false end.

(** The sum of the numbers that the elements of [l] stand for. *)
Fixpoint sumOf (l : list float) : R :=
  match l with
  | [] => 0
  | x :: l' => valueOf x + sumOf l'
  end.

(** [|x - 1.0| < 1e-6], of the number that [x] stands for. *)
Definition nearOne (x : float) : Prop := Rabs (valueOf x - 1) < 1e-6.

End Binary64.

(** [0 <= x && x <= 1], by the comparisons of binary64. *)
Definition fraction (x : float) : bool := PrimFloat.leb 0 x && PrimFloat.leb x 1.

(** The six weights are fractions. *)
Definition fractions (w : PriorityWeights float) : bool :=
  forallb fraction (PriorityPanel.values PriorityPanel.binary64 w).

(** A value that a slider can give: its [min] is 0 and its [max] is 100. *)
Definition sliderValue (value : float) : bool :=
  PrimFloat.leb 0 value && PrimFloat.leb value 100.

(** The records that the page can hold: those it starts from, and what
    [handleWeightChange] makes of a record it holds when a slider gives a
    value. *)
Inductive held : PriorityWeights float -> Prop :=
| held_page w : In w pageRecords -> held w
| held_change w field value :
    held w -> sliderValue value = true ->
    held (PriorityPanel.handleWeightChange PriorityPanel.binary64 w field value).

(** **** Findings *)

(** What the validator reports, finding by finding: each constructor is
    one [errors.push] of [src/lib/validation.ts], with the conditions under
    which it is reached. *)
Inductive finding (this : DataValidator.this_t) : ValidationError.t -> Prop :=
| missing_finding client field_ :
    In client (DataValidator.clients this) ->
    In field_ DataValidator.requiredClientFields ->
    DataValidator.not_ (DataValidator.clientField client field_)
    || DataValidator.isEmptyString (DataValidator.clientField client field_) = true ->
    finding this (DataValidator.missingField client field_)
| duplicateClient_finding client :
    In client (laterOccurrences ClientID (DataValidator.clients this)) ->
    finding this (DataValidator.duplicateClient client)
| duplicateWorker_finding worker :
    In worker (laterOccurrences WorkerID (DataValidator.workers this)) ->
    finding this (DataValidator.duplicateWorker worker)
| duplicateTask_finding task :
    In task (laterOccurrences TaskID (DataValidator.tasks this)) ->
    finding this (DataValidator.duplicateTask task)
| malformed_finding worker slots :
    In worker (DataValidator.workers this) ->
    JS.JSON_parse (AvailableSlots worker) = JS.Normal slots ->
    negb (JS.isArray slots) || negb (forallb JS.isNumber (JS.elements slots)) = true ->
    finding this (DataValidator.malformedSlots worker)
| invalid_finding worker e :
    In worker (DataValidator.workers this) ->
    JS.JSON_parse (AvailableSlots worker) = JS.Throw e ->
    finding this (DataValidator.invalidSlots worker)
| priority_finding client :
    In client (DataValidator.clients this) ->
    PriorityLevel client < 1 \/ 5 < PriorityLevel client ->
    finding this (DataValidator.priorityRange client)
| duration_finding task :
    In task (DataValidator.tasks this) ->
    Duration task < 1 ->
    finding this (DataValidator.durationRange task)
| broken_finding client e :
    In client (DataValidator.clients this) ->
    JS.trim (AttributesJSON client) <> "" ->
    JS.JSON_parse (AttributesJSON client) = JS.Throw e ->
    finding this (DataValidator.brokenJSON client)
| unknown_finding client taskId :
    In client (DataValidator.clients this) ->
    RequestedTaskIDs client <> "" ->
    In taskId (Pushed.pieces (RequestedTaskIDs client)) ->
    ~ In taskId (map TaskID (DataValidator.tasks this)) ->
    finding this (DataValidator.unknownTask client taskId)
| overloaded_finding worker slots :
    In worker (DataValidator.workers this) ->
    JS.JSON_parse (AvailableSlots worker) = JS.Normal slots ->
    JS.isArray slots = true ->
    Z.of_nat (length (JS.elements slots)) < MaxLoadPerPhase worker ->
    finding this (DataValidator.overloaded worker slots)
| coverage_finding task skill :
    In task (DataValidator.tasks this) ->
    In skill (Pushed.pieces (RequiredSkills task)) ->
    ~ In skill (Pushed.allSkills (DataValidator.workers this)) ->
    finding this (DataValidator.skillCoverage task skill)
| concurrency_finding task :
    In task (DataValidator.tasks this) ->
    Z.of_nat (length (Pushed.qualified (DataValidator.workers this) task))
    < MaxConcurrent task ->
    finding this
      (DataValidator.maxConcurrent task (Pushed.qualified (DataValidator.workers this) task)).

(** [error.type === 'warning'] *)
Definition isWarning (e : ValidationError.t) : bool :=
  match ValidationError.type e with
  | warning => true
  | error => false
  end.

(** The identifiers of the rows of the grid of each entity. *)
Definition rowIds (this : DataValidator.this_t) (e : Entity.t) : list string :=
  match e with
  | Entity.client => map ClientID (DataValidator.clients this)
  | Entity.worker => map WorkerID (DataValidator.workers this)
  | Entity.task => map TaskID (DataValidator.tasks this)
  end.

(** The fields that the interface of each entity declares: the columns of
    its grid. *)
Definition declaredFields (e : Entity.t) : list string :=
  match e with
  | Entity.client =>
      ["ClientID"; "ClientName"; "PriorityLevel"; "RequestedTaskIDs"; "GroupTag";
       "AttributesJSON"]
  | Entity.worker =>
      ["WorkerID"; "WorkerName"; "Skills"; "AvailableSlots"; "MaxLoadPerPhase";
       "WorkerGroup"; "QualificationLevel"]
  | Entity.task =>
      ["TaskID"; "TaskName"; "Category"; "Duration"; "RequiredSkills"; "PreferredPhases";
       "MaxConcurrent"]
  end.

(** [AvailableSlots] holds a JSON array of numbers, of at least
    [MaxLoadPerPhase] elements. *)
Definition slotsSuffice (worker : Worker) : Prop :=
  exists slots,
    JS.JSON_parse (AvailableSlots worker) = JS.Normal slots /\
    JS.isArray slots = true /\
    forallb JS.isNumber (JS.elements slots) = true /\
    MaxLoadPerPhase worker <= Z.of_nat (length (JS.elements slots)).

(** A data set with nothing to report. *)
Record clean (this : DataValidator.this_t) : Prop := {
  clean_clientIDs : List.NoDup (map ClientID (DataValidator.clients this));
  clean_workerIDs : List.NoDup (map WorkerID (DataValidator.workers this));
  clean_taskIDs : List.NoDup (map TaskID (DataValidator.tasks this));
  clean_clients : forall client, In client (DataValidator.clients this) ->
    ClientID client <> "" /\
    ClientName client <> "" /\
    1 <= PriorityLevel client <= 5 /\
    (JS.trim (AttributesJSON client) = ""
     \/ exists value, JS.JSON_parse (AttributesJSON client) = JS.Normal value) /\
    (RequestedTaskIDs client = ""
     \/ forall taskId, In taskId (Pushed.pieces (RequestedTaskIDs client)) ->
          In taskId (map TaskID (DataValidator.tasks this)));
  clean_workers : forall worker, In worker (DataValidator.workers this) ->
    slotsSuffice worker;
  clean_tasks : forall task, In task (DataValidator.tasks this) ->
    1 <= Duration task /\
    (forall skill, In skill (Pushed.pieces (RequiredSkills task)) ->
       In skill (Pushed.allSkills (DataValidator.workers this))) /\
    MaxConcurrent task
    <= Z.of_nat (length (Pushed.qualified (DataValidator.workers this) task))
}.

(** **** Corrections *)

(** The requested tasks of [client] that [suggestCorrections] counts as
    complex: the first task with the requested ID is. *)
Definition complexRequests (tasks : list Task) (client : Client) : list string :=
  List.filter (fun taskId =>
    match List.find (fun t => String.eqb (TaskID t) taskId) tasks with
    | Some task => Corrections.complex task
    | None => false
    end) (Pushed.pieces (RequestedTaskIDs client)).

(** What [suggestCorrections] pushes for one client. *)
Definition correctionsFor (tasks : list Task) (client : Client) : list Correction.t :=
  if DataValidator.truthy (RequestedTaskIDs client)
     && (0 <? length (complexRequests tasks client))%nat
     && (PriorityLevel client <? 3)
  then [Corrections.priorityCorrection client (complexRequests tasks client)]
  else [].

(** [client] with the priority [level], and every other field as it is. *)
Definition withPriority (client : Client) (level : Z) : Client :=
  {| ClientID := ClientID client; ClientName := ClientName client;
     PriorityLevel := level; RequestedTaskIDs := RequestedTaskIDs client;
     GroupTag := GroupTag client; AttributesJSON := AttributesJSON client |}.

(** [clients] with the priority of every client of the given [ID] set to
    [level], in the same order. *)
Definition prioritised (ID : string) (level : Z) (clients : list Client) : list Client :=
  map (fun client =>
         if String.eqb (ClientID client) ID then withPriority client level else client)
    clients.

(** The corrections of [corrections] that are not for the entity [ID]. *)
Definition notFor (ID : string) (corrections : list Correction.t) : list Correction.t :=
  List.filter (fun c => negb (String.eqb (Correction.id c) ID)) corrections.

(** One finding counted in the summary of the panel. *)
Definition tally (summary : ValidationPanel.Summary) (e : ValidationError.t)
  : ValidationPanel.Summary :=
  let entity := ValidationError.entity e in
  match ValidationError.type e with
  | error =>
      ValidationPanel.setCounts summary entity
        {| ValidationPanel.errors :=
             S (ValidationPanel.errors (ValidationPanel.counts summary entity));
           ValidationPanel.warnings :=
             ValidationPanel.warnings (ValidationPanel.counts summary entity) |}
  | warning =>
      ValidationPanel.setCounts summary entity
        {| ValidationPanel.errors :=
             ValidationPanel.errors (ValidationPanel.counts summary entity);
           ValidationPanel.warnings :=
             S (ValidationPanel.warnings (ValidationPanel.counts summary entity)) |}
  end.

(** **** Comma-separated values *)

(** One turn of the loop of [parseCSVLine]. *)
Definition csvStep (state : list string * string * bool) (char : ascii)
  : list string * string * bool :=
  let '(result, current, inQuotes) := state in
  if Ascii.eqb char JS.quote then (result, current, negb inQuotes)
  else if Ascii.eqb char "," && negb inQuotes
       then (result ++ [JS.trim current], "", inQuotes)
       else (result, current +:+ String char "", inQuotes).

(** The text that a value stands for in an exported cell: the empty text
    for the values that are falsy. *)
Definition shown (value : DataValidator.FieldValue) : string :=
  match value with
  | DataValidator.VString s => s
  | DataValidator.VNumber n => if n =? 0 then "" else JS.showZ n
  | DataValidator.VUndefined => ""
  end.

(** The code unit [c] does not occur in [s]. *)
Definition lacks (c : ascii) (s : string) : Prop :=
  JS.includes s (String c "") = false.

(** A cell of an exported line and the text it holds: the text itself
    when it has neither comma nor quote, the text between quotes when it
    has no quote. *)
Definition holds (text content : string) : Prop :=
  lacks JS.quote content /\
  ((text = content /\ lacks "," content) \/ text = JS.dq +:+ content +:+ JS.dq).

(** The code units that are left when the white space at the head is
    dropped. *)
Fixpoint dropSpace (l : list ascii) : list ascii :=
  match l with
  | [] => []
  | c :: l' => if JS.isWhiteSpace c then dropSpace l' else l
  end.

(** A field as [parseCSVLine] returns them: without quotes and trimmed. *)
Definition bare (value : string) : Prop :=
  JS.includes value JS.dq = false /\ JS.trim value = value.

(** **** Skill gaps *)

(** Every skill that every task lists as required. *)
Definition requiredSkills (tasks : list Task) : list string :=
  flat_map (fun task => Pushed.pieces (RequiredSkills task)) tasks.

(** How many times [l] lists the skill [k]. *)
Definition listings (k : string) (l : list string) : Z :=
  Z.of_nat (occurrences (fun s => s) k l).

(** The skills of [l], each once, in the order in which they first occur. *)
Definition distinct (l : list string) : list string := firstOccurrences (fun s => s) l.

(** What [analyzeSkillGaps] pushes for a skill in demand. *)
Definition gapFor (supply : JS.Map Z) (entry : string * Z) : list AIEngine.SkillGap :=
  let '(skill_, demand) := entry in
  let supply := match JS.mapGet supply skill_ with Some n => n | None => 0%Z end in
  let ratio := (JS.ofZ supply / JS.ofZ demand)%float in
  if (ratio <? 0.5)%float
  then [{| AIEngine.skill := skill_;
           AIEngine.taskCount := demand;
           AIEngine.workerCount := supply;
           AIEngine.gap_confidence :=
             JS.Math_min 0.9 (0.5 + JS.ofZ (demand - supply) * 0.1) |}]
  else [].

(** **** Headers *)

(** The three tables of [mapHeaders], spread into one. *)
Definition allMappings : JS.Map string :=
  Headers.spread (Headers.spread Headers.clientFieldMappings Headers.workerFieldMappings)
    Headers.taskFieldMappings.

(** The form under which [mapHeaders] looks a header up. *)
Definition normalized (header : string) : string :=
  Headers.underscore (JS.toLowerCase header).

(** What [mapHeaders] finds for a normalised header: the property of that
    name or else the property of the first key that contains it or that it
    contains. *)
Definition found (normalizedHeader : string) : Headers.Value :=
  if Headers.truthy (Headers.property allMappings normalizedHeader)
  then Headers.property allMappings normalizedHeader
  else match List.find (fun key =>
                 JS.includes key normalizedHeader || JS.includes normalizedHeader key)
               (map fst allMappings) with
       | Some bestMatch => Headers.property allMappings bestMatch
       | None => Headers.Undefined
       end.

(** [name] is a field that the interface of some entity declares. *)
Definition declared (name : string) : bool :=
  existsb (fun e => JS.arrayIncludes (declaredFields e) name)
    [Entity.client; Entity.worker; Entity.task].

(** **** Recommendations *)

(** [a] and [b] are recommendations of one type. *)
Definition sameKind (a b : AIRuleRecommendation.t) : bool :=
  match AIRuleRecommendation.type a, AIRuleRecommendation.type b with
  | coRun, coRun | slotRestriction, slotRestriction | loadLimit, loadLimit
  | phaseWindow, phaseWindow | patternMatch, patternMatch
  | precedenceOverride, precedenceOverride => true
  | _, _ => false
  end.

(** A recommendation as [generateRuleRecommendations] makes them, at the
    clock reading [now]. *)
Inductive madeAt (now : Z) : AIRuleRecommendation.t -> Prop :=
| made_coRun group : madeAt now (AIEngine.coRunRecommendation now group)
| made_loadLimit group : madeAt now (AIEngine.loadLimitRecommendation now group)
| made_skill gap : madeAt now (AIEngine.skillRecommendation now gap).

(** **** Search *)

(** The word by which a query asks for an entity. *)
Definition entityWord (e : Entity.t) : string :=
  match e with
  | Entity.client => "client"
  | Entity.worker => "worker"
  | Entity.task => "task"
  end.

(** [rows] are rows of the collection of the entity [e], selected by a
    test on each row, and there is at least one. *)
Definition selectedFrom (this : AIEngine.this_t) (e : Entity.t) (rows : Rows) : Prop :=
  match e, rows with
  | Entity.client, clientRows l =>
      l <> [] /\ exists test, l = List.filter test (AIEngine.clients this)
  | Entity.worker, workerRows l =>
      l <> [] /\ exists test, l = List.filter test (AIEngine.workers this)
  | Entity.task, taskRows l =>
      l <> [] /\ exists test, l = List.filter test (AIEngine.tasks this)
  | _, _ => False
  end.

(** What a callback of [filter] answers, when it answers. *)
Definition answer (c : JS.completion bool) : bool :=
  match c with
  | JS.Normal b => b
  | JS.Throw _ => false
  end.

(** The result of [results] for the entity [e] lists the row. *)
Definition listsClient (results : list AISearchResult.t) (client : Client) : Prop :=
  exists r l, In r results /\ AISearchResult.entity r = Entity.client /\
              AISearchResult.matches r = clientRows l /\ In client l.

Definition listsWorker (results : list AISearchResult.t) (worker : Worker) : Prop :=
  exists r l, In r results /\ AISearchResult.entity r = Entity.worker /\
              AISearchResult.matches r = workerRows l /\ In worker l.

Definition listsTask (results : list AISearchResult.t) (task : Task) : Prop :=
  exists r l, In r results /\ AISearchResult.entity r = Entity.task /\
              AISearchResult.matches r = taskRows l /\ In task l.
(** **** Sample records *)

(** A client with nothing to report. *)
Definition client_C001 : Client :=
  {| ClientID := "C001"; ClientName := "Acme"; PriorityLevel := 5;
     RequestedTaskIDs := ""; GroupTag := "A"; AttributesJSON := "" |}.

(** The duplicate-ID errors of [errors] for the collection whose
    identifiers start with [tag], about the entity [ID]. *)
Definition duplicatesOf (tag ID : string) (errors : list ValidationError.t)
  : list ValidationError.t :=
  List.filter (fun e => JS.startsWith (ValidationError.id e) tag
                        && String.eqb (ValidationError.entityId e) ID) errors.

(** A worker with the given [AvailableSlots] and [MaxLoadPerPhase]. *)
Definition worker_W1 (slots : string) (maxLoad : Z) : Worker :=
  {| WorkerID := "W1"; WorkerName := "Ann"; Skills := "welding"; AvailableSlots := slots;
     MaxLoadPerPhase := maxLoad; WorkerGroup := "G1"; QualificationLevel := 1 |}.

(** A client whose [AttributesJSON] does not parse. *)
Definition client_broken : Client :=
  {| ClientID := "C7"; ClientName := "Bolt"; PriorityLevel := 2;
     RequestedTaskIDs := ""; GroupTag := "A"; AttributesJSON := "{broken" |}.

(** A client with the given [RequestedTaskIDs]. *)
Definition client_requesting (ids : string) : Client :=
  {| ClientID := "C1"; ClientName := "Acme"; PriorityLevel := 5;
     RequestedTaskIDs := ids; GroupTag := "A"; AttributesJSON := "" |}.

(** A task with the given [TaskID] and [RequiredSkills]. *)
Definition task_with (id skills : string) : Task :=
  {| TaskID := id; TaskName := "Weld"; Category := "Assembly"; Duration := 2;
     RequiredSkills := skills; PreferredPhases := "[1,2]"; MaxConcurrent := 1 |}.

(** A clock that advances by a millisecond at each reading. *)
Definition ticking : nat -> Z := fun n => 1700000000000 + Z.of_nat n.

(** The confidence of a group of two tasks. *)
Definition confidenceOfTwo : float := JS.Math_min 0.9 (0.5 + JS.ofNat 2 * 0.1).


(** A client whose [PriorityLevel] cell holds 0. *)
Definition client_unranked : Client :=
  {| ClientID := "C9"; ClientName := "Zero"; PriorityLevel := 0;
     RequestedTaskIDs := ""; GroupTag := "B"; AttributesJSON := "" |}.

(** A data set of one welder and one task that asks for painting. *)
Definition paintingUncovered : DataValidator.this_t :=
  DataValidator.new [] [worker_W1 "[1,2]" 1] [task_with "T1" "painting"].

(** The sample data of the parser, as the validator is given them. *)
Definition sampleData : DataValidator.this_t :=
  let '(clients, workers, tasks) := FileParser.generateSampleData in
  DataValidator.new clients workers tasks.

(** A client of the lowest priority with the given [ClientID], who
    requests the task [T1]. *)
Definition client_low (ID : string) : Client :=
  {| ClientID := ID; ClientName := "Low"; PriorityLevel := 1;
     RequestedTaskIDs := "T1"; GroupTag := "A"; AttributesJSON := "" |}.

(** A task that lasts five phases. *)
Definition task_long : Task :=
  {| TaskID := "T1"; TaskName := "Weld"; Category := "Assembly"; Duration := 5;
     RequiredSkills := "welding"; PreferredPhases := "[1,2]"; MaxConcurrent := 1 |}.

(** A row of three cells, the second written between quotes. *)
Definition row_Acme : ExportPanel.Row :=
  fun header =>
    if String.eqb header "ClientID" then DataValidator.VString "C1"
    else if String.eqb header "ClientName" then DataValidator.VString "Acme, Inc."
    else if String.eqb header "PriorityLevel" then DataValidator.VNumber 3
    else DataValidator.VUndefined.

(** Four tasks, in two pairs with the same required skill, and a worker
    for each skill. *)
Definition twoPairs : AIEngine.this_t :=
  AIEngine.new []
    [worker_W1 "[1,2]" 1;
     {| WorkerID := "W2"; WorkerName := "Bob"; Skills := "painting";
        AvailableSlots := "[1,2]"; MaxLoadPerPhase := 1; WorkerGroup := "G1";
        QualificationLevel := 1 |}]
    [task_with "T1" "welding"; task_with "T2" "welding";
     task_with "T3" "painting"; task_with "T4" "painting"].

(** The recommendation to run the first pair together, made at the clock
    reading 1700000000000. *)
Definition firstPair : AIRuleRecommendation.t :=
  AIEngine.coRunRecommendation 1700000000000
    {| AIEngine.group_tasks := ["T1"; "T2"]; AIEngine.commonSkills := ["welding"];
       AIEngine.group_confidence := confidenceOfTwo |}.

(** A task without a name. *)
Definition task_unnamed : Task :=
  {| TaskID := "T5"; TaskName := ""; Category := "Assembly"; Duration := 2;
     RequiredSkills := "welding"; PreferredPhases := "[1,2]"; MaxConcurrent := 1 |}.
(* ===================================================================== *)
(** ** The run-time operations on small inputs                            *)
(* ===================================================================== *)

Example split_then_trim :
  map JS.trim (JS.split "," " T1 , T2,,T3 ") = ["T1"; "T2"; ""; "T3"].
Proof. reflexivity. Qed.

Example split_of_empty : JS.split "," "" = [""].
Proof. reflexivity. Qed.

Example sort_keeps_repeats : JS.sort ["b"; "a"; "c"; "a"] = ["a"; "a"; "b"; "c"].
Proof. reflexivity. Qed.

Example parse_array_of_numbers :
  JS.JSON_parse " [1, 2.5e3 ,-0] "
  = JS.Normal (JS.JArray [JS.JNumber "1"; JS.JNumber "2.5e3"; JS.JNumber "-0"]).
Proof. reflexivity. Qed.

Example parse_nested :
  JS.JSON_parse "[[[[[[1]]]]],{},[true,null]]"
  = JS.Normal (JS.JArray
      [JS.JArray [JS.JArray [JS.JArray [JS.JArray [JS.JArray [JS.JNumber "1"]]]]];
       JS.JObject []; JS.JArray [JS.JBool true; JS.JNull]]).
Proof. reflexivity. Qed.

Example parse_comma_list_throws :
  JS.JSON_parse "1,2,3" = JS.Throw (JS.SyntaxError "Unexpected token in JSON").
Proof. reflexivity. Qed.

Example parse_trailing_comma_throws :
  JS.JSON_parse "[1,2,]" = JS.Throw (JS.SyntaxError "Unexpected token in JSON").
Proof. reflexivity. Qed.

Example parse_leading_zero_throws :
  JS.JSON_parse "[01]" = JS.Throw (JS.SyntaxError "Unexpected token in JSON").
Proof. reflexivity. Qed.

(** The greedy group of [taskPattern] takes every letter, digit, comma and
    space after the word. *)
Example taskPattern_captures_to_the_end :
  option_map (RegExp.group 1)
    (RegExp.match_ "tasks t001 and t002 must run together" AIEngine.taskPattern)
  = Some (Some "t001 and t002 must run together").
Proof. reflexivity. Qed.

(** [limitPattern] takes the first run of digits that a [task] follows. *)
Example limitPattern_first_digits :
  option_map (RegExp.group 1)
    (RegExp.match_ "no more than 12 tasks in phase 3" AIEngine.limitPattern)
  = Some (Some "12").
Proof. reflexivity. Qed.

Example phasePattern_range_and_list :
  option_map (RegExp.group 1) (RegExp.match_ "only in phases 2-4" AIEngine.phasePattern)
  = Some (Some "2-4") /\
  option_map (RegExp.group 1) (RegExp.match_ "must be in phase [1,3,5]" AIEngine.phasePattern)
  = Some (Some "[1,3,5]").
Proof. split; reflexivity. Qed.

Example floor_of_negative : JS.Math_floor (-2.5)%float = -3.
Proof. reflexivity. Qed.

(* ===================================================================== *)
(** ** Part VIII.  Properties of the validator                           *)
(* ===================================================================== *)

(** *** Loops *)

Lemma forEach_app {A S} (l1 l2 : list A) (body : S -> A -> JS.completion S) (s : S) :
  JS.forEach (l1 ++ l2) body s = JS.bind (JS.forEach l1 body s) (JS.forEach l2 body).
Proof.
  revert s; induction l1 as [|x l1 IH]; intros s; simpl; [reflexivity|].
  destruct (body s x) as [s'|e]; simpl; [apply IH | reflexivity].
Qed.

(** A loop whose callback only pushes onto [errors] what [g] says, and
    never throws, returns the pushes of every iteration, in order. *)
Lemma forEach_pushes {A E} (l : list A) (body : list E -> A -> JS.completion (list E))
    (g : A -> list E) :
  (forall errors x, body errors x = JS.Normal (errors ++ g x)) ->
  forall errors, JS.forEach l body errors = JS.Normal (errors ++ flat_map g l).
Proof.
  intros Hbody; induction l as [|x l IH]; intros errors; simpl.
  - now rewrite app_nil_r.
  - rewrite Hbody; simpl. rewrite IH. now rewrite <- app_assoc.
Qed.

Lemma forEach_pushes0 {A E} (l : list A) (body : list E -> A -> JS.completion (list E))
    (g : A -> list E) :
  (forall errors x, body errors x = JS.Normal (errors ++ g x)) ->
  JS.forEach l body [] = JS.Normal (flat_map g l).
Proof. intros H. now rewrite (forEach_pushes l body g H []). Qed.

(** *** Identifiers of errors *)

Lemma prefix_append (p s : string) : String.prefix p (p +:+ s) = true.
Proof.
  induction p as [|c p IH]; simpl; [now destruct s|].
  destruct (ascii_dec c c); [exact IH | congruence].
Qed.

Lemma prefix_comparable (p q s : string) :
  String.prefix p s = true -> String.prefix q s = true ->
  String.prefix p q = true \/ String.prefix q p = true.
Proof.
  revert p q; induction s as [|c s IH]; intros p q Hp Hq.
  - destruct p; [|discriminate Hp]. left; now destruct q.
  - destruct p as [|a p]; [left; now destruct q|].
    destruct q as [|b q]; [right; reflexivity|].
    simpl in *.
    destruct (ascii_dec a c) as [->|]; [|discriminate Hp].
    destruct (ascii_dec b c) as [->|]; [|discriminate Hq].
    destruct (ascii_dec c c); [|congruence].
    now apply IH.
Qed.

Lemma tagged_app tag l1 l2 : tagged tag (l1 ++ l2) = tagged tag l1 ++ tagged tag l2.
Proof. apply List.filter_app. Qed.

Lemma tagged_all tag l : allTagged [tag] l -> tagged tag l = l.
Proof.
  induction 1 as [|e l He _ IH]; simpl; [reflexivity|].
  unfold tagged in *; simpl in *. rewrite orb_false_r in He. rewrite He. now f_equal.
Qed.

Lemma tagged_other tag tags l :
  allTagged tags l -> apart tag tags = true -> tagged tag l = [].
Proof.
  intros Hall Hap; induction Hall as [|e l He _ IH]; [reflexivity|].
  unfold tagged in *; simpl.
  destruct (JS.startsWith (ValidationError.id e) tag) eqn:Ht; [|exact IH].
  apply existsb_exists in He. destruct He as (tag' & Hin & Ht').
  unfold apart in Hap. rewrite forallb_forall in Hap. specialize (Hap _ Hin).
  destruct (prefix_comparable _ _ _ Ht Ht') as [H|H]; rewrite H in Hap;
    [discriminate | now rewrite andb_false_r in Hap].
Qed.

Lemma allTagged_flat_map {A} tags (g : A -> list ValidationError.t) (l : list A) :
  (forall x, allTagged tags (g x)) -> allTagged tags (flat_map g l).
Proof.
  intros Hg; induction l as [|x l IH]; simpl; [constructor|].
  apply Forall_app; split; [apply Hg | exact IH].
Qed.

Lemma allTagged_map {A} tags (f : A -> ValidationError.t) (l : list A) :
  (forall x, allTagged tags [f x]) -> allTagged tags (map f l).
Proof.
  intros Hf; induction l as [|x l IH]; simpl; [constructor|].
  constructor; [|exact IH]. specialize (Hf x). now inversion Hf.
Qed.

Lemma allTagged_one tag e :
  JS.startsWith (ValidationError.id e) tag = true -> allTagged [tag] [e].
Proof. intros H. constructor; [simpl; now rewrite H | constructor]. Qed.

Lemma allTagged_nil tags : allTagged tags [].
Proof. constructor. Qed.

Lemma allTagged_weaken tag tags l : In tag tags -> allTagged [tag] l -> allTagged tags l.
Proof.
  intros Hin. apply List.Forall_impl. intros e He. simpl in He. rewrite orb_false_r in He.
  apply existsb_exists. now exists tag.
Qed.

(** *** Sets of strings *)

Lemma arrayIncludes_In (l : list string) (x : string) :
  JS.arrayIncludes l x = true <-> In x l.
Proof.
  unfold JS.arrayIncludes. rewrite existsb_exists. split.
  - intros (y & Hy & Heq). apply String.eqb_eq in Heq. now subst.
  - intros Hx. exists x. split; [exact Hx | apply String.eqb_refl].
Qed.

Lemma setHas_setOf (l : list string) (x : string) :
  JS.setHas (JS.setOf l) x = JS.arrayIncludes l x.
Proof.
  unfold JS.setHas, JS.setOf.
  destruct (JS.arrayIncludes l x) eqn:Hx.
  - apply bool_decide_eq_true. apply elem_of_list_to_set, list_elem_of_In.
    now apply arrayIncludes_In.
  - apply bool_decide_eq_false. intros Hin.
    apply elem_of_list_to_set, list_elem_of_In, arrayIncludes_In in Hin. congruence.
Qed.

Lemma setAdd_setOf (l : list string) (x : string) :
  JS.setAdd (JS.setOf l) x = JS.setOf (l ++ [x]).
Proof.
  unfold JS.setAdd, JS.setOf. rewrite list_to_set_app_L. simpl.
  now rewrite (right_id_L ∅ (∪)).
Qed.

Lemma flat_map_filter {A B} (p : A -> bool) (f : A -> B) (l : list A) :
  flat_map (fun x => if p x then [f x] else []) l = map f (List.filter p l).
Proof.
  induction l as [|x l IH]; simpl; [reflexivity|].
  destruct (p x); simpl; now rewrite IH.
Qed.

Lemma flat_map_ext_on {A B} (f g : A -> list B) (l : list A) :
  (forall x, In x l -> f x = g x) -> flat_map f l = flat_map g l.
Proof.
  induction l as [|x l IH]; intros H; simpl; [reflexivity|].
  rewrite H by now left. rewrite IH; [reflexivity|]. intros y Hy. apply H. now right.
Qed.

(** *** Later occurrences *)

Lemma laterOccurrences_snoc {A} (key : A -> string) (l : list A) (x : A) :
  laterOccurrences key (l ++ [x]) =
  laterOccurrences key l ++ (if JS.arrayIncludes (map key l) (key x) then [x] else []).
Proof.
  unfold laterOccurrences.
  rewrite length_app; simpl. rewrite Nat.add_1_r, seq_S, flat_map_app; simpl.
  rewrite app_nil_r. f_equal.
  - apply flat_map_ext_on. intros i Hi. apply in_seq in Hi.
    rewrite nth_error_app1 by lia.
    rewrite firstn_app. replace (i - length l)%nat with 0%nat by lia.
    simpl. now rewrite app_nil_r.
  - rewrite nth_error_app2 by lia. rewrite Nat.sub_diag; simpl.
    rewrite firstn_app, Nat.sub_diag, firstn_all; simpl. now rewrite app_nil_r.
Qed.

Lemma occurrences_snoc {A} (key : A -> string) k (l : list A) (x : A) :
  occurrences key k (l ++ [x]) =
  (occurrences key k l + (if String.eqb (key x) k then 1 else 0))%nat.
Proof.
  unfold occurrences. rewrite List.filter_app, length_app. simpl.
  now destruct (String.eqb (key x) k).
Qed.

Lemma occurrences_zero {A} (key : A -> string) k (l : list A) :
  occurrences key k l = 0%nat <-> JS.arrayIncludes (map key l) k = false.
Proof.
  unfold occurrences. induction l as [|x l IH]; simpl; [tauto|].
  rewrite (String.eqb_sym k (key x)).
  destruct (String.eqb (key x) k); simpl; [split; discriminate | exact IH].
Qed.

(** An identifier occurring [n] times is flagged [n - 1] times. *)
Lemma occurrences_later {A} (key : A -> string) k (l : list A) :
  occurrences key k (laterOccurrences key l) = Nat.pred (occurrences key k l).
Proof.
  induction l as [|x l IH] using rev_ind; [reflexivity|].
  rewrite laterOccurrences_snoc.
  unfold occurrences at 1. rewrite List.filter_app, length_app.
  fold (occurrences key k (laterOccurrences key l)). rewrite IH, occurrences_snoc.
  destruct (String.eqb (key x) k) eqn:Hk.
  - apply String.eqb_eq in Hk. subst k.
    destruct (JS.arrayIncludes (map key l) (key x)) eqn:Hin; simpl.
    + rewrite String.eqb_refl; simpl.
      assert (occurrences key (key x) l <> 0%nat).
      { intros H0. apply occurrences_zero in H0. congruence. }
      lia.
    + apply occurrences_zero in Hin. rewrite Hin. reflexivity.
  - destruct (JS.arrayIncludes (map key l) (key x)); simpl; [rewrite Hk|]; simpl; lia.
Qed.

(** *** Each check, as the list of what it pushes *)

Section Checks.
Import DataValidator.
Variable this : this_t.

Lemma validateMissingColumns_eq :
  validateMissingColumns this = JS.Normal (flat_map Pushed.missing (clients this)).
Proof.
  unfold validateMissingColumns.
  apply (forEach_pushes0 _ _ Pushed.missing). intros errors client.
  unfold Pushed.missing. apply forEach_pushes. intros errs field_.
  destruct (_ || _); [reflexivity | now rewrite app_nil_r].
Qed.

Lemma duplicateLoop_eq {A} (key : A -> string) (mk : A -> ValidationError.t)
    (l : list A) (errors : list ValidationError.t) :
  duplicateLoop key mk l errors =
  JS.Normal (JS.setOf (map key l), errors ++ map mk (laterOccurrences key l)).
Proof.
  unfold duplicateLoop.
  induction l as [|x l IH] using rev_ind.
  - simpl. now rewrite app_nil_r.
  - rewrite forEach_app, IH. simpl.
    rewrite setHas_setOf, setAdd_setOf, map_app, laterOccurrences_snoc, map_app.
    simpl. destruct (JS.arrayIncludes (map key l) (key x)); simpl.
    + unfold push. now rewrite <- app_assoc.
    + now rewrite app_nil_r.
Qed.

Lemma validateDuplicateIDs_eq :
  validateDuplicateIDs this = JS.Normal (Pushed.duplicates this).
Proof.
  unfold validateDuplicateIDs, Pushed.duplicates.
  rewrite duplicateLoop_eq; simpl. rewrite duplicateLoop_eq; simpl.
  rewrite duplicateLoop_eq; simpl. now rewrite <- app_assoc.
Qed.

Lemma validateMalformedLists_eq :
  validateMalformedLists this = JS.Normal (flat_map Pushed.malformed (workers this)).
Proof.
  unfold validateMalformedLists.
  apply (forEach_pushes0 _ _ Pushed.malformed). intros errors worker.
  unfold Pushed.malformed.
  destruct (JS.JSON_parse (AvailableSlots worker)) as [slots|e]; simpl; [|reflexivity].
  destruct (_ || _); simpl; [reflexivity | now rewrite app_nil_r].
Qed.

Lemma validateOutOfRangeValues_eq :
  validateOutOfRangeValues this =
  JS.Normal (flat_map Pushed.priority (clients this)
             ++ flat_map Pushed.duration (tasks this)).
Proof.
  unfold validateOutOfRangeValues.
  rewrite (forEach_pushes0 _ _ Pushed.priority); simpl.
  - apply (forEach_pushes _ _ Pushed.duration). intros errors task.
    unfold Pushed.duration. destruct (_ <? _); [reflexivity | now rewrite app_nil_r].
  - intros errors client. unfold Pushed.priority.
    destruct (_ || _); [reflexivity | now rewrite app_nil_r].
Qed.

Lemma validateBrokenJSON_eq :
  validateBrokenJSON this = JS.Normal (flat_map Pushed.broken (clients this)).
Proof.
  unfold validateBrokenJSON.
  apply (forEach_pushes0 _ _ Pushed.broken). intros errors client.
  unfold Pushed.broken. destruct (_ && _); [|now rewrite app_nil_r].
  destruct (JS.JSON_parse (AttributesJSON client)); simpl;
    [now rewrite app_nil_r | reflexivity].
Qed.

Lemma validateUnknownReferences_eq :
  validateUnknownReferences this =
  JS.Normal (flat_map (Pushed.unknown (tasks this)) (clients this)).
Proof.
  unfold validateUnknownReferences.
  apply (forEach_pushes0 _ _ (Pushed.unknown (tasks this))). intros errors client.
  unfold Pushed.unknown. destruct (truthy _); [|now rewrite app_nil_r].
  rewrite <- flat_map_filter. apply forEach_pushes. intros errs taskId.
  rewrite setHas_setOf. destruct (negb _); [reflexivity | now rewrite app_nil_r].
Qed.

Lemma validateOverloadedWorkers_eq :
  validateOverloadedWorkers this = JS.Normal (flat_map Pushed.overload (workers this)).
Proof.
  unfold validateOverloadedWorkers.
  apply (forEach_pushes0 _ _ Pushed.overload). intros errors worker.
  unfold Pushed.overload.
  destruct (JS.JSON_parse (AvailableSlots worker)) as [slots|e]; simpl;
    [|now rewrite app_nil_r].
  destruct (_ && _); simpl; [reflexivity | now rewrite app_nil_r].
Qed.

Lemma workerSkills_eq (l : list Worker) (seen : list string) :
  JS.forEach l (fun workerSkills worker =>
    JS.forEach (map JS.trim (JS.split "," (Skills worker)))
      (fun workerSkills skill => JS.Normal (JS.setAdd workerSkills skill))
      workerSkills) (JS.setOf seen)
  = JS.Normal (JS.setOf (seen ++ Pushed.allSkills l)).
Proof.
  revert seen; induction l as [|worker l IH]; intros seen; simpl.
  - now rewrite app_nil_r.
  - assert (Hin : forall (skills seen : list string),
      JS.forEach skills (fun workerSkills skill =>
        JS.Normal (JS.setAdd workerSkills skill)) (JS.setOf seen)
      = JS.Normal (JS.setOf (seen ++ skills))).
    { induction skills as [|skill skills IHs]; intros seen'; simpl.
      - now rewrite app_nil_r.
      - rewrite setAdd_setOf, IHs. now rewrite <- app_assoc. }
    rewrite Hin; simpl. rewrite IH. now rewrite <- app_assoc.
Qed.

Lemma validateSkillCoverage_eq :
  validateSkillCoverage this =
  JS.Normal (flat_map (Pushed.coverage (workers this)) (tasks this)).
Proof.
  unfold validateSkillCoverage.
  change (∅ : gset string) with (JS.setOf []).
  rewrite workerSkills_eq; simpl.
  apply (forEach_pushes0 _ _ (Pushed.coverage (workers this))). intros errors task.
  unfold Pushed.coverage. rewrite <- flat_map_filter.
  apply forEach_pushes. intros errs skill.
  rewrite setHas_setOf. destruct (negb _); [reflexivity | now rewrite app_nil_r].
Qed.

Lemma validateMaxConcurrency_eq :
  validateMaxConcurrency this =
  JS.Normal (flat_map (Pushed.concurrency (workers this)) (tasks this)).
Proof.
  unfold validateMaxConcurrency.
  apply (forEach_pushes0 _ _ (Pushed.concurrency (workers this))). intros errors task.
  unfold Pushed.concurrency, Pushed.qualified, Pushed.pieces.
  destruct (_ >? _); [reflexivity | now rewrite app_nil_r].
Qed.

(** [validateAll] returns, and what it returns is the pushes of the nine
    checks that push anything, in the order of the pipeline. *)
Lemma validateAll_eq : validateAll this = JS.Normal (Pushed.all this).
Proof.
  unfold validateAll.
  rewrite validateMissingColumns_eq, validateDuplicateIDs_eq, validateMalformedLists_eq,
    validateOutOfRangeValues_eq, validateBrokenJSON_eq, validateUnknownReferences_eq,
    validateOverloadedWorkers_eq, validateSkillCoverage_eq, validateMaxConcurrency_eq.
  unfold validateCircularCoRuns, validatePhaseSlotSaturation, validateConflictingRules.
  simpl. unfold pushAll, Pushed.all. simpl.
  rewrite !app_nil_r, <- !app_assoc. reflexivity.
Qed.

End Checks.

(** *** The identifiers each check uses *)

Section Tags.
Import DataValidator.

Local Ltac one_tag := apply allTagged_one; apply prefix_append.

Lemma missing_tag c : allTagged ["missing-"] (Pushed.missing c).
Proof.
  unfold Pushed.missing. apply allTagged_flat_map. intros f.
  destruct (_ || _); [one_tag | apply allTagged_nil].
Qed.

Lemma malformed_tag w : allTagged ["malformed-slots-"; "invalid-slots-"] (Pushed.malformed w).
Proof.
  unfold Pushed.malformed. destruct (JS.JSON_parse _).
  - destruct (_ || _); [|apply allTagged_nil].
    apply (allTagged_weaken "malformed-slots-"); [now left | one_tag].
  - apply (allTagged_weaken "invalid-slots-"); [right; now left | one_tag].
Qed.

Lemma priority_tag c : allTagged ["priority-range-"] (Pushed.priority c).
Proof. unfold Pushed.priority. destruct (_ || _); [one_tag | apply allTagged_nil]. Qed.

Lemma duration_tag t : allTagged ["duration-range-"] (Pushed.duration t).
Proof. unfold Pushed.duration. destruct (_ <? _); [one_tag | apply allTagged_nil]. Qed.

Lemma broken_tag c : allTagged ["broken-json-"] (Pushed.broken c).
Proof.
  unfold Pushed.broken. destruct (_ && _); [|apply allTagged_nil].
  destruct (JS.JSON_parse _); [apply allTagged_nil | one_tag].
Qed.

Lemma unknown_tag ts c : allTagged ["unknown-task-"] (Pushed.unknown ts c).
Proof.
  unfold Pushed.unknown. destruct (truthy _); [|apply allTagged_nil].
  apply allTagged_map. intros x. one_tag.
Qed.

Lemma overload_tag w : allTagged ["overloaded-"] (Pushed.overload w).
Proof.
  unfold Pushed.overload. destruct (JS.JSON_parse _); [|apply allTagged_nil].
  destruct (_ && _); [one_tag | apply allTagged_nil].
Qed.

Lemma coverage_tag ws t : allTagged ["skill-coverage-"] (Pushed.coverage ws t).
Proof. unfold Pushed.coverage. apply allTagged_map. intros x. one_tag. Qed.

Lemma concurrency_tag ws t : allTagged ["max-concurrent-"] (Pushed.concurrency ws t).
Proof. unfold Pushed.concurrency. destruct (_ >? _); [one_tag | apply allTagged_nil]. Qed.

Lemma duplicateClient_tag l : allTagged ["duplicate-client-"] (map duplicateClient l).
Proof. apply allTagged_map. intros x. one_tag. Qed.

Lemma duplicateWorker_tag l : allTagged ["duplicate-worker-"] (map duplicateWorker l).
Proof. apply allTagged_map. intros x. one_tag. Qed.

Lemma duplicateTask_tag l : allTagged ["duplicate-task-"] (map duplicateTask l).
Proof. apply allTagged_map. intros x. one_tag. Qed.

End Tags.

(** [tagged tag] of the whole result, one segment of the pipeline at a
    time: a segment whose identifiers start with [tag] is kept, one whose
    identifiers cannot start with it is dropped. *)
Tactic Notation "drop_segment" constr(tag) uconstr(lem) :=
  rewrite (tagged_other tag _ _ lem eq_refl).
Ltac segments :=
  unfold Pushed.all, Pushed.duplicates; rewrite !tagged_app;
  match goal with
  | |- context [tagged ?tag (flat_map Pushed.missing _)] =>
      repeat first
        [ drop_segment tag (allTagged_flat_map _ _ _ missing_tag)
        | drop_segment tag (duplicateClient_tag _)
        | drop_segment tag (duplicateWorker_tag _)
        | drop_segment tag (duplicateTask_tag _)
        | drop_segment tag (allTagged_flat_map _ _ _ malformed_tag)
        | drop_segment tag (allTagged_flat_map _ _ _ priority_tag)
        | drop_segment tag (allTagged_flat_map _ _ _ duration_tag)
        | drop_segment tag (allTagged_flat_map _ _ _ broken_tag)
        | drop_segment tag (allTagged_flat_map _ _ _ (unknown_tag _))
        | drop_segment tag (allTagged_flat_map _ _ _ overload_tag)
        | drop_segment tag (allTagged_flat_map _ _ _ (coverage_tag _))
        | drop_segment tag (allTagged_flat_map _ _ _ (concurrency_tag _)) ]
  end;
  simpl; rewrite ?app_nil_r.

Lemma tagged_overloaded this :
  tagged "overloaded-" (Pushed.all this)
  = flat_map Pushed.overload (DataValidator.workers this).
Proof.
  segments. apply tagged_all, allTagged_flat_map, overload_tag.
Qed.

Lemma tagged_unknown this :
  tagged "unknown-task-" (Pushed.all this)
  = flat_map (Pushed.unknown (DataValidator.tasks this)) (DataValidator.clients this).
Proof.
  segments. apply tagged_all, allTagged_flat_map, unknown_tag.
Qed.

Lemma tagged_duplicateClient this :
  tagged "duplicate-client-" (Pushed.all this)
  = map DataValidator.duplicateClient
      (laterOccurrences ClientID (DataValidator.clients this)).
Proof. segments. apply tagged_all, duplicateClient_tag. Qed.

Lemma tagged_duplicateWorker this :
  tagged "duplicate-worker-" (Pushed.all this)
  = map DataValidator.duplicateWorker
      (laterOccurrences WorkerID (DataValidator.workers this)).
Proof. segments. apply tagged_all, duplicateWorker_tag. Qed.

Lemma tagged_duplicateTask this :
  tagged "duplicate-task-" (Pushed.all this)
  = map DataValidator.duplicateTask
      (laterOccurrences TaskID (DataValidator.tasks this)).
Proof. segments. apply tagged_all, duplicateTask_tag. Qed.

Lemma prefix_trans (p q s : string) :
  String.prefix p q = true -> String.prefix q s = true -> String.prefix p s = true.
Proof.
  revert p q; induction s as [|c s IH]; intros p q Hpq Hqs.
  - destruct q; [|discriminate Hqs]. now destruct p.
  - destruct p as [|a p]; [reflexivity|]. destruct q as [|b q]; [discriminate Hpq|].
    simpl in *.
    destruct (ascii_dec a b) as [->|]; [|discriminate Hpq].
    destruct (ascii_dec b c) as [->|]; [|discriminate Hqs].
    now apply (IH p q).
Qed.

Lemma tagged_coarser tag tag' l :
  String.prefix tag tag' = true -> allTagged [tag'] l -> tagged tag l = l.
Proof.
  intros Hp Hl. apply tagged_all. revert Hl. apply List.Forall_impl. intros e He.
  simpl in *. rewrite orb_false_r in *. unfold JS.startsWith in *.
  now apply (prefix_trans _ tag').
Qed.

Lemma eqb_append_l (p a b : string) : String.eqb (p +:+ a) (p +:+ b) = String.eqb a b.
Proof.
  induction p as [|c p IH]; simpl; [reflexivity|]. now rewrite Ascii.eqb_refl.
Qed.

Lemma withId_tagged tag i l :
  String.prefix tag i = true -> withId i l = withId i (tagged tag l).
Proof.
  intros Hp. unfold withId, tagged. induction l as [|e l IH]; simpl; [reflexivity|].
  destruct (String.eqb (ValidationError.id e) i) eqn:He.
  - assert (Ht : JS.startsWith (ValidationError.id e) tag = true).
    { apply String.eqb_eq in He. unfold JS.startsWith. now rewrite He. }
    rewrite Ht. simpl. rewrite He. now f_equal.
  - destruct (JS.startsWith _ _); simpl; [rewrite He|]; exact IH.
Qed.

Lemma withId_map {A} (key : A -> string) (mk : A -> ValidationError.t) tag k (l : list A) :
  (forall x, ValidationError.id (mk x) = tag +:+ key x) ->
  length (withId (tag +:+ k) (map mk l)) = occurrences key k l.
Proof.
  intros Hid. unfold withId, occurrences. induction l as [|x l IH]; simpl; [reflexivity|].
  rewrite Hid, eqb_append_l. destruct (String.eqb (key x) k); simpl; now rewrite IH.
Qed.

(** The duplicate-ID errors of one collection that carry the identifier of
    [k]: one for each occurrence of [k] after the first. *)
Lemma withId_duplicates {A} (key : A -> string) (mk : A -> ValidationError.t) tag k
    (l : list A) :
  (forall x, ValidationError.id (mk x) = tag +:+ key x) ->
  length (withId (tag +:+ k) (map mk (laterOccurrences key l)))
  = (occurrences key k l - 1)%nat.
Proof.
  intros Hid. rewrite (withId_map key mk tag k _ Hid), occurrences_later. lia.
Qed.

Lemma filter_andb {A} (p q : A -> bool) (l : list A) :
  List.filter (fun x => p x && q x) l = List.filter q (List.filter p l).
Proof.
  induction l as [|x l IH]; simpl; [reflexivity|].
  destruct (p x); simpl; [destruct (q x)|]; now rewrite IH.
Qed.

(** Two errors with the same identifier: the identifiers are not unique. *)
Lemma withId_twice i (l : list ValidationError.t) :
  (2 <= length (withId i l))%nat -> ~ List.NoDup (map ValidationError.id l).
Proof.
  unfold withId. induction l as [|e l IH]; simpl; [lia|].
  intros Hlen Hnd. apply NoDup_cons_iff in Hnd. destruct Hnd as [Hnotin Hnd].
  destruct (String.eqb (ValidationError.id e) i) eqn:He.
  - apply String.eqb_eq in He. simpl in Hlen.
    destruct (List.filter _ l) as [|e' l'] eqn:Hf; [simpl in Hlen; lia|].
    assert (Hin : In e' (List.filter (fun e => String.eqb (ValidationError.id e) i) l))
      by (rewrite Hf; now left).
    apply filter_In in Hin. destruct Hin as [Hin Heq]. apply String.eqb_eq in Heq.
    apply Hnotin. rewrite He, <- Heq. now apply in_map.
  - now apply IH.
Qed.

(** The duplicate errors of one collection about the entity [k]: there are
    as many as occurrences of [k] after the first, and they all carry the
    identifier [tag ++ k]. *)
Lemma duplicates_of_one_id {A} (key : A -> string) (mk : A -> ValidationError.t) tag k
    (l : list A) :
  (forall x, ValidationError.id (mk x) = tag +:+ key x) ->
  (forall x, ValidationError.entityId (mk x) = key x) ->
  let dups := List.filter (fun e => String.eqb (ValidationError.entityId e) k)
                (map mk (laterOccurrences key l)) in
  length dups = (occurrences key k l - 1)%nat /\
  Forall (fun e => ValidationError.id e = tag +:+ k) dups.
Proof.
  intros Hid Hent dups. subst dups. split.
  - rewrite <- (withId_duplicates key mk tag k l Hid). unfold withId.
    f_equal. induction (laterOccurrences key l) as [|x xs IH]; simpl; [reflexivity|].
    rewrite Hid, Hent, eqb_append_l. destruct (String.eqb (key x) k); now rewrite IH.
  - apply List.Forall_forall. intros e He. apply filter_In in He. destruct He as [He Hk].
    apply in_map_iff in He. destruct He as (x & <- & _).
    rewrite Hent in Hk. apply String.eqb_eq in Hk. now rewrite Hid, Hk.
Qed.

(** *** Errors about [AvailableSlots] *)

Lemma filter_flat_map_none {A B} (q : B -> bool) (g : A -> list B) (l : list A) :
  (forall x, List.filter q (g x) = []) -> List.filter q (flat_map g l) = [].
Proof.
  intros H; induction l as [|x l IH]; simpl; [reflexivity|].
  now rewrite List.filter_app, H, IH.
Qed.

Lemma filter_flat_map_all {A B} (q : B -> bool) (g : A -> list B) (l : list A) :
  (forall x, List.filter q (g x) = g x) -> List.filter q (flat_map g l) = flat_map g l.
Proof.
  intros H; induction l as [|x l IH]; simpl; [reflexivity|].
  now rewrite List.filter_app, H, IH.
Qed.

Lemma filter_map_none {A B} (q : B -> bool) (f : A -> B) (l : list A) :
  (forall x, q (f x) = false) -> List.filter q (map f l) = [].
Proof.
  intros H; induction l as [|x l IH]; simpl; [reflexivity|]. now rewrite H.
Qed.

Lemma aboutSlots_all this :
  aboutSlots (Pushed.all this) = flat_map Pushed.malformed (DataValidator.workers this).
Proof.
  unfold aboutSlots, Pushed.all, Pushed.duplicates. rewrite !List.filter_app.
  rewrite (filter_flat_map_none _ Pushed.missing).
  2:{ intros c. unfold Pushed.missing. simpl.
      repeat (destruct (_ || _); simpl); reflexivity. }
  rewrite !filter_map_none by reflexivity.
  rewrite (filter_flat_map_all _ Pushed.malformed).
  2:{ intros w. unfold Pushed.malformed.
      destruct (JS.JSON_parse _); [destruct (_ || _)|]; reflexivity. }
  rewrite (filter_flat_map_none _ Pushed.priority).
  2:{ intros c. unfold Pushed.priority. destruct (_ || _); reflexivity. }
  rewrite (filter_flat_map_none _ Pushed.duration).
  2:{ intros t. unfold Pushed.duration. destruct (_ <? _); reflexivity. }
  rewrite (filter_flat_map_none _ Pushed.broken).
  2:{ intros c. unfold Pushed.broken.
      destruct (_ && _); [destruct (JS.JSON_parse _)|]; reflexivity. }
  rewrite (filter_flat_map_none _ (Pushed.unknown _)).
  2:{ intros c. unfold Pushed.unknown. destruct (DataValidator.truthy _); [|reflexivity].
      now apply filter_map_none. }
  rewrite (filter_flat_map_none _ Pushed.overload).
  2:{ intros w. unfold Pushed.overload.
      destruct (JS.JSON_parse _); [destruct (_ && _)|]; reflexivity. }
  rewrite (filter_flat_map_none _ (Pushed.coverage _)).
  2:{ intros t. unfold Pushed.coverage. now apply filter_map_none. }
  rewrite (filter_flat_map_none _ (Pushed.concurrency _)).
  2:{ intros t. unfold Pushed.concurrency. destruct (_ >? _); reflexivity. }
  simpl. now rewrite app_nil_r.
Qed.

(** *** What the checks read of a record *)

(** The duplicates of a collection depend on the keys of its rows only. *)
Lemma duplicates_of_keys {A} (key : A -> string) (mk : A -> ValidationError.t)
    (l1 l2 : list A) (x y : A) :
  key x = key y -> mk x = mk y ->
  map mk (laterOccurrences key (l1 ++ x :: l2))
  = map mk (laterOccurrences key (l1 ++ y :: l2)).
Proof.
  intros Hkey Hmk. induction l2 as [|z l2 IH] using rev_ind.
  - rewrite !laterOccurrences_snoc, !map_app, Hkey.
    destruct (JS.arrayIncludes (map key l1) (key y)); simpl; now rewrite ?Hmk.
  - change (l1 ++ x :: l2 ++ [z]) with (l1 ++ (x :: l2) ++ [z]).
    change (l1 ++ y :: l2 ++ [z]) with (l1 ++ (y :: l2) ++ [z]).
    rewrite !app_assoc, !laterOccurrences_snoc, !map_app, IH.
    repeat (rewrite ?map_app; cbn [map]). now rewrite Hkey.
Qed.

(** The checks of the skills read the [Skills] of the workers only. *)
Lemma allSkills_of_skills (ws1 ws2 : list Worker) (w w' : Worker) :
  Skills w = Skills w' ->
  Pushed.allSkills (ws1 ++ w :: ws2) = Pushed.allSkills (ws1 ++ w' :: ws2).
Proof.
  intros H. unfold Pushed.allSkills. rewrite !flat_map_app. cbn [flat_map].
  now rewrite H.
Qed.

Lemma coverage_of_skills (ws1 ws2 : list Worker) (w w' : Worker) (task : Task) :
  Skills w = Skills w' ->
  Pushed.coverage (ws1 ++ w :: ws2) task = Pushed.coverage (ws1 ++ w' :: ws2) task.
Proof.
  intros H. unfold Pushed.coverage. now rewrite (allSkills_of_skills ws1 ws2 w w' H).
Qed.

Lemma concurrency_of_skills (ws1 ws2 : list Worker) (w w' : Worker) (task : Task) :
  Skills w = Skills w' ->
  Pushed.concurrency (ws1 ++ w :: ws2) task = Pushed.concurrency (ws1 ++ w' :: ws2) task.
Proof.
  intros H.
  assert (Hlen : length (Pushed.qualified (ws1 ++ w :: ws2) task)
                 = length (Pushed.qualified (ws1 ++ w' :: ws2) task)).
  { unfold Pushed.qualified. rewrite !List.filter_app, !length_app. cbn [List.filter].
    rewrite H. now destruct (forallb _ _). }
  unfold Pushed.concurrency, DataValidator.maxConcurrent. now rewrite Hlen.
Qed.

Lemma flat_map_at {A B} (g : A -> list B) (l1 l2 : list A) (x : A) :
  flat_map g (l1 ++ x :: l2) = flat_map g l1 ++ g x ++ flat_map g l2.
Proof. rewrite flat_map_app. reflexivity. Qed.

Lemma flat_map_one {A B} (g : A -> list B) (x : A) : flat_map g [x] = g x.
Proof. simpl. apply app_nil_r. Qed.

(** The errors of [validateAll] on workers [ws1 ++ w :: ws2], around what
    the two checks of the slots push for [w]: the three segments are the
    same for every content of the [AvailableSlots] of [w]. *)
Lemma all_around_slots cs ws1 w ws2 ts :
  exists pre mid post,
    forall slots,
      Pushed.all (DataValidator.new cs (ws1 ++ withSlots w slots :: ws2) ts)
      = pre ++ Pushed.malformed (withSlots w slots) ++ mid
        ++ Pushed.overload (withSlots w slots) ++ post.
Proof.
  exists (flat_map Pushed.missing cs
          ++ Pushed.duplicates (DataValidator.new cs (ws1 ++ w :: ws2) ts)
          ++ flat_map Pushed.malformed ws1),
    (flat_map Pushed.malformed ws2
     ++ (flat_map Pushed.priority cs ++ flat_map Pushed.duration ts)
     ++ flat_map Pushed.broken cs
     ++ flat_map (Pushed.unknown ts) cs
     ++ flat_map Pushed.overload ws1),
    (flat_map Pushed.overload ws2
     ++ flat_map (Pushed.coverage (ws1 ++ w :: ws2)) ts
     ++ flat_map (Pushed.concurrency (ws1 ++ w :: ws2)) ts).
  intros slots. unfold Pushed.all, Pushed.duplicates.
  cbn [DataValidator.clients DataValidator.workers DataValidator.tasks].
  rewrite (duplicates_of_keys WorkerID DataValidator.duplicateWorker ws1 ws2
             (withSlots w slots) w) by reflexivity.
  rewrite (flat_map_ext_on (Pushed.coverage (ws1 ++ withSlots w slots :: ws2))
             (Pushed.coverage (ws1 ++ w :: ws2)))
    by (intros t _; now apply coverage_of_skills).
  rewrite (flat_map_ext_on (Pushed.concurrency (ws1 ++ withSlots w slots :: ws2))
             (Pushed.concurrency (ws1 ++ w :: ws2)))
    by (intros t _; now apply concurrency_of_skills).
  rewrite !flat_map_at, <- !app_assoc. reflexivity.
Qed.

(** The same around what [validateBrokenJSON] pushes for a client. *)
Lemma all_around_attributes cs1 c cs2 ws ts :
  exists pre post,
    forall json,
      Pushed.all (DataValidator.new (cs1 ++ withAttributes c json :: cs2) ws ts)
      = pre ++ Pushed.broken (withAttributes c json) ++ post.
Proof.
  exists (flat_map Pushed.missing (cs1 ++ c :: cs2)
          ++ Pushed.duplicates (DataValidator.new (cs1 ++ c :: cs2) ws ts)
          ++ flat_map Pushed.malformed ws
          ++ (flat_map Pushed.priority (cs1 ++ c :: cs2) ++ flat_map Pushed.duration ts)
          ++ flat_map Pushed.broken cs1),
    (flat_map Pushed.broken cs2
     ++ flat_map (Pushed.unknown ts) (cs1 ++ c :: cs2)
     ++ flat_map Pushed.overload ws
     ++ flat_map (Pushed.coverage ws) ts
     ++ flat_map (Pushed.concurrency ws) ts).
  intros json. unfold Pushed.all, Pushed.duplicates.
  cbn [DataValidator.clients DataValidator.workers DataValidator.tasks].
  rewrite (duplicates_of_keys ClientID DataValidator.duplicateClient cs1 cs2
             (withAttributes c json) c) by reflexivity.
  rewrite !flat_map_at, <- !app_assoc. reflexivity.
Qed.

Lemma withSlots_same (w : Worker) : withSlots w (AvailableSlots w) = w.
Proof. now destruct w. Qed.

Lemma withAttributes_same (c : Client) : withAttributes c (AttributesJSON c) = c.
Proof. now destruct c. Qed.

(** An element of a list around [x] that is not [x] is in the rest. *)
Lemma In_around {A} (y x : A) (pre rest : list A) :
  In y (pre ++ [x] ++ rest) -> y <> x -> In y (pre ++ rest).
Proof.
  intros Hin Hne. apply in_app_or in Hin as [Hin|[Hin|Hin]].
  - apply in_or_app. now left.
  - now contradiction Hne.
  - apply in_or_app. now right.
Qed.

(** Every check returns, and [validateAll] returns what they return, one
    after the other. *)
Lemma validateAll_checks (this : DataValidator.this_t) :
  exists results,
    Forall2 (fun check r => check this = JS.Normal r) checks results /\
    DataValidator.validateAll this = JS.Normal (concat results).
Proof.
  exists [flat_map Pushed.missing (DataValidator.clients this);
          Pushed.duplicates this;
          flat_map Pushed.malformed (DataValidator.workers this);
          flat_map Pushed.priority (DataValidator.clients this)
          ++ flat_map Pushed.duration (DataValidator.tasks this);
          flat_map Pushed.broken (DataValidator.clients this);
          flat_map (Pushed.unknown (DataValidator.tasks this)) (DataValidator.clients this);
          [];
          flat_map Pushed.overload (DataValidator.workers this);
          [];
          flat_map (Pushed.coverage (DataValidator.workers this)) (DataValidator.tasks this);
          flat_map (Pushed.concurrency (DataValidator.workers this))
            (DataValidator.tasks this);
          []].
  split.
  - unfold checks.
    repeat (constructor;
            [first [ apply validateMissingColumns_eq | apply validateDuplicateIDs_eq
                   | apply validateMalformedLists_eq | apply validateOutOfRangeValues_eq
                   | apply validateBrokenJSON_eq | apply validateUnknownReferences_eq
                   | apply validateOverloadedWorkers_eq | apply validateSkillCoverage_eq
                   | apply validateMaxConcurrency_eq | reflexivity ]|]).
    constructor.
  - rewrite validateAll_eq. unfold Pushed.all. cbn [concat].
    rewrite ?app_nil_r, ?app_nil_l. reflexivity.
Qed.

(* ===================================================================== *)
(** ** Part IX.  Properties of the text-rule compiler                    *)
(* ===================================================================== *)

Lemma capture_setCapture n m text caps :
  defined n caps \/ m = n -> defined n (RegExp.setCapture m text caps).
Proof.
  unfold defined, RegExp.capture, RegExp.setCapture. simpl.
  destruct (Nat.eqb_spec m n) as [->|Hne]; [discriminate|].
  intros [Hd|He]; [|contradiction].
  induction caps as [|[k v] caps IH]; simpl in *; [exact Hd|].
  destruct (Nat.eqb_spec k n) as [->|Hkn].
  - destruct (Nat.eqb_spec n m) as [Heq|_]; [now subst|]. simpl.
    rewrite Nat.eqb_refl. discriminate.
  - destruct (k =? m)%nat; simpl; [now apply IH|].
    destruct (Nat.eqb_spec k n); [contradiction|]. now apply IH.
Qed.

Lemma orElse_Some {A} (x y : option A) (v : A) :
  RegExp.orElse x y = Some v -> x = Some v \/ y = Some v.
Proof. destruct x; simpl; auto. Qed.

(** A run that succeeds has reached its continuation, and by then a group
    that every way through the pattern goes through is defined, as is a
    group that was defined before. *)
Lemma run_reaches {R} (n : nat) (i : bool) (r : RegExp.pattern) :
  forall (s : string) (caps : RegExp.captures) (k : string -> RegExp.captures -> option R)
         (res : R),
    RegExp.run i r s caps k = Some res ->
    exists s' caps',
      k s' caps' = Some res /\ (binds n r = true \/ defined n caps -> defined n caps').
Proof.
  induction r as [ | a | p | r1 IH1 r2 IH2 | r1 IH1 r2 IH2 | greedy r IH | m r IH ];
    intros s caps k res Hrun; simpl in Hrun.
  - exists s, caps. split; [exact Hrun|]. intros [H|H]; [discriminate | exact H].
  - destruct s as [|c s']; [discriminate|].
    destruct (RegExp.litMatches i a c); [|discriminate].
    exists s', caps. split; [exact Hrun|]. intros [H|H]; [discriminate | exact H].
  - destruct s as [|c s']; [discriminate|].
    destruct (RegExp.classMatches i p c); [|discriminate].
    exists s', caps. split; [exact Hrun|]. intros [H|H]; [discriminate | exact H].
  - apply IH1 in Hrun. destruct Hrun as (s1 & caps1 & Hrun & H1).
    apply IH2 in Hrun. destruct Hrun as (s2 & caps2 & Hk & H2).
    exists s2, caps2. split; [exact Hk|]. simpl. intros [Hb|Hd].
    + apply orb_true_iff in Hb. destruct Hb as [Hb|Hb]; [|now apply H2; left].
      apply H2. right. apply H1. now left.
    + apply H2. right. apply H1. now right.
  - apply orElse_Some in Hrun. destruct Hrun as [Hrun|Hrun].
    + apply IH1 in Hrun. destruct Hrun as (s1 & caps1 & Hk & H1).
      exists s1, caps1. split; [exact Hk|]. simpl. intros [Hb|Hd]; apply H1; [|now right].
      apply andb_true_iff in Hb. left. tauto.
    + apply IH2 in Hrun. destruct Hrun as (s2 & caps2 & Hk & H2).
      exists s2, caps2. split; [exact Hk|]. simpl. intros [Hb|Hd]; apply H2; [|now right].
      apply andb_true_iff in Hb. left. tauto.
  - revert Hrun. generalize (String.length s). intros fuel. revert s caps.
    induction fuel as [|fuel IHf]; intros s caps Hrun.
    + exists s, caps. split; [exact Hrun|]. intros [H|H]; [discriminate | exact H].
    + assert (Hcases :
        k s caps = Some res \/
        RegExp.run i r s caps (fun s' caps' =>
          if (String.length s' <? String.length s)%nat
          then (fix iterate (n0 : nat) (s0 : string) (caps0 : RegExp.captures)
                  {struct n0} : option R :=
                  match n0 with
                  | O => k s0 caps0
                  | S n' =>
                      let more :=
                        RegExp.run i r s0 caps0 (fun s'0 caps'0 =>
                          if (String.length s'0 <? String.length s0)%nat
                          then iterate n' s'0 caps'0 else None) in
                      if greedy then RegExp.orElse more (k s0 caps0)
                      else RegExp.orElse (k s0 caps0) more
                  end) fuel s' caps'
          else None) = Some res).
      { destruct greedy; apply orElse_Some in Hrun; tauto. }
      destruct Hcases as [Hk|Hmore].
      * exists s, caps. split; [exact Hk|]. intros [H|H]; [discriminate | exact H].
      * apply IH in Hmore. destruct Hmore as (s1 & caps1 & Hit & H1).
        destruct (String.length s1 <? String.length s)%nat; [|discriminate].
        apply IHf in Hit. destruct Hit as (s2 & caps2 & Hk & H2).
        exists s2, caps2. split; [exact Hk|].
        intros [H|H]; [discriminate|]. apply H2. right. apply H1. now right.
  - apply IH in Hrun. destruct Hrun as (s1 & caps1 & Hk & H1).
    exists s1, (RegExp.setCapture m (RegExp.consumed s s1) caps1). split; [exact Hk|].
    simpl. intros [Hb|Hd]; apply capture_setCapture.
    + apply orb_true_iff in Hb. destruct Hb as [Hb|Hb].
      * right. now apply Nat.eqb_eq.
      * left. apply H1. now left.
    + left. apply H1. now right.
Qed.

(** After a match, a group that every way through the pattern goes through
    is not [undefined]. *)
Lemma match_defines (n : nat) (re : RegExp.t) (s : string) (m : RegExp.result) :
  binds n (RegExp.source re) = true ->
  RegExp.match_ s re = Some m -> exists text, RegExp.group n m = Some text.
Proof.
  intros Hb. unfold RegExp.match_. generalize 0%nat.
  induction s as [|c s IH]; intros start Hm; simpl in Hm;
    apply orElse_Some in Hm; destruct Hm as [Hm|Hm]; try discriminate;
    try (now apply (IH (S start)));
    unfold RegExp.matchAt in Hm; apply (run_reaches n) in Hm;
    destruct Hm as (s' & caps' & Hk & Hd); injection Hk as <-;
    unfold RegExp.group; simpl;
    (destruct (RegExp.capture n caps') as [text|] eqn:Hc;
      [now exists text | exfalso; apply Hd; [now left | exact Hc]]).
Qed.

(** A block of [convertToRule]: it returns the rule [mk now g], [g] being
    the first group of the match, when its phrase and its pattern are both
    found, and falls through otherwise. *)
Lemma block_returns (phrase : bool) (re : RegExp.t) (rule : string)
    (mk : string -> BusinessRule.t) :
  binds 1 (RegExp.source re) = true ->
  (phrase && matches rule re = false /\
   (if phrase
    then match RegExp.match_ rule re with
         | Some m => let* text := AIEngine.group1 m in JS.Normal (Some (mk text))
         | None => JS.Normal None
         end
    else JS.Normal None) = JS.Normal None)
  \/
  (phrase && matches rule re = true /\
   exists m text,
     RegExp.match_ rule re = Some m /\ RegExp.group 1 m = Some text /\
     (if phrase
      then match RegExp.match_ rule re with
           | Some m => let* text := AIEngine.group1 m in JS.Normal (Some (mk text))
           | None => JS.Normal None
           end
      else JS.Normal None) = JS.Normal (Some (mk text))).
Proof.
  intros Hb. unfold matches. destruct phrase; [|now left].
  destruct (RegExp.match_ rule re) as [m|] eqn:Hm; [|now left].
  right. split; [reflexivity|].
  destruct (match_defines 1 re rule m Hb Hm) as [text Ht].
  exists m, text. unfold AIEngine.group1. rewrite Ht. auto.
Qed.

(** What [convertToRule] returns: nothing when no category yields, and
    otherwise a rule of the yielding category of which the [id] alone
    depends on the clock. *)
Lemma convertToRule_cases (text : string) :
  (yielding (JS.toLowerCase text) = None /\
   forall now, AIEngine.convertToRule now text = JS.Normal None) \/
  (exists r,
     yielding (JS.toLowerCase text) = Some (BusinessRule.type r) /\
     forall now,
       AIEngine.convertToRule now text
       = JS.Normal (Some (withRuleId (idPrefix (BusinessRule.type r) +:+ JS.showZ now) r))).
Proof.
  unfold AIEngine.convertToRule, yielding.
  fold (coRunPhrase (JS.toLowerCase text)) (loadLimitPhrase (JS.toLowerCase text))
    (phaseWindowPhrase (JS.toLowerCase text)).
  set (rule := JS.toLowerCase text).
  destruct (block_returns (coRunPhrase rule) AIEngine.taskPattern rule
              (fun g => AIEngine.coRunRule 0 (map JS.trim (JS.split "," g))) eq_refl)
    as [[E1 _]|[E1 (m & g & Hm & Hg & _)]]; rewrite E1.
  2:{ right. exists (AIEngine.coRunRule 0 (map JS.trim (JS.split "," g))).
      split; [reflexivity|]. intros now.
      apply andb_true_iff in E1. destruct E1 as [-> _]. rewrite Hm.
      unfold AIEngine.group1. rewrite Hg. reflexivity. }
  assert (H1 : forall now,
    (if coRunPhrase rule
     then match RegExp.match_ rule AIEngine.taskPattern with
          | Some taskMatch =>
              let* g := AIEngine.group1 taskMatch in
              JS.Normal (Some (AIEngine.coRunRule now (map JS.trim (JS.split "," g))))
          | None => JS.Normal None
          end
     else JS.Normal None) = JS.Normal None).
  { intros now. unfold matches in E1. destruct (coRunPhrase rule); [|reflexivity].
    destruct (RegExp.match_ rule AIEngine.taskPattern); [discriminate | reflexivity]. }
  destruct (block_returns (loadLimitPhrase rule) AIEngine.limitPattern rule
              (fun g => AIEngine.loadLimitRule 0 (JS.parseInt g)) eq_refl)
    as [[E2 _]|[E2 (m & g & Hm & Hg & _)]]; rewrite E2.
  2:{ right. exists (AIEngine.loadLimitRule 0 (JS.parseInt g)).
      split; [reflexivity|]. intros now. rewrite H1. simpl.
      apply andb_true_iff in E2. destruct E2 as [-> _]. rewrite Hm.
      unfold AIEngine.group1. rewrite Hg. reflexivity. }
  assert (H2 : forall now,
    (if loadLimitPhrase rule
     then match RegExp.match_ rule AIEngine.limitPattern with
          | Some limitMatch =>
              let* g := AIEngine.group1 limitMatch in
              JS.Normal (Some (AIEngine.loadLimitRule now (JS.parseInt g)))
          | None => JS.Normal None
          end
     else JS.Normal None) = JS.Normal None).
  { intros now. unfold matches in E2. destruct (loadLimitPhrase rule); [|reflexivity].
    destruct (RegExp.match_ rule AIEngine.limitPattern); [discriminate | reflexivity]. }
  destruct (block_returns (phaseWindowPhrase rule) AIEngine.phasePattern rule
              (fun g => AIEngine.phaseWindowRule 0 g) eq_refl)
    as [[E3 _]|[E3 (m & g & Hm & Hg & _)]]; rewrite E3.
  2:{ right. exists (AIEngine.phaseWindowRule 0 g).
      split; [reflexivity|]. intros now. rewrite H1. simpl. rewrite H2. simpl.
      apply andb_true_iff in E3. destruct E3 as [-> _]. rewrite Hm.
      unfold AIEngine.group1. rewrite Hg. reflexivity. }
  left. split; [reflexivity|]. intros now. rewrite H1. simpl. rewrite H2. simpl.
  unfold matches in E3. destruct (phaseWindowPhrase rule); [|reflexivity].
  destruct (RegExp.match_ rule AIEngine.phasePattern); [discriminate | reflexivity].
Qed.

(* ===================================================================== *)
(** ** Part X.  Properties of the pattern-inference engine               *)
(* ===================================================================== *)

(** *** Sorting *)

Lemma insertSorted_perm {A} (before : A -> A -> bool) (x : A) (l : list A) :
  Permutation (x :: l) (JS.insertSorted before x l).
Proof.
  induction l as [|y l IH]; simpl; [reflexivity|].
  destruct (before x y); [reflexivity|].
  rewrite perm_swap. now apply perm_skip.
Qed.

Lemma sortBy_perm {A} (before : A -> A -> bool) (l : list A) :
  Permutation l (JS.sortBy before l).
Proof.
  unfold JS.sortBy.
  assert (H : forall acc, Permutation (acc ++ l)
                            (fold_left (fun sorted x => JS.insertSorted before x sorted) l acc)).
  { induction l as [|x l IH]; intros acc; simpl; [now rewrite app_nil_r|].
    rewrite <- IH. rewrite <- insertSorted_perm. simpl.
    symmetry. apply Permutation_middle. }
  exact (H []).
Qed.

Lemma filter_perm {A} (p : A -> bool) (l l' : list A) :
  Permutation l l' -> Permutation (List.filter p l) (List.filter p l').
Proof.
  induction 1 as [|x l l' _ IH|x y l|l l' l'' _ IH1 _ IH2]; simpl.
  - reflexivity.
  - destruct (p x); [now apply perm_skip | exact IH].
  - destruct (p x), (p y); try reflexivity. apply perm_swap.
  - now transitivity (List.filter p l').
Qed.

Lemma ltb_false_le (x y : string) : String.ltb x y = false -> le y x.
Proof.
  unfold String.ltb, le, String.leb. rewrite (String.compare_antisym x y).
  now destruct (String.compare y x).
Qed.

Lemma ltb_true_le (x y : string) : String.ltb x y = true -> le x y.
Proof. unfold String.ltb, le, String.leb. now destruct (String.compare x y). Qed.

Lemma le_trans (x y z : string) : le x y -> le y z -> le x z.
Proof.
  unfold le, String.leb. intros Hxy Hyz.
  destruct (String.compare x y) eqn:Exy; [| |discriminate].
  - apply OrderedTypeEx.String_as_OT.cmp_eq in Exy. now subst.
  - destruct (String.compare y z) eqn:Eyz; [| |discriminate].
    + apply OrderedTypeEx.String_as_OT.cmp_eq in Eyz. subst. now rewrite Exy.
    + apply OrderedTypeEx.String_as_OT.cmp_lt in Exy, Eyz.
      pose proof (OrderedTypeEx.String_as_OT.lt_trans _ _ _ Exy Eyz) as Hxz.
      apply OrderedTypeEx.String_as_OT.cmp_lt in Hxz. unfold OrderedTypeEx.String_as_OT.cmp in Hxz. now rewrite Hxz.
Qed.

Lemma insertSorted_sorted (x : string) (l : list string) :
  StronglySorted le l -> StronglySorted le (JS.insertSorted String.ltb x l).
Proof.
  induction 1 as [|y l Hs IH Hy]; simpl; [repeat constructor|].
  destruct (String.ltb x y) eqn:Hxy.
  - constructor; [now constructor|].
    apply ltb_true_le in Hxy. constructor; [exact Hxy|].
    revert Hy. apply List.Forall_impl. intros z. now apply le_trans.
  - constructor; [exact IH|].
    apply ltb_false_le in Hxy.
    apply (Permutation_Forall (insertSorted_perm String.ltb x l)). now constructor.
Qed.

Lemma sort_sorted (l : list string) : StronglySorted le (JS.sort l).
Proof.
  unfold JS.sort, JS.sortBy.
  assert (H : forall acc, StronglySorted le acc ->
    StronglySorted le
      (fold_left (fun sorted x => JS.insertSorted String.ltb x sorted) l acc)).
  { induction l as [|x l IH]; intros acc Hacc; simpl; [exact Hacc|].
    apply IH. now apply insertSorted_sorted. }
  apply H. constructor.
Qed.

Lemma sorted_perm_eq (l1 l2 : list string) :
  StronglySorted le l1 -> StronglySorted le l2 -> Permutation l1 l2 -> l1 = l2.
Proof.
  intros H1; revert l2; induction H1 as [|a l1 Hs1 IH Ha]; intros l2 H2 Hp.
  - apply Permutation_nil in Hp. now subst.
  - destruct H2 as [|b l2 Hs2 Hb].
    + apply Permutation_sym, Permutation_nil in Hp. discriminate.
    + assert (a = b) as <-.
      { assert (Hina : In a (b :: l2)) by (apply (Permutation_in _ Hp); now left).
        assert (Hinb : In b (a :: l1))
          by (apply (Permutation_in _ (Permutation_sym Hp)); now left).
        destruct Hina as [->|Hina]; [reflexivity|].
        destruct Hinb as [->|Hinb]; [reflexivity|].
        rewrite List.Forall_forall in Ha, Hb.
        apply String.leb_antisym; [now apply Ha | now apply Hb]. }
      f_equal. apply IH; [exact Hs2|]. now apply Permutation_cons_inv in Hp.
Qed.

(** Sorting forgets the order in which the strings were listed. *)
Lemma sort_perm_eq (l1 l2 : list string) :
  Permutation l1 l2 -> JS.sort l1 = JS.sort l2.
Proof.
  intros Hp. apply sorted_perm_eq; try apply sort_sorted.
  unfold JS.sort. now rewrite <- !sortBy_perm.
Qed.

(** *** Maps in insertion order *)

Lemma mapHas_tabulate {V} (f : string -> V) ks k :
  JS.mapHas (tabulate f ks) k = JS.arrayIncludes ks k.
Proof.
  unfold JS.mapHas, JS.arrayIncludes, tabulate.
  induction ks as [|k' ks IH]; simpl; [reflexivity|].
  now rewrite IH, (String.eqb_sym k k').
Qed.

Lemma mapGet_tabulate {V} (f : string -> V) ks k :
  In k ks -> JS.mapGet (tabulate f ks) k = Some (f k).
Proof.
  unfold JS.mapGet, tabulate. induction ks as [|k' ks IH]; simpl; [tauto|].
  intros Hin. destruct (String.eqb_spec k' k) as [->|Hne]; [reflexivity|].
  destruct Hin as [Heq|Hin]; [contradiction|]. now apply IH.
Qed.

Lemma mapSet_tabulate_new {V} (f : string -> V) ks k v :
  ~ In k ks -> JS.mapSet (tabulate f ks) k v = tabulate f ks ++ [(k, v)].
Proof.
  unfold tabulate. induction ks as [|k' ks IH]; simpl; [reflexivity|].
  intros Hnin. destruct (String.eqb_spec k' k) as [->|Hne]; [tauto|].
  rewrite IH; [reflexivity | tauto].
Qed.

Lemma tabulate_ext {V} (f g : string -> V) ks :
  (forall k, In k ks -> f k = g k) -> tabulate f ks = tabulate g ks.
Proof.
  intros H. unfold tabulate. apply map_ext_in. intros k Hk. now rewrite H.
Qed.

Lemma mapSet_tabulate_old {V} (f : string -> V) ks k v :
  In k ks -> List.NoDup ks ->
  JS.mapSet (tabulate f ks) k v = tabulate (fun k' => if String.eqb k' k then v else f k') ks.
Proof.
  induction ks as [|k' ks IH]; simpl; [tauto|].
  intros Hin Hnd. apply List.NoDup_cons_iff in Hnd. destruct Hnd as [Hnotin Hnd].
  destruct (String.eqb_spec k' k) as [->|Hne].
  - f_equal. apply tabulate_ext. intros k0 Hk0.
    destruct (String.eqb_spec k0 k) as [->|_]; [contradiction | reflexivity].
  - f_equal. destruct Hin as [Heq|Hin]; [contradiction|]. now apply IH.
Qed.

(** *** First occurrences *)

Lemma firstOccurrences_snoc {A} (key : A -> string) (l : list A) (x : A) :
  firstOccurrences key (l ++ [x]) =
  firstOccurrences key l ++ (if JS.arrayIncludes (map key l) (key x) then [] else [x]).
Proof.
  unfold firstOccurrences.
  rewrite length_app; simpl. rewrite Nat.add_1_r, seq_S, flat_map_app; simpl.
  rewrite app_nil_r. f_equal.
  - apply flat_map_ext_on. intros i Hi. apply in_seq in Hi.
    rewrite nth_error_app1 by lia.
    rewrite firstn_app. replace (i - length l)%nat with 0%nat by lia.
    simpl. now rewrite app_nil_r.
  - rewrite nth_error_app2 by lia. rewrite Nat.sub_diag; simpl.
    rewrite firstn_app, Nat.sub_diag, firstn_all; simpl. now rewrite app_nil_r.
Qed.

Lemma firstOccurrences_keys {A} (key : A -> string) (l : list A) (k : string) :
  In k (map key (firstOccurrences key l)) <-> In k (map key l).
Proof.
  induction l as [|x l IH] using rev_ind; [reflexivity|].
  rewrite firstOccurrences_snoc, !map_app, !in_app_iff, IH.
  destruct (JS.arrayIncludes (map key l) (key x)) eqn:Hin; simpl; [|tauto].
  apply arrayIncludes_In in Hin. split; [tauto|].
  intros [H|[<-|[]]]; tauto.
Qed.

Lemma arrayIncludes_firstOccurrences {A} (key : A -> string) (l : list A) (k : string) :
  JS.arrayIncludes (map key (firstOccurrences key l)) k = JS.arrayIncludes (map key l) k.
Proof.
  destruct (JS.arrayIncludes (map key l) k) eqn:H.
  - apply arrayIncludes_In. apply firstOccurrences_keys. now apply arrayIncludes_In.
  - destruct (JS.arrayIncludes (map key (firstOccurrences key l)) k) eqn:H'; [|reflexivity].
    apply (proj1 (arrayIncludes_In _ _)) in H'.
    apply (proj1 (firstOccurrences_keys _ _ _)) in H'.
    apply (proj2 (arrayIncludes_In _ _)) in H'. congruence.
Qed.

Lemma firstOccurrences_NoDup {A} (key : A -> string) (l : list A) :
  List.NoDup (map key (firstOccurrences key l)).
Proof.
  induction l as [|x l IH] using rev_ind; [constructor|].
  rewrite firstOccurrences_snoc, map_app.
  destruct (JS.arrayIncludes (map key l) (key x)) eqn:Hin; simpl.
  - now rewrite app_nil_r.
  - apply List.NoDup_app; [exact IH | repeat constructor; simpl; tauto |].
    intros k Hk [<-|[]]. apply (proj1 (firstOccurrences_keys _ _ _)) in Hk.
    apply (proj2 (arrayIncludes_In _ _)) in Hk. congruence.
Qed.

(** *** [analyzeTaskPatterns] *)

Lemma filedUnder_snoc k (l : list Task) (t : Task) :
  filedUnder k (l ++ [t])
  = filedUnder k l ++ (if String.eqb (skillKey t) k then [TaskID t] else []).
Proof.
  unfold filedUnder. rewrite List.filter_app, map_app. simpl.
  now destruct (String.eqb (skillKey t) k).
Qed.

Lemma filedUnder_none k (l : list Task) :
  ~ In k (map skillKey l) -> filedUnder k l = [].
Proof.
  unfold filedUnder. induction l as [|t l IH]; simpl; [reflexivity|].
  intros Hnin. destruct (String.eqb_spec (skillKey t) k) as [Heq|_]; [tauto|].
  apply IH. tauto.
Qed.

Lemma partition_tabulate (l : list Task) :
  partition l
  = tabulate (fun k => filedUnder k l) (map skillKey (firstOccurrences skillKey l)).
Proof. unfold partition, tabulate. now rewrite map_map. Qed.

(** Filing one more task: its class grows, or a new class is opened after
    the others. *)
Lemma file_task (l : list Task) (t : Task) :
  AIEngine.mapPush
    (if negb (JS.mapHas (partition l) (skillKey t))
     then JS.mapSet (partition l) (skillKey t) [] else partition l)
    (skillKey t) (TaskID t)
  = partition (l ++ [t]).
Proof.
  rewrite !partition_tabulate, mapHas_tabulate.
  set (k0 := skillKey t). set (ks := map skillKey (firstOccurrences skillKey l)).
  set (ks' := map skillKey (firstOccurrences skillKey (l ++ [t]))).
  assert (Hin' : In k0 ks').
  { apply firstOccurrences_keys. rewrite map_app, in_app_iff. right. now left. }
  assert (Hnd' : List.NoDup ks') by apply firstOccurrences_NoDup.
  assert (Hm : (if negb (JS.arrayIncludes ks k0)
                then JS.mapSet (tabulate (fun k => filedUnder k l) ks) k0 []
                else tabulate (fun k => filedUnder k l) ks)
               = tabulate (fun k => filedUnder k l) ks').
  { subst ks ks'. rewrite firstOccurrences_snoc, map_app. fold k0.
    rewrite arrayIncludes_firstOccurrences.
    destruct (JS.arrayIncludes (map skillKey l) k0) eqn:Hin; simpl.
    - now rewrite app_nil_r.
    - assert (Hnin : ~ In k0 (map skillKey (firstOccurrences skillKey l))).
      { intros H. apply (proj1 (firstOccurrences_keys _ _ _)) in H.
        apply (proj2 (arrayIncludes_In _ _)) in H. congruence. }
      rewrite (mapSet_tabulate_new _ _ _ _ Hnin). unfold tabulate. rewrite map_app. simpl.
      rewrite filedUnder_none; [reflexivity|].
      intros H. apply (proj2 (arrayIncludes_In _ _)) in H. fold k0 in H. congruence. }
  rewrite Hm. unfold AIEngine.mapPush.
  rewrite (mapGet_tabulate _ _ _ Hin'), (mapSet_tabulate_old _ _ _ _ Hin' Hnd').
  apply tabulate_ext. intros k _. rewrite filedUnder_snoc. fold k0.
  rewrite (String.eqb_sym k k0).
  destruct (String.eqb_spec k0 k) as [->|_]; [reflexivity | now rewrite app_nil_r].
Qed.

Lemma skillGroups_eq (l : list Task) :
  fold_left (fun skillGroups task =>
    AIEngine.mapPush
      (if negb (JS.mapHas skillGroups (skillKey task))
       then JS.mapSet skillGroups (skillKey task) [] else skillGroups)
      (skillKey task) (TaskID task)) l []
  = partition l.
Proof.
  induction l as [|t l IH] using rev_ind; [reflexivity|].
  rewrite fold_left_app. cbn [fold_left]. rewrite IH. apply file_task.
Qed.

(** The groups of [analyzeTaskPatterns]: one for each class of the
    partition that has at least two tasks. *)
Lemma analyzeTaskPatterns_eq (this : AIEngine.this_t) :
  AIEngine.analyzeTaskPatterns this
  = map taskGroupOf (shared (partition (AIEngine.tasks this))).
Proof.
  unfold AIEngine.analyzeTaskPatterns. cbv zeta.
  pose proof (skillGroups_eq (AIEngine.tasks this)) as Hgroups.
  unfold skillKey in Hgroups at 1 2 3. rewrite Hgroups. clear Hgroups.
  unfold shared. rewrite <- flat_map_filter.
  assert (H : forall (m : list (string * list string)) (acc : list AIEngine.TaskGroup),
    fold_left (fun groups '(skillKey, taskIds) =>
      if (1 <? length taskIds)%nat
      then groups ++ [{| AIEngine.group_tasks := taskIds;
                         AIEngine.commonSkills := JS.split "|" skillKey;
                         AIEngine.group_confidence :=
                           JS.Math_min 0.9 (0.5 + JS.ofNat (length taskIds) * 0.1) |}]
      else groups) m acc
    = acc ++ flat_map (fun class => if (1 <? length (snd class))%nat
                                    then [taskGroupOf class] else []) m).
  { induction m as [|[k ids] m IH]; intros acc; simpl; [now rewrite app_nil_r|].
    rewrite IH. destruct (1 <? length ids)%nat; simpl;
      [now rewrite <- app_assoc | reflexivity]. }
  apply H.
Qed.

(** *** [generateRuleRecommendations] *)

Lemma stamped_fold {A} (mk : Z -> A -> AIRuleRecommendation.t) (clock : nat -> Z)
    (l : list A) (recommendations : list AIRuleRecommendation.t) (readings : nat) :
  fold_left (fun '(recommendations, readings) x =>
    (recommendations ++ [mk (clock readings) x], S readings)) l (recommendations, readings)
  = (recommendations ++ stamped mk clock readings l, (readings + length l)%nat).
Proof.
  revert recommendations readings; induction l as [|x l IH]; intros recs n; simpl.
  - now rewrite app_nil_r, Nat.add_0_r.
  - rewrite IH. rewrite <- app_assoc. simpl. f_equal. lia.
Qed.

Lemma stamped_fold_if {A} (p : A -> bool) (mk : Z -> A -> AIRuleRecommendation.t)
    (clock : nat -> Z) (l : list A) (recommendations : list AIRuleRecommendation.t)
    (readings : nat) :
  (forall x, In x l -> p x = true) ->
  fold_left (fun '(recommendations, readings) x =>
    if p x then (recommendations ++ [mk (clock readings) x], S readings)
    else (recommendations, readings)) l (recommendations, readings)
  = (recommendations ++ stamped mk clock readings l, (readings + length l)%nat).
Proof.
  revert recommendations readings; induction l as [|x l IH]; intros recs n Hp; simpl.
  - now rewrite app_nil_r, Nat.add_0_r.
  - rewrite (Hp x) by now left. rewrite IH by (intros y Hy; apply Hp; now right).
    rewrite <- app_assoc. simpl. f_equal. lia.
Qed.

Lemma coRuns_stamped_all {A} (mk : Z -> A -> AIRuleRecommendation.t) clock n (l : list A) :
  (forall now x, isCoRun (mk now x) = true) ->
  coRuns (stamped mk clock n l) = stamped mk clock n l.
Proof.
  intros H. revert n; induction l as [|x l IH]; intros n; simpl; [reflexivity|].
  unfold coRuns in *. simpl. rewrite H. now f_equal.
Qed.

Lemma coRuns_stamped_none {A} (mk : Z -> A -> AIRuleRecommendation.t) clock n (l : list A) :
  (forall now x, isCoRun (mk now x) = false) ->
  coRuns (stamped mk clock n l) = [].
Proof.
  intros H. revert n; induction l as [|x l IH]; intros n; simpl; [reflexivity|].
  unfold coRuns in *. simpl. now rewrite H.
Qed.

(** Every group of [analyzeTaskPatterns] has at least two tasks. *)
Lemma analyzeTaskPatterns_shared (this : AIEngine.this_t) (group : AIEngine.TaskGroup) :
  In group (AIEngine.analyzeTaskPatterns this) ->
  (1 <? length (AIEngine.group_tasks group))%nat = true.
Proof.
  rewrite analyzeTaskPatterns_eq. intros Hin. apply in_map_iff in Hin.
  destruct Hin as (class & <- & Hin). unfold shared in Hin.
  apply filter_In in Hin. now destruct Hin.
Qed.

(** The co-run recommendations of the result are those pushed for the
    groups of [analyzeTaskPatterns], with the first readings of the clock. *)
Lemma coRuns_generate (clock : nat -> Z) (this : AIEngine.this_t) :
  Permutation (coRuns (AIEngine.generateRuleRecommendations clock this))
    (stamped AIEngine.coRunRecommendation clock 0 (AIEngine.analyzeTaskPatterns this)).
Proof.
  unfold AIEngine.generateRuleRecommendations.
  rewrite (stamped_fold_if (fun group => (1 <? length (AIEngine.group_tasks group))%nat)
             AIEngine.coRunRecommendation clock _ [] 0
             (analyzeTaskPatterns_shared this)).
  rewrite stamped_fold, stamped_fold. cbv zeta beta iota.
  unfold coRuns at 1. rewrite <- (filter_perm _ _ _ (sortBy_perm _ _)).
  rewrite !List.filter_app.
  fold (coRuns (stamped AIEngine.coRunRecommendation clock 0
                  (AIEngine.analyzeTaskPatterns this))).
  rewrite coRuns_stamped_all by reflexivity.
  simpl.
  match goal with
  | |- Permutation ((_ ++ List.filter isCoRun ?a) ++ List.filter isCoRun ?b) _ =>
      change (List.filter isCoRun a) with (coRuns a);
      change (List.filter isCoRun b) with (coRuns b)
  end.
  rewrite !coRuns_stamped_none by reflexivity.
  now rewrite !app_nil_r.
Qed.

(* ===================================================================== *)
(** ** Part X-b.  Binary64 arithmetic on numbers that are not negative   *)
(**    (from the specification of the operations in [Floats.SpecFloat])   *)
(* ===================================================================== *)

(** The operations of binary64 are specified in the standard library by
    functions on mantissas and exponents ([SFadd], [SFdiv], [SFsub] and
    the comparisons), which the primitive operations are stated to follow.
    The lemmas below read off these functions what the operations do to
    the real numbers that their arguments stand for, for the numbers that
    the weights are: zero and the finite numbers above it. *)
Module Rounding.
Import Reals Lra Binary64.
Local Open Scope R_scope.

Lemma Rabs_bound a b : Rabs a <= b -> - b <= a <= b.
Proof. unfold Rabs. destruct (Rcase_abs a); lra. Qed.

Lemma bpow_pos e : 0 < bpow e.
Proof. apply powerRZ_lt. lra. Qed.

Lemma bpow_add a b : bpow (a + b) = bpow a * bpow b.
Proof. apply powerRZ_add. lra. Qed.

Lemma bpow_0 : bpow 0 = 1.
Proof. reflexivity. Qed.

Lemma bpow_1 : bpow 1 = 2.
Proof. unfold bpow. simpl. lra. Qed.

Lemma bpow_succ e : bpow (e + 1) = 2 * bpow e.
Proof. rewrite bpow_add, bpow_1. lra. Qed.

Lemma bpow_ge_1 k : (0 <= k)%Z -> 1 <= bpow k.
Proof.
  intros H. unfold bpow. rewrite <- (Z2Nat.id k H), <- pow_powerRZ.
  apply pow_R1_Rle. lra.
Qed.

Lemma bpow_le a b : (a <= b)%Z -> bpow a <= bpow b.
Proof.
  intros H. replace b with (a + (b - a))%Z by lia. rewrite bpow_add.
  pose proof (bpow_ge_1 (b - a) ltac:(lia)). pose proof (bpow_pos a). nra.
Qed.

Lemma bpow_lt a b : (a < b)%Z -> bpow a < bpow b.
Proof.
  intros H. replace b with (a + 1 + (b - a - 1))%Z by lia.
  rewrite bpow_add, bpow_succ.
  assert (H1 : bpow 0 <= bpow (b - a - 1)) by (apply bpow_le; lia).
  rewrite bpow_0 in H1. pose proof (bpow_pos a). nra.
Qed.

Lemma bpow_le_inv a b : bpow a <= bpow b -> (a <= b)%Z.
Proof.
  intros H. destruct (Z_lt_le_dec b a) as [Hlt|Hle]; [|exact Hle].
  apply bpow_lt in Hlt. lra.
Qed.

Lemma bpow_lt_inv a b : bpow a < bpow b -> (a < b)%Z.
Proof.
  intros H. destruct (Z_lt_le_dec a b) as [Hlt|Hle]; [exact Hlt|].
  apply bpow_le in Hle. lra.
Qed.

Lemma bpow_IZR k : (0 <= k)%Z -> IZR (2 ^ k) = bpow k.
Proof.
  intros H. destruct k as [|p|p]; [reflexivity| |lia].
  change (2 ^ Z.pos p)%Z with (Z.pow_pos 2 p). apply Zpower_pos_powerRZ.
Qed.

Lemma bpow_opp e : bpow (- e) = / bpow e.
Proof. apply powerRZ_neg'. Qed.

Lemma bpow_cancel e : bpow e * bpow (- e) = 1.
Proof. rewrite <- bpow_add, Z.add_opp_diag_r. reflexivity. Qed.

(** **** The number of binary digits *)

Lemma digits2_pos_spec (m : positive) :
  (2 ^ (Z.pos (digits2_pos m) - 1) <= Z.pos m < 2 ^ Z.pos (digits2_pos m))%Z.
Proof.
  induction m as [m IH|m IH|]; cbn [digits2_pos].
  - rewrite Pos2Z.inj_succ. change (Z.pos m~1) with (2 * Z.pos m + 1)%Z.
    replace (Z.succ (Z.pos (digits2_pos m)) - 1)%Z
      with (Z.succ (Z.pos (digits2_pos m) - 1)) by lia.
    rewrite !Z.pow_succ_r by lia. lia.
  - rewrite Pos2Z.inj_succ. change (Z.pos m~0) with (2 * Z.pos m)%Z.
    replace (Z.succ (Z.pos (digits2_pos m)) - 1)%Z
      with (Z.succ (Z.pos (digits2_pos m) - 1)) by lia.
    rewrite !Z.pow_succ_r by lia. lia.
  - simpl. lia.
Qed.

(** [m + 1 <= 2^digits], also for [m = 0]. *)
Lemma Zdigits2_upper (m : Z) : (0 <= m)%Z -> (m + 1 <= 2 ^ Zdigits2 m)%Z.
Proof.
  intros H. destruct m as [|p|p]; [simpl; lia| |lia].
  pose proof (digits2_pos_spec p). cbn [Zdigits2]. lia.
Qed.

Lemma Zdigits2_lower (m : Z) : (0 < m)%Z -> (2 ^ (Zdigits2 m - 1) <= m)%Z.
Proof.
  intros H. destruct m as [|p|p]; [lia| |lia].
  pose proof (digits2_pos_spec p). cbn [Zdigits2]. lia.
Qed.

Lemma Zdigits2_nonneg (m : Z) : (0 <= Zdigits2 m)%Z.
Proof. destruct m; simpl; lia. Qed.

Lemma Zdigits2_pos (m : Z) : (0 < m)%Z -> (0 < Zdigits2 m)%Z.
Proof. destruct m; simpl; lia. Qed.

(** The digits of [m] are [k] when [2^(k-1) <= m < 2^k]. *)
Lemma Zdigits2_unique (m k : Z) :
  (0 < m)%Z -> (2 ^ (k - 1) <= m < 2 ^ k)%Z -> Zdigits2 m = k.
Proof.
  intros Hm [Hlo Hhi].
  pose proof (Zdigits2_lower m Hm) as Hl. pose proof (Zdigits2_upper m ltac:(lia)) as Hu.
  pose proof (Zdigits2_nonneg m) as Hd.
  assert (Hk : (0 <= k)%Z).
  { destruct (Z_lt_le_dec k 0) as [Hneg|]; [|assumption].
    rewrite (Z.pow_neg_r 2 k) in Hhi by assumption. lia. }
  destruct (Z_lt_le_dec (Zdigits2 m) k) as [Hlt|Hge].
  - assert (2 ^ Zdigits2 m <= 2 ^ (k - 1))%Z by (apply Z.pow_le_mono_r; lia). lia.
  - destruct (Z_lt_le_dec k (Zdigits2 m)) as [Hlt|Hle]; [|lia].
    assert (2 ^ k <= 2 ^ (Zdigits2 m - 1))%Z by (apply Z.pow_le_mono_r; lia). lia.
Qed.

Lemma Zdigits2_le (m k : Z) : (0 <= m)%Z -> (0 <= k)%Z -> (m < 2 ^ k)%Z -> (Zdigits2 m <= k)%Z.
Proof.
  intros Hm Hk Hlt. destruct (Z.eq_dec m 0) as [->|Hne]; [simpl; lia|].
  pose proof (Zdigits2_lower m ltac:(lia)) as Hl.
  destruct (Z_lt_le_dec k (Zdigits2 m)) as [H|H]; [|exact H].
  assert (2 ^ k <= 2 ^ (Zdigits2 m - 1))%Z by (apply Z.pow_le_mono_r; lia). lia.
Qed.

Lemma Zdigits2_ge (m k : Z) : (0 <= k)%Z -> (2 ^ k <= m)%Z -> (k < Zdigits2 m)%Z.
Proof.
  intros Hk Hle.
  assert (Hm : (0 < m)%Z) by (pose proof (Z.pow_pos_nonneg 2 k); lia).
  pose proof (Zdigits2_upper m ltac:(lia)) as Hu. pose proof (Zdigits2_nonneg m).
  destruct (Z_lt_le_dec k (Zdigits2 m)) as [H1|H1]; [exact H1|].
  assert (2 ^ Zdigits2 m <= 2 ^ k)%Z by (apply Z.pow_le_mono_r; lia). lia.
Qed.


(** **** Shifting a mantissa to the right *)

Lemma exactly_of_loc m l : exactly (shr_record_of_loc m l) = isExact l.
Proof. destruct l as [|[]]; reflexivity. Qed.

Lemma shr_m_of_loc m l : shr_m (shr_record_of_loc m l) = m.
Proof. destruct l as [|[]]; reflexivity. Qed.

Lemma isExact_of_shr mrs : isExact (loc_of_shr_record mrs) = exactly mrs.
Proof. destruct mrs as [m [] []]; reflexivity. Qed.

Lemma shr_1_inbetween mrs e v :
  (0 <= shr_m mrs)%Z -> inbetween (shr_m mrs) (exactly mrs) e v ->
  (0 <= shr_m (shr_1 mrs))%Z /\
  inbetween (shr_m (shr_1 mrs)) (exactly (shr_1 mrs)) (e + 1) v.
Proof.
  destruct mrs as [m r s]. unfold inbetween, exactly. cbn [shr_m shr_r shr_s].
  intros Hm [[Hlo Hhi] Hex]. rewrite bpow_succ. pose proof (bpow_pos e) as Hb.
  rewrite plus_IZR in Hhi.
  destruct m as [|[p|p|]|p]; [| | | |lia]; cbn [shr_1 shr_m shr_r shr_s];
    rewrite plus_IZR.
  - (* 0 *)
    split; [lia|]. split; [lra|].
    destruct r, s; cbn [orb negb] in *; lra.
  - (* 2p + 1 *)
    split; [lia|].
    assert (E : IZR (Z.pos p~1) = 2 * IZR (Z.pos p) + 1).
    { change (Z.pos p~1) with (2 * Z.pos p + 1)%Z. rewrite plus_IZR, mult_IZR. lra. }
    rewrite E in *.
    assert (Hlt : IZR (Z.pos p) * (2 * bpow e) < v) by nra.
    split; [split; nra|]. cbn [orb negb]. exact Hlt.
  - (* 2p *)
    split; [lia|].
    assert (E : IZR (Z.pos p~0) = 2 * IZR (Z.pos p)).
    { change (Z.pos p~0) with (2 * Z.pos p)%Z. rewrite mult_IZR. lra. }
    rewrite E in *.
    split; [split; nra|]. cbn [orb negb].
    destruct (r || s)%bool; cbn [negb] in *; nra.
  - (* 1 *)
    split; [lia|]. split; [lra|]. cbn [orb negb]. lra.
Qed.

Lemma iter_shr_1_inbetween (p : positive) :
  forall mrs e v,
    (0 <= shr_m mrs)%Z -> inbetween (shr_m mrs) (exactly mrs) e v ->
    (0 <= shr_m (SpecFloat.iter_pos shr_1 p mrs))%Z /\
    inbetween (shr_m (SpecFloat.iter_pos shr_1 p mrs)) (exactly (SpecFloat.iter_pos shr_1 p mrs))
      (e + Z.pos p) v.
Proof.
  induction p as [p IH|p IH|]; intros mrs e v Hm Hin; cbn [SpecFloat.iter_pos].
  - destruct (shr_1_inbetween mrs e v Hm Hin) as [Hm1 Hin1].
    destruct (IH _ _ _ Hm1 Hin1) as [Hm2 Hin2].
    destruct (IH _ _ _ Hm2 Hin2) as [Hm3 Hin3].
    split; [exact Hm3|].
    replace (e + Z.pos p~1)%Z with (e + 1 + Z.pos p + Z.pos p)%Z by lia. exact Hin3.
  - destruct (IH _ _ _ Hm Hin) as [Hm2 Hin2].
    destruct (IH _ _ _ Hm2 Hin2) as [Hm3 Hin3].
    split; [exact Hm3|].
    replace (e + Z.pos p~0)%Z with (e + Z.pos p + Z.pos p)%Z by lia. exact Hin3.
  - now apply shr_1_inbetween.
Qed.

Lemma shr_inbetween mrs e n v :
  (0 <= n)%Z -> (0 <= shr_m mrs)%Z -> inbetween (shr_m mrs) (exactly mrs) e v ->
  exists mrs',
    shr mrs e n = (mrs', (e + n)%Z) /\ (0 <= shr_m mrs')%Z /\
    inbetween (shr_m mrs') (exactly mrs') (e + n) v.
Proof.
  intros Hn Hm Hin. destruct n as [|p|p]; [| |lia].
  - exists mrs. rewrite Z.add_0_r. auto.
  - exists (SpecFloat.iter_pos shr_1 p mrs). split; [reflexivity|].
    now apply iter_shr_1_inbetween.
Qed.

(** A shift by nothing, or to the left, leaves the record as it is. *)
Lemma shr_none mrs e n : (n <= 0)%Z -> shr mrs e n = (mrs, e).
Proof. destruct n; [reflexivity|lia|reflexivity]. Qed.

Lemma round_nearest_even_cases m l :
  (isExact l = true /\ round_nearest_even m l = m) \/
  (isExact l = false /\ (round_nearest_even m l = m \/ round_nearest_even m l = (m + 1)%Z)).
Proof.
  destruct l as [|[]]; simpl; auto. destruct (Z.even m); auto.
Qed.

Lemma fexp_spec e : fexp prec emax e = Z.max (e - 53) (-1074).
Proof. reflexivity. Qed.


Lemma IZR_bpow_lt m k e : (0 <= k)%Z -> IZR m * bpow e < bpow (k + e) -> (m < 2 ^ k)%Z.
Proof.
  intros Hk H. rewrite bpow_add, <- (bpow_IZR k) in H by exact Hk.
  apply lt_IZR. pose proof (bpow_pos e). nra.
Qed.

Lemma IZR_bpow_le m n e : IZR m * bpow e <= IZR n * bpow e -> (m <= n)%Z.
Proof. intros H. apply le_IZR. pose proof (bpow_pos e). nra. Qed.

Lemma IZR_bpow_lt2 m n e : IZR m * bpow e < IZR n * bpow e -> (m < n)%Z.
Proof. intros H. apply lt_IZR. pose proof (bpow_pos e). nra. Qed.

(** **** Rounding to the format *)

(** [binary_round_aux] on a mantissa that is not shorter than the format
    asks: the result is [m * 2^e1] for a neighbour [m] of the number
    rounded on the grid of the multiples of [2^e1], and no multiple of
    [2^e1] lies strictly between the number and the result. *)
Lemma round_aux_spec mx ex lx v :
  (0 <= mx)%Z -> inbetween mx (isExact lx) ex v ->
  (ex <= fexp prec emax (Zdigits2 mx + ex))%Z ->
  let e1 := fexp prec emax (Zdigits2 mx + ex) in
  exists m : Z,
    (0 <= m)%Z /\
    (forall n, IZR n * bpow e1 <= v -> (n <= m)%Z) /\
    (forall n, v <= IZR n * bpow e1 -> (m <= n)%Z) /\
    Rabs (IZR m * bpow e1 - v) <= bpow e1 /\
    (IZR m * bpow e1 < bpow 972 ->
     nonnegative (binary_round_aux prec emax false mx ex lx) /\
     SF2R (binary_round_aux prec emax false mx ex lx) = IZR m * bpow e1).
Proof.
  intros Hmx Hin Hex e1.
  assert (He1 : (-1074 <= e1)%Z) by (subst e1; rewrite fexp_spec; lia).
  assert (Hd : (Zdigits2 mx + ex - 53 <= e1)%Z) by (subst e1; rewrite fexp_spec; lia).
  unfold binary_round_aux, shr_fexp. fold e1.
  destruct (shr_inbetween (shr_record_of_loc mx lx) ex (e1 - ex) v)
    as (mrs & Hshr & Hm & Hin1).
  { lia. }
  { rewrite shr_m_of_loc. exact Hmx. }
  { rewrite shr_m_of_loc, exactly_of_loc. exact Hin. }
  rewrite Hshr. replace (ex + (e1 - ex))%Z with e1 in * by lia.
  set (m1 := shr_m mrs) in *.
  pose proof (bpow_pos e1) as Hb.
  assert (Hm1 : (m1 < 2 ^ 53)%Z).
  { destruct Hin as [[_ Hhi] _]. destruct Hin1 as [[Hlo _] _].
    pose proof (Zdigits2_upper mx Hmx) as Hu. apply IZR_le in Hu.
    rewrite bpow_IZR in Hu by apply Zdigits2_nonneg.
    assert (Hle : bpow (Zdigits2 mx + ex) <= bpow (53 + e1)) by (apply bpow_le; lia).
    rewrite bpow_add in Hle. pose proof (bpow_pos ex).
    apply (IZR_bpow_lt m1 53 e1); [lia|]. nra. }
  set (m := round_nearest_even m1 (loc_of_shr_record mrs)).
  assert (Hcases : (exactly mrs = true /\ m = m1)
                   \/ (exactly mrs = false /\ (m = m1 \/ m = (m1 + 1)%Z))).
  { subst m. rewrite <- isExact_of_shr. apply round_nearest_even_cases. }
  destruct Hin1 as [[Hlo Hhi] Hexact]. rewrite plus_IZR in Hhi. simpl (IZR 1) in Hhi.
  assert (Hm0 : (0 <= m)%Z) by (destruct Hcases as [[_ ->]|[_ [->| ->]]]; lia).
  assert (Hmle : (m <= 2 ^ 53)%Z) by (destruct Hcases as [[_ ->]|[_ [->| ->]]]; lia).
  exists m. split; [exact Hm0|]. split; [|split; [|split]].
  - intros n Hn. assert (n < m1 + 1)%Z.
    { apply (IZR_bpow_lt2 _ _ e1). rewrite plus_IZR. simpl (IZR 1). lra. }
    destruct Hcases as [[_ ->]|[_ [->| ->]]]; lia.
  - intros n Hn. destruct Hcases as [[E ->]|[E Hc]].
    + rewrite E in Hexact. apply (IZR_bpow_le _ _ e1). lra.
    + rewrite E in Hexact. assert (m1 < n)%Z by (apply (IZR_bpow_lt2 _ _ e1); lra).
      destruct Hc as [-> | ->]; lia.
  - apply Rabs_le.
    destruct Hcases as [[_ ->]|[_ [->| ->]]]; rewrite ?plus_IZR; simpl (IZR 1); lra.
  - intros Hsmall.
    destruct (Z_lt_le_dec m (2 ^ 53)) as [Hlt|Hge].
    + assert (Hdm : (Zdigits2 m <= 53)%Z) by (apply Zdigits2_le; lia).
      rewrite shr_none by (rewrite fexp_spec; lia).
      cbn [shr_record_of_loc shr_m].
      destruct m as [|p|p]; [| |lia].
      * split; [exact I|]. simpl. lra.
      * assert (He : (e1 <= 971)%Z).
        { assert (1 <= IZR (Z.pos p)) by (apply IZR_le; lia).
          assert (bpow e1 < bpow 972) by nra.
          apply bpow_lt_inv in H0. lia. }
        change (emax - prec)%Z with 971%Z.
        apply Z.leb_le in He. rewrite He. split; [exact I|]. reflexivity.
    + assert (Em : m = (2 ^ 53)%Z) by lia. clearbody m. subst m.
      change (Zdigits2 (2 ^ 53)) with 54%Z.
      replace (fexp prec emax (54 + e1) - e1)%Z with 1%Z by (rewrite fexp_spec; lia).
      cbn [shr_record_of_loc shr SpecFloat.iter_pos]. 
      change (shr_1 {| shr_m := 2 ^ 53; shr_r := false; shr_s := false |})
        with {| shr_m := 2 ^ 52; shr_r := false; shr_s := false |}.
      cbn [shr_m]. change (2 ^ 52)%Z with (Z.pos (2 ^ 52)).
      assert (He : (e1 + 1 <= 971)%Z).
      { rewrite bpow_IZR in Hsmall by lia. rewrite <- bpow_add in Hsmall.
        apply bpow_lt_inv in Hsmall. lia. }
      change (emax - prec)%Z with 971%Z.
      apply Z.leb_le in He. rewrite He. split; [exact I|].
      cbn [SF2R cond_Zopp]. rewrite bpow_succ.
      change (Z.pos (2 ^ 52)) with (2 ^ 52)%Z. rewrite !bpow_IZR by lia.
      replace 53%Z with (52 + 1)%Z by lia. rewrite bpow_succ. lra.
Qed.


(** **** Valid numbers *)

Lemma valid_finite s m e :
  valid_binary (S754_finite s m e) = true ->
  fexp prec emax (Z.pos (digits2_pos m) + e) = e /\ (e <= 971)%Z.
Proof.
  cbn [SpecFloat.valid_binary]. unfold SpecFloat.bounded, canonical_mantissa.
  intros H. apply andb_prop in H as [H1 H2].
  apply Z.eqb_eq in H1. apply Z.leb_le in H2. split; [exact H1|exact H2].
Qed.

Lemma shl_align_spec m e e' :
  snd (shl_align m e e') = Z.min e e' /\
  Z.pos (fst (shl_align m e e')) = (Z.pos m * 2 ^ (e - Z.min e e'))%Z.
Proof.
  unfold shl_align. destruct (e' - e)%Z as [|d|d] eqn:E; cbn [fst snd].
  - replace (Z.min e e') with e by lia. rewrite Z.sub_diag. simpl. lia.
  - replace (Z.min e e') with e by lia. rewrite Z.sub_diag. simpl. lia.
  - replace (Z.min e e') with e' by lia. split; [reflexivity|].
    replace (e - e')%Z with (Z.pos d) by lia.
    rewrite <- Z.shiftl_mul_pow2 by lia. cbn [Z.shiftl].
    apply (Pos.iter_swap_gen _ _ Z.pos xO (Z.mul 2)). reflexivity.
Qed.

(** The digits of a mantissa shifted to the left. *)
Lemma Zdigits2_shift m k :
  (0 < m)%Z -> (0 <= k)%Z -> Zdigits2 (m * 2 ^ k) = (Zdigits2 m + k)%Z.
Proof.
  intros Hm Hk. pose proof (Zdigits2_lower m Hm) as Hl.
  pose proof (Zdigits2_upper m ltac:(lia)) as Hu.
  pose proof (Zdigits2_pos m Hm) as Hd.
  assert (Hp : (0 < 2 ^ k)%Z) by (apply Z.pow_pos_nonneg; lia).
  apply Zdigits2_unique; [nia|].
  replace (Zdigits2 m + k - 1)%Z with (Zdigits2 m - 1 + k)%Z by lia.
  rewrite !Z.pow_add_r by lia. nia.
Qed.

(** [binary_round] of a positive mantissa. *)
Lemma binary_round_spec (m : positive) (e : Z) :
  let v := IZR (Z.pos m) * bpow e in
  let e1 := fexp prec emax (Z.pos (digits2_pos m) + e) in
  exists mr : Z,
    (0 <= mr)%Z /\
    (forall n, IZR n * bpow e1 <= v -> (n <= mr)%Z) /\
    (forall n, v <= IZR n * bpow e1 -> (mr <= n)%Z) /\
    Rabs (IZR mr * bpow e1 - v) <= bpow e1 /\
    (IZR mr * bpow e1 < bpow 972 ->
     nonnegative (binary_round prec emax false m e) /\
     SF2R (binary_round prec emax false m e) = IZR mr * bpow e1).
Proof.
  intros v e1. unfold binary_round. fold e1.
  destruct (shl_align_spec m e e1) as [He0 Hmz].
  destruct (shl_align m e e1) as [mz e0]. cbn [fst snd] in He0, Hmz.
  assert (Hdig : (Zdigits2 (Z.pos mz) + e0 = Z.pos (digits2_pos m) + e)%Z).
  { rewrite Hmz, Zdigits2_shift by lia. cbn [Zdigits2]. lia. }
  assert (Hv : v = IZR (Z.pos mz) * bpow e0).
  { subst v. rewrite Hmz, mult_IZR, bpow_IZR by lia.
    rewrite Rmult_assoc, <- bpow_add. f_equal. f_equal. lia. }
  destruct (round_aux_spec (Z.pos mz) e0 loc_Exact v) as (mr & H).
  - lia.
  - unfold inbetween. cbn [isExact]. rewrite plus_IZR. simpl (IZR 1).
    pose proof (bpow_pos e0). split; [|exact Hv]. rewrite Hv. split; lra.
  - rewrite Hdig. fold e1. lia.
  - rewrite Hdig in H. fold e1 in H. exists mr. exact H.
Qed.


(** **** The size of a number *)

Lemma pos_bpow_lower (m : positive) (e : Z) :
  bpow (Z.pos (digits2_pos m) - 1 + e) <= IZR (Z.pos m) * bpow e.
Proof.
  pose proof (digits2_pos_spec m) as [H _]. apply IZR_le in H.
  rewrite bpow_IZR in H by lia. rewrite bpow_add. pose proof (bpow_pos e). nra.
Qed.

Lemma pos_bpow_upper (m : positive) (e : Z) :
  IZR (Z.pos m) * bpow e < bpow (Z.pos (digits2_pos m) + e).
Proof.
  pose proof (digits2_pos_spec m) as [_ H]. apply IZR_lt in H.
  rewrite bpow_IZR in H by lia. rewrite bpow_add. pose proof (bpow_pos e). nra.
Qed.

(** A multiple of [2^e] is a multiple of [2^e1] for [e1 <= e]. *)
Lemma on_grid (m e e1 : Z) :
  (e1 <= e)%Z -> IZR m * bpow e = IZR (m * 2 ^ (e - e1)) * bpow e1.
Proof.
  intros H. rewrite mult_IZR, bpow_IZR by lia.
  rewrite Rmult_assoc, <- bpow_add. f_equal. f_equal. lia.
Qed.

Lemma bpow_on_grid (e e1 : Z) : (e1 <= e)%Z -> bpow e = IZR (2 ^ (e - e1)) * bpow e1.
Proof.
  intros H. rewrite bpow_IZR by lia. rewrite <- bpow_add. f_equal. lia.
Qed.

Lemma SF2R_nonneg x : nonnegative x -> 0 <= SF2R x.
Proof.
  destruct x as [s|s| |[] m e]; simpl; try lra; try tauto.
  intros _. pose proof (bpow_pos e).
  assert (0 < IZR (Z.pos m)) by (apply IZR_lt; lia). nra.
Qed.

(** **** Addition *)

Lemma SFadd_finite (mx : positive) (ex : Z) (my : positive) (ey : Z) :
  let x := S754_finite false mx ex in
  let y := S754_finite false my ey in
  valid_binary x = true -> valid_binary y = true ->
  SF2R x + SF2R y < bpow 970 ->
  nonnegative (SF64add x y) /\
  Rabs (SF2R (SF64add x y) - (SF2R x + SF2R y)) <= bpow (-52) * (SF2R x + SF2R y) /\
  SF2R x <= SF2R (SF64add x y) /\ SF2R y <= SF2R (SF64add x y).
Proof.
  intros x y Hx Hy Hsmall.
  apply valid_finite in Hx as [Hcx _]. apply valid_finite in Hy as [Hcy _].
  rewrite fexp_spec in Hcx, Hcy.
  unfold SF64add, SFadd. subst x y. cbn [SF2R cond_Zopp] in *.
  set (ez := Z.min ex ey).
  destruct (shl_align_spec mx ex ez) as [_ Ha].
  destruct (shl_align_spec my ey ez) as [_ Hb].
  replace (Z.min ex ez) with ez in Ha by lia.
  replace (Z.min ey ez) with ez in Hb by lia.
  set (a := fst (shl_align mx ex ez)) in *. set (b := fst (shl_align my ey ez)) in *.
  change (binary_normalize prec emax (Z.pos a + Z.pos b) ez false)
    with (binary_round prec emax false (a + b) ez).
  set (m := (a + b)%positive).
  set (v := IZR (Z.pos mx) * bpow ex + IZR (Z.pos my) * bpow ey) in *.
  assert (Hxa : IZR (Z.pos mx) * bpow ex = IZR (Z.pos a) * bpow ez)
    by (rewrite Ha; apply on_grid; lia).
  assert (Hyb : IZR (Z.pos my) * bpow ey = IZR (Z.pos b) * bpow ez)
    by (rewrite Hb; apply on_grid; lia).
  assert (Hv : v = IZR (Z.pos m) * bpow ez).
  { unfold v, m. rewrite Hxa, Hyb, Pos2Z.inj_add, plus_IZR. lra. }
  assert (Hypos : 0 < IZR (Z.pos my) * bpow ey).
  { pose proof (bpow_pos ey). assert (0 < IZR (Z.pos my)) by (apply IZR_lt; lia). nra. }
  assert (Hxpos : 0 < IZR (Z.pos mx) * bpow ex).
  { pose proof (bpow_pos ex). assert (0 < IZR (Z.pos mx)) by (apply IZR_lt; lia). nra. }
  assert (Hvdef : v = IZR (Z.pos mx) * bpow ex + IZR (Z.pos my) * bpow ey) by reflexivity.
  clearbody v.
  destruct (binary_round_spec m ez) as (mr & Hmr0 & Hlow & Hup & Herr & Hres).
  rewrite <- Hv in Hlow, Hup, Herr.
  set (dm := Z.pos (digits2_pos m)) in *.
  set (e1 := fexp prec emax (dm + ez)) in *.
  assert (He1 : e1 = Z.max (dm + ez - 53) (-1074)) by reflexivity.
  pose proof (pos_bpow_lower m ez) as Hvl. pose proof (pos_bpow_upper m ez) as Hvu.
  fold dm in Hvl, Hvu. rewrite <- Hv in Hvl, Hvu.
  pose proof (bpow_pos e1) as Hb1.
  assert (Hdm : (dm - 1 + ez < 970)%Z) by (apply bpow_lt_inv; lra).
  assert (Hover : IZR mr * bpow e1 < bpow 972).
  { assert (Hn : (mr <= 2 ^ (971 - e1))%Z).
    { apply Hup. rewrite <- bpow_on_grid by lia.
      assert (bpow 970 <= bpow 971) by (apply bpow_le; lia). lra. }
    apply IZR_le in Hn. rewrite bpow_IZR in Hn by lia.
    assert (IZR mr * bpow e1 <= bpow (971 - e1) * bpow e1) by nra.
    rewrite <- bpow_add in H. replace (971 - e1 + e1)%Z with 971%Z in H by lia.
    assert (bpow 971 < bpow 972) by (apply bpow_lt; lia). lra. }
  destruct (Hres Hover) as [Hnn Hval]. rewrite Hval.
  split; [exact Hnn|]. split.
  - destruct (Z_le_gt_dec e1 ez) as [Hle|Hgt].
    + (* the sum is a multiple of [2^e1] *)
      assert (Hg : v = IZR (Z.pos m * 2 ^ (ez - e1)) * bpow e1)
        by (rewrite Hv; apply on_grid; lia).
      assert (mr = (Z.pos m * 2 ^ (ez - e1))%Z).
      { apply Z.le_antisymm; [apply Hup | apply Hlow]; rewrite <- Hg; lra. }
      subst mr. rewrite <- Hg. replace (v - v) with 0 by lra. rewrite Rabs_R0.
      pose proof (bpow_pos (-52)). nra.
    + assert (E : e1 = (-52 + (dm - 1 + ez))%Z) by lia.
      eapply Rle_trans; [exact Herr|]. rewrite E, bpow_add.
      pose proof (bpow_pos (-52)). nra.
  - assert (Hmono : forall (mz : positive) (ezz : Z),
              Z.max (Z.pos (digits2_pos mz) + ezz - 53) (-1074) = ezz ->
              IZR (Z.pos mz) * bpow ezz <= v ->
              IZR (Z.pos mz) * bpow ezz <= IZR mr * bpow e1).
    { intros mz ezz Hcz Hz. destruct (Z_le_gt_dec e1 ezz) as [Hle|Hgt].
      - rewrite (on_grid (Z.pos mz) ezz e1 Hle).
        assert ((Z.pos mz * 2 ^ (ezz - e1) <= mr)%Z).
        { apply Hlow. rewrite <- on_grid by exact Hle. exact Hz. }
        apply IZR_le in H. nra.
      - set (dz := Z.pos (digits2_pos mz)) in *.
        assert (Hg : (2 ^ (dm - 1 + ez - e1) <= mr)%Z).
        { apply Hlow. rewrite <- bpow_on_grid by lia. exact Hvl. }
        apply IZR_le in Hg. rewrite bpow_IZR in Hg by lia.
        assert (Hgr : bpow (dm - 1 + ez - e1) * bpow e1 <= IZR mr * bpow e1) by nra.
        rewrite <- bpow_add in Hgr.
        replace (dm - 1 + ez - e1 + e1)%Z with (dm - 1 + ez)%Z in Hgr by lia.
        pose proof (pos_bpow_upper mz ezz) as Hzu. fold dz in Hzu.
        assert (bpow (dz + ezz) <= bpow (dm - 1 + ez)) by (apply bpow_le; lia).
        lra. }
    split; apply Hmono; try assumption; lra.
Qed.


(** Adding two numbers that are not negative: the sum is not smaller than
    either, and is the exact sum within a relative [2^-52]. *)
Lemma SFadd_spec x y :
  nonnegative x -> nonnegative y ->
  valid_binary x = true -> valid_binary y = true ->
  SF2R x + SF2R y < bpow 970 ->
  nonnegative (SF64add x y) /\
  Rabs (SF2R (SF64add x y) - (SF2R x + SF2R y)) <= bpow (-52) * (SF2R x + SF2R y) /\
  SF2R x <= SF2R (SF64add x y) /\ SF2R y <= SF2R (SF64add x y).
Proof.
  pose proof (bpow_pos (-52)) as Hu.
  destruct x as [sx|sx| |[] mx ex], y as [sy|sy| |[] my ey];
    cbn [nonnegative]; try tauto; intros _ _ Hx Hy Hs.
  - assert (E : SF2R (SF64add (S754_zero sx) (S754_zero sy)) = 0)
      by (destruct sx, sy; reflexivity).
    assert (N : nonnegative (SF64add (S754_zero sx) (S754_zero sy)))
      by (destruct sx, sy; exact I).
    rewrite E. cbn [SF2R]. replace (0 - (0 + 0)) with 0 by lra. rewrite Rabs_R0.
    repeat split; try lra. exact N.
  - cbn [SF64add SFadd].
    pose proof (SF2R_nonneg (S754_finite false my ey) I) as Hy0.
    set (vy := SF2R (S754_finite false my ey)) in *. cbn [SF2R].
    replace (vy - (0 + vy)) with 0 by lra. rewrite Rabs_R0.
    repeat split; try lra; try nra. 
  - cbn [SF64add SFadd].
    pose proof (SF2R_nonneg (S754_finite false mx ex) I) as Hx0.
    set (vx := SF2R (S754_finite false mx ex)) in *. cbn [SF2R].
    replace (vx - (vx + 0)) with 0 by lra. rewrite Rabs_R0.
    repeat split; try lra; try nra.
  - now apply SFadd_finite.
Qed.

(** **** Division *)

Lemma new_location_exact nb k : isExact (new_location nb k) = (k =? 0)%Z.
Proof.
  unfold new_location, new_location_even, new_location_odd.
  destruct (Z.even nb), (k =? 0)%Z; reflexivity.
Qed.

(** Dividing a number that is not negative by a positive one: the
    quotient is the exact one within a relative [2^-52] and an absolute
    [2^-1074], and it is not above 1 when the exact one is not. *)
Lemma SFdiv_spec x (my : positive) (ey : Z) :
  let y := S754_finite false my ey in
  nonnegative x ->
  SF2R x / SF2R y < bpow 970 ->
  nonnegative (SF64div x y) /\
  Rabs (SF2R (SF64div x y) - SF2R x / SF2R y)
  <= bpow (-52) * (SF2R x / SF2R y) + bpow (-1074) /\
  (SF2R x / SF2R y <= 1 -> SF2R (SF64div x y) <= 1).
Proof.
  intros y Hx Hsmall. subst y.
  pose proof (bpow_pos (-52)) as Hu. pose proof (bpow_pos (-1074)) as Hn.
  destruct x as [sx|sx| |[] mx ex]; cbn [nonnegative] in Hx; try tauto.
  - cbn [SF64div SFdiv SF2R]. unfold Rdiv. rewrite Rmult_0_l, Rminus_diag, Rabs_R0.
    repeat split; lra.
  - cbn [SF2R cond_Zopp] in *.
    set (A := IZR (Z.pos mx)) in *. set (B := IZR (Z.pos my)) in *.
    assert (HA : 1 <= A) by (apply IZR_le; lia).
    assert (HB : 1 <= B) by (apply IZR_le; lia).
    pose proof (bpow_pos ex) as Hbx. pose proof (bpow_pos ey) as Hby.
    set (v := A * bpow ex / (B * bpow ey)) in *.
    unfold SF64div, SFdiv, SFdiv_core_binary. cbn [xorb].
    set (d1 := Zdigits2 (Z.pos mx)). set (d2 := Zdigits2 (Z.pos my)).
    set (X := (d1 + ex - (d2 + ey))%Z).
    set (e' := Z.min (fexp prec emax X) (ex - ey)).
    set (s := (ex - ey - e')%Z).
    assert (Hs : (0 <= s)%Z) by lia.
    set (m' := match s with
               | 0%Z => Z.pos mx
               | Z.pos _ => Z.shiftl (Z.pos mx) s
               | Z.neg _ => 0%Z
               end).
    assert (Hm' : m' = (Z.pos mx * 2 ^ s)%Z).
    { subst m'. destruct s as [|p|p]; [simpl; lia| |lia].
      apply Z.shiftl_mul_pow2. lia. }
    pose proof (Z_div_mod m' (Z.pos my) ltac:(lia)) as Hdiv.
    destruct (Z.div_eucl m' (Z.pos my)) as [q r]. destruct Hdiv as [Hqr Hr].
    assert (Hq : (0 <= q)%Z) by nia.
    (* the exact quotient, in units of [2^e'] *)
    pose proof (bpow_pos e') as Hbe.
    assert (Hv : v * B = (B * IZR q + IZR r) * bpow e').
    { assert (E1 : IZR m' = A * bpow s).
      { rewrite Hm', mult_IZR, bpow_IZR by lia. reflexivity. }
      assert (E2 : IZR m' = B * IZR q + IZR r).
      { rewrite Hqr, plus_IZR, mult_IZR. reflexivity. }
      assert (E3 : bpow ex = bpow s * bpow e' * bpow ey).
      { rewrite <- !bpow_add. f_equal. lia. }
      rewrite <- E2, E1. unfold v. rewrite E3. field. lra. }
    assert (Hr0 : 0 <= IZR r) by (apply IZR_le; lia).
    assert (HrB : IZR r < B) by (apply IZR_lt; lia).
    assert (Hvlo : IZR q * bpow e' <= v) by nra.
    assert (Hvhi : v < (IZR q + 1) * bpow e') by nra.
    assert (Hin : inbetween q (isExact (new_location (Z.pos my) r)) e' v).
    { unfold inbetween. rewrite new_location_exact, plus_IZR. simpl (IZR 1).
      split; [split; assumption|].
      destruct (Z.eqb_spec r 0) as [->|Hne].
      - simpl (IZR 0) in Hv. nra.
      - assert (1 <= IZR r) by (apply IZR_le; lia). nra. }
    (* the size of the exact quotient *)
    pose proof (digits2_pos_spec mx) as [Hmxl Hmxu].
    pose proof (digits2_pos_spec my) as [Hmyl Hmyu].
    change (Z.pos (digits2_pos mx)) with d1 in Hmxl, Hmxu.
    change (Z.pos (digits2_pos my)) with d2 in Hmyl, Hmyu.
    assert (Hd1 : (0 < d1)%Z) by (subst d1; simpl; lia).
    assert (Hd2 : (0 < d2)%Z) by (subst d2; simpl; lia).
    assert (HfX : fexp prec emax X = Z.max (X - 53) (-1074)) by reflexivity.
    assert (Hlarge : (-1074 < X - 53 -> 2 ^ 52 <= q)%Z).
    { intros Hnormal.
      assert (Hs53 : (53 - d1 + d2 <= s)%Z) by lia.
      assert (H1 : (2 ^ (d1 - 1) * 2 ^ s <= m')%Z) by nia.
      rewrite <- Z.pow_add_r in H1 by lia.
      assert (H2 : (2 ^ (52 + d2) <= 2 ^ (d1 - 1 + s))%Z)
        by (apply Z.pow_le_mono_r; lia).
      rewrite Z.pow_add_r in H2 by lia.
      assert (H3 : (2 ^ 52 * Z.pos my < m')%Z) by nia.
      destruct (Z_lt_le_dec q (2 ^ 52)) as [Hlt|Hge]; [|exact Hge]. nia. }
    assert (Hex : (e' <= fexp prec emax (Zdigits2 q + e'))%Z).
    { rewrite fexp_spec. destruct (Z_lt_le_dec (-1074) (X - 53)) as [Hnormal|Hsub].
      - pose proof (Zdigits2_ge q 52 ltac:(lia) (Hlarge Hnormal)). lia.
      - lia. }
    destruct (round_aux_spec q e' (new_location (Z.pos my) r) v Hq Hin Hex)
      as (mr & Hmr0 & Hlow & Hup & Herr & Hres).
    set (e1 := fexp prec emax (Zdigits2 q + e')) in *.
    assert (He1 : e1 = Z.max (Zdigits2 q + e' - 53) (-1074)) by reflexivity.
    pose proof (bpow_pos e1) as Hb1.
    assert (Hv0 : 0 < v).
    { unfold v. apply Rdiv_lt_0_compat; nra. }
    assert (Hulp : bpow e1 <= bpow (-52) * v + bpow (-1074)).
    { destruct (Z_le_gt_dec e1 (-1074)) as [Hle|Hgt].
      - apply bpow_le in Hle. nra.
      - assert (Hq1 : (0 < q)%Z).
        { destruct (Z.eq_dec q 0) as [->|]; [|lia]. exfalso.
          destruct (Z_lt_le_dec (-1074) (X - 53)) as [Hnormal|Hsub].
          - specialize (Hlarge Hnormal). lia.
          - simpl in He1. lia. }
        pose proof (Zdigits2_lower q Hq1) as Hql. apply IZR_le in Hql.
        pose proof (Zdigits2_pos q Hq1) as Hdq.
        rewrite bpow_IZR in Hql by lia.
        assert (E : e1 = (-52 + (Zdigits2 q - 1 + e'))%Z) by lia.
        rewrite E, bpow_add, (bpow_add (Zdigits2 q - 1) e').
        assert (bpow (Zdigits2 q - 1) * bpow e' <= v) by nra.
        nra. }
    assert (Hover : IZR mr * bpow e1 < bpow 972).
    { apply Rabs_bound in Herr.
      assert (bpow (-52) <= bpow 0) by (apply bpow_le; lia). rewrite bpow_0 in H.
      assert (bpow (-1074) <= bpow 970) by (apply bpow_le; lia).
      assert (E : bpow 972 = 4 * bpow 970).
      { replace 972%Z with (970 + 1 + 1)%Z by lia. rewrite !bpow_succ. lra. }
      rewrite E. nra. }
    destruct (Hres Hover) as [Hnn Hval]. rewrite Hval.
    split; [exact Hnn|]. split; [lra|].
    intros Hle1.
    assert (He10 : (e1 <= 0)%Z).
    { destruct (Z.eq_dec q 0) as [Hq0|Hq0].
      - subst q. simpl in He1.
        assert (HX : (X - 1 < 0)%Z).
        { apply bpow_lt_inv. rewrite bpow_0.
          assert (bpow (X - 1) * (B * bpow ey) < A * bpow ex).
          { apply IZR_le in Hmxl. apply IZR_lt in Hmyu.
            rewrite bpow_IZR in Hmxl, Hmyu by lia.
            assert (E : bpow (X - 1) * bpow d2 * bpow ey = bpow (d1 - 1) * bpow ex).
            { rewrite <- !bpow_add. f_equal. lia. }
            fold A in Hmxl. fold B in Hmyu.
            pose proof (bpow_pos (X - 1)).
            assert (P : 0 < bpow (X - 1) * bpow ey) by nra.
            assert (bpow (X - 1) * bpow ey * B < bpow (X - 1) * bpow ey * bpow d2)
              by (apply Rmult_lt_compat_l; assumption).
            assert (bpow (d1 - 1) * bpow ex <= A * bpow ex) by nra.
            lra. }
          assert (bpow (X - 1) < v).
          { assert (D : 0 < B * bpow ey) by nra.
            assert (E : v * (B * bpow ey) = A * bpow ex) by (unfold v; field; nra).
            nra. }
          lra. }
        lia.
      - pose proof (Zdigits2_lower q ltac:(lia)) as Hql. apply IZR_le in Hql.
        pose proof (Zdigits2_pos q ltac:(lia)) as Hdq.
        rewrite bpow_IZR in Hql by lia.
        assert (bpow (Zdigits2 q - 1 + e') <= bpow 0).
        { rewrite bpow_add, bpow_0. nra. }
        apply bpow_le_inv in H. lia. }
    assert (Hone : 1 = IZR (2 ^ (0 - e1)) * bpow e1).
    { rewrite <- bpow_on_grid by lia. reflexivity. }
    assert ((mr <= 2 ^ (0 - e1))%Z) by (apply Hup; rewrite <- Hone; exact Hle1).
    apply IZR_le in H.
    apply Rle_trans with (IZR (2 ^ (0 - e1)) * bpow e1); [nra | lra].
Qed.


(** **** Comparisons *)

(** The mantissa of a valid number has at most 53 digits, and 53 of them
    above the least exponent. *)
Lemma valid_mantissa s m e :
  valid_binary (S754_finite s m e) = true ->
  (Z.pos m < 2 ^ 53)%Z /\ (-1074 <= e)%Z /\ (-1074 < e -> 2 ^ 52 <= Z.pos m)%Z.
Proof.
  intros H. apply valid_finite in H as [H _]. rewrite fexp_spec in H.
  pose proof (digits2_pos_spec m) as [Hl Hu].
  set (d := Z.pos (digits2_pos m)) in *.
  assert (Hd : (0 < d)%Z) by (subst d; lia).
  split; [|split].
  - assert (2 ^ d <= 2 ^ 53)%Z by (apply Z.pow_le_mono_r; lia). lia.
  - lia.
  - intros He. assert (d = 53%Z) by lia. subst d. rewrite H0 in Hl. exact Hl.
Qed.

(** A valid number that compares below a normal one is below it. *)
Lemma SFleb_le (m : positive) (e : Z) (mc : positive) (ec : Z) :
  valid_binary (S754_finite false m e) = true ->
  (2 ^ 52 <= Z.pos mc)%Z ->
  SFleb (S754_finite false m e) (S754_finite false mc ec) = true ->
  SF2R (S754_finite false m e) <= SF2R (S754_finite false mc ec).
Proof.
  intros Hv Hc. apply valid_mantissa in Hv as (Hm & _ & _).
  unfold SFleb, SFcompare. cbn [SF2R cond_Zopp].
  pose proof (bpow_pos e). pose proof (bpow_pos ec).
  apply IZR_lt in Hm. apply IZR_le in Hc. rewrite bpow_IZR in Hm, Hc by lia.
  destruct (Z.compare_spec e ec) as [->|Hlt|Hgt].
  - rewrite Pos.compare_cont_spec. cbn [Pos.switch_Eq].
    destruct (Pos.compare_spec m mc) as [->|Hlt|Hgt]; intros Hcmp;
      try discriminate Hcmp.
    + lra.
    + assert (IZR (Z.pos m) < IZR (Z.pos mc)) by (apply IZR_lt; lia). nra.
  - intros _. assert (Hle : bpow (e + 1) <= bpow ec) by (apply bpow_le; lia).
    rewrite bpow_succ in Hle.
    assert (E : bpow 53 = 2 * bpow 52) by (replace 53%Z with (52 + 1)%Z by lia; apply bpow_succ).
    pose proof (bpow_pos 52). rewrite E in Hm.
    assert (IZR (Z.pos m) * bpow e <= 2 * bpow 52 * bpow e) by nra.
    assert (bpow 52 * (2 * bpow e) <= bpow 52 * bpow ec) by nra.
    assert (bpow 52 * bpow ec <= IZR (Z.pos mc) * bpow ec) by nra.
    lra.
  - discriminate.
Qed.

(** And conversely. *)
Lemma le_SFleb (m : positive) (e : Z) (mc : positive) (ec : Z) :
  valid_binary (S754_finite false m e) = true ->
  (Z.pos mc < 2 ^ 53)%Z -> (-1074 <= ec)%Z ->
  SF2R (S754_finite false m e) <= SF2R (S754_finite false mc ec) ->
  SFleb (S754_finite false m e) (S754_finite false mc ec) = true.
Proof.
  intros Hv Hc Hec. apply valid_mantissa in Hv as (_ & _ & Hm).
  unfold SFleb, SFcompare. cbn [SF2R cond_Zopp].
  pose proof (bpow_pos e). pose proof (bpow_pos ec).
  apply IZR_lt in Hc. rewrite bpow_IZR in Hc by lia.
  destruct (Z.compare_spec e ec) as [->|Hlt|Hgt]; [|reflexivity|].
  - rewrite Pos.compare_cont_spec. cbn [Pos.switch_Eq]. intros Hle.
    destruct (Pos.compare_spec m mc) as [->|Hlt|Hgt]; try reflexivity.
    assert (IZR (Z.pos mc) < IZR (Z.pos m)) by (apply IZR_lt; lia). nra.
  - intros Hle. exfalso. specialize (Hm ltac:(lia)).
    apply IZR_le in Hm. rewrite bpow_IZR in Hm by lia.
    assert (Hge : bpow (ec + 1) <= bpow e) by (apply bpow_le; lia).
    rewrite bpow_succ in Hge.
    assert (E : bpow 53 = 2 * bpow 52) by (replace 53%Z with (52 + 1)%Z by lia; apply bpow_succ).
    pose proof (bpow_pos 52). rewrite E in Hc.
    assert (bpow 52 * (2 * bpow ec) <= bpow 52 * bpow e) by nra.
    assert (bpow 52 * bpow e <= IZR (Z.pos m) * bpow e) by nra.
    assert (IZR (Z.pos mc) * bpow ec < 2 * bpow 52 * bpow ec) by nra.
    lra.
Qed.

(** **** Binary64 numbers *)

Lemma valueOf_0 : valueOf 0 = 0.
Proof. reflexivity. Qed.

Lemma valueOf_1 : valueOf 1 = 1.
Proof.
  unfold valueOf. change (Prim2SF 1) with (S754_finite false (2 ^ 52) (-52)).
  cbn [SF2R cond_Zopp]. change (Z.pos (2 ^ 52)) with (2 ^ 52)%Z.
  rewrite bpow_IZR by lia. apply bpow_cancel.
Qed.

Lemma valueOf_100 : valueOf 100 = 100.
Proof.
  unfold valueOf. change (Prim2SF 100) with (S754_finite false (25 * 2 ^ 48) (-46)).
  cbn [SF2R cond_Zopp]. change (Z.pos (25 * 2 ^ 48)) with (100 * 2 ^ 46)%Z.
  rewrite mult_IZR, bpow_IZR by lia. rewrite Rmult_assoc, bpow_cancel. lra.
Qed.

(** What lies between zero and a normal number [c], by the comparisons of
    binary64, is a number that is not negative and not above [c]. *)
Lemma between_spec (x c : float) (mc : positive) (ec : Z) :
  Prim2SF c = S754_finite false mc ec -> (2 ^ 52 <= Z.pos mc)%Z ->
  (0 <=? x)%float = true -> (x <=? c)%float = true ->
  nonnegative (Prim2SF x) /\ valueOf x <= valueOf c.
Proof.
  intros Hc Hmc H0 H1. rewrite FloatAxioms.leb_spec in H0, H1. unfold valueOf.
  pose proof (Prim2SF_valid x) as Hv. rewrite Hc in *.
  change (Prim2SF 0) with (S754_zero false) in H0.
  destruct (Prim2SF x) as [s|s| |s m e]; try discriminate.
  - split; [exact I|]. apply (SF2R_nonneg (S754_finite false mc ec) I).
  - destruct s; discriminate.
  - destruct s; [discriminate|]. split; [exact I|]. now apply SFleb_le.
Qed.

Lemma between_intro (x c : float) (mc : positive) (ec : Z) :
  Prim2SF c = S754_finite false mc ec -> (Z.pos mc < 2 ^ 53)%Z -> (-1074 <= ec)%Z ->
  nonnegative (Prim2SF x) -> valueOf x <= valueOf c ->
  (0 <=? x)%float = true /\ (x <=? c)%float = true.
Proof.
  intros Hc Hmc Hec Hn Hle. rewrite !FloatAxioms.leb_spec. unfold valueOf in Hle.
  pose proof (Prim2SF_valid x) as Hv. rewrite Hc in *.
  change (Prim2SF 0) with (S754_zero false).
  destruct (Prim2SF x) as [s|s| |[] m e]; cbn [nonnegative] in Hn;
    try contradiction.
  - split; reflexivity.
  - split; [reflexivity|]. now apply le_SFleb.
Qed.

(** A number that is not negative is above zero, or equal to it. *)
Lemma positive_or_zero (x : float) :
  nonnegative (Prim2SF x) ->
  ((0 <? x)%float = true /\ (x =? 0)%float = false /\ 0 < valueOf x /\
   exists m e, Prim2SF x = S754_finite false m e) \/
  ((0 <? x)%float = false /\ (x =? 0)%float = true /\ valueOf x = 0).
Proof.
  intros Hn. rewrite FloatAxioms.ltb_spec, FloatAxioms.eqb_spec. unfold valueOf.
  change (Prim2SF 0) with (S754_zero false).
  destruct (Prim2SF x) as [s|s| |[] m e]; cbn [nonnegative] in Hn;
    try contradiction.
  - right. repeat split.
  - left. split; [reflexivity|]. split; [reflexivity|]. split; [|now exists m, e].
    cbn [SF2R cond_Zopp]. pose proof (bpow_pos e).
    assert (0 < IZR (Z.pos m)) by (apply IZR_lt; lia). nra.
Qed.

Lemma add_spec64 (x y : float) :
  nonnegative (Prim2SF x) -> nonnegative (Prim2SF y) ->
  valueOf x + valueOf y < bpow 970 ->
  nonnegative (Prim2SF (x + y)) /\
  Rabs (valueOf (x + y) - (valueOf x + valueOf y))
  <= bpow (-52) * (valueOf x + valueOf y) /\
  valueOf x <= valueOf (x + y) /\ valueOf y <= valueOf (x + y).
Proof.
  intros Hx Hy Hs. unfold valueOf. rewrite FloatAxioms.add_spec.
  apply SFadd_spec; try assumption; apply Prim2SF_valid.
Qed.

Lemma div_spec64 (x y : float) :
  nonnegative (Prim2SF x) -> (0 <? y)%float = true -> nonnegative (Prim2SF y) ->
  valueOf x / valueOf y < bpow 970 ->
  nonnegative (Prim2SF (x / y)) /\
  Rabs (valueOf (x / y) - valueOf x / valueOf y)
  <= bpow (-52) * (valueOf x / valueOf y) + bpow (-1074) /\
  (valueOf x / valueOf y <= 1 -> valueOf (x / y) <= 1).
Proof.
  intros Hx Hpos Hy Hs.
  destruct (positive_or_zero y Hy) as [(_ & _ & _ & m & e & E)|(F & _)]; [|congruence].
  unfold valueOf in *. rewrite FloatAxioms.div_spec, E in *. now apply SFdiv_spec.
Qed.


(** **** Sums *)

Lemma sumOf_nonneg (l : list float) :
  Forall (fun x => nonnegative (Prim2SF x)) l -> 0 <= sumOf l.
Proof.
  induction 1 as [|x l Hx _ IH]; simpl; [lra|].
  pose proof (SF2R_nonneg _ Hx). unfold valueOf. lra.
Qed.

Lemma pow_1u_ge u n : 0 <= u -> 1 <= (1 + u) ^ n.
Proof. intros H. apply pow_R1_Rle. lra. Qed.

Lemma pow_1u_le u n : 0 <= u <= 1 -> 0 <= (1 - u) ^ n <= 1.
Proof.
  intros H. induction n as [|n IH]; simpl; [lra|]. nra.
Qed.

Lemma step_small a x s u P B :
  0 <= a -> 0 <= x -> 0 <= s -> 0 < u -> 1 <= P ->
  (a + (x + s)) * ((1 + u) * P) < B -> a + x < B.
Proof.
  intros. assert (a + x <= (a + (x + s)) * ((1 + u) * P)); [|lra].
  assert (1 <= (1 + u) * P) by nra.
  assert (0 <= a + (x + s)) by lra. nra.
Qed.

Lemma step_small' a x s u P B a' :
  0 <= a -> 0 <= x -> 0 <= s -> 0 < u -> 1 <= P ->
  (a + (x + s)) * ((1 + u) * P) < B -> a' <= (1 + u) * (a + x) ->
  (a' + s) * P < B.
Proof.
  intros. assert ((a' + s) * P <= (a + (x + s)) * ((1 + u) * P)); [|lra].
  assert (a' + s <= (1 + u) * (a + (x + s))) by nra.
  replace ((a + (x + s)) * ((1 + u) * P)) with (((1 + u) * (a + (x + s))) * P) by ring.
  apply Rmult_le_compat_r; lra.
Qed.

Lemma step_hi a x s u P a' r :
  0 <= a -> 0 <= x -> 0 <= s -> 0 < u -> 1 <= P ->
  a' <= (1 + u) * (a + x) -> r <= P * (a' + s) ->
  r <= (1 + u) * P * (a + (x + s)).
Proof.
  intros. assert (a' + s <= (1 + u) * (a + (x + s))) by nra.
  assert (P * (a' + s) <= P * ((1 + u) * (a + (x + s)))) by (apply Rmult_le_compat_l; lra).
  lra.
Qed.

Lemma step_lo a x s u M a' r :
  0 <= a -> 0 <= x -> 0 <= s -> 0 < u <= 1 -> 0 <= M ->
  (1 - u) * (a + x) <= a' -> M * (a' + s) <= r ->
  (1 - u) * M * (a + (x + s)) <= r.
Proof.
  intros. assert ((1 - u) * (a + (x + s)) <= a' + s) by nra.
  assert (M * ((1 - u) * (a + (x + s))) <= M * (a' + s)) by (apply Rmult_le_compat_l; lra).
  lra.
Qed.

(** The sum that a loop of additions makes of numbers that are not
    negative: not below any of them, and the exact sum within a relative
    [2^-52] for each addition. *)
Lemma fold_add_spec (l : list float) :
  forall acc : float,
    let u := bpow (-52) in
    let r := fold_left PrimFloat.add l acc in
    nonnegative (Prim2SF acc) ->
    Forall (fun x => nonnegative (Prim2SF x)) l ->
    (valueOf acc + sumOf l) * (1 + u) ^ length l < bpow 970 ->
    nonnegative (Prim2SF r) /\
    (1 - u) ^ length l * (valueOf acc + sumOf l) <= valueOf r /\
    valueOf r <= (1 + u) ^ length l * (valueOf acc + sumOf l) /\
    valueOf acc <= valueOf r /\
    Forall (fun x => valueOf x <= valueOf r) l.
Proof.
  assert (Hu : 0 < bpow (-52) <= 1).
  { split; [apply bpow_pos|]. rewrite <- bpow_0. apply bpow_le. lia. }
  induction l as [|x l IH]; intros acc u r Hacc Hl Hsmall; subst u r.
  - simpl. repeat split; try lra; try assumption. constructor.
  - inversion Hl as [|? ? Hx Hl']; subst. cbn [fold_left length sumOf pow] in *.
    pose proof (SF2R_nonneg _ Hacc) as Ha0. pose proof (SF2R_nonneg _ Hx) as Hx0.
    pose proof (sumOf_nonneg l Hl') as Hs0.
    fold (valueOf acc) in Ha0. fold (valueOf x) in Hx0.
    pose proof (pow_1u_ge (bpow (-52)) (length l) ltac:(lra)) as HP.
    pose proof (pow_1u_le (bpow (-52)) (length l) ltac:(lra)) as [HM _].
    assert (Hax : valueOf acc + valueOf x < bpow 970)
      by (apply (step_small (valueOf acc) (valueOf x) (sumOf l) (bpow (-52))
                  ((1 + bpow (-52)) ^ length l)); solve [assumption | lra]).
    destruct (add_spec64 acc x Hacc Hx Hax) as (Hn & Herr & Hmx & Hmy).
    apply Rabs_bound in Herr.
    assert (Hsmall' : (valueOf (acc + x) + sumOf l) * (1 + bpow (-52)) ^ length l
                      < bpow 970)
      by (apply (step_small' (valueOf acc) (valueOf x) (sumOf l) (bpow (-52)));
          solve [assumption | lra]).
    destruct (IH (acc + x)%float Hn Hl' Hsmall') as (Hnr & Hlo & Hhi & Hma & Hall).
    split; [exact Hnr|]. split; [|split; [|split]].
    + apply (step_lo (valueOf acc) (valueOf x) (sumOf l) (bpow (-52)) _
               (valueOf (acc + x))); solve [assumption | lra].
    + apply (step_hi (valueOf acc) (valueOf x) (sumOf l) (bpow (-52)) _
               (valueOf (acc + x))); solve [assumption | lra].
    + lra.
    + constructor; [lra|exact Hall].
Qed.


(** **** The quotients by the sum *)

Lemma pow6_upper u : 0 <= u <= 1e-10 -> (1 + u) ^ 6 <= 1 + 1e-9.
Proof.
  intros H. simpl.
  assert (H2 : (1 + u) * 1 <= 1 + u) by lra.
  assert (H3 : (1 + u) * ((1 + u) * 1) <= 1 + 3 * u) by nra.
  assert (H4 : (1 + u) * ((1 + u) * ((1 + u) * 1)) <= 1 + 5 * u) by nra.
  assert (H5 : (1 + u) * ((1 + u) * ((1 + u) * ((1 + u) * 1))) <= 1 + 7 * u) by nra.
  assert (H6 : (1 + u) * ((1 + u) * ((1 + u) * ((1 + u) * ((1 + u) * 1)))) <= 1 + 9 * u) by nra.
  nra.
Qed.

Lemma pow6_lower u : 0 <= u <= 1e-10 -> 1 - 1e-9 <= (1 - u) ^ 6.
Proof.
  intros H. simpl.
  assert (H2 : 1 - u <= (1 - u) * 1) by lra.
  assert (H3 : 1 - 2 * u <= (1 - u) * ((1 - u) * 1)) by nra.
  assert (H4 : 1 - 3 * u <= (1 - u) * ((1 - u) * ((1 - u) * 1))) by nra.
  assert (H5 : 1 - 4 * u <= (1 - u) * ((1 - u) * ((1 - u) * ((1 - u) * 1)))) by nra.
  assert (H6 : 1 - 5 * u <= (1 - u) * ((1 - u) * ((1 - u) * ((1 - u) * ((1 - u) * 1))))) by nra.
  nra.
Qed.

Lemma final_bound S T Q R u n :
  0 < T -> 0 <= u <= 1e-10 -> 0 <= n <= 1e-10 ->
  (1 - 1e-9) * S <= T <= (1 + 1e-9) * S ->
  Rabs (Q - S / T) <= u * (S / T) + 6 * n ->
  (1 - 1e-9) * Q <= R <= (1 + 1e-9) * Q ->
  Rabs (R - 1) < 1e-8.
Proof.
  intros HT Hu Hn HST HQ HR. apply Rabs_bound in HQ.
  set (w := S / T) in *.
  assert (Hw : w * T = S) by (unfold w; field; lra).
  clearbody w.
  assert (HS : 0 < S) by nra.
  assert (Hw0 : 0 < w) by nra.
  assert (Hw1 : w * (1 - 1e-9) <= 1) by nra.
  assert (Hw2 : 1 <= w * (1 + 1e-9)) by nra.
  assert (Huw : 0 <= u * w <= 1e-10 * w) by nra.
  assert (HQ0 : 0 <= Q) by nra.
  apply Rabs_def1; lra.
Qed.

Lemma small_units :
  0 <= bpow (-52) <= 1e-10 /\ 0 <= bpow (-1074) <= 1e-10.
Proof.
  assert (H40 : bpow (-40) <= 1e-10).
  { pose proof (bpow_cancel 40) as H. change (- (40))%Z with (-40)%Z in H.
    rewrite <- (bpow_IZR 40) in H by lia.
    change (2 ^ 40)%Z with 1099511627776%Z in H. lra. }
  pose proof (bpow_pos (-52)). pose proof (bpow_pos (-1074)).
  assert (bpow (-52) <= bpow (-40)) by (apply bpow_le; lia).
  assert (bpow (-1074) <= bpow (-40)) by (apply bpow_le; lia).
  lra.
Qed.

Lemma bpow_970_large : 1024 <= bpow 970.
Proof.
  assert (bpow 10 <= bpow 970) by (apply bpow_le; lia).
  rewrite <- (bpow_IZR 10) in H by lia. change (2 ^ 10)%Z with 1024%Z in H. exact H.
Qed.

(** The numbers of [c] divided by a positive number [t] that is not below
    any of them: the quotients are fractions, and their sum is the sum of
    the numbers divided by [t], within a relative [2^-52] and an absolute
    [2^-1074] for each. *)
Lemma quotients_spec (t : float) (c : list float) :
  (0 <? t)%float = true -> nonnegative (Prim2SF t) ->
  Forall (fun x => nonnegative (Prim2SF x) /\ valueOf x <= valueOf t) c ->
  let q := map (fun x => (x / t)%float) c in
  Forall (fun y => nonnegative (Prim2SF y) /\ valueOf y <= 1) q /\
  Rabs (sumOf q - sumOf c / valueOf t)
  <= bpow (-52) * (sumOf c / valueOf t) + INR (length c) * bpow (-1074).
Proof.
  intros Hpos Ht Hc.
  destruct (positive_or_zero t Ht) as [(_ & _ & Ht0 & _)|(F & _)]; [|congruence].
  pose proof bpow_970_large as Hlarge.
  induction Hc as [|x c [Hx Hxt] Hc IH].
  - split; [constructor|]. simpl.
    unfold Rdiv. rewrite Rmult_0_l, Rminus_diag, Rabs_R0. lra.
  - destruct IH as [IHq IHs]. cbn [map sumOf length].
    pose proof (SF2R_nonneg _ Hx) as Hx0. fold (valueOf x) in Hx0.
    assert (Hv1 : valueOf x / valueOf t <= 1).
    { apply Rmult_le_reg_r with (valueOf t); [exact Ht0|].
      unfold Rdiv. rewrite Rmult_assoc, Rinv_l by lra. lra. }
    assert (Hv0 : 0 <= valueOf x / valueOf t).
    { apply Rmult_le_pos; [exact Hx0|]. apply Rlt_le, Rinv_0_lt_compat, Ht0. }
    destruct (div_spec64 x t Hx Hpos Ht ltac:(lra)) as (Hn & Herr & Hle).
    split; [constructor; [split; [exact Hn|exact (Hle Hv1)]|exact IHq]|].
    apply Rabs_bound in Herr. apply Rabs_bound in IHs.
    rewrite S_INR.
    replace ((valueOf x + sumOf c) / valueOf t)
      with (valueOf x / valueOf t + sumOf c / valueOf t) by (field; lra).
    apply Rabs_le. lra.
Qed.

(** Six fractions divided by the sum that a loop of additions makes of
    them: the quotients are fractions, and the sum that the loop makes of
    them is 1 within [1e-8]. *)
Lemma normalised_sum (c : list float) :
  length c = 6%nat ->
  Forall (fun x => nonnegative (Prim2SF x) /\ valueOf x <= 1) c ->
  let t := fold_left PrimFloat.add c 0%float in
  (0 <? t)%float = true ->
  let q := map (fun x => (x / t)%float) c in
  Forall (fun y => nonnegative (Prim2SF y) /\ valueOf y <= 1) q /\
  nonnegative (Prim2SF (fold_left PrimFloat.add q 0%float)) /\
  Rabs (valueOf (fold_left PrimFloat.add q 0%float) - 1) < 1e-8.
Proof.
  intros Hlen Hc t Hpos q.
  destruct small_units as [Hu Hn]. pose proof bpow_970_large as Hlarge.
  pose proof (pow6_upper _ Hu) as Hup. pose proof (pow6_lower _ Hu) as Hlo.
  assert (Hnn : Forall (fun x => nonnegative (Prim2SF x)) c)
    by (eapply List.Forall_impl; [|exact Hc]; intros x [H _]; exact H).
  assert (Hsum6 : forall l : list float,
             Forall (fun x => nonnegative (Prim2SF x) /\ valueOf x <= 1) l ->
             0 <= sumOf l <= INR (length l)).
  { induction 1 as [|x l [Hx Hx1] _ IH]; [simpl; lra|].
    cbn [sumOf length]. rewrite S_INR. pose proof (SF2R_nonneg _ Hx).
    unfold valueOf in *. lra. }
  pose proof (Hsum6 c Hc) as HS. rewrite Hlen in HS. simpl INR in HS.
  destruct (fold_add_spec c 0%float) as (Ht & Htlo & Hthi & _ & Hall).
  { exact I. } { exact Hnn. }
  { rewrite Hlen, valueOf_0. nra. }
  fold t in Ht, Htlo, Hthi, Hall. rewrite Hlen, valueOf_0, Rplus_0_l in Htlo, Hthi.
  destruct (positive_or_zero t Ht) as [(_ & _ & Ht0 & _)|(F & _)]; [|congruence].
  destruct (quotients_spec t c Hpos Ht) as [Hq Hqs].
  { rewrite List.Forall_forall in *. intros x Hx. split; [apply Hnn, Hx|apply Hall, Hx]. }
  fold q in Hq, Hqs. rewrite Hlen in Hqs. simpl INR in Hqs.
  split; [exact Hq|].
  assert (Hqn : Forall (fun x => nonnegative (Prim2SF x)) q)
    by (eapply List.Forall_impl; [|exact Hq]; intros x [H _]; exact H).
  pose proof (Hsum6 q Hq) as HQ.
  assert (Hlenq : length q = 6%nat) by (unfold q; rewrite List.length_map; exact Hlen).
  rewrite Hlenq in HQ. simpl INR in HQ.
  destruct (fold_add_spec q 0%float) as (Hrn & Hrlo & Hrhi & _).
  { exact I. } { exact Hqn. }
  { rewrite Hlenq, valueOf_0. nra. }
  rewrite Hlenq, valueOf_0, Rplus_0_l in Hrlo, Hrhi.
  split; [exact Hrn|].
  apply (final_bound (sumOf c) (valueOf t) (sumOf q) _ (bpow (-52)) (bpow (-1074)));
    try assumption.
  - split; nra.
  - lra.
  - split; nra.
Qed.

(** **** The test of the sum *)

Lemma SFabs_round_aux sx mx ex lx :
  SFabs (binary_round_aux prec emax sx mx ex lx) = binary_round_aux prec emax false mx ex lx.
Proof.
  unfold binary_round_aux. destruct (shr_fexp prec emax mx ex lx) as [mrs' e'].
  destruct (shr_fexp prec emax _ e' loc_Exact) as [mrs'' e''].
  destruct (shr_m mrs''); [reflexivity| |reflexivity].
  destruct (e'' <=? emax - prec)%Z; reflexivity.
Qed.

Lemma SFabs_round sx m e :
  SFabs (binary_round prec emax sx m e) = binary_round prec emax false m e.
Proof.
  unfold binary_round. destruct (shl_align m e _) as [mz ez]. apply SFabs_round_aux.
Qed.

(** Rounding a small number gives a small number. *)
Lemma round_small (p : positive) (e : Z) :
  IZR (Z.pos p) * bpow e < 1e-8 ->
  nonnegative (binary_round prec emax false p e) /\
  SF2R (binary_round prec emax false p e) < 2e-8.
Proof.
  intros Hv. destruct small_units as [Hu Hn]. pose proof bpow_970_large as Hlarge.
  destruct (binary_round_spec p e) as (mr & _ & _ & _ & Herr & Hres).
  set (v := IZR (Z.pos p) * bpow e) in *.
  set (e1 := fexp prec emax (Z.pos (digits2_pos p) + e)) in *.
  assert (He1 : e1 = Z.max (Z.pos (digits2_pos p) + e - 53) (-1074)) by reflexivity.
  pose proof (pos_bpow_lower p e) as Hlow. fold v in Hlow.
  assert (Hv0 : 0 < v).
  { pose proof (bpow_pos (Z.pos (digits2_pos p) - 1 + e)). lra. }
  assert (Hulp : bpow e1 <= bpow (-52) * v + bpow (-1074)).
  { destruct (Z_le_gt_dec e1 (-1074)) as [Hle|Hgt].
    - apply bpow_le in Hle. nra.
    - assert (E : e1 = (-52 + (Z.pos (digits2_pos p) - 1 + e))%Z) by lia.
      rewrite E, bpow_add. nra. }
  apply Rabs_bound in Herr.
  assert (Hsmall : IZR mr * bpow e1 < 2e-8) by nra.
  assert (E : bpow 972 = 4 * bpow 970).
  { replace 972%Z with (970 + 1 + 1)%Z by lia. rewrite !bpow_succ. lra. }
  destruct (Hres ltac:(lra)) as [Hnn Hval]. rewrite Hval. split; assumption.
Qed.

(** The distance to 1 of a number that is near 1, as binary64 computes
    it. *)
Lemma distance_to_one (m : positive) (e : Z) :
  Rabs (SF2R (S754_finite false m e) - 1) < 1e-8 ->
  let r := SFabs (SF64sub (S754_finite false m e) (S754_finite false (2 ^ 52) (-52))) in
  nonnegative r /\ SF2R r < 2e-8.
Proof.
  intros Hnear r. subst r. cbn [SF2R cond_Zopp] in Hnear.
  unfold SF64sub, SFsub. cbn [cond_Zopp].
  set (ez := Z.min e (-52)).
  destruct (shl_align_spec m e ez) as [_ Ha].
  destruct (shl_align_spec (2 ^ 52) (-52) ez) as [_ Hb].
  replace (Z.min e ez) with ez in Ha by lia.
  replace (Z.min (-52) ez) with ez in Hb by lia.
  set (a := fst (shl_align m e ez)) in *. set (b := fst (shl_align (2 ^ 52) (-52) ez)) in *.
  assert (Hxa : IZR (Z.pos m) * bpow e = IZR (Z.pos a) * bpow ez)
    by (rewrite Ha; apply on_grid; lia).
  assert (Hyb : 1 = IZR (Z.pos b) * bpow ez).
  { rewrite Hb, <- on_grid by lia. change (Z.pos (2 ^ 52)) with (2 ^ 52)%Z.
    rewrite bpow_IZR by lia. symmetry. apply bpow_cancel. }
  assert (Hd : IZR (Z.pos a - Z.pos b) * bpow ez = IZR (Z.pos m) * bpow e - 1).
  { rewrite minus_IZR. lra. }
  apply Rabs_def2 in Hnear.
  destruct (Z.pos a - Z.pos b)%Z as [|p|p] eqn:ED.
  - cbn [binary_normalize SFabs SF2R nonnegative]. split; [exact I|lra].
  - cbn [binary_normalize]. rewrite SFabs_round. apply round_small. lra.
  - cbn [binary_normalize]. rewrite SFabs_round. apply round_small.
    change (Z.neg p) with (- Z.pos p)%Z in Hd. rewrite opp_IZR in Hd. lra.
Qed.

(** A valid number that is below a normal one compares below it. *)
Lemma lt_SFltb (m : positive) (e : Z) (mc : positive) (ec : Z) :
  valid_binary (S754_finite false m e) = true ->
  (Z.pos mc < 2 ^ 53)%Z -> (-1074 <= ec)%Z ->
  SF2R (S754_finite false m e) < SF2R (S754_finite false mc ec) ->
  SFltb (S754_finite false m e) (S754_finite false mc ec) = true.
Proof.
  intros Hv Hc Hec. apply valid_mantissa in Hv as (_ & _ & Hm).
  unfold SFltb, SFcompare. cbn [SF2R cond_Zopp].
  pose proof (bpow_pos e). pose proof (bpow_pos ec).
  apply IZR_lt in Hc. rewrite bpow_IZR in Hc by lia.
  destruct (Z.compare_spec e ec) as [->|Hlt|Hgt]; [|reflexivity|].
  - rewrite Pos.compare_cont_spec. cbn [Pos.switch_Eq]. intros Hle.
    destruct (Pos.compare_spec m mc) as [->|Hlt|Hgt]; try reflexivity.
    + lra.
    + assert (IZR (Z.pos mc) < IZR (Z.pos m)) by (apply IZR_lt; lia). nra.
  - intros Hle. exfalso. specialize (Hm ltac:(lia)).
    apply IZR_le in Hm. rewrite bpow_IZR in Hm by lia.
    assert (Hge : bpow (ec + 1) <= bpow e) by (apply bpow_le; lia).
    rewrite bpow_succ in Hge.
    assert (E : bpow 53 = 2 * bpow 52) by (replace 53%Z with (52 + 1)%Z by lia; apply bpow_succ).
    pose proof (bpow_pos 52). rewrite E in Hc.
    assert (bpow 52 * (2 * bpow ec) <= bpow 52 * bpow e) by nra.
    assert (bpow 52 * bpow e <= IZR (Z.pos m) * bpow e) by nra.
    assert (IZR (Z.pos mc) * bpow ec < 2 * bpow 52 * bpow ec) by nra.
    lra.
Qed.

(** The test [|x - 1.0| < 1e-6], made with the operations of binary64,
    succeeds on a number that stands for a number within [1e-8] of 1. *)
Lemma sumsToOne_near (x : float) :
  nonnegative (Prim2SF x) -> Rabs (valueOf x - 1) < 1e-8 -> sumsToOne x = true.
Proof.
  intros Hn Hnear. unfold sumsToOne, valueOf in *.
  pose proof (Prim2SF_valid (abs (x - 1))) as Hvalid.
  rewrite FloatAxioms.ltb_spec. rewrite abs_spec, sub_spec in *.
  change (Prim2SF 1) with (S754_finite false (2 ^ 52) (-52)) in *.
  change (Prim2SF 1e-6) with (S754_finite false 4722366482869645 (-72)).
  destruct (Prim2SF x) as [s|s| |[] m e]; cbn [nonnegative] in Hn; try contradiction.
  - exfalso. cbn [SF2R] in Hnear. apply Rabs_def2 in Hnear. lra.
  - destruct (distance_to_one m e Hnear) as [Hr Hsmall].
    destruct (SFabs _) as [s|s| |[] m' e']; cbn [nonnegative] in Hr; try contradiction.
    + reflexivity.
    + apply lt_SFltb; [exact Hvalid|simpl; lia|lia|].
      eapply Rlt_trans; [exact Hsmall|]. cbn [SF2R cond_Zopp].
      pose proof (bpow_cancel 72) as H72. change (- (72))%Z with (-72)%Z in H72.
      rewrite <- (bpow_IZR 72) in H72 by lia.
      change (2 ^ 72)%Z with 4722366482869645213696%Z in H72. nra.
Qed.

(** **** Fractions *)

Lemma fraction_spec (x : float) :
  fraction x = true -> nonnegative (Prim2SF x) /\ valueOf x <= 1.
Proof.
  unfold fraction. intros H. apply andb_prop in H as [H0 H1].
  rewrite <- valueOf_1.
  apply (between_spec x 1 (2 ^ 52) (-52)); [reflexivity|simpl; lia|exact H0|exact H1].
Qed.

Lemma fraction_intro (x : float) :
  nonnegative (Prim2SF x) -> valueOf x <= 1 -> fraction x = true.
Proof.
  intros Hn Hle. rewrite <- valueOf_1 in Hle.
  destruct (between_intro x 1 (2 ^ 52) (-52)) as [H0 H1];
    [reflexivity|simpl; lia|lia|exact Hn|exact Hle|].
  unfold fraction. now rewrite H0, H1.
Qed.

Lemma fractions_Forall (c : list float) :
  forallb fraction c = true <->
  Forall (fun x => nonnegative (Prim2SF x) /\ valueOf x <= 1) c.
Proof.
  rewrite forallb_forall, List.Forall_forall. split; intros H x Hx.
  - apply fraction_spec, H, Hx.
  - destruct (H x Hx). now apply fraction_intro.
Qed.

(** The fraction that a position of a slider stands for. *)
Lemma slider_fraction (value : float) :
  sliderValue value = true -> fraction (value / 100) = true.
Proof.
  unfold sliderValue. intros H. apply andb_prop in H as [H0 H1].
  destruct (between_spec value 100 (25 * 2 ^ 48) (-46)) as [Hn Hle];
    [reflexivity|simpl; lia|exact H0|exact H1|].
  rewrite valueOf_100 in Hle.
  pose proof (SF2R_nonneg _ Hn) as Hv0. fold (valueOf value) in Hv0.
  pose proof bpow_970_large as Hlarge.
  destruct (div_spec64 value 100 Hn eq_refl I) as (Hq & _ & Hq1).
  { rewrite valueOf_100. lra. }
  apply fraction_intro; [exact Hq|]. apply Hq1. rewrite valueOf_100. lra.
Qed.

(** The sum that the loop makes of six fractions is not negative. *)
Lemma fractions_total (c : list float) :
  length c = 6%nat -> forallb fraction c = true ->
  nonnegative (Prim2SF (fold_left PrimFloat.add c 0%float)).
Proof.
  intros Hlen Hc. apply fractions_Forall in Hc.
  destruct small_units as [Hu _]. pose proof bpow_970_large as Hlarge.
  pose proof (pow6_upper _ Hu) as Hup.
  assert (HS : 0 <= sumOf c <= INR (length c)).
  { clear Hlen. induction Hc as [|x l [Hx Hx1] _ IH]; [simpl; lra|].
    cbn [sumOf length]. rewrite S_INR. pose proof (SF2R_nonneg _ Hx).
    unfold valueOf in *. lra. }
  rewrite Hlen in HS. simpl INR in HS.
  destruct (fold_add_spec c 0%float) as (Ht & _).
  - exact I.
  - eapply List.Forall_impl; [|exact Hc]. intros x [H _]. exact H.
  - rewrite Hlen, valueOf_0. nra.
  - exact Ht.
Qed.

(** Six fractions and the sum [t] that the loop makes of them: [t] is
    zero or above it; when it is above, the quotients by [t] are fractions
    and the sum that the loop makes of them is 1 within [1e-6], as a real
    number and by the test that binary64 makes. *)
Lemma normalise_fractions (c : list float) :
  length c = 6%nat -> forallb fraction c = true ->
  let t := fold_left PrimFloat.add c 0%float in
  ((t =? 0)%float = false ->
   (0 <? t)%float = true /\
   forallb fraction (map (fun x => (x / t)%float) c) = true /\
   nearOne (fold_left PrimFloat.add (map (fun x => (x / t)%float) c) 0%float) /\
   sumsToOne (fold_left PrimFloat.add (map (fun x => (x / t)%float) c) 0%float) = true) /\
  ((t =? 0)%float = true -> (0 <? t)%float = false).
Proof.
  intros Hlen Hc t. pose proof (fractions_total c Hlen Hc) as Ht. fold t in Ht.
  destruct (positive_or_zero t Ht) as [(Hpos & Hne & _)|(Hnpos & He & _)].
  - split; [|congruence]. intros _. split; [exact Hpos|].
    apply fractions_Forall in Hc.
    destruct (normalised_sum c Hlen Hc Hpos) as (Hq & Hsum & Hone).
    split; [apply fractions_Forall; exact Hq|]. split.
    + unfold nearOne. eapply Rlt_trans; [exact Hone | lra].
    + now apply sumsToOne_near.
  - split; [congruence|]. intros _. exact Hnpos.
Qed.

End Rounding.

(* ===================================================================== *)
(** ** Part XI.  Properties of the weight normaliser                     *)
(* ===================================================================== *)

Lemma greater_exact (total : Q) :
  PriorityPanel.greater PriorityPanel.exact total (PriorityPanel.ofInt PriorityPanel.exact 0)
  = true <-> (0 < total)%Q.
Proof.
  simpl. change (inject_Z 0) with 0%Q. rewrite negb_true_iff. split.
  - intros H. apply Qnot_le_lt. intros Hle. apply Qle_bool_iff in Hle. congruence.
  - intros H. destruct (Qle_bool total 0) eqn:E; [|reflexivity].
    apply Qle_bool_iff in E. exfalso. now apply (Qlt_not_le _ _ H).
Qed.

(** In exact arithmetic, the six quotients by the total add up to one. *)
Lemma quotients_sum_to_one (a b c d e f : Q) :
  (0 < 0 + a + b + c + d + e + f)%Q ->
  (0 + a / (0 + a + b + c + d + e + f) + b / (0 + a + b + c + d + e + f)
   + c / (0 + a + b + c + d + e + f) + d / (0 + a + b + c + d + e + f)
   + e / (0 + a + b + c + d + e + f) + f / (0 + a + b + c + d + e + f) == 1)%Q.
Proof.
  intros Hpos. field. lra.
Qed.

Lemma values_length (w : PriorityWeights float) :
  length (PriorityPanel.values PriorityPanel.binary64 w) = 6%nat.
Proof. reflexivity. Qed.

(** [Object.values] of a record with one field changed. *)
Lemma fractions_set (w : PriorityWeights float) (field : WeightField) (x : float) :
  fractions w = true -> fraction x = true ->
  fractions (PriorityPanel.set PriorityPanel.binary64 w field x) = true.
Proof.
  destruct w as [a b c d e f]. unfold fractions.
  cbn [PriorityPanel.values PriorityPanel.keys map PriorityPanel.get forallb
       priorityLevel taskFulfillment fairness workloadBalance skillMatch phasePreference].
  intros Hw Hx.
  apply andb_prop in Hw as [H Hw]. apply andb_prop in Hw as [H0 Hw].
  apply andb_prop in Hw as [H1 Hw]. apply andb_prop in Hw as [H2 Hw].
  apply andb_prop in Hw as [H3 Hw]. apply andb_prop in Hw as [H4 Hw].
  destruct field;
    cbn [PriorityPanel.values PriorityPanel.keys map PriorityPanel.get PriorityPanel.set
         forallb priorityLevel taskFulfillment fairness workloadBalance skillMatch
         phasePreference];
    rewrite ?H, ?H0, ?H1, ?H2, ?H3, ?H4, ?Hx; reflexivity.
Qed.

(** The weights that [handleWeightChange] hands over: the record with the
    field changed when its total is zero, and otherwise its fields divided
    by the total. *)
Lemma handleWeightChange_cases (w : PriorityWeights float) (field : WeightField)
    (value : float) :
  let changed := PriorityPanel.set PriorityPanel.binary64 w field (value / 100)%float in
  let total := PriorityPanel.totalWeight PriorityPanel.binary64 changed in
  let result := PriorityPanel.handleWeightChange PriorityPanel.binary64 w field value in
  total = fold_left PrimFloat.add (PriorityPanel.values PriorityPanel.binary64 changed) 0%float /\
  (PrimFloat.ltb 0 total = true ->
   (forall f, PriorityPanel.get PriorityPanel.binary64 result f
              = (PriorityPanel.get PriorityPanel.binary64 changed f / total)%float) /\
   PriorityPanel.values PriorityPanel.binary64 result
   = map (fun x => (x / total)%float) (PriorityPanel.values PriorityPanel.binary64 changed)) /\
  (PrimFloat.ltb 0 total = false -> result = changed).
Proof.
  intros changed total result. split; [reflexivity|].
  subst result.
  assert (Hc : changed = PriorityPanel.set PriorityPanel.binary64 w field
                 (PriorityPanel.over PriorityPanel.binary64 value
                    (PriorityPanel.ofInt PriorityPanel.binary64 100))) by reflexivity.
  unfold PriorityPanel.handleWeightChange. rewrite <- Hc. fold total.
  change (PriorityPanel.greater PriorityPanel.binary64 total
            (PriorityPanel.ofInt PriorityPanel.binary64 0))
    with (PrimFloat.ltb 0 total).
  split; intros Hpos; rewrite Hpos; [|reflexivity].
  split; [intros f; destruct f; reflexivity | reflexivity].
Qed.

(** One move of a slider, on a record of fractions. *)
Lemma weight_change_spec (w : PriorityWeights float) (field : WeightField) (value : float) :
  fractions w = true -> sliderValue value = true ->
  let changed := PriorityPanel.set PriorityPanel.binary64 w field (value / 100)%float in
  let total := PriorityPanel.totalWeight PriorityPanel.binary64 changed in
  let result := PriorityPanel.handleWeightChange PriorityPanel.binary64 w field value in
  fractions changed = true /\
  (PrimFloat.eqb total 0 = false ->
   (forall f, PriorityPanel.get PriorityPanel.binary64 result f
              = (PriorityPanel.get PriorityPanel.binary64 changed f / total)%float) /\
   Binary64.nearOne (PriorityPanel.totalWeight PriorityPanel.binary64 result) /\
   sumsToOne (PriorityPanel.totalWeight PriorityPanel.binary64 result) = true /\
   fractions result = true) /\
  (PrimFloat.eqb total 0 = true -> result = changed).
Proof.
  intros Hw Hvalue changed total result.
  assert (Hchanged : fractions changed = true)
    by (apply fractions_set; [exact Hw | apply Rounding.slider_fraction, Hvalue]).
  destruct (handleWeightChange_cases w field value) as (Htotal & Hpos & Hzero).
  fold changed total result in Htotal, Hpos, Hzero.
  destruct (Rounding.normalise_fractions _ (values_length changed) Hchanged)
    as [Habove Hnone].
  rewrite <- Htotal in Habove, Hnone.
  split; [exact Hchanged|]. split.
  - intros Hne. destruct (Habove Hne) as (Hlt & Hq & Hone & Htest).
    destruct (Hpos Hlt) as [Hfields Hvalues].
    split; [exact Hfields|]. split; [|split].
    + unfold PriorityPanel.totalWeight. rewrite Hvalues. exact Hone.
    + unfold PriorityPanel.totalWeight. rewrite Hvalues. exact Htest.
    + unfold fractions. rewrite Hvalues. exact Hq.
  - intros He. apply Hzero, Hnone, He.
Qed.

(* ===================================================================== *)
(** ** Part XI-b.  The findings of [validateAll], one by one              *)
(* ===================================================================== *)

Lemma laterOccurrences_In {A} (key : A -> string) (l : list A) (x : A) :
  In x (laterOccurrences key l) -> In x l.
Proof.
  unfold laterOccurrences. intros H. apply in_flat_map in H as (i & _ & H).
  destruct (nth_error l i) as [y|] eqn:Hy; [|contradiction].
  destruct (JS.arrayIncludes _ _); [|contradiction].
  destruct H as [<-|[]]. eapply nth_error_In, Hy.
Qed.

Lemma laterOccurrences_NoDup {A} (key : A -> string) (l : list A) :
  laterOccurrences key l = [] <-> List.NoDup (map key l).
Proof.
  induction l as [|x l IH] using rev_ind; [split; [constructor | reflexivity]|].
  rewrite laterOccurrences_snoc, map_app. simpl.
  destruct (JS.arrayIncludes (map key l) (key x)) eqn:Hin.
  - split.
    + intros H. now apply app_eq_nil in H as [_ H].
    + intros H. apply List.NoDup_remove_2 in H. rewrite app_nil_r in H.
      apply arrayIncludes_In in Hin. contradiction.
  - rewrite app_nil_r, IH. split.
    + intros H. apply List.NoDup_app; [exact H | repeat constructor; intros [] |].
      intros k Hk [<-|[]]. apply arrayIncludes_In in Hk. congruence.
    + intros H. now apply List.NoDup_app_remove_r in H.
Qed.

Lemma truthy_iff (s : string) : DataValidator.truthy s = true <-> s <> "".
Proof.
  unfold DataValidator.truthy. rewrite negb_true_iff. split.
  - intros H ->. discriminate.
  - intros H. destruct (String.eqb_spec s ""); congruence.
Qed.

Lemma nonblank_iff (s : string) :
  DataValidator.truthy s && negb (String.eqb (JS.trim s) "") = true <-> JS.trim s <> "".
Proof.
  rewrite andb_true_iff, truthy_iff, negb_true_iff. split.
  - intros [_ H] E. rewrite E in H. discriminate.
  - intros H. split.
    + intros ->. now apply H.
    + destruct (String.eqb_spec (JS.trim s) ""); congruence.
Qed.

Lemma not_arrayIncludes (l : list string) (x : string) :
  negb (JS.arrayIncludes l x) = true <-> ~ In x l.
Proof.
  rewrite negb_true_iff, <- arrayIncludes_In.
  destruct (JS.arrayIncludes l x); split; congruence.
Qed.

Section Findings.

Import DataValidator.

Variable this : this_t.

Lemma finding_reported (e : ValidationError.t) :
  In e (Pushed.all this) -> finding this e.
Proof.
  unfold Pushed.all, Pushed.duplicates.
  rewrite !in_app_iff, !in_flat_map, !in_map_iff.
  intros [(c & Hc & H)|[[(c & <- & Hc)|[(w & <- & Hw)|(t & <- & Ht)]]|
          [(w & Hw & H)|[[(c & Hc & H)|(t & Ht & H)]|[(c & Hc & H)|[(c & Hc & H)|
          [(w & Hw & H)|[(t & Ht & H)|(t & Ht & H)]]]]]]]].
  - unfold Pushed.missing in H. apply in_flat_map in H as (f & Hf & H).
    destruct (not_ _ || isEmptyString _) eqn:Hcond; [|contradiction].
    destruct H as [<-|[]]. now constructor.
  - now constructor.
  - now constructor.
  - now constructor.
  - unfold Pushed.malformed in H.
    destruct (JS.JSON_parse (AvailableSlots w)) as [slots|e'] eqn:Hparse.
    + destruct (negb (JS.isArray slots) || _) eqn:Hcond; [|contradiction].
      destruct H as [<-|[]]. now apply malformed_finding with slots.
    + destruct H as [<-|[]]. now apply invalid_finding with e'.
  - unfold Pushed.priority in H.
    destruct ((PriorityLevel c <? 1) || (PriorityLevel c >? 5)) eqn:Hcond; [|contradiction].
    destruct H as [<-|[]]. apply priority_finding; [exact Hc|].
    apply orb_true_iff in Hcond as [H|H]; [left | right]; lia.
  - unfold Pushed.duration in H.
    destruct (Duration t <? 1) eqn:Hcond; [|contradiction].
    destruct H as [<-|[]]. apply duration_finding; [exact Ht | lia].
  - unfold Pushed.broken in H.
    destruct (truthy _ && _) eqn:Hcond; [|contradiction].
    apply nonblank_iff in Hcond.
    destruct (JS.JSON_parse (AttributesJSON c)) as [v|e'] eqn:Hparse; [contradiction|].
    destruct H as [<-|[]]. now apply broken_finding with e'.
  - unfold Pushed.unknown in H.
    destruct (truthy (RequestedTaskIDs c)) eqn:Hcond; [|contradiction].
    apply truthy_iff in Hcond.
    apply in_map_iff in H as (taskId & <- & H). apply filter_In in H as [Hin H].
    apply not_arrayIncludes in H. now constructor.
  - unfold Pushed.overload in H.
    destruct (JS.JSON_parse (AvailableSlots w)) as [slots|e'] eqn:Hparse; [|contradiction].
    destruct (JS.isArray slots && _) eqn:Hcond; [|contradiction].
    apply andb_true_iff in Hcond as [Harr Hlt].
    destruct H as [<-|[]]. apply overloaded_finding; [exact Hw | exact Hparse | exact Harr | lia].
  - unfold Pushed.coverage in H.
    apply in_map_iff in H as (skill & <- & H). apply filter_In in H as [Hin H].
    apply not_arrayIncludes in H. now constructor.
  - unfold Pushed.concurrency in H.
    destruct (MaxConcurrent t >? _) eqn:Hcond; [|contradiction].
    destruct H as [<-|[]]. apply concurrency_finding; [exact Ht | lia].
Qed.

Lemma reported_finding (e : ValidationError.t) :
  finding this e -> In e (Pushed.all this).
Proof.
  unfold Pushed.all, Pushed.duplicates.
  rewrite !in_app_iff, !in_flat_map, !in_map_iff.
  intros [c f Hc Hf Hcond|c Hc|w Hw|t Ht|w slots Hw Hparse Hcond|w e' Hw Hparse|c Hc Hcond
         |t Ht Hcond|c e' Hc Hblank Hparse|c taskId Hc Hreq Hin Hno|w slots Hw Hparse Harr Hlt
         |t skill Ht Hin Hno|t Ht Hlt].
  - left. exists c. split; [exact Hc|]. unfold Pushed.missing.
    apply in_flat_map. exists f. split; [exact Hf|]. rewrite Hcond. now left.
  - right; left; left. now exists c.
  - right; left; right; left. now exists w.
  - right; left; right; right. now exists t.
  - do 2 right; left. exists w. split; [exact Hw|]. unfold Pushed.malformed.
    rewrite Hparse, Hcond. now left.
  - do 2 right; left. exists w. split; [exact Hw|]. unfold Pushed.malformed.
    rewrite Hparse. now left.
  - do 3 right; left; left. exists c. split; [exact Hc|]. unfold Pushed.priority.
    replace ((PriorityLevel c <? 1) || (PriorityLevel c >? 5)) with true; [now left|].
    symmetry. apply orb_true_iff. destruct Hcond; [left | right]; lia.
  - do 3 right; left; right. exists t. split; [exact Ht|]. unfold Pushed.duration.
    replace (Duration t <? 1) with true by (symmetry; lia). now left.
  - do 4 right; left. exists c. split; [exact Hc|]. unfold Pushed.broken.
    apply nonblank_iff in Hblank. rewrite Hblank, Hparse. now left.
  - do 5 right; left. exists c. split; [exact Hc|]. unfold Pushed.unknown.
    apply truthy_iff in Hreq. rewrite Hreq. apply in_map. apply filter_In.
    split; [exact Hin|]. now apply not_arrayIncludes.
  - do 6 right; left. exists w. split; [exact Hw|]. unfold Pushed.overload.
    rewrite Hparse, Harr.
    replace (Z.of_nat (length (JS.elements slots)) <? MaxLoadPerPhase w) with true
      by (symmetry; lia).
    now left.
  - do 7 right; left. exists t. split; [exact Ht|]. unfold Pushed.coverage.
    apply in_map. apply filter_In. split; [exact Hin|]. now apply not_arrayIncludes.
  - do 8 right. exists t. split; [exact Ht|]. unfold Pushed.concurrency.
    replace (MaxConcurrent t >? _) with true by (symmetry; lia). now left.
Qed.

(** [validateAll] returns the findings, and nothing else. *)
Lemma validateAll_findings :
  exists errors, validateAll this = JS.Normal errors /\
                 forall e, In e errors <-> finding this e.
Proof.
  exists (Pushed.all this). split; [apply validateAll_eq|].
  intros e. split; [apply finding_reported | apply reported_finding].
Qed.

End Findings.

Lemma allSkills_app (workers more : list Worker) :
  Pushed.allSkills (workers ++ more) = Pushed.allSkills workers ++ Pushed.allSkills more.
Proof. unfold Pushed.allSkills. apply flat_map_app. Qed.

Lemma qualified_app (workers more : list Worker) (task : Task) :
  Pushed.qualified (workers ++ more) task
  = Pushed.qualified workers task ++ Pushed.qualified more task.
Proof. unfold Pushed.qualified. apply List.filter_app. Qed.

(** No worker qualifies for a task that requires a skill nobody has. *)
Lemma qualified_none (workers : list Worker) (task : Task) (skill : string) :
  In skill (Pushed.pieces (RequiredSkills task)) ->
  ~ In skill (Pushed.allSkills workers) ->
  Pushed.qualified workers task = [].
Proof.
  intros Hreq Hno. unfold Pushed.qualified.
  induction workers as [|w ws IH]; [reflexivity|].
  change (Pushed.allSkills (w :: ws))
    with (Pushed.pieces (Skills w) ++ Pushed.allSkills ws) in Hno.
  rewrite in_app_iff in Hno. simpl.
  destruct (forallb _ (Pushed.pieces (RequiredSkills task))) eqn:Hall.
  - rewrite forallb_forall in Hall. apply Hall in Hreq.
    apply arrayIncludes_In in Hreq. tauto.
  - apply IH. tauto.
Qed.

(** The findings whose identifier starts with [skill-coverage-]. *)
Lemma coverage_findings (this : DataValidator.this_t) (e : ValidationError.t) :
  finding this e ->
  JS.startsWith (ValidationError.id e) "skill-coverage-" = true ->
  exists task skill,
    e = DataValidator.skillCoverage task skill /\
    In task (DataValidator.tasks this) /\
    In skill (Pushed.pieces (RequiredSkills task)) /\
    ~ In skill (Pushed.allSkills (DataValidator.workers this)).
Proof.
  intros [] Htag; try (simpl in Htag; discriminate).
  now exists task, skill.
Qed.

(** The findings whose identifier starts with [max-concurrent-]. *)
Lemma concurrency_findings (this : DataValidator.this_t) (e : ValidationError.t) :
  finding this e ->
  JS.startsWith (ValidationError.id e) "max-concurrent-" = true ->
  exists task,
    e = DataValidator.maxConcurrent task
          (Pushed.qualified (DataValidator.workers this) task) /\
    In task (DataValidator.tasks this) /\
    Z.of_nat (length (Pushed.qualified (DataValidator.workers this) task))
    < MaxConcurrent task.
Proof.
  intros [] Htag; try (simpl in Htag; discriminate).
  now exists task.
Qed.

Lemma tagged_In tag (errors : list ValidationError.t) (e : ValidationError.t) :
  In e (tagged tag errors) <->
  In e errors /\ JS.startsWith (ValidationError.id e) tag = true.
Proof. unfold tagged. apply filter_In. Qed.

(* ===================================================================== *)
(** ** Part XI-c.  Properties of the corrections                          *)
(* ===================================================================== *)

Lemma suggestCorrections_eq (this : AIEngine.this_t) (data : list Client) :
  Corrections.suggestCorrections this (clientRows data) Entity.client
  = flat_map (correctionsFor (AIEngine.tasks this)) data.
Proof.
  unfold Corrections.suggestCorrections.
  assert (H : forall acc,
    fold_left (fun corrections client =>
      if DataValidator.truthy (RequestedTaskIDs client) then
        let requestedTasks := map JS.trim (JS.split "," (RequestedTaskIDs client)) in
        let complexTasks := List.filter (fun taskId =>
          match List.find (fun t => String.eqb (TaskID t) taskId) (AIEngine.tasks this) with
          | Some task => Corrections.complex task
          | None => false
          end) requestedTasks in
        if (0 <? length complexTasks)%nat && (PriorityLevel client <? 3)
        then corrections ++ [Corrections.priorityCorrection client complexTasks]
        else corrections
      else corrections) data acc
    = acc ++ flat_map (correctionsFor (AIEngine.tasks this)) data).
  { induction data as [|c data IH]; intros acc; simpl; [now rewrite app_nil_r|].
    rewrite IH. unfold correctionsFor at 2, complexRequests, Pushed.pieces.
    destruct (DataValidator.truthy (RequestedTaskIDs c)); simpl; [|reflexivity].
    destruct ((0 <? length _)%nat && (PriorityLevel c <? 3)); simpl; [|reflexivity].
    now rewrite <- app_assoc. }
  apply (H []).
Qed.

Lemma mapTyped_id {A} (f : A -> option A) (l : list A) :
  (forall x, In x l -> f x = Some x) -> ValidationPanel.mapTyped f l = Some l.
Proof.
  induction l as [|x l IH]; intros H; [reflexivity|]. simpl.
  rewrite (H x) by now left. rewrite IH; [reflexivity|].
  intros y Hy. apply H. now right.
Qed.

Lemma mapTyped_map {A} (f : A -> option A) (g : A -> A) (l : list A) :
  (forall x, In x l -> f x = Some (g x)) -> ValidationPanel.mapTyped f l = Some (map g l).
Proof.
  induction l as [|x l IH]; intros H; [reflexivity|]. simpl.
  rewrite (H x) by now left. rewrite IH; [reflexivity|].
  intros y Hy. apply H. now right.
Qed.

(** The corrections for a client carry the client's ID. *)
Lemma correctionsFor_id (tasks : list Task) (client : Client) (c : Correction.t) :
  In c (correctionsFor tasks client) ->
  c = Corrections.priorityCorrection client (complexRequests tasks client) /\
  RequestedTaskIDs client <> "" /\
  complexRequests tasks client <> [] /\
  PriorityLevel client < 3.
Proof.
  unfold correctionsFor.
  destruct (DataValidator.truthy (RequestedTaskIDs client)) eqn:Hreq; [|contradiction].
  destruct ((0 <? length (complexRequests tasks client))%nat) eqn:Hlen; [|contradiction].
  destruct (PriorityLevel client <? 3) eqn:Hlow; [|contradiction].
  intros [<-|[]]. split; [reflexivity|]. split; [now apply truthy_iff|]. split; [|lia].
  intros E. rewrite E in Hlen. discriminate.
Qed.

(** *** The summary of the findings *)

Lemma tally_counts (l : list ValidationError.t) (e : Entity.t)
    (s0 : ValidationPanel.Summary) :
  let s := fold_left tally l s0 in
  ValidationPanel.errors (ValidationPanel.counts s e)
  = (ValidationPanel.errors (ValidationPanel.counts s0 e)
     + length (List.filter
                 (fun x => negb (isWarning x)
                           && DataGrid.sameEntity (ValidationError.entity x) e) l))%nat /\
  ValidationPanel.warnings (ValidationPanel.counts s e)
  = (ValidationPanel.warnings (ValidationPanel.counts s0 e)
     + length (List.filter
                 (fun x => isWarning x
                           && DataGrid.sameEntity (ValidationError.entity x) e) l))%nat.
Proof.
  revert s0. induction l as [|x l IH]; intros s0; [simpl; lia|].
  cbn [fold_left]. cbv zeta in IH |- *.
  destruct (IH (tally s0 x)) as [He Hw]. rewrite He, Hw. clear IH He Hw.
  unfold tally, isWarning. simpl List.filter.
  destruct (ValidationError.type x), (ValidationError.entity x), e; simpl; lia.
Qed.

Lemma errorsByEntity_counts (l : list ValidationError.t) (e : Entity.t) :
  let s := ValidationPanel.errorsByEntity l in
  ValidationPanel.errors (ValidationPanel.counts s e)
  = length (List.filter (fun x => negb (isWarning x)
                                  && DataGrid.sameEntity (ValidationError.entity x) e) l) /\
  ValidationPanel.warnings (ValidationPanel.counts s e)
  = length (List.filter (fun x => isWarning x
                                  && DataGrid.sameEntity (ValidationError.entity x) e) l).
Proof.
  change (ValidationPanel.errorsByEntity l)
    with (fold_left tally l
            {| ValidationPanel.client :=
                 {| ValidationPanel.errors := 0; ValidationPanel.warnings := 0 |};
               ValidationPanel.worker :=
                 {| ValidationPanel.errors := 0; ValidationPanel.warnings := 0 |};
               ValidationPanel.task :=
                 {| ValidationPanel.errors := 0; ValidationPanel.warnings := 0 |} |}).
  cbv zeta. destruct (tally_counts l e
    {| ValidationPanel.client :=
         {| ValidationPanel.errors := 0; ValidationPanel.warnings := 0 |};
       ValidationPanel.worker :=
         {| ValidationPanel.errors := 0; ValidationPanel.warnings := 0 |};
       ValidationPanel.task :=
         {| ValidationPanel.errors := 0; ValidationPanel.warnings := 0 |} |}) as [He Hw].
  cbv zeta in He, Hw. rewrite He, Hw. now destruct e.
Qed.

Lemma filter_by_entity {A} (p : A -> bool) (entity : A -> Entity.t) (l : list A) :
  length (List.filter p l)
  = (length (List.filter (fun x => p x && DataGrid.sameEntity (entity x) Entity.client) l)
     + length (List.filter (fun x => p x && DataGrid.sameEntity (entity x) Entity.worker) l)
     + length (List.filter (fun x => p x && DataGrid.sameEntity (entity x) Entity.task) l))%nat.
Proof.
  induction l as [|x l IH]; [reflexivity|]. simpl.
  destruct (p x), (entity x); simpl; lia.
Qed.

(* ===================================================================== *)
(** ** Part XI-d.  Properties of the lines of comma-separated values      *)
(* ===================================================================== *)

Lemma string_app_cons (x : ascii) (a b : string) :
  String x a +:+ b = String x (a +:+ b).
Proof. reflexivity. Qed.

Lemma string_app_assoc (a b c : string) : (a +:+ b) +:+ c = a +:+ (b +:+ c).
Proof.
  induction a as [|x a IH]; [reflexivity|]. now rewrite !string_app_cons, IH.
Qed.

Lemma string_app_nil_r (a : string) : a +:+ "" = a.
Proof.
  induction a as [|x a IH]; [reflexivity|]. now rewrite string_app_cons, IH.
Qed.

Lemma chars_app (a b : string) :
  list_ascii_of_string (a +:+ b) = list_ascii_of_string a ++ list_ascii_of_string b.
Proof.
  induction a as [|x a IH]; [reflexivity|]. rewrite string_app_cons. simpl.
  now rewrite IH.
Qed.

Lemma prefix_empty (s : string) : String.prefix "" s = true.
Proof. now destruct s. Qed.

Lemma includes_char (s : string) (c : ascii) :
  JS.includes s (String c "") = existsb (Ascii.eqb c) (list_ascii_of_string s).
Proof.
  induction s as [|a s IH]; [reflexivity|].
  simpl. rewrite IH, prefix_empty.
  destruct (ascii_dec c a) as [E|E]; destruct (Ascii.eqb_spec c a); simpl; congruence.
Qed.

Lemma lacks_chars (c : ascii) (s : string) :
  lacks c s <-> Forall (fun x => Ascii.eqb x c = false) (list_ascii_of_string s).
Proof.
  unfold lacks. rewrite includes_char. induction (list_ascii_of_string s) as [|x l IH].
  - split; [constructor | reflexivity].
  - simpl. rewrite orb_false_iff, IH, (Ascii.eqb_sym c x). split.
    + intros [H1 H2]. now constructor.
    + intros H. inversion H. now split.
Qed.

Lemma lacks_app (c : ascii) (a b : string) :
  lacks c (a +:+ b) <-> lacks c a /\ lacks c b.
Proof. rewrite !lacks_chars, chars_app. apply Forall_app. Qed.

(** *** The loop of [parseCSVLine] *)

Lemma fold_left_ext {A B} (f g : A -> B -> A) (l : list B) (a : A) :
  (forall a b, f a b = g a b) -> fold_left f l a = fold_left g l a.
Proof.
  intros H. revert a. induction l as [|b l IH]; intros a; [reflexivity|].
  simpl. now rewrite H, IH.
Qed.

Lemma parseCSVLine_loop (line : string) :
  FileParser.parseCSVLine line
  = let '(result, current, _) :=
      fold_left csvStep (list_ascii_of_string line) ([], "", false) in
    result ++ [JS.trim current].
Proof.
  unfold FileParser.parseCSVLine. cbv zeta.
  erewrite fold_left_ext; [reflexivity|].
  intros [[result current] inQuotes] char. reflexivity.
Qed.

(** Code units that are neither quotes nor separating commas are added to
    the current field. *)
Lemma csvLoop_inside (content : string) (result : list string) (current : string)
    (inQuotes : bool) :
  lacks JS.quote content ->
  inQuotes = true \/ lacks "," content ->
  fold_left csvStep (list_ascii_of_string content) (result, current, inQuotes)
  = (result, current +:+ content, inQuotes).
Proof.
  revert current. induction content as [|x content IH]; intros current Hq Hc.
  - simpl. now rewrite string_app_nil_r.
  - apply lacks_chars in Hq. simpl in Hq. inversion Hq as [|? ? Hx Hq']. subst.
    apply lacks_chars in Hq'.
    assert (Hc' : inQuotes = true \/ lacks "," content).
    { destruct Hc as [Hc|Hc]; [now left | right].
      apply lacks_chars in Hc. simpl in Hc. inversion Hc. now apply lacks_chars. }
    assert (Hsep : Ascii.eqb x "," && negb inQuotes = false).
    { destruct Hc as [->|Hc]; [apply andb_false_r|].
      apply lacks_chars in Hc. simpl in Hc. inversion Hc as [|? ? Hx' _]. subst.
      now rewrite Hx'. }
    change (fold_left csvStep (list_ascii_of_string (String x content))
              (result, current, inQuotes))
      with (fold_left csvStep (list_ascii_of_string content)
              (csvStep (result, current, inQuotes) x)).
    unfold csvStep at 2. rewrite Hx, Hsep, IH by assumption.
    now rewrite string_app_assoc.
Qed.

(** A cell adds the text it holds to the current field. *)
Lemma csvLoop_cell (text content : string) (result : list string) (current : string) :
  holds text content ->
  fold_left csvStep (list_ascii_of_string text) (result, current, false)
  = (result, current +:+ content, false).
Proof.
  intros [Hq [[-> Hc]| ->]].
  - apply csvLoop_inside; [exact Hq | now right].
  - unfold JS.dq. rewrite !chars_app, !fold_left_app. simpl.
    rewrite csvLoop_inside; [reflexivity | exact Hq | now left].
Qed.

(** A line of cells gives the texts they hold, trimmed. *)
Lemma csvLoop_cells (texts contents : list string) (result : list string)
    (current text content : string) :
  holds text content ->
  Forall2 holds texts contents ->
  (let '(result', current', _) :=
     fold_left csvStep (list_ascii_of_string (JS.join "," (text :: texts)))
       (result, current, false) in
   result' ++ [JS.trim current'])
  = result ++ JS.trim (current +:+ content) :: map JS.trim contents.
Proof.
  intros H Hall. revert result current text content H.
  induction Hall as [|t c texts contents Ht Hall IH]; intros result current text content H.
  - simpl. now rewrite (csvLoop_cell _ content).
  - change (JS.join "," (text :: t :: texts))
      with (text +:+ "," +:+ JS.join "," (t :: texts)).
    rewrite !chars_app, !fold_left_app, (csvLoop_cell _ content) by exact H.
    simpl fold_left at 2. simpl csvStep.
    rewrite (IH _ "" t c Ht). simpl. now rewrite <- app_assoc.
Qed.

Lemma parseCSVLine_cells (texts contents : list string) :
  texts <> [] ->
  Forall2 holds texts contents ->
  FileParser.parseCSVLine (JS.join "," texts) = map JS.trim contents.
Proof.
  intros Hne Hall. destruct Hall as [|text content texts contents H Hall]; [congruence|].
  rewrite parseCSVLine_loop. now rewrite (csvLoop_cells texts contents [] "" text content).
Qed.

(** *** [split] and [join] *)

Lemma lacks_nil (c : ascii) : lacks c "".
Proof. reflexivity. Qed.

Lemma lacks_cons (c x : ascii) (s : string) :
  lacks c (String x s) <-> Ascii.eqb x c = false /\ lacks c s.
Proof.
  rewrite !lacks_chars. simpl. split.
  - intros H. inversion H. now split.
  - intros [H1 H2]. now constructor.
Qed.

Lemma split_cons (sep : ascii) (s : string) :
  exists piece pieces, JS.split sep s = piece :: pieces.
Proof.
  induction s as [|c s (piece & pieces & IH)]; simpl; [now eexists _, _|].
  destruct (Ascii.eqb c sep); [now eexists _, _|]. rewrite IH. now eexists _, _.
Qed.

Lemma join_cons (sep x y : string) (l : list string) :
  JS.join sep (x :: y :: l) = x +:+ sep +:+ JS.join sep (y :: l).
Proof. reflexivity. Qed.

(** Joining the pieces gives the string back. *)
Lemma join_split (sep : ascii) (s : string) :
  JS.join (String sep "") (JS.split sep s) = s.
Proof.
  induction s as [|c s IH]; [reflexivity|]. simpl.
  destruct (split_cons sep s) as (piece & pieces & E). rewrite E in *.
  destruct (Ascii.eqb_spec c sep) as [->|_].
  - rewrite join_cons, IH. reflexivity.
  - destruct pieces as [|piece' pieces].
    + simpl in *. now rewrite IH.
    + rewrite join_cons in *. rewrite string_app_cons. now rewrite IH.
Qed.

(** The pieces have no separator, and no code unit that the string lacks. *)
Lemma split_lacks_sep (sep : ascii) (s : string) : Forall (lacks sep) (JS.split sep s).
Proof.
  induction s as [|c s IH]; simpl; [repeat constructor|].
  destruct (Ascii.eqb c sep) eqn:Hc; [constructor; [apply lacks_nil | exact IH]|].
  destruct (JS.split sep s) as [|piece pieces]; [repeat constructor; now apply lacks_cons|].
  inversion IH. constructor; [|assumption]. now apply lacks_cons.
Qed.

Lemma split_lacks (c sep : ascii) (s : string) :
  lacks c s -> Forall (lacks c) (JS.split sep s).
Proof.
  induction s as [|x s IH]; intros H; simpl; [repeat constructor|].
  apply lacks_cons in H as [Hx H]. specialize (IH H).
  destruct (Ascii.eqb x sep); [constructor; [apply lacks_nil | exact IH]|].
  destruct (JS.split sep s) as [|piece pieces]; [repeat constructor; now apply lacks_cons|].
  inversion IH. constructor; [|assumption]. now apply lacks_cons.
Qed.

Lemma split_app (sep : ascii) (x rest : string) :
  lacks sep x -> JS.split sep (x +:+ String sep rest) = x :: JS.split sep rest.
Proof.
  induction x as [|c x IH]; intros H.
  - simpl. now rewrite Ascii.eqb_refl.
  - apply lacks_cons in H as [Hc H]. rewrite string_app_cons. simpl.
    now rewrite Hc, IH.
Qed.

Lemma split_one (sep : ascii) (x : string) : lacks sep x -> JS.split sep x = [x].
Proof.
  induction x as [|c x IH]; intros H; [reflexivity|].
  apply lacks_cons in H as [Hc H]. simpl. now rewrite Hc, IH.
Qed.

(** Splitting what was joined gives the pieces back. *)
Lemma split_join (sep : ascii) (l : list string) :
  l <> [] -> Forall (lacks sep) l -> JS.split sep (JS.join (String sep "") l) = l.
Proof.
  intros Hne H. induction H as [|x l Hx H IH]; [congruence|].
  destruct l as [|y l]; [now apply split_one|].
  rewrite join_cons. change (String sep "" +:+ JS.join (String sep "") (y :: l))
    with (String sep (JS.join (String sep "") (y :: l))).
  rewrite split_app by exact Hx. now rewrite IH.
Qed.

Lemma lacks_join (c : ascii) (sep : string) (l : list string) :
  lacks c sep -> Forall (lacks c) l -> lacks c (JS.join sep l).
Proof.
  intros Hsep H. induction H as [|x l Hx H IH]; [apply lacks_nil|].
  destruct l as [|y l]; [exact Hx|].
  rewrite join_cons. apply lacks_app. split; [exact Hx|]. apply lacks_app. now split.
Qed.

(** *** Numerals *)

Lemma string_of_uint_digits (c : ascii) (d : Decimal.uint) :
  JS.isDigit c = false -> lacks c (NilEmpty.string_of_uint d).
Proof.
  intros Hc. induction d; simpl; try apply lacks_nil;
    (apply lacks_cons; split; [|assumption]);
    match goal with
    | |- Ascii.eqb ?x c = false =>
        destruct (Ascii.eqb_spec x c) as [<-|]; [discriminate Hc | reflexivity]
    end.
Qed.

Lemma showZ_lacks (c : ascii) (n : Z) :
  JS.isDigit c = false -> Ascii.eqb "-" c = false -> lacks c (JS.showZ n).
Proof.
  intros Hc Hminus. unfold JS.showZ, NilZero.string_of_int.
  destruct (Z.to_int n) as [d|d].
  - unfold NilZero.string_of_uint. destruct d; try now apply string_of_uint_digits.
    apply lacks_cons. split; [|apply lacks_nil].
    destruct (Ascii.eqb_spec "0" c) as [<-|]; [discriminate Hc | reflexivity].
  - apply lacks_cons. split; [exact Hminus|].
    unfold NilZero.string_of_uint. destruct d; try now apply string_of_uint_digits.
    apply lacks_cons. split; [|apply lacks_nil].
    destruct (Ascii.eqb_spec "0" c) as [<-|]; [discriminate Hc | reflexivity].
Qed.

(** *** [trim] *)

Lemma chars_inj (s t : string) : list_ascii_of_string s = list_ascii_of_string t -> s = t.
Proof.
  intros H. rewrite <- (string_of_list_ascii_of_string s),
    <- (string_of_list_ascii_of_string t). now rewrite H.
Qed.

Lemma chars_trimStart (s : string) :
  list_ascii_of_string (JS.trimStart s) = dropSpace (list_ascii_of_string s).
Proof.
  induction s as [|c s IH]; [reflexivity|]. simpl.
  destruct (JS.isWhiteSpace c); [exact IH | reflexivity].
Qed.

Lemma chars_reverse_onto (s acc : string) :
  list_ascii_of_string (JS.reverse_onto s acc)
  = rev (list_ascii_of_string s) ++ list_ascii_of_string acc.
Proof.
  revert acc. induction s as [|c s IH]; intros acc; [reflexivity|].
  simpl. rewrite IH. simpl. now rewrite <- app_assoc.
Qed.

Lemma chars_reverse (s : string) :
  list_ascii_of_string (JS.reverse s) = rev (list_ascii_of_string s).
Proof. unfold JS.reverse. rewrite chars_reverse_onto. apply app_nil_r. Qed.

Lemma chars_trim (s : string) :
  list_ascii_of_string (JS.trim s)
  = rev (dropSpace (rev (dropSpace (list_ascii_of_string s)))).
Proof.
  unfold JS.trim, JS.trimEnd.
  now rewrite chars_reverse, chars_trimStart, chars_reverse, chars_trimStart.
Qed.

Lemma dropSpace_idem (l : list ascii) : dropSpace (dropSpace l) = dropSpace l.
Proof.
  induction l as [|c l IH]; [reflexivity|]. simpl.
  destruct (JS.isWhiteSpace c) eqn:Hc; [exact IH|]. simpl. now rewrite Hc.
Qed.

Lemma dropSpace_head (l : list ascii) :
  dropSpace l = [] \/
  exists x l', dropSpace l = x :: l' /\ JS.isWhiteSpace x = false.
Proof.
  induction l as [|c l IH]; [now left|]. simpl.
  destruct (JS.isWhiteSpace c) eqn:Hc; [exact IH|]. right. now exists c, l.
Qed.

Lemma dropSpace_snoc (l : list ascii) (x : ascii) :
  JS.isWhiteSpace x = false -> exists d, dropSpace (l ++ [x]) = d ++ [x].
Proof.
  intros Hx. induction l as [|c l IH]; simpl.
  - rewrite Hx. now exists [].
  - destruct (JS.isWhiteSpace c); [exact IH|]. now exists (c :: l).
Qed.

Lemma dropSpace_Forall (P : ascii -> Prop) (l : list ascii) :
  Forall P l -> Forall P (dropSpace l).
Proof.
  induction 1 as [|c l Hc H IH]; simpl; [constructor|].
  destruct (JS.isWhiteSpace c); [exact IH | now constructor].
Qed.

(** Trimming twice is trimming once. *)
Lemma trim_idem (s : string) : JS.trim (JS.trim s) = JS.trim s.
Proof.
  apply chars_inj. rewrite (chars_trim (JS.trim s)), chars_trim.
  destruct (dropSpace_head (list_ascii_of_string s)) as [->|(x & m & -> & Hx)];
    [reflexivity|].
  change (rev (x :: m)) with (rev m ++ [x]).
  destruct (dropSpace_snoc (rev m) x Hx) as (d & Hd).
  assert (Hdd : dropSpace (d ++ [x]) = d ++ [x])
    by (rewrite <- Hd; apply dropSpace_idem).
  rewrite Hd, rev_app_distr.
  change (rev [x] ++ rev d) with (x :: rev d).
  assert (Hhead : dropSpace (x :: rev d) = x :: rev d) by (simpl; now rewrite Hx).
  rewrite Hhead. change (rev (x :: rev d)) with (rev (rev d) ++ [x]).
  now rewrite rev_involutive, Hdd, rev_app_distr.
Qed.

(** Trimming adds no code unit. *)
Lemma trim_lacks (c : ascii) (s : string) : lacks c s -> lacks c (JS.trim s).
Proof.
  rewrite !lacks_chars, chars_trim. intros H.
  apply Forall_rev, dropSpace_Forall, Forall_rev, dropSpace_Forall, H.
Qed.

Lemma bare_trim (s : string) : lacks JS.quote s -> bare (JS.trim s).
Proof.
  intros H. split; [now apply (trim_lacks JS.quote) | apply trim_idem].
Qed.

(** The loop of [parseCSVLine] keeps the fields bare. *)
Lemma csvLoop_bare (l : list ascii) (result : list string) (current : string)
    (inQuotes : bool) :
  Forall bare result -> lacks JS.quote current ->
  let '(result', current', _) := fold_left csvStep l (result, current, inQuotes) in
  Forall bare result' /\ lacks JS.quote current'.
Proof.
  revert result current inQuotes.
  induction l as [|c l IH]; intros result current inQuotes Hr Hc; [now split|].
  cbn [fold_left].
  assert (Hstep : csvStep (result, current, inQuotes) c
                  = if Ascii.eqb c JS.quote then (result, current, negb inQuotes)
                    else if Ascii.eqb c "," && negb inQuotes
                         then (result ++ [JS.trim current], "", inQuotes)
                         else (result, current +:+ String c "", inQuotes))
    by reflexivity.
  rewrite Hstep. clear Hstep.
  destruct (Ascii.eqb c JS.quote) eqn:Hq; [now apply IH|].
  destruct (Ascii.eqb c "," && negb inQuotes).
  - apply IH; [|apply lacks_nil].
    apply Forall_app. split; [exact Hr|].
    constructor; [now apply bare_trim | constructor].
  - apply IH; [exact Hr|]. apply lacks_app. split; [exact Hc|].
    apply lacks_cons. split; [exact Hq | apply lacks_nil].
Qed.

(** *** Exported cells *)

Lemma doubleQuotes_lacks (s : string) : lacks JS.quote s -> ExportPanel.doubleQuotes s = s.
Proof.
  induction s as [|c s IH]; intros H; [reflexivity|].
  apply lacks_cons in H as [Hc H]. simpl. now rewrite Hc, IH.
Qed.

Lemma cell_holds (value : DataValidator.FieldValue) :
  (forall s, value = DataValidator.VString s -> lacks JS.quote s) ->
  holds (ExportPanel.joined (ExportPanel.cell value)) (shown value).
Proof.
  intros H. destruct value as [s|n|]; simpl.
  - specialize (H s eq_refl). split; [exact H|].
    fold (lacks JS.quote s) in H. unfold lacks in H. fold JS.dq in H. rewrite H.
    rewrite orb_false_r. destruct (JS.includes s ",") eqn:Hcomma; simpl.
    + right. now rewrite doubleQuotes_lacks.
    + left. split; [|exact Hcomma].
      destruct (String.eqb_spec s ""); [now subst | reflexivity].
  - destruct (n =? 0); simpl.
    + split; [apply lacks_nil|]. left. split; [reflexivity | apply lacks_nil].
    + split; [now apply showZ_lacks|]. left. split; [reflexivity | now apply showZ_lacks].
  - split; [apply lacks_nil|]. left. split; [reflexivity | apply lacks_nil].
Qed.

Lemma cell_lacks_newline (value : DataValidator.FieldValue) :
  (forall s, value = DataValidator.VString s -> lacks JS.quote s /\ lacks "010" s) ->
  lacks "010" (ExportPanel.joined (ExportPanel.cell value)).
Proof.
  intros H. destruct value as [s|n|]; simpl.
  - destruct (H s eq_refl) as [Hq Hn].
    destruct (JS.includes s "," || JS.includes s JS.dq); simpl.
    + rewrite doubleQuotes_lacks by exact Hq.
      apply lacks_app. split; [reflexivity|]. apply lacks_app. now split.
    + destruct (String.eqb s ""); [apply lacks_nil | exact Hn].
  - destruct (n =? 0); simpl; [apply lacks_nil | now apply showZ_lacks].
  - apply lacks_nil.
Qed.

Lemma Forall2_map_In {A B C} (R : B -> C -> Prop) (f : A -> B) (g : A -> C) (l : list A) :
  (forall x, In x l -> R (f x) (g x)) -> Forall2 R (map f l) (map g l).
Proof.
  induction l as [|x l IH]; intros H; simpl; constructor.
  - apply H. now left.
  - apply IH. intros y Hy. apply H. now right.
Qed.

(* ===================================================================== *)
(** ** Part XI-f.  Properties of the counting of skills                   *)
(* ===================================================================== *)

Lemma mapGet_tabulate_none {V} (f : string -> V) ks k :
  ~ In k ks -> JS.mapGet (tabulate f ks) k = None.
Proof.
  intros H. unfold JS.mapGet, tabulate.
  induction ks as [|k' ks IH]; [reflexivity|]. simpl.
  destruct (String.eqb_spec k' k) as [->|_]; [exfalso; apply H; now left|].
  apply IH. intros Hin. apply H. now right.
Qed.

Lemma distinct_In (l : list string) (k : string) : In k (distinct l) <-> In k l.
Proof.
  unfold distinct. pose proof (firstOccurrences_keys (fun s => s) l k) as H.
  now rewrite !map_id in H.
Qed.

Lemma distinct_NoDup (l : list string) : List.NoDup (distinct l).
Proof.
  unfold distinct. pose proof (firstOccurrences_NoDup (fun s => s) l) as H.
  now rewrite map_id in H.
Qed.

(** Counting the skills of a list one by one tabulates their listings. *)
Lemma countOne_fold (l : list string) :
  fold_left AIEngine.countOne l [] = tabulate (fun k => listings k l) (distinct l).
Proof.
  induction l as [|x l IH] using rev_ind; [reflexivity|].
  rewrite fold_left_app, IH. simpl. unfold AIEngine.countOne, distinct.
  rewrite firstOccurrences_snoc, map_id. fold (distinct l).
  destruct (JS.arrayIncludes l x) eqn:Hin.
  - apply arrayIncludes_In in Hin. rewrite app_nil_r.
    rewrite mapGet_tabulate by now apply distinct_In.
    rewrite mapSet_tabulate_old; [|now apply distinct_In | apply distinct_NoDup].
    apply tabulate_ext. intros k Hk. unfold listings. rewrite occurrences_snoc.
    destruct (String.eqb_spec k x) as [->|Hne].
    + rewrite String.eqb_refl. lia.
    + destruct (String.eqb_spec x k); [congruence | f_equal; lia].
  - assert (Hno : ~ In x l).
    { intros H. apply arrayIncludes_In in H. congruence. }
    rewrite mapGet_tabulate_none by (rewrite distinct_In; exact Hno).
    rewrite mapSet_tabulate_new by (rewrite distinct_In; exact Hno).
    unfold tabulate. rewrite map_app. simpl. f_equal.
    + apply map_ext_in. intros k Hk. f_equal. unfold listings. rewrite occurrences_snoc.
      apply (proj1 (distinct_In _ _)) in Hk.
      destruct (String.eqb_spec x k); [subst; contradiction | f_equal; lia].
    + unfold listings. rewrite occurrences_snoc, String.eqb_refl.
      assert (H0 : occurrences (fun s => s) x l = 0%nat).
      { apply occurrences_zero. now rewrite map_id. }
      rewrite H0. reflexivity.
Qed.

Lemma fold_left_flat_map {A B S} (f : S -> B -> S) (g : A -> list B) (l : list A) (s : S) :
  fold_left (fun s x => fold_left f (g x) s) l s = fold_left f (flat_map g l) s.
Proof.
  revert s. induction l as [|x l IH]; intros s; [reflexivity|].
  simpl. now rewrite fold_left_app, IH.
Qed.

Lemma fold_left_pushes {A E} (g : A -> list E) (body : list E -> A -> list E)
    (l : list A) (acc : list E) :
  (forall acc x, body acc x = acc ++ g x) ->
  fold_left body l acc = acc ++ flat_map g l.
Proof.
  intros H. revert acc. induction l as [|x l IH]; intros acc; simpl.
  - now rewrite app_nil_r.
  - now rewrite H, IH, app_assoc.
Qed.

(** [analyzeSkillGaps], from the listings of the skills. *)
Lemma analyzeSkillGaps_eq (this : AIEngine.this_t) :
  let demand := requiredSkills (AIEngine.tasks this) in
  let supply := Pushed.allSkills (AIEngine.workers this) in
  AIEngine.analyzeSkillGaps this
  = flat_map (gapFor (tabulate (fun k => listings k supply) (distinct supply)))
      (tabulate (fun k => listings k demand) (distinct demand)).
Proof.
  intros demand supply. unfold AIEngine.analyzeSkillGaps.
  rewrite (fold_left_flat_map AIEngine.countOne
             (fun task => map JS.trim (JS.split "," (RequiredSkills task)))),
    (fold_left_flat_map AIEngine.countOne
       (fun worker => map JS.trim (JS.split "," (Skills worker)))).
  fold (requiredSkills (AIEngine.tasks this)). fold demand.
  change (flat_map (fun worker => map JS.trim (JS.split "," (Skills worker)))
            (AIEngine.workers this)) with supply.
  rewrite !countOne_fold.
  rewrite (fold_left_pushes
             (gapFor (tabulate (fun k => listings k supply) (distinct supply))));
    [reflexivity|].
  intros acc [skill_ n]. unfold gapFor.
  destruct (_ <? _)%float; [reflexivity | now rewrite app_nil_r].
Qed.

(* ===================================================================== *)
(** ** Part XI-g.  Properties of the mapping of headers                   *)
(* ===================================================================== *)

(** The keys of the three tables, in the order of [Object.keys]. *)
Lemma allMappings_keys :
  map fst allMappings
  = ["client_id"; "clientid"; "id"; "client_name"; "clientname"; "name"; "priority";
     "priority_level"; "requested_tasks"; "task_ids"; "group"; "attributes"; "worker_id";
     "workerid"; "worker_name"; "workername"; "skill"; "skills"; "available_slots";
     "slots"; "max_load"; "maxload"; "qualification"; "task_id"; "taskid"; "task_name";
     "taskname"; "category"; "duration"; "required_skills"; "preferred_phases"; "phases";
     "max_concurrent"; "concurrent"].
Proof. vm_compute. reflexivity. Qed.

(** One turn of the loop of [mapHeaders]. *)
Lemma mapHeaders_snoc (headers : list string) (header : string) :
  Headers.mapHeaders (headers ++ [header])
  = match found (normalized header) with
    | Headers.Undefined => Headers.mapHeaders headers
    | value => Headers.assign (Headers.mapHeaders headers) header value
    end.
Proof.
  unfold Headers.mapHeaders. rewrite fold_left_app. cbn [fold_left]. cbv zeta.
  fold allMappings. fold (normalized header). unfold found.
  destruct (Headers.truthy (Headers.property allMappings (normalized header))) eqn:Ht.
  - destruct (Headers.property allMappings (normalized header)); try reflexivity.
    discriminate Ht.
  - destruct (List.find _ (map fst allMappings)) as [bestMatch|] eqn:Hfind; [|reflexivity].
    apply find_some in Hfind as [Hin _].
    apply in_map_iff in Hin as ([k name] & <- & Hin). simpl.
    assert (Hget : exists name', JS.mapGet allMappings k = Some name').
    { revert Hin. generalize allMappings. intros m. unfold JS.mapGet.
      induction m as [|[k' v'] m IH]; intros Hin; [contradiction|]. simpl.
      destruct (String.eqb_spec k' k); [now eexists|].
      apply IH. destruct Hin as [E|Hin]; [congruence | exact Hin]. }
    destruct Hget as (name' & Hget). unfold Headers.property. rewrite Hget. reflexivity.
Qed.

(** The values of the tables are fields of the entities. *)
Lemma allMappings_declared (key name : string) :
  JS.mapGet allMappings key = Some name -> declared name = true.
Proof.
  assert (H : forallb (fun '(_, name) => declared name) allMappings = true)
    by (vm_compute; reflexivity).
  revert H. generalize allMappings. intros m. unfold JS.mapGet.
  induction m as [|[k v] m IH]; intros H; [discriminate|]. simpl in *.
  apply andb_true_iff in H as [Hv H].
  destruct (String.eqb k key); [congruence | now apply IH].
Qed.

Lemma property_declared (key : string) :
  match Headers.property allMappings key with
  | Headers.FieldName name => declared name = true
  | _ => True
  end.
Proof.
  unfold Headers.property. destruct (JS.mapGet allMappings key) as [name|] eqn:E.
  - now apply (allMappings_declared key).
  - destruct (String.eqb key "constructor"); [exact I|].
    now destruct (String.eqb key "__proto__").
Qed.

Lemma found_declared (normalizedHeader : string) :
  match found normalizedHeader with
  | Headers.FieldName name => declared name = true
  | _ => True
  end.
Proof.
  unfold found. destruct (Headers.truthy _); [apply property_declared|].
  destruct (List.find _ _); [apply property_declared | exact I].
Qed.

Lemma lookup_assign (mapping : gmap string Headers.Value) (header key : string)
    (value : Headers.Value) :
  Headers.assign mapping header value !! key
  = if String.eqb key header && negb (String.eqb header "__proto__")
    then Some value else mapping !! key.
Proof.
  unfold Headers.assign. destruct (String.eqb_spec key header) as [->|Hne].
  - destruct (String.eqb header "__proto__"); simpl; [reflexivity|].
    apply lookup_insert_eq.
  - simpl. destruct (String.eqb header "__proto__"); [reflexivity|].
    apply lookup_insert_ne. congruence.
Qed.

(** What the mapping holds for a header. *)
Lemma mapHeaders_lookup (headers : list string) (header : string) :
  Headers.mapHeaders headers !! header
  = if JS.arrayIncludes headers header && negb (String.eqb header "__proto__")
    then match found (normalized header) with
         | Headers.Undefined => None
         | value => Some value
         end
    else None.
Proof.
  induction headers as [|h headers IH] using rev_ind; [reflexivity|].
  rewrite mapHeaders_snoc.
  assert (Hinc : JS.arrayIncludes (headers ++ [h]) header
                 = JS.arrayIncludes headers header || String.eqb header h).
  { unfold JS.arrayIncludes. rewrite existsb_app. simpl. now rewrite orb_false_r. }
  rewrite Hinc. clear Hinc.
  destruct (found (normalized h)) as [name| | |] eqn:Hfound;
    rewrite ?lookup_assign, IH;
    destruct (String.eqb_spec header h) as [->|Hne]; simpl;
    rewrite ?Hfound, ?orb_true_r, ?orb_false_r; simpl;
    destruct (String.eqb h "__proto__"); simpl;
    rewrite ?andb_false_r, ?andb_true_r; try reflexivity;
    destruct (JS.arrayIncludes headers h); reflexivity.
Qed.

(** A key that occurs in [client_id] is [client_id] or [id]; one that
    contains [id] is one of eight. *)
Lemma keys_in_client_id (n name : string) :
  JS.mapGet allMappings n = Some name ->
  JS.includes "client_id" n = true -> n = "client_id" \/ n = "id".
Proof.
  intros Hget Hinc.
  assert (Hkey : In n (map fst allMappings)).
  { revert Hget. generalize allMappings. intros m. unfold JS.mapGet.
    induction m as [|[k v] m IH]; intros H; [discriminate|]. simpl in *.
    destruct (String.eqb_spec k n); [now left | right; now apply IH]. }
  rewrite allMappings_keys in Hkey. simpl in Hkey.
  repeat (destruct Hkey as [<-|Hkey]; [first [now left | now right | discriminate Hinc]|]).
  contradiction.
Qed.

Lemma found_first_key (n : string) :
  Headers.truthy (Headers.property allMappings n) = false ->
  JS.includes "client_id" n = true ->
  found n = Headers.FieldName "ClientID".
Proof.
  intros Ht Hinc. unfold found. rewrite Ht, allMappings_keys.
  cbn [List.find]. rewrite Hinc. reflexivity.
Qed.

Lemma found_id (n : string) :
  Headers.truthy (Headers.property allMappings n) = false ->
  JS.includes n "id" = true ->
  found n = Headers.FieldName "ClientID" \/ found n = Headers.FieldName "TaskID".
Proof.
  intros Ht Hinc. unfold found. rewrite Ht, allMappings_keys.
  cbn [List.find].
  destruct (JS.includes "client_id" n || JS.includes n "client_id"); [now left|].
  destruct (JS.includes "clientid" n || JS.includes n "clientid"); [now left|].
  rewrite Hinc, orb_true_r. now right.
Qed.

(* ===================================================================== *)
(** ** Part XI-h.  Properties of the recommendations                      *)
(* ===================================================================== *)

Lemma stamped_In {A} (mk : Z -> A -> AIRuleRecommendation.t) (clock : nat -> Z)
    (n : nat) (l : list A) (r : AIRuleRecommendation.t) :
  In r (stamped mk clock n l) -> exists m x, r = mk (clock m) x.
Proof.
  revert n. induction l as [|x l IH]; intros n; [contradiction|].
  simpl. intros [<-|H]; [now exists n, x | now apply (IH (S n))].
Qed.

(** The recommendations of [generateRuleRecommendations], before they are
    sorted. *)
Lemma generate_perm (clock : nat -> Z) (this : AIEngine.this_t) :
  exists n1 n2,
    Permutation (AIEngine.generateRuleRecommendations clock this)
      ((stamped AIEngine.coRunRecommendation clock 0 (AIEngine.analyzeTaskPatterns this)
        ++ stamped AIEngine.loadLimitRecommendation clock n1
             (AIEngine.analyzeWorkerOverload this))
       ++ stamped AIEngine.skillRecommendation clock n2 (AIEngine.analyzeSkillGaps this)).
Proof.
  unfold AIEngine.generateRuleRecommendations.
  rewrite (stamped_fold_if (fun group => (1 <? length (AIEngine.group_tasks group))%nat)
             AIEngine.coRunRecommendation clock _ [] 0
             (analyzeTaskPatterns_shared this)).
  rewrite stamped_fold, stamped_fold. cbv zeta beta iota.
  eexists _, _. symmetry. apply sortBy_perm.
Qed.

Lemma generate_made (now : Z) (this : AIEngine.this_t) (r : AIRuleRecommendation.t) :
  In r (AIEngine.generateRuleRecommendations (fun _ => now) this) -> madeAt now r.
Proof.
  intros H. destruct (generate_perm (fun _ => now) this) as (n1 & n2 & Hperm).
  apply (Permutation_in _ Hperm) in H. rewrite !in_app_iff in H.
  destruct H as [[H|H]|H]; apply stamped_In in H as (m & x & ->); constructor.
Qed.

(** Recommendations made at one clock reading have the same identifier
    exactly when they are of one type. *)
Lemma madeAt_same_id (now : Z) (a b : AIRuleRecommendation.t) :
  madeAt now a -> madeAt now b ->
  String.eqb (AIRuleRecommendation.id a) (AIRuleRecommendation.id b) = sameKind a b.
Proof.
  intros [] []; unfold sameKind; cbn [AIRuleRecommendation.id AIRuleRecommendation.type
    AIEngine.coRunRecommendation AIEngine.loadLimitRecommendation
    AIEngine.skillRecommendation];
    first [apply String.eqb_refl | reflexivity].
Qed.

(* ===================================================================== *)
(** ** Part XI-e.  Properties of the search                               *)
(* ===================================================================== *)

Lemma filter__eq {A} (f : A -> JS.completion bool) (l : list A) :
  (forall x, f x = JS.Normal (answer (f x))) ->
  Search.filter_ f l = JS.Normal (List.filter (fun x => answer (f x)) l).
Proof.
  intros H. unfold Search.filter_.
  rewrite (forEach_pushes0 l _ (fun x => if answer (f x) then [x] else [])).
  - f_equal. induction l as [|x l IH]; [reflexivity|].
    simpl. destruct (answer (f x)); simpl; now rewrite IH.
  - intros kept x. rewrite (H x). simpl.
    destruct (answer (f x)); [reflexivity | now rewrite app_nil_r].
Qed.

(** The text of the first group of the skill pattern is always there. *)
Lemma skill_group1 (s : string) (m : RegExp.result) :
  RegExp.match_ s Search.skillPattern = Some m ->
  exists text, AIEngine.group1 m = JS.Normal text.
Proof.
  intros H. destruct (match_defines 1 Search.skillPattern s m eq_refl H) as (text & Hg).
  exists text. unfold AIEngine.group1. now rewrite Hg.
Qed.

Lemma taskMatch_text (normalizedQuery : string) (task : Task) :
  exists b, Search.taskMatch normalizedQuery task
            = JS.Normal
                (if JS.includes normalizedQuery (JS.toLowerCase (TaskName task))
                    || JS.includes normalizedQuery (JS.toLowerCase (Category task))
                 then true else b).
Proof.
  unfold Search.taskMatch.
  destruct (RegExp.match_ normalizedQuery Search.skillPattern) as [m|] eqn:E.
  - destruct (skill_group1 _ _ E) as (text & ->). simpl. eexists. reflexivity.
  - simpl. eexists. reflexivity.
Qed.

Lemma clientMatch_text (normalizedQuery : string) (client : Client) :
  exists b, Search.clientMatch normalizedQuery client
            = JS.Normal
                (if JS.includes normalizedQuery (JS.toLowerCase (ClientName client))
                    || JS.includes normalizedQuery (JS.toLowerCase (GroupTag client))
                 then true else b).
Proof. unfold Search.clientMatch. eexists. reflexivity. Qed.

Lemma workerMatch_text (normalizedQuery : string) (worker : Worker) :
  exists b, Search.workerMatch normalizedQuery worker
            = JS.Normal
                (if JS.includes normalizedQuery (JS.toLowerCase (WorkerName worker))
                    || JS.includes normalizedQuery (JS.toLowerCase (WorkerGroup worker))
                 then true else b).
Proof.
  unfold Search.workerMatch.
  assert (Havail : exists b0 : bool -> bool, forall match_,
    (if JS.includes normalizedQuery "available" then
       JS.try_catch
         (let* slots := JS.JSON_parse (AvailableSlots worker) in
          JS.Normal (if JS.isArray slots && (0 <? length (JS.elements slots))%nat
                     then true else match_))
         (fun _ => JS.Normal match_)
     else JS.Normal match_) = JS.Normal (b0 match_)).
  { destruct (JS.includes normalizedQuery "available").
    - destruct (JS.JSON_parse (AvailableSlots worker)) as [slots|e]; simpl.
      + exists (fun match_ =>
                  if JS.isArray slots && (0 <? length (JS.elements slots))%nat
                  then true else match_).
        reflexivity.
      + exists (fun match_ => match_). reflexivity.
    - exists (fun match_ => match_). reflexivity. }
  destruct Havail as (b0 & Havail).
  destruct (RegExp.match_ normalizedQuery Search.skillPattern) as [m|] eqn:E.
  - destruct (skill_group1 _ _ E) as (text & ->). simpl.
    rewrite Havail. simpl. eexists. reflexivity.
  - simpl. rewrite Havail. simpl. eexists. reflexivity.
Qed.

Lemma answer_Normal (c : JS.completion bool) :
  (exists b, c = JS.Normal b) -> c = JS.Normal (answer c).
Proof. now intros (b & ->). Qed.

Lemma taskMatch_answers q task :
  Search.taskMatch q task = JS.Normal (answer (Search.taskMatch q task)).
Proof. apply answer_Normal. destruct (taskMatch_text q task) as (b & ->). now eexists. Qed.

Lemma clientMatch_answers q client :
  Search.clientMatch q client = JS.Normal (answer (Search.clientMatch q client)).
Proof. apply answer_Normal. destruct (clientMatch_text q client) as (b & ->). now eexists. Qed.

Lemma workerMatch_answers q worker :
  Search.workerMatch q worker = JS.Normal (answer (Search.workerMatch q worker)).
Proof. apply answer_Normal. destruct (workerMatch_text q worker) as (b & ->). now eexists. Qed.

(** [s.includes('')] *)
Lemma includes_empty (s : string) : JS.includes s "" = true.
Proof. destruct s; reflexivity. Qed.

(** [searchData] without its exceptions. *)
Lemma searchData_eq (this : AIEngine.this_t) (query : string) :
  let q := JS.toLowerCase query in
  let found (e : Entity.t) (n : nat) (rows : Rows) (confidence : float) :=
    if JS.includes q (entityWord e) && (0 <? n)%nat
    then [{| AISearchResult.entity := e; AISearchResult.matches := rows;
             AISearchResult.confidence := confidence; AISearchResult.query := query |}]
    else [] in
  let tasks := List.filter (fun x => answer (Search.taskMatch q x)) (AIEngine.tasks this) in
  let clients :=
    List.filter (fun x => answer (Search.clientMatch q x)) (AIEngine.clients this) in
  let workers :=
    List.filter (fun x => answer (Search.workerMatch q x)) (AIEngine.workers this) in
  Search.searchData this query
  = JS.Normal (found Entity.task (length tasks) (taskRows tasks) 0.85%float
               ++ found Entity.client (length clients) (clientRows clients) 0.80%float
               ++ found Entity.worker (length workers) (workerRows workers) 0.80%float).
Proof.
  intros q found tasks clients workers. unfold Search.searchData. fold q.
  rewrite (filter__eq _ _ (taskMatch_answers q)),
    (filter__eq _ _ (clientMatch_answers q)), (filter__eq _ _ (workerMatch_answers q)).
  fold tasks clients workers. subst found. cbv beta. cbn [entityWord].
  destruct (JS.includes q "task"), (JS.includes q "client"), (JS.includes q "worker");
    simpl;
    destruct ((0 <? length tasks)%nat), ((0 <? length clients)%nat),
      ((0 <? length workers)%nat); reflexivity.
Qed.

(* ===================================================================== *)
(** ** Part XII.  The validator against its specification                *)
(* ===================================================================== *)

(** C2.  In each collection an ID that occurs [n] times is flagged by
    exactly [n - 1] duplicate-ID errors of [validateAll]: the errors whose
    identifier starts with [duplicate-] are, collection by collection and in
    order, one for each record whose ID already occurred before it, so the
    first occurrence is never flagged. *)
Theorem duplicate_ids_flag_later_occurrences (this : DataValidator.this_t) :
  exists errors,
    DataValidator.validateAll this = JS.Normal errors /\
    tagged "duplicate-" errors
    = map DataValidator.duplicateClient
        (laterOccurrences ClientID (DataValidator.clients this))
      ++ map DataValidator.duplicateWorker
           (laterOccurrences WorkerID (DataValidator.workers this))
      ++ map DataValidator.duplicateTask
           (laterOccurrences TaskID (DataValidator.tasks this)) /\
    (forall ID, length (withId ("duplicate-client-" +:+ ID) errors)
                = (occurrences ClientID ID (DataValidator.clients this) - 1)%nat) /\
    (forall ID, length (withId ("duplicate-worker-" +:+ ID) errors)
                = (occurrences WorkerID ID (DataValidator.workers this) - 1)%nat) /\
    (forall ID, length (withId ("duplicate-task-" +:+ ID) errors)
                = (occurrences TaskID ID (DataValidator.tasks this) - 1)%nat).
Proof.
  exists (Pushed.all this). split; [apply validateAll_eq|]. split; [|split; [|split]].
  - segments.
    rewrite (tagged_coarser "duplicate-" "duplicate-client-" _ eq_refl
               (duplicateClient_tag _)),
      (tagged_coarser "duplicate-" "duplicate-worker-" _ eq_refl (duplicateWorker_tag _)),
      (tagged_coarser "duplicate-" "duplicate-task-" _ eq_refl (duplicateTask_tag _)).
    reflexivity.
  - intros ID. rewrite (withId_tagged "duplicate-client-") by apply prefix_append.
    rewrite tagged_duplicateClient. now apply withId_duplicates.
  - intros ID. rewrite (withId_tagged "duplicate-worker-") by apply prefix_append.
    rewrite tagged_duplicateWorker. now apply withId_duplicates.
  - intros ID. rewrite (withId_tagged "duplicate-task-") by apply prefix_append.
    rewrite tagged_duplicateTask. now apply withId_duplicates.
Qed.

(** Three clients sharing [ClientID = "C001"]: two duplicate errors, for the
    second and the third row. *)
Example three_clients_two_duplicates :
  DataValidator.validateAll
    (DataValidator.new [client_C001; client_C001; client_C001] [] [])
  = JS.Normal [DataValidator.duplicateClient client_C001;
               DataValidator.duplicateClient client_C001].
Proof. vm_compute. reflexivity. Qed.

(** C10.  When an ID occurs [k >= 3] times in a collection, the [k - 1]
    duplicate-ID errors of [validateAll] about it all carry the same
    identifier, [duplicate-<entity>-<ID>]; the identifiers of the errors of
    one result are therefore not pairwise distinct. *)
Theorem duplicate_errors_share_one_id (this : DataValidator.this_t) (ID : string) :
  exists errors,
    DataValidator.validateAll this = JS.Normal errors /\
    (forall k, occurrences ClientID ID (DataValidator.clients this) = k -> (3 <= k)%nat ->
       length (duplicatesOf "duplicate-client-" ID errors) = (k - 1)%nat /\
       Forall (fun e => ValidationError.id e = "duplicate-client-" +:+ ID)
         (duplicatesOf "duplicate-client-" ID errors) /\
       ~ List.NoDup (map ValidationError.id errors)) /\
    (forall k, occurrences WorkerID ID (DataValidator.workers this) = k -> (3 <= k)%nat ->
       length (duplicatesOf "duplicate-worker-" ID errors) = (k - 1)%nat /\
       Forall (fun e => ValidationError.id e = "duplicate-worker-" +:+ ID)
         (duplicatesOf "duplicate-worker-" ID errors) /\
       ~ List.NoDup (map ValidationError.id errors)) /\
    (forall k, occurrences TaskID ID (DataValidator.tasks this) = k -> (3 <= k)%nat ->
       length (duplicatesOf "duplicate-task-" ID errors) = (k - 1)%nat /\
       Forall (fun e => ValidationError.id e = "duplicate-task-" +:+ ID)
         (duplicatesOf "duplicate-task-" ID errors) /\
       ~ List.NoDup (map ValidationError.id errors)).
Proof.
  exists (Pushed.all this). split; [apply validateAll_eq|].
  split; [|split]; intros k Hk Hge; unfold duplicatesOf; rewrite filter_andb;
    fold (tagged "duplicate-client-" (Pushed.all this));
    fold (tagged "duplicate-worker-" (Pushed.all this));
    fold (tagged "duplicate-task-" (Pushed.all this)).
  - rewrite tagged_duplicateClient.
    destruct (duplicates_of_one_id ClientID DataValidator.duplicateClient
                "duplicate-client-" ID (DataValidator.clients this)) as [Hlen Hall];
      [reflexivity | reflexivity |].
    rewrite Hk in Hlen. split; [exact Hlen|]. split; [exact Hall|].
    apply (withId_twice ("duplicate-client-" +:+ ID)).
    rewrite (withId_tagged "duplicate-client-") by apply prefix_append.
    rewrite tagged_duplicateClient, withId_duplicates by reflexivity. lia.
  - rewrite tagged_duplicateWorker.
    destruct (duplicates_of_one_id WorkerID DataValidator.duplicateWorker
                "duplicate-worker-" ID (DataValidator.workers this)) as [Hlen Hall];
      [reflexivity | reflexivity |].
    rewrite Hk in Hlen. split; [exact Hlen|]. split; [exact Hall|].
    apply (withId_twice ("duplicate-worker-" +:+ ID)).
    rewrite (withId_tagged "duplicate-worker-") by apply prefix_append.
    rewrite tagged_duplicateWorker, withId_duplicates by reflexivity. lia.
  - rewrite tagged_duplicateTask.
    destruct (duplicates_of_one_id TaskID DataValidator.duplicateTask
                "duplicate-task-" ID (DataValidator.tasks this)) as [Hlen Hall];
      [reflexivity | reflexivity |].
    rewrite Hk in Hlen. split; [exact Hlen|]. split; [exact Hall|].
    apply (withId_twice ("duplicate-task-" +:+ ID)).
    rewrite (withId_tagged "duplicate-task-") by apply prefix_append.
    rewrite tagged_duplicateTask, withId_duplicates by reflexivity. lia.
Qed.

Lemma duplicate_errors_share_one_id_witness :
  exists errors,
    DataValidator.validateAll
      (DataValidator.new [client_C001; client_C001; client_C001] [] [])
    = JS.Normal errors /\
    length (duplicatesOf "duplicate-client-" "C001" errors) = 2%nat /\
    Forall (fun e => ValidationError.id e = "duplicate-client-C001")
      (duplicatesOf "duplicate-client-" "C001" errors) /\
    ~ List.NoDup (map ValidationError.id errors).
Proof.
  destruct (duplicate_errors_share_one_id
              (DataValidator.new [client_C001; client_C001; client_C001] [] []) "C001")
    as (errors & Hrun & Hclients & _).
  exists errors. split; [exact Hrun|].
  exact (Hclients 3%nat eq_refl (le_n 3)).
Defined.

(** C3.  [validateAll] never throws: on every input each of the twelve
    checks returns a list of errors, and [validateAll] returns these lists
    one after the other.  A worker whose [AvailableSlots] does not parse
    costs one error for that worker, and the rest of what [validateAll]
    returns is what it returns whatever that field holds: around the
    entries that the two checks reading the field make for that worker,
    the errors are the same for every content of the field.  Likewise for
    a client whose [AttributesJSON] does not parse, and the one check that
    reads it. *)
Theorem validateAll_never_throws :
  (forall this,
     exists results,
       Forall2 (fun check r => check this = JS.Normal r) checks results /\
       DataValidator.validateAll this = JS.Normal (concat results)) /\
  (forall cs ws1 w ws2 ts,
     exists pre mid post,
       (forall slots e,
          JS.JSON_parse slots = JS.Throw e ->
          DataValidator.validateAll
            (DataValidator.new cs (ws1 ++ withSlots w slots :: ws2) ts)
          = JS.Normal (pre ++ [DataValidator.invalidSlots (withSlots w slots)]
                       ++ mid ++ post)) /\
       (forall slots,
          exists own own',
            DataValidator.validateMalformedLists
              (DataValidator.new [] [withSlots w slots] [])
            = JS.Normal own /\
            DataValidator.validateOverloadedWorkers
              (DataValidator.new [] [withSlots w slots] [])
            = JS.Normal own' /\
            DataValidator.validateAll
              (DataValidator.new cs (ws1 ++ withSlots w slots :: ws2) ts)
            = JS.Normal (pre ++ own ++ mid ++ own' ++ post))) /\
  (forall cs1 c cs2 ws ts,
     exists pre post,
       (forall json e,
          JS.trim json <> "" ->
          JS.JSON_parse json = JS.Throw e ->
          DataValidator.validateAll
            (DataValidator.new (cs1 ++ withAttributes c json :: cs2) ws ts)
          = JS.Normal (pre ++ [DataValidator.brokenJSON (withAttributes c json)]
                       ++ post)) /\
       (forall json,
          exists own,
            DataValidator.validateBrokenJSON
              (DataValidator.new [withAttributes c json] [] [])
            = JS.Normal own /\
            DataValidator.validateAll
              (DataValidator.new (cs1 ++ withAttributes c json :: cs2) ws ts)
            = JS.Normal (pre ++ own ++ post))).
Proof.
  split; [|split].
  - apply validateAll_checks.
  - intros cs ws1 w ws2 ts.
    destruct (all_around_slots cs ws1 w ws2 ts) as (pre & mid & post & Hall).
    exists pre, mid, post. split.
    + intros slots e He. rewrite validateAll_eq, Hall.
      unfold Pushed.malformed, Pushed.overload. cbn [AvailableSlots withSlots].
      rewrite He. reflexivity.
    + intros slots.
      exists (Pushed.malformed (withSlots w slots)), (Pushed.overload (withSlots w slots)).
      rewrite validateMalformedLists_eq, validateOverloadedWorkers_eq, validateAll_eq.
      cbn [DataValidator.workers]. rewrite !flat_map_one, Hall. auto.
  - intros cs1 c cs2 ws ts.
    destruct (all_around_attributes cs1 c cs2 ws ts) as (pre & post & Hall).
    exists pre, post. split.
    + intros json e Hblank He. rewrite validateAll_eq, Hall.
      unfold Pushed.broken. cbn [AttributesJSON withAttributes]. rewrite He.
      assert (Ht : DataValidator.truthy json = true).
      { unfold DataValidator.truthy. destruct json; [|reflexivity].
        now contradiction Hblank. }
      rewrite Ht. apply String.eqb_neq in Hblank. now rewrite Hblank.
    + intros json. exists (Pushed.broken (withAttributes c json)).
      rewrite validateBrokenJSON_eq, validateAll_eq.
      cbn [DataValidator.clients]. rewrite flat_map_one, Hall. auto.
Qed.

Lemma validateAll_never_throws_witness :
  (exists results,
     Forall2 (fun check r =>
                check (DataValidator.new [client_broken]
                         [worker_W1 "1;2" 3; worker_W1 "[1,2]" 1] [])
                = JS.Normal r) checks results /\
     DataValidator.validateAll
       (DataValidator.new [client_broken] [worker_W1 "1;2" 3; worker_W1 "[1,2]" 1] [])
     = JS.Normal (concat results)) /\
  (exists pre mid post,
     DataValidator.validateAll
       (DataValidator.new [client_broken]
          [worker_W1 "[1]" 3; worker_W1 "1;2" 3; worker_W1 "[x]" 2]
          [task_with "T1" "painting"])
     = JS.Normal (pre ++ [DataValidator.invalidSlots (worker_W1 "1;2" 3)] ++ mid ++ post) /\
     DataValidator.validateAll
       (DataValidator.new [client_broken]
          [worker_W1 "[1]" 3; worker_W1 "[1,2]" 3; worker_W1 "[x]" 2]
          [task_with "T1" "painting"])
     = JS.Normal (pre ++ [] ++ mid
                  ++ [DataValidator.overloaded (worker_W1 "[1,2]" 3)
                        (JS.JArray [JS.JNumber "1"; JS.JNumber "2"])]
                  ++ post) /\
     In (DataValidator.skillCoverage (task_with "T1" "painting") "painting")
       (pre ++ mid ++ post)) /\
  (exists pre post,
     DataValidator.validateAll
       (DataValidator.new [client_C001; client_broken] [worker_W1 "1;2" 3] [])
     = JS.Normal (pre ++ [DataValidator.brokenJSON client_broken] ++ post) /\
     DataValidator.validateAll
       (DataValidator.new [client_C001; withAttributes client_broken "{}"]
          [worker_W1 "1;2" 3] [])
     = JS.Normal (pre ++ [] ++ post) /\
     In (DataValidator.invalidSlots (worker_W1 "1;2" 3)) (pre ++ post)).
Proof.
  destruct validateAll_never_throws as (Htotal & Hslots & Hjson).
  split; [apply Htotal|]. split.
  - destruct (Hslots [client_broken] [worker_W1 "[1]" 3] (worker_W1 "" 3)
                [worker_W1 "[x]" 2] [task_with "T1" "painting"])
      as (pre & mid & post & Hbad & Hany).
    exists pre, mid, post.
    specialize (Hbad "1;2" (JS.SyntaxError "Unexpected token in JSON") eq_refl).
    destruct (Hany "[1,2]") as (own & own' & Hown & Hown' & Hgood).
    vm_compute in Hown. vm_compute in Hown'.
    injection Hown as <-. injection Hown' as <-.
    split; [exact Hbad|]. split; [exact Hgood|].
    apply (In_around _ (DataValidator.invalidSlots (worker_W1 "1;2" 3))); [|discriminate].
    remember (pre ++ [DataValidator.invalidSlots (worker_W1 "1;2" 3)] ++ mid ++ post)
      as errors eqn:E.
    change (withSlots (worker_W1 "" 3) "1;2") with (worker_W1 "1;2" 3) in Hbad.
    rewrite <- E in Hbad. vm_compute in Hbad. injection Hbad as <-.
    vm_compute. tauto.
  - destruct (Hjson [client_C001] client_broken [] [worker_W1 "1;2" 3] [])
      as (pre & post & Hbad & Hany).
    exists pre, post.
    assert (Hblank : JS.trim "{broken" <> "") by (vm_compute; discriminate).
    specialize (Hbad "{broken" (JS.SyntaxError "Unexpected token in JSON") Hblank eq_refl).
    destruct (Hany "{}") as (own & Hown & Hgood).
    vm_compute in Hown. injection Hown as <-.
    split; [exact Hbad|]. split; [exact Hgood|].
    apply (In_around _ (DataValidator.brokenJSON client_broken)); [|discriminate].
    remember (pre ++ [DataValidator.brokenJSON client_broken] ++ post) as errors eqn:E.
    change (withAttributes client_broken "{broken") with client_broken in Hbad.
    rewrite <- E in Hbad. vm_compute in Hbad. injection Hbad as <-.
    vm_compute. tauto.
Defined.



(** [AvailableSlots = "[1,2]"] with [MaxLoadPerPhase = 3]: exactly one
    [overloaded] warning. *)
Example two_slots_load_three :
  exists errors,
    DataValidator.validateAll (DataValidator.new [] [worker_W1 "[1,2]" 3] [])
    = JS.Normal errors /\
    tagged "overloaded-" errors
    = [DataValidator.overloaded (worker_W1 "[1,2]" 3)
         (JS.JArray [JS.JNumber "1"; JS.JNumber "2"])].
Proof. eexists. split; vm_compute; reflexivity. Qed.

(** [AvailableSlots = "[1,2,3,4]"] with [MaxLoadPerPhase = 3]: none. *)
Example four_slots_load_three :
  exists errors,
    DataValidator.validateAll (DataValidator.new [] [worker_W1 "[1,2,3,4]" 3] [])
    = JS.Normal errors /\
    tagged "overloaded-" errors = [].
Proof. eexists. split; vm_compute; reflexivity. Qed.

(** C9.  A worker whose [AvailableSlots] does not parse gets no
    [overloaded] warning, whatever its [MaxLoadPerPhase]: the warnings of
    [validateAll] are those of the other workers.  The value is reported by
    the malformed-list check, with one [invalid-slots] error at the
    worker's place, and every error of the result that is about the field
    [AvailableSlots] comes from that check. *)
Theorem unparseable_slots_not_overloaded cs ws1 w ws2 ts e :
  JS.JSON_parse (AvailableSlots w) = JS.Throw e ->
  exists errors before after reported reported',
    DataValidator.validateAll (DataValidator.new cs (ws1 ++ w :: ws2) ts)
    = JS.Normal errors /\
    DataValidator.validateOverloadedWorkers (DataValidator.new cs ws1 ts)
    = JS.Normal before /\
    DataValidator.validateOverloadedWorkers (DataValidator.new cs ws2 ts)
    = JS.Normal after /\
    tagged "overloaded-" errors = before ++ after /\
    DataValidator.validateMalformedLists (DataValidator.new cs ws1 ts)
    = JS.Normal reported /\
    DataValidator.validateMalformedLists (DataValidator.new cs ws2 ts)
    = JS.Normal reported' /\
    DataValidator.validateMalformedLists (DataValidator.new cs (ws1 ++ w :: ws2) ts)
    = JS.Normal (reported ++ [DataValidator.invalidSlots w] ++ reported') /\
    aboutSlots errors = reported ++ [DataValidator.invalidSlots w] ++ reported'.
Proof.
  intros Hparse.
  assert (Ho : Pushed.overload w = []) by (unfold Pushed.overload; now rewrite Hparse).
  assert (Hm : Pushed.malformed w = [DataValidator.invalidSlots w])
    by (unfold Pushed.malformed; now rewrite Hparse).
  exists (Pushed.all (DataValidator.new cs (ws1 ++ w :: ws2) ts)),
    (flat_map Pushed.overload ws1), (flat_map Pushed.overload ws2),
    (flat_map Pushed.malformed ws1), (flat_map Pushed.malformed ws2).
  rewrite validateAll_eq, !validateOverloadedWorkers_eq, !validateMalformedLists_eq,
    tagged_overloaded, aboutSlots_all.
  cbn [DataValidator.workers]. rewrite !flat_map_app. cbn [flat_map]. rewrite Ho, Hm.
  repeat split; reflexivity.
Qed.

Lemma unparseable_slots_not_overloaded_witness :
  exists errors,
    DataValidator.validateAll
      (DataValidator.new [] [worker_W1 "[1,2]" 3; worker_W1 "1,2" 9] [])
    = JS.Normal errors /\
    tagged "overloaded-" errors
    = [DataValidator.overloaded (worker_W1 "[1,2]" 3)
         (JS.JArray [JS.JNumber "1"; JS.JNumber "2"])] /\
    aboutSlots errors = [DataValidator.invalidSlots (worker_W1 "1,2" 9)].
Proof.
  destruct (unparseable_slots_not_overloaded [] [worker_W1 "[1,2]" 3]
              (worker_W1 "1,2" 9) [] [] (JS.SyntaxError "Unexpected token in JSON") eq_refl)
    as (errors & before & after & rep & rep' & Hrun & Hb & Ha & Ho & Hr & Hr' & _ & Hs).
  exists errors. split; [exact Hrun|].
  vm_compute in Hb. vm_compute in Ha. vm_compute in Hr. vm_compute in Hr'.
  injection Hb as <-. injection Ha as <-. injection Hr as <-. injection Hr' as <-.
  split; [exact Ho | exact Hs].
Defined.

(** C8, as stated, fails: an unknown ID listed twice by one client is
    reported by two [unknown-task] errors, not by exactly one; and the only
    piece of an empty [RequestedTaskIDs], the empty string, is reported by
    none although no task has that ID. *)
Lemma unknown_task_listed_twice_reported_twice :
  (exists errors,
     DataValidator.validateAll
       (DataValidator.new [client_requesting "T999,T999"] [] [])
     = JS.Normal errors /\
     tagged "unknown-task-" errors
     = [DataValidator.unknownTask (client_requesting "T999,T999") "T999";
        DataValidator.unknownTask (client_requesting "T999,T999") "T999"]) /\
  (exists errors,
     DataValidator.validateAll (DataValidator.new [client_requesting ""] [] [])
     = JS.Normal errors /\
     map JS.trim (JS.split "," (RequestedTaskIDs (client_requesting ""))) = [""] /\
     tagged "unknown-task-" errors = []).
Proof. split; eexists; repeat split; vm_compute; reflexivity. Qed.

(** C8, amended.  A client whose [RequestedTaskIDs] is not empty gets, from
    [validateAll], one [unknown-task] error for each piece of its
    comma-split, trimmed [RequestedTaskIDs] that is the [TaskID] of no task:
    in the order of the pieces, once per piece (an ID listed twice is
    reported twice), at the client's place among the errors of the other
    clients.  A client whose [RequestedTaskIDs] is empty gets none. *)
Theorem unknown_references_one_error_per_piece cs1 c cs2 ws ts :
  exists errors before after,
    DataValidator.validateAll (DataValidator.new (cs1 ++ c :: cs2) ws ts)
    = JS.Normal errors /\
    DataValidator.validateUnknownReferences (DataValidator.new cs1 ws ts)
    = JS.Normal before /\
    DataValidator.validateUnknownReferences (DataValidator.new cs2 ws ts)
    = JS.Normal after /\
    tagged "unknown-task-" errors
    = before
      ++ (if String.eqb (RequestedTaskIDs c) "" then []
          else map (DataValidator.unknownTask c)
                 (List.filter
                    (fun taskId => negb (JS.arrayIncludes (map TaskID ts) taskId))
                    (map JS.trim (JS.split "," (RequestedTaskIDs c)))))
      ++ after.
Proof.
  exists (Pushed.all (DataValidator.new (cs1 ++ c :: cs2) ws ts)),
    (flat_map (Pushed.unknown ts) cs1), (flat_map (Pushed.unknown ts) cs2).
  rewrite validateAll_eq, !validateUnknownReferences_eq, tagged_unknown.
  cbn [DataValidator.clients DataValidator.tasks]. rewrite flat_map_app. cbn [flat_map].
  repeat split. do 2 f_equal.
  unfold Pushed.unknown, DataValidator.truthy, Pushed.pieces.
  now destruct (String.eqb (RequestedTaskIDs c) "").
Qed.

(** A client with [PriorityLevel = 5] requesting ["T999"], which no task
    has: exactly one [unknown-task] error, referencing [T999]. *)
Example unknown_T999_reported_once :
  exists errors,
    DataValidator.validateAll (DataValidator.new [client_requesting "T999"] [] [])
    = JS.Normal errors /\
    tagged "unknown-task-" errors
    = [DataValidator.unknownTask (client_requesting "T999") "T999"] /\
    ValidationError.id (DataValidator.unknownTask (client_requesting "T999") "T999")
    = "unknown-task-C1-T999".
Proof. eexists. repeat split; vm_compute; reflexivity. Qed.

(* ===================================================================== *)
(** ** Part XIII.  The text-rule compiler against its specification      *)
(* ===================================================================== *)

(** C5, as stated, fails: in ["together limit 3 task"] the co-run phrase
    [together] is found and the ID pattern of that category is absent (the
    only [task] ends the text), yet the function does not return [null]: it
    goes on to the next category and returns a load-limit rule. *)
Lemma corun_phrase_without_ids_falls_through :
  coRunPhrase (JS.toLowerCase "together limit 3 task") = true /\
  RegExp.match_ (JS.toLowerCase "together limit 3 task") AIEngine.taskPattern = None /\
  AIEngine.convertToRule 0 "together limit 3 task"
  = JS.Normal (Some (AIEngine.loadLimitRule 0 (Some 3))).
Proof. repeat split; vm_compute; reflexivity. Qed.

(** C5, amended.  [convertToRule] never raises an error, and the rule it
    returns is of the first category, in the order co-run, load limit,
    phase window, whose phrase and whose pattern are both found in the
    lower-cased text; a category whose phrase is found without its pattern
    is passed over, and [null] is returned when no category has both. *)
Theorem convertToRule_first_yielding_category (now : Z) (text : string) :
  exists result,
    AIEngine.convertToRule now text = JS.Normal result /\
    option_map BusinessRule.type result = yielding (JS.toLowerCase text).
Proof.
  destruct (convertToRule_cases text) as [[Hy Hr]|(r & Hy & Hr)].
  - exists None. now rewrite Hr, Hy.
  - eexists. rewrite Hr, Hy. split; reflexivity.
Qed.

(** The example of the specification: a co-run rule (whose list of IDs is
    the whole captured text, there being no comma in it). *)
Example tasks_T001_and_T002_together :
  AIEngine.convertToRule 1700000000000 "Tasks T001 and T002 must run together"
  = JS.Normal (Some (AIEngine.coRunRule 1700000000000
                       ["t001 and t002 must run together"])).
Proof. vm_compute. reflexivity. Qed.

(** C6, as stated, fails: the [id] of the rule embeds [Date.now()], so two
    invocations on the same text at different times return rules with
    different [id]s. *)
Lemma convertToRule_id_follows_the_clock :
  exists r1 r2,
    AIEngine.convertToRule 1700000000000 "run tasks A,B together" = JS.Normal (Some r1) /\
    AIEngine.convertToRule 1700000000001 "run tasks A,B together" = JS.Normal (Some r2) /\
    BusinessRule.id r1 = "corun-1700000000000" /\
    BusinessRule.id r2 = "corun-1700000000001" /\
    r1 <> r2.
Proof.
  do 2 eexists. repeat split; try (vm_compute; reflexivity).
  vm_compute. discriminate.
Qed.

(** C6, amended.  Two invocations of [convertToRule] on the same text both
    return [null], or return rules that agree on every field but [id]; the
    [id] of each is the prefix of its category followed by the value of
    [Date.now()] during its invocation (so the results are the same when
    the clock reads the same). *)
Theorem convertToRule_deterministic_but_id (now1 now2 : Z) (text : string) :
  exists result1 result2,
    AIEngine.convertToRule now1 text = JS.Normal result1 /\
    AIEngine.convertToRule now2 text = JS.Normal result2 /\
    match result1, result2 with
    | None, None => True
    | Some r1, Some r2 =>
        BusinessRule.id r1 = idPrefix (BusinessRule.type r1) +:+ JS.showZ now1 /\
        r2 = withRuleId (idPrefix (BusinessRule.type r1) +:+ JS.showZ now2) r1
    | _, _ => False
    end.
Proof.
  destruct (convertToRule_cases text) as [[_ Hr]|(r & _ & Hr)].
  - exists None, None. now rewrite !Hr.
  - do 2 eexists. rewrite !Hr. repeat split; reflexivity.
Qed.

(* ===================================================================== *)
(** ** Part XIV.  The pattern-inference engine against its specification *)
(* ===================================================================== *)

(** C4, as stated, fails: the tasks are filed by the sorted list of their
    skills, in which a skill listed twice counts twice.  ["a,b"] and
    ["a,a,b"] are the same set of skills, and the two tasks get no co-run
    recommendation. *)
Lemma same_skill_set_not_grouped :
  (forall s, In s (map JS.trim (JS.split "," "a,b"))
             <-> In s (map JS.trim (JS.split "," "a,a,b"))) /\
  skillKey (task_with "T1" "a,b") = "a|b" /\
  skillKey (task_with "T2" "a,a,b") = "a|a|b" /\
  coRuns (AIEngine.generateRuleRecommendations ticking
            (AIEngine.new [] [] [task_with "T1" "a,b"; task_with "T2" "a,a,b"]))
  = [].
Proof.
  split; [|repeat split; vm_compute; reflexivity].
  intros s. vm_compute. tauto.
Qed.

(** C4, amended.  [generateRuleRecommendations] files each task under the
    key made of its trimmed [RequiredSkills], sorted and joined by a bar
    (a skill listed twice stays twice in the key), and the co-run
    recommendations of its result are, up to their order, one for each key
    shared by at least two tasks: over the IDs of the tasks filed under the
    key, with confidence [min(0.9, 0.5 + 0.1 * size)].  Two tasks whose
    trimmed skills are the same up to the order in which they are listed
    have the same key; when they are the whole collection they get one
    co-run recommendation, with a confidence that is at least 0.5. *)
Theorem coRun_recommendations_by_sorted_skills :
  (forall clock this,
     Permutation (coRuns (AIEngine.generateRuleRecommendations clock this))
       (stamped AIEngine.coRunRecommendation clock 0
          (map taskGroupOf (shared (partition (AIEngine.tasks this)))))) /\
  (forall class,
     AIEngine.group_tasks (taskGroupOf class) = snd class /\
     AIEngine.group_confidence (taskGroupOf class)
     = JS.Math_min 0.9 (0.5 + JS.ofNat (length (snd class)) * 0.1)) /\
  (forall t1 t2,
     Permutation (map JS.trim (JS.split "," (RequiredSkills t1)))
                 (map JS.trim (JS.split "," (RequiredSkills t2))) ->
     skillKey t1 = skillKey t2) /\
  (forall clock cs ws t1 t2,
     Permutation (map JS.trim (JS.split "," (RequiredSkills t1)))
                 (map JS.trim (JS.split "," (RequiredSkills t2))) ->
     coRuns (AIEngine.generateRuleRecommendations clock (AIEngine.new cs ws [t1; t2]))
     = [AIEngine.coRunRecommendation (clock 0%nat)
          {| AIEngine.group_tasks := [TaskID t1; TaskID t2];
             AIEngine.commonSkills := JS.split "|" (skillKey t1);
             AIEngine.group_confidence := confidenceOfTwo |}]) /\
  PrimFloat.leb 0.5 confidenceOfTwo = true.
Proof.
  assert (Hkey : forall t1 t2,
    Permutation (map JS.trim (JS.split "," (RequiredSkills t1)))
                (map JS.trim (JS.split "," (RequiredSkills t2))) ->
    skillKey t1 = skillKey t2).
  { intros t1 t2 Hp. unfold skillKey. now rewrite (sort_perm_eq _ _ Hp). }
  split; [|split; [|split; [|split]]].
  - intros clock this. rewrite coRuns_generate. now rewrite analyzeTaskPatterns_eq.
  - intros class. split; reflexivity.
  - exact Hkey.
  - intros clock cs ws t1 t2 Hp.
    pose proof (coRuns_generate clock (AIEngine.new cs ws [t1; t2])) as Hperm.
    rewrite analyzeTaskPatterns_eq in Hperm. cbn [AIEngine.tasks] in Hperm.
    assert (Hpart : partition [t1; t2] = [(skillKey t1, [TaskID t1; TaskID t2])]).
    { unfold partition, firstOccurrences, filedUnder. simpl.
      rewrite <- (Hkey t1 t2 Hp). rewrite !String.eqb_refl. reflexivity. }
    rewrite Hpart in Hperm. simpl in Hperm.
    apply Permutation_sym, Permutation_length_1_inv in Hperm. exact Hperm.
  - vm_compute. reflexivity.
Qed.

Lemma coRun_recommendations_by_sorted_skills_witness :
  skillKey (task_with "T1" "welding, cutting") = skillKey (task_with "T2" "cutting,welding")
  /\
  coRuns (AIEngine.generateRuleRecommendations ticking
            (AIEngine.new [] []
               [task_with "T1" "welding, cutting"; task_with "T2" "cutting,welding"]))
  = [AIEngine.coRunRecommendation 1700000000000
       {| AIEngine.group_tasks := ["T1"; "T2"];
          AIEngine.commonSkills := ["cutting"; "welding"];
          AIEngine.group_confidence := confidenceOfTwo |}].
Proof.
  destruct coRun_recommendations_by_sorted_skills as (_ & _ & Hkey & Htwo & _).
  assert (Hp : Permutation
                 (map JS.trim (JS.split "," (RequiredSkills (task_with "T1" "welding, cutting"))))
                 (map JS.trim (JS.split "," (RequiredSkills (task_with "T2" "cutting,welding"))))).
  { vm_compute. apply perm_swap. }
  split; [exact (Hkey _ _ Hp)|].
  exact (Htwo ticking [] [] _ _ Hp).
Defined.

(* ===================================================================== *)
(** ** Part XV.  The weight normaliser against its specification         *)
(* ===================================================================== *)

(** The case that C1 excepts.  From the weights [(0, 0, 0, 0, 0, 1)]
    moving the last slider to 0 makes the total 0: nothing is rescaled,
    and the weights handed over are the six zeros. *)
Example all_sliders_at_zero :
  PriorityPanel.totalWeight PriorityPanel.binary64 (PriorityPanel.weightsOf 0 0 0 0 0 1)
  = 1%float /\
  PriorityPanel.handleWeightChange PriorityPanel.binary64
    (PriorityPanel.weightsOf 0 0 0 0 0 1) fPhasePreference 0%float
  = PriorityPanel.weightsOf 0 0 0 0 0 0 /\
  PriorityPanel.totalWeight PriorityPanel.binary64 (PriorityPanel.weightsOf 0 0 0 0 0 0)
  = 0%float.
Proof. repeat split; vm_compute; reflexivity. Qed.

(** In exact arithmetic the weights, rescaled, sum to one. *)
Lemma rescaled_weights_sum_to_one_exactly
    (w : PriorityWeights Q) (field : WeightField) (value : Q) :
  let changed := PriorityPanel.set PriorityPanel.exact w field (value / inject_Z 100)%Q in
  let total := PriorityPanel.totalWeight PriorityPanel.exact changed in
  let result := PriorityPanel.handleWeightChange PriorityPanel.exact w field value in
  (0 < total)%Q ->
  (PriorityPanel.totalWeight PriorityPanel.exact result == 1)%Q.
Proof.
  intros changed total result Hpos. subst result.
  assert (Hc : changed = PriorityPanel.set PriorityPanel.exact w field
                 (PriorityPanel.over PriorityPanel.exact value
                    (PriorityPanel.ofInt PriorityPanel.exact 100))) by reflexivity.
  unfold PriorityPanel.handleWeightChange. rewrite <- Hc. fold total.
  rewrite (proj2 (greater_exact total) Hpos).
  subst total. destruct changed as [a b c d e f]. now apply quotients_sum_to_one.
Qed.

(** C1.  The weights that the page holds are fractions, between 0 and 1,
    and the positions of a slider are values between 0 and 100.  For every
    record of fractions and every such value of one field, [normalize]
    sets the field to the new value, [value / 100], and leaves the others;
    when the new total is not 0 it divides each of the six fields by it,
    and the sum of the six, as the code adds them in binary64, is within
    [1e-6] of 1: so is the real number it stands for, and so says the test
    [|sum - 1.0| < 1e-6] made in binary64.  Only when the new total is 0 is
    the record with the field changed handed over as it is.  The weights
    handed over are fractions again. *)
Theorem normalize_makes_weights_sum_to_one :
  (forall w, held w -> fractions w = true) /\
  (forall value, In value sliderPositions -> sliderValue value = true) /\
  (forall (w : PriorityWeights float) (field : WeightField) (value : float),
     fractions w = true -> sliderValue value = true ->
     let changed := PriorityPanel.set PriorityPanel.binary64 w field (value / 100)%float in
     let total := PriorityPanel.totalWeight PriorityPanel.binary64 changed in
     let result := PriorityPanel.handleWeightChange PriorityPanel.binary64 w field value in
     PriorityPanel.get PriorityPanel.binary64 changed field = (value / 100)%float /\
     (forall f, f <> field ->
        PriorityPanel.get PriorityPanel.binary64 changed f
        = PriorityPanel.get PriorityPanel.binary64 w f) /\
     (PrimFloat.eqb total 0 = false ->
      (forall f, PriorityPanel.get PriorityPanel.binary64 result f
                 = (PriorityPanel.get PriorityPanel.binary64 changed f / total)%float) /\
      Binary64.nearOne (PriorityPanel.totalWeight PriorityPanel.binary64 result) /\
      sumsToOne (PriorityPanel.totalWeight PriorityPanel.binary64 result) = true) /\
     (PrimFloat.eqb total 0 = true -> result = changed) /\
     fractions result = true).
Proof.
  assert (Hslider : forall value, In value sliderPositions -> sliderValue value = true).
  { assert (Hall : forallb sliderValue sliderPositions = true) by (vm_compute; reflexivity).
    rewrite forallb_forall in Hall. exact Hall. }
  split; [|split; [exact Hslider|]].
  - intros w Hheld. induction Hheld as [w Hw|w field value _ IH Hvalue].
    + assert (Hall : forallb fractions pageRecords = true) by (vm_compute; reflexivity).
      rewrite forallb_forall in Hall. apply Hall, Hw.
    + destruct (weight_change_spec w field value IH Hvalue) as (Hchanged & Hne & He).
      destruct (PrimFloat.eqb _ 0) eqn:E.
      * rewrite (He eq_refl). exact Hchanged.
      * apply (Hne eq_refl).
  - intros w field value Hw Hvalue changed total result.
    destruct (weight_change_spec w field value Hw Hvalue) as (Hchanged & Hne & He).
    fold changed total result in Hchanged, Hne, He.
    split; [subst changed; destruct field; reflexivity|].
    split; [intros f Hf; subst changed; destruct f, field; try reflexivity;
            now contradiction Hf|].
    split; [intros E; destruct (Hne E) as (Hfields & Hone & Htest & _); now repeat split|].
    split; [exact He|].
    destruct (PrimFloat.eqb total 0) eqn:E.
    + rewrite (He eq_refl). exact Hchanged.
    + apply (Hne eq_refl).
Qed.

Lemma normalize_makes_weights_sum_to_one_witness :
  held (PriorityPanel.handleWeightChange PriorityPanel.binary64 PriorityPanel.initial
          fFairness 50%float) /\
  fractions (PriorityPanel.handleWeightChange PriorityPanel.binary64 PriorityPanel.initial
               fFairness 50%float) = true /\
  fairness (PriorityPanel.handleWeightChange PriorityPanel.binary64 PriorityPanel.initial
              fFairness 50%float)
  = (0.5 / 1.3)%float /\
  Binary64.nearOne
    (PriorityPanel.totalWeight PriorityPanel.binary64
       (PriorityPanel.handleWeightChange PriorityPanel.binary64 PriorityPanel.initial
          fFairness 50%float)) /\
  sumsToOne
    (PriorityPanel.totalWeight PriorityPanel.binary64
       (PriorityPanel.handleWeightChange PriorityPanel.binary64 PriorityPanel.initial
          fFairness 50%float))
  = true.
Proof.
  destruct normalize_makes_weights_sum_to_one as (Hheld & Hslider & Hmove).
  assert (Hin : In 50%float sliderPositions) by (do 10 right; left; reflexivity).
  assert (H : held (PriorityPanel.handleWeightChange PriorityPanel.binary64
                      PriorityPanel.initial fFairness 50%float)).
  { apply held_change; [apply held_page; left; reflexivity | exact (Hslider _ Hin)]. }
  split; [exact H|]. split; [exact (Hheld _ H)|].
  destruct (Hmove PriorityPanel.initial fFairness 50%float eq_refl (Hslider _ Hin))
    as (_ & _ & Hne & _ & _).
  destruct (Hne eq_refl) as (Hfields & Hone & Htest).
  split; [exact (Hfields fFairness)|]. split; [exact Hone | exact Htest].
Defined.

(* ===================================================================== *)
(** ** Part XVI.  Further properties of the validator                     *)
(* ===================================================================== *)

(** X1.  The warnings of [validateAll] are the overloaded-worker and the
    max-concurrency findings; every other finding has the type [error]. *)
Theorem warnings_are_the_capacity_findings (this : DataValidator.this_t) :
  exists errors,
    DataValidator.validateAll this = JS.Normal errors /\
    Forall (fun e => isWarning e
                     = JS.startsWith (ValidationError.id e) "overloaded-"
                       || JS.startsWith (ValidationError.id e) "max-concurrent-") errors.
Proof.
  destruct (validateAll_findings this) as (errors & Hrun & Hfind).
  exists errors. split; [exact Hrun|].
  apply List.Forall_forall. intros e He. apply Hfind in He.
  destruct He; unfold isWarning, JS.startsWith;
    cbn [ValidationError.id ValidationError.type DataValidator.missingField
         DataValidator.duplicateClient DataValidator.duplicateWorker
         DataValidator.duplicateTask DataValidator.malformedSlots
         DataValidator.invalidSlots DataValidator.priorityRange
         DataValidator.durationRange DataValidator.brokenJSON DataValidator.unknownTask
         DataValidator.overloaded DataValidator.skillCoverage DataValidator.maxConcurrent];
    rewrite ?prefix_append; reflexivity.
Qed.

(** X2.  Every finding of [validateAll] is about a record of the data:
    its [entityId] is the ID of a row of the grid of its [entity], so
    [getEntityErrors] lists it for that row; and when it names a field,
    the field is a column of that grid and [getCellErrors] lists it for
    that cell. *)
Theorem every_finding_is_shown_in_its_grid (this : DataValidator.this_t) :
  exists errors,
    DataValidator.validateAll this = JS.Normal errors /\
    forall e, In e errors ->
      let entity := ValidationError.entity e in
      let entityId := ValidationError.entityId e in
      In entityId (rowIds this entity) /\
      In e (DataGrid.getEntityErrors entity errors entityId) /\
      forall field_, ValidationError.field e = Some field_ ->
        In field_ (declaredFields entity) /\
        In e (DataGrid.getCellErrors entity errors entityId field_).
Proof.
  destruct (validateAll_findings this) as (errors & Hrun & Hfind).
  exists errors. split; [exact Hrun|].
  intros e He entity entityId.
  assert (Hsame : DataGrid.sameEntity entity entity = true) by now destruct entity.
  split; [|split].
  - apply Hfind in He. subst entity entityId.
    destruct He; simpl; apply in_map;
      first [assumption | eapply laterOccurrences_In; eassumption].
  - apply filter_In. split; [exact He|]. fold entity entityId.
    now rewrite Hsame, String.eqb_refl.
  - intros field_ Hfield. split.
    + apply Hfind in He. subst entity.
      destruct He; simpl in *; try discriminate;
        injection Hfield as <-; simpl; try tauto.
    + apply filter_In. split; [exact He|]. fold entity entityId.
      rewrite Hsame, String.eqb_refl, Hfield. simpl. apply String.eqb_refl.
Qed.

(** X3.  A client whose [PriorityLevel] is 0 is reported twice: as
    lacking the required field [PriorityLevel], since 0 is falsy, and as
    out of the range 1..5. *)
Theorem zero_priority_is_missing_and_out_of_range
    (this : DataValidator.this_t) (client : Client) :
  In client (DataValidator.clients this) ->
  PriorityLevel client = 0 ->
  exists errors,
    DataValidator.validateAll this = JS.Normal errors /\
    In (DataValidator.missingField client "PriorityLevel") errors /\
    In (DataValidator.priorityRange client) errors.
Proof.
  intros Hc Hzero.
  destruct (validateAll_findings this) as (errors & Hrun & Hfind).
  exists errors. split; [exact Hrun|]. split; apply Hfind.
  - apply missing_finding; [exact Hc | simpl; tauto |].
    simpl. rewrite Hzero. reflexivity.
  - apply priority_finding; [exact Hc | lia].
Qed.

Lemma zero_priority_is_missing_and_out_of_range_witness :
  exists errors,
    DataValidator.validateAll (DataValidator.new [client_unranked] [] [])
    = JS.Normal errors /\
    In (DataValidator.missingField client_unranked "PriorityLevel") errors /\
    In (DataValidator.priorityRange client_unranked) errors.
Proof.
  apply (zero_priority_is_missing_and_out_of_range
           (DataValidator.new [client_unranked] [] []) client_unranked).
  - simpl. left. reflexivity.
  - reflexivity.
Defined.

(** X4.  A task that requires a skill which no worker has is reported for
    it, and no worker is qualified for the task; so as soon as its
    [MaxConcurrent] is at least 1 it is also warned about, with zero
    qualified workers. *)
Theorem uncovered_skill_leaves_no_qualified_worker
    (this : DataValidator.this_t) (task : Task) (skill : string) :
  In task (DataValidator.tasks this) ->
  In skill (map JS.trim (JS.split "," (RequiredSkills task))) ->
  (forall worker, In worker (DataValidator.workers this) ->
     ~ In skill (map JS.trim (JS.split "," (Skills worker)))) ->
  exists errors,
    DataValidator.validateAll this = JS.Normal errors /\
    In (DataValidator.skillCoverage task skill) errors /\
    (1 <= MaxConcurrent task -> In (DataValidator.maxConcurrent task []) errors).
Proof.
  intros Ht Hreq Hnone.
  assert (Hno : ~ In skill (Pushed.allSkills (DataValidator.workers this))).
  { unfold Pushed.allSkills. rewrite in_flat_map. intros (w & Hw & Hin).
    now apply (Hnone w Hw). }
  destruct (validateAll_findings this) as (errors & Hrun & Hfind).
  exists errors. split; [exact Hrun|]. split.
  - apply Hfind. now constructor.
  - intros Hmax. apply Hfind.
    rewrite <- (qualified_none (DataValidator.workers this) task skill Hreq Hno).
    apply concurrency_finding; [exact Ht|].
    rewrite (qualified_none (DataValidator.workers this) task skill Hreq Hno).
    simpl. lia.
Qed.

Lemma uncovered_skill_leaves_no_qualified_worker_witness :
  exists errors,
    DataValidator.validateAll paintingUncovered = JS.Normal errors /\
    In (DataValidator.skillCoverage (task_with "T1" "painting") "painting") errors /\
    (1 <= MaxConcurrent (task_with "T1" "painting") ->
     In (DataValidator.maxConcurrent (task_with "T1" "painting") []) errors).
Proof.
  apply (uncovered_skill_leaves_no_qualified_worker paintingUncovered
           (task_with "T1" "painting") "painting").
  - simpl. left. reflexivity.
  - simpl. left. reflexivity.
  - intros worker [<-|[]]. simpl. intros [H|[]]. discriminate H.
Defined.

(** X5.  More workers never give more capacity findings: with the
    workers [more] added, every skill-coverage error was already reported
    without them, and every task warned about its [MaxConcurrent] was
    already warned about. *)
Theorem more_workers_never_add_capacity_findings
    (clients : list Client) (workers more : list Worker) (tasks : list Task) :
  exists before after,
    DataValidator.validateAll (DataValidator.new clients workers tasks)
    = JS.Normal before /\
    DataValidator.validateAll (DataValidator.new clients (workers ++ more) tasks)
    = JS.Normal after /\
    incl (tagged "skill-coverage-" after) (tagged "skill-coverage-" before) /\
    incl (map ValidationError.entityId (tagged "max-concurrent-" after))
         (map ValidationError.entityId (tagged "max-concurrent-" before)).
Proof.
  destruct (validateAll_findings (DataValidator.new clients workers tasks))
    as (before & Hbefore & Hb).
  destruct (validateAll_findings (DataValidator.new clients (workers ++ more) tasks))
    as (after & Hafter & Ha).
  exists before, after. split; [exact Hbefore|]. split; [exact Hafter|]. split.
  - intros e He. apply tagged_In in He as [He Htag]. apply tagged_In.
    split; [|exact Htag]. apply Ha in He.
    destruct (coverage_findings _ e He Htag) as (task & skill & -> & Ht & Hreq & Hno).
    apply Hb. constructor; [exact Ht | exact Hreq |].
    simpl in *. rewrite allSkills_app, in_app_iff in Hno. tauto.
  - intros ID HID. apply in_map_iff in HID as (e & <- & He).
    apply tagged_In in He as [He Htag]. apply Ha in He.
    destruct (concurrency_findings _ e He Htag) as (task & -> & Ht & Hlt).
    simpl in Ht, Hlt. rewrite qualified_app, length_app in Hlt.
    apply in_map_iff.
    exists (DataValidator.maxConcurrent task (Pushed.qualified workers task)).
    split; [reflexivity|]. apply tagged_In. split.
    + apply Hb. apply (concurrency_finding (DataValidator.new clients workers tasks));
        [exact Ht | simpl; lia].
    + apply prefix_append.
Qed.

(** X6.  [validateAll] returns the empty array exactly for the data sets
    in which the IDs of each collection are distinct; every client has a
    [ClientID], a [ClientName], a [PriorityLevel] from 1 to 5, an
    [AttributesJSON] that is blank or parses, and requests only tasks that
    exist; every worker's [AvailableSlots] is a JSON array of numbers that
    is at least [MaxLoadPerPhase] long; and every task lasts at least 1,
    requires only skills that some worker has and has at least
    [MaxConcurrent] qualified workers. *)
Theorem no_finding_iff_clean (this : DataValidator.this_t) :
  DataValidator.validateAll this = JS.Normal [] <-> clean this.
Proof.
  rewrite validateAll_eq.
  assert (Hnil : JS.Normal (Pushed.all this) = JS.Normal []
                 <-> forall e, ~ finding this e).
  { split.
    - intros H e He. apply reported_finding in He.
      injection H as H. rewrite H in He. contradiction.
    - intros H. destruct (Pushed.all this) as [|e l] eqn:E; [reflexivity|].
      exfalso. apply (H e). apply finding_reported. rewrite E. now left. }
  rewrite Hnil. clear Hnil. split.
  - intros none. constructor.
    + apply laterOccurrences_NoDup.
      destruct (laterOccurrences ClientID (DataValidator.clients this)) as [|c l] eqn:E;
        [reflexivity|].
      exfalso. apply (none (DataValidator.duplicateClient c)). constructor.
      rewrite E. now left.
    + apply laterOccurrences_NoDup.
      destruct (laterOccurrences WorkerID (DataValidator.workers this)) as [|w l] eqn:E;
        [reflexivity|].
      exfalso. apply (none (DataValidator.duplicateWorker w)). constructor.
      rewrite E. now left.
    + apply laterOccurrences_NoDup.
      destruct (laterOccurrences TaskID (DataValidator.tasks this)) as [|t l] eqn:E;
        [reflexivity|].
      exfalso. apply (none (DataValidator.duplicateTask t)). constructor.
      rewrite E. now left.
    + intros c Hc. split; [|split; [|split; [|split]]].
      * intros E. apply (none (DataValidator.missingField c "ClientID")).
        apply missing_finding; [exact Hc | simpl; tauto | simpl; now rewrite E].
      * intros E. apply (none (DataValidator.missingField c "ClientName")).
        apply missing_finding; [exact Hc | simpl; tauto | simpl; now rewrite E].
      * destruct (Z_lt_le_dec (PriorityLevel c) 1) as [Hlo|Hlo];
          [exfalso; apply (none (DataValidator.priorityRange c)); constructor; tauto|].
        destruct (Z_lt_le_dec 5 (PriorityLevel c)) as [Hhi|Hhi];
          [exfalso; apply (none (DataValidator.priorityRange c)); constructor; tauto|].
        lia.
      * destruct (String.string_dec (JS.trim (AttributesJSON c)) "") as [E|E];
          [now left|]. right.
        destruct (JS.JSON_parse (AttributesJSON c)) as [v|e] eqn:Hparse;
          [now exists v|].
        exfalso. apply (none (DataValidator.brokenJSON c)).
        now apply broken_finding with e.
      * destruct (String.string_dec (RequestedTaskIDs c) "") as [E|E]; [now left|].
        right. intros taskId Hin.
        destruct (in_dec String.string_dec taskId
                    (map TaskID (DataValidator.tasks this))) as [H|H]; [exact H|].
        exfalso. apply (none (DataValidator.unknownTask c taskId)). now constructor.
    + intros w Hw. unfold slotsSuffice.
      destruct (JS.JSON_parse (AvailableSlots w)) as [slots|e] eqn:Hparse.
      * exists slots. split; [reflexivity|].
        destruct (JS.isArray slots) eqn:Harr.
        -- destruct (forallb JS.isNumber (JS.elements slots)) eqn:Hnum.
           ++ split; [reflexivity|]. split; [reflexivity|].
              destruct (Z_lt_le_dec (Z.of_nat (length (JS.elements slots)))
                          (MaxLoadPerPhase w)) as [Hlt|Hle]; [|exact Hle].
              exfalso. apply (none (DataValidator.overloaded w slots)).
              now constructor.
           ++ exfalso. apply (none (DataValidator.malformedSlots w)).
              apply malformed_finding with slots; [exact Hw | exact Hparse |].
              rewrite Hnum. apply orb_true_r.
        -- exfalso. apply (none (DataValidator.malformedSlots w)).
           apply malformed_finding with slots; [exact Hw | exact Hparse |].
           now rewrite Harr.
      * exfalso. apply (none (DataValidator.invalidSlots w)).
        now apply invalid_finding with e.
    + intros t Ht. split; [|split].
      * destruct (Z_lt_le_dec (Duration t) 1) as [Hlt|Hle]; [|exact Hle].
        exfalso. apply (none (DataValidator.durationRange t)). now constructor.
      * intros skill Hin.
        destruct (in_dec String.string_dec skill
                    (Pushed.allSkills (DataValidator.workers this))) as [H|H]; [exact H|].
        exfalso. apply (none (DataValidator.skillCoverage t skill)). now constructor.
      * destruct (Z_lt_le_dec
                    (Z.of_nat (length (Pushed.qualified (DataValidator.workers this) t)))
                    (MaxConcurrent t)) as [Hlt|Hle]; [|exact Hle].
        exfalso.
        apply (none (DataValidator.maxConcurrent t
                       (Pushed.qualified (DataValidator.workers this) t))).
        now constructor.
  - intros [HC HW HT Hclients Hworkers Htasks] e He.
    apply laterOccurrences_NoDup in HC, HW, HT.
    destruct He as [c f Hc Hf Hcond|c Hc|w Hw|t Ht|w slots Hw Hparse Hcond|w e' Hw Hparse
                   |c Hc Hcond|t Ht Hcond|c e' Hc Hblank Hparse|c taskId Hc Hreq Hin Hno
                   |w slots Hw Hparse Harr Hlt|t skill Ht Hin Hno|t Ht Hlt].
    + destruct (Hclients c Hc) as (HID & Hname & Hprio & _).
      destruct Hf as [<-|[<-|[<-|[]]]]; simpl in Hcond.
      * destruct (String.eqb_spec (ClientID c) ""); [tauto | discriminate].
      * destruct (String.eqb_spec (ClientName c) ""); [tauto | discriminate].
      * rewrite orb_false_r in Hcond. lia.
    + rewrite HC in Hc. contradiction.
    + rewrite HW in Hw. contradiction.
    + rewrite HT in Ht. contradiction.
    + destruct (Hworkers w Hw) as (slots' & Hparse' & Harr & Hnum & _).
      rewrite Hparse in Hparse'. injection Hparse' as <-.
      rewrite Harr, Hnum in Hcond. discriminate.
    + destruct (Hworkers w Hw) as (slots' & Hparse' & _). congruence.
    + destruct (Hclients c Hc) as (_ & _ & Hprio & _). lia.
    + destruct (Htasks t Ht) as (Hdur & _). lia.
    + destruct (Hclients c Hc) as (_ & _ & _ & [Hjson|(v & Hjson)] & _); congruence.
    + destruct (Hclients c Hc) as (_ & _ & _ & _ & [Hreq'|Hreq']); [congruence|].
      now apply Hno, Hreq'.
    + destruct (Hworkers w Hw) as (slots' & Hparse' & _ & _ & Hle).
      rewrite Hparse in Hparse'. injection Hparse' as <-. lia.
    + destruct (Htasks t Ht) as (_ & Hskills & _). now apply Hno, Hskills.
    + destruct (Htasks t Ht) as (_ & _ & Hle). lia.
Qed.

(** The sample data of the parser: no error, and two warnings, for the two
    tasks that ask for two workers at a time and have one qualified. *)
Example sample_data_findings :
  exists errors,
    DataValidator.validateAll sampleData = JS.Normal errors /\
    map (fun e => (ValidationError.id e, ValidationError.message e)) errors
    = [("max-concurrent-T001", "MaxConcurrent (2) exceeds qualified workers (1)");
       ("max-concurrent-T005", "MaxConcurrent (2) exceeds qualified workers (1)")].
Proof. eexists. split; vm_compute; reflexivity. Qed.

(* ===================================================================== *)
(** ** Part XVII.  Properties of the corrections                          *)
(* ===================================================================== *)

(** X7.  [suggestCorrections] only ever raises a priority.  Each of its
    corrections is for a client of the data whose [PriorityLevel] is below
    3 and who requests an existing task that is complex (longer than 3, or
    with more than two required skills); it names the field
    [PriorityLevel], records the client's level and suggests 4.  There is
    at most one correction for each row, and none at all for workers and
    for tasks. *)
Theorem corrections_only_raise_low_priorities (this : AIEngine.this_t) :
  (forall data : list Client,
     let corrections :=
       Corrections.suggestCorrections this (clientRows data) Entity.client in
     (length corrections <= length data)%nat /\
     Forall (fun correction =>
       Correction.field correction = "PriorityLevel" /\
       Correction.suggestedValue correction = 4 /\
       Correction.currentValue correction < 3 /\
       exists client task,
         In client data /\ In task (AIEngine.tasks this) /\
         Correction.id correction = ClientID client /\
         Correction.currentValue correction = PriorityLevel client /\
         In (TaskID task) (map JS.trim (JS.split "," (RequestedTaskIDs client))) /\
         Corrections.complex task = true) corrections) /\
  (forall data, Corrections.suggestCorrections this data Entity.worker = []) /\
  (forall data, Corrections.suggestCorrections this data Entity.task = []).
Proof.
  split; [|split; reflexivity].
  intros data corrections. subst corrections. rewrite suggestCorrections_eq. split.
  - induction data as [|c data IH]; [reflexivity|]. simpl. rewrite length_app.
    unfold correctionsFor at 1. destruct (_ && _ && _); simpl; lia.
  - apply List.Forall_forall. intros correction Hin.
    apply in_flat_map in Hin as (client & Hclient & Hin).
    apply correctionsFor_id in Hin as (-> & _ & Hcomplex & Hlow).
    split; [reflexivity|]. split; [reflexivity|]. split; [exact Hlow|].
    destruct (complexRequests (AIEngine.tasks this) client) as [|taskId l] eqn:E;
      [congruence|].
    assert (Hin : In taskId (complexRequests (AIEngine.tasks this) client))
      by (rewrite E; now left).
    unfold complexRequests in Hin. apply filter_In in Hin as [Hreq Hfound].
    destruct (List.find _ (AIEngine.tasks this)) as [task|] eqn:Hfind; [|discriminate].
    apply find_some in Hfind as [Htask HID]. apply String.eqb_eq in HID.
    exists client, task. rewrite HID. repeat split; assumption.
Qed.

(** X8.  A correction that [suggestCorrections] makes for a client whose
    ID starts with [C] can be applied, and is then not made again:
    [applyCorrection] hands back the clients it was given, in their order
    and with every field as it was, but for the [PriorityLevel] of every
    client of that ID, which is 4; and on them [suggestCorrections] makes
    the corrections it made before, less those for that ID. *)
Theorem applied_correction_is_not_suggested_again
    (clients : list Client) (workers : list Worker) (tasks : list Task)
    (correction : Correction.t) :
  In correction
    (Corrections.suggestCorrections (AIEngine.new clients workers tasks)
       (clientRows clients) Entity.client) ->
  JS.startsWith (Correction.id correction) "C" = true ->
  exists updated,
    ValidationPanel.applyCorrection clients workers tasks correction
    = Some (Entity.client, clientRows updated) /\
    updated = prioritised (Correction.id correction) 4 clients /\
    Forall (fun client => ClientID client = Correction.id correction ->
                          PriorityLevel client = 4) updated /\
    Corrections.suggestCorrections (AIEngine.new updated workers tasks)
      (clientRows updated) Entity.client
    = notFor (Correction.id correction)
        (Corrections.suggestCorrections (AIEngine.new clients workers tasks)
           (clientRows clients) Entity.client).
Proof.
  intros Hin HC. rewrite suggestCorrections_eq in Hin. simpl in Hin.
  apply in_flat_map in Hin as (c0 & Hc0 & Hin).
  apply correctionsFor_id in Hin as (-> & _).
  set (ID := ClientID c0).
  set (raise := fun client : Client =>
         if String.eqb (ClientID client) ID
         then {| ClientID := ClientID client; ClientName := ClientName client;
                 PriorityLevel := 4; RequestedTaskIDs := RequestedTaskIDs client;
                 GroupTag := GroupTag client; AttributesJSON := AttributesJSON client |}
         else client).
  exists (map raise clients). split; [|split; [|split]].
  - unfold ValidationPanel.applyCorrection. simpl Correction.id. simpl in HC.
    rewrite HC. fold ID.
    rewrite (mapTyped_map _ raise); [reflexivity|].
    intros client _. unfold raise. now destruct (String.eqb (ClientID client) ID).
  - reflexivity.
  - apply List.Forall_forall. intros client Hclient.
    apply in_map_iff in Hclient as (client' & <- & _). unfold raise. simpl. fold ID.
    destruct (String.eqb_spec (ClientID client') ID) as [E|E]; [reflexivity|].
    simpl. congruence.
  - rewrite !suggestCorrections_eq. simpl. fold ID. clear Hc0.
    unfold notFor. induction clients as [|client clients IH]; [reflexivity|].
    simpl. rewrite List.filter_app, IH. f_equal.
    unfold raise at 1. unfold correctionsFor, complexRequests.
    destruct (String.eqb_spec (ClientID client) ID) as [E|E]; simpl.
    + rewrite andb_false_r.
      destruct (_ && _ && _); [|reflexivity]. simpl. rewrite E, String.eqb_refl.
      reflexivity.
    + destruct (_ && _ && _); [|reflexivity]. simpl.
      destruct (String.eqb_spec (ClientID client) ID); [contradiction|]. reflexivity.
Qed.

Lemma applied_correction_is_not_suggested_again_witness :
  exists updated,
    ValidationPanel.applyCorrection [client_low "C1"] [] [task_long]
      (Corrections.priorityCorrection (client_low "C1") ["T1"])
    = Some (Entity.client, clientRows updated) /\
    updated = [withPriority (client_low "C1") 4] /\
    Forall (fun client => ClientID client = "C1" -> PriorityLevel client = 4) updated /\
    Corrections.suggestCorrections (AIEngine.new updated [] [task_long])
      (clientRows updated) Entity.client
    = notFor "C1"
        (Corrections.suggestCorrections (AIEngine.new [client_low "C1"] [] [task_long])
           (clientRows [client_low "C1"]) Entity.client).
Proof.
  apply (applied_correction_is_not_suggested_again [client_low "C1"] [] [task_long]
           (Corrections.priorityCorrection (client_low "C1") ["T1"])).
  - vm_compute. left. reflexivity.
  - reflexivity.
Defined.

(** X9.  A correction for a client whose ID does not start with [C] is
    never applied to the client: [applyCorrection] takes it for a worker
    or a task, and hands back the workers, or the tasks, with the fields
    that their interface declares as they are. *)
Theorem correction_for_other_prefix_changes_nothing
    (clients : list Client) (workers : list Worker) (tasks : list Task)
    (correction : Correction.t) :
  In correction
    (Corrections.suggestCorrections (AIEngine.new clients workers tasks)
       (clientRows clients) Entity.client) ->
  JS.startsWith (Correction.id correction) "C" = false ->
  ValidationPanel.applyCorrection clients workers tasks correction
  = (if JS.startsWith (Correction.id correction) "W"
     then Some (Entity.worker, workerRows workers)
     else Some (Entity.task, taskRows tasks)).
Proof.
  intros Hin HC. rewrite suggestCorrections_eq in Hin. simpl in Hin.
  apply in_flat_map in Hin as (c0 & Hc0 & Hin).
  apply correctionsFor_id in Hin as (-> & _).
  unfold ValidationPanel.applyCorrection. simpl Correction.id in *. rewrite HC.
  destruct (JS.startsWith (ClientID c0) "W").
  - rewrite mapTyped_id; [reflexivity|].
    intros worker _. now destruct (String.eqb (WorkerID worker) (ClientID c0)).
  - rewrite mapTyped_id; [reflexivity|].
    intros task _. now destruct (String.eqb (TaskID task) (ClientID c0)).
Qed.

Lemma correction_for_other_prefix_changes_nothing_witness :
  ValidationPanel.applyCorrection [client_low "K1"] [] [task_long]
    (Corrections.priorityCorrection (client_low "K1") ["T1"])
  = Some (Entity.task, taskRows [task_long]).
Proof.
  apply (correction_for_other_prefix_changes_nothing [client_low "K1"] [] [task_long]
           (Corrections.priorityCorrection (client_low "K1") ["T1"])).
  - vm_compute. left. reflexivity.
  - reflexivity.
Defined.

(** X15.  The summary of the panel counts every finding of [validateAll]
    once: the errors of the three entities add up to [totalErrors], their
    warnings to [totalWarnings], and the two totals to the number of
    findings.  No warning is ever counted for the clients: the validator
    warns about workers and tasks only. *)
Theorem summary_counts_every_finding_once (this : DataValidator.this_t) :
  exists validationErrors,
    DataValidator.validateAll this = JS.Normal validationErrors /\
    let summary := ValidationPanel.errorsByEntity validationErrors in
    let client := ValidationPanel.client summary in
    let worker := ValidationPanel.worker summary in
    let task := ValidationPanel.task summary in
    ValidationPanel.warnings client = 0%nat /\
    (ValidationPanel.errors client + ValidationPanel.errors worker
     + ValidationPanel.errors task)%nat
    = ValidationPanel.totalErrors validationErrors /\
    (ValidationPanel.warnings worker + ValidationPanel.warnings task)%nat
    = ValidationPanel.totalWarnings validationErrors /\
    (ValidationPanel.totalErrors validationErrors
     + ValidationPanel.totalWarnings validationErrors)%nat
    = length validationErrors.
Proof.
  destruct (validateAll_findings this) as (l & Hrun & Hfind).
  exists l. split; [exact Hrun|]. cbv zeta.
  destruct (errorsByEntity_counts l Entity.client) as [Hce Hcw].
  destruct (errorsByEntity_counts l Entity.worker) as [Hwe Hww].
  destruct (errorsByEntity_counts l Entity.task) as [Hte Htw].
  cbv zeta in *. simpl ValidationPanel.counts in *.
  assert (Hnone : ValidationPanel.warnings
                    (ValidationPanel.client (ValidationPanel.errorsByEntity l)) = 0%nat).
  { rewrite Hcw. apply length_zero_iff_nil.
    clear Hce Hcw Hwe Hww Hte Htw.
    destruct (List.filter
                (fun x => isWarning x
                          && DataGrid.sameEntity (ValidationError.entity x) Entity.client)
                l) as [|x rest] eqn:E; [reflexivity|]. exfalso.
    assert (Hx : In x (List.filter
                         (fun x => isWarning x
                                   && DataGrid.sameEntity (ValidationError.entity x)
                                        Entity.client) l))
      by (rewrite E; now left).
    apply filter_In in Hx as [Hin Hx]. apply Hfind in Hin.
    destruct Hin; discriminate Hx. }
  assert (Herrors : ValidationPanel.totalErrors l
                    = length (List.filter (fun x => negb (isWarning x)) l)).
  { unfold ValidationPanel.totalErrors, isWarning. f_equal. apply filter_ext.
    intros x. now destruct (ValidationError.type x). }
  assert (Hwarnings : ValidationPanel.totalWarnings l = length (List.filter isWarning l)).
  { reflexivity. }
  split; [exact Hnone|]. split; [|split].
  - rewrite Herrors, (filter_by_entity _ ValidationError.entity), Hce, Hwe, Hte.
    reflexivity.
  - rewrite Hwarnings, (filter_by_entity _ ValidationError.entity), <- Hcw, <- Hww, <- Htw,
      Hnone. reflexivity.
  - rewrite Herrors, Hwarnings. clear. induction l as [|x l IH]; [reflexivity|].
    simpl. destruct (isWarning x); simpl; lia.
Qed.

(* ===================================================================== *)
(** ** Part XVIII.  Properties of the lines of comma-separated values     *)
(* ===================================================================== *)

(** X10.  On a line without a quote character, [parseCSVLine] returns the
    pieces between the commas, trimmed: as many fields as the header line,
    which is split on commas, has names. *)
Theorem unquoted_line_is_split_and_trimmed (line : string) :
  JS.includes line JS.dq = false ->
  FileParser.parseCSVLine line = map JS.trim (JS.split "," line).
Proof.
  intros H. rewrite <- (join_split "," line) at 1.
  apply parseCSVLine_cells.
  - destruct (split_cons "," line) as (piece & pieces & ->). discriminate.
  - rewrite <- (map_id (JS.split "," line)) at 1.
    rewrite <- (map_id (JS.split "," line)) at 2.
    apply Forall2_map_In. intros piece Hin.
    pose proof (split_lacks JS.quote "," line H) as Hq.
    pose proof (split_lacks_sep "," line) as Hc.
    rewrite List.Forall_forall in Hq, Hc.
    split; [now apply Hq|]. left. split; [reflexivity | now apply Hc].
Qed.

Lemma unquoted_line_is_split_and_trimmed_witness :
  FileParser.parseCSVLine "C1, Acme ,3" = map JS.trim (JS.split "," "C1, Acme ,3").
Proof.
  apply (unquoted_line_is_split_and_trimmed "C1, Acme ,3"). reflexivity.
Defined.

(** X11.  An export is read back line by line.  When the headers and the
    string values have no line feed, and the string values no quote, the
    text of [convertToCSV] splits on line feeds into the header line and
    one line for each row, and [parseCSVLine] returns, for the line of a
    row, the text of each of its values, trimmed: the string itself, the
    numeral of a number, and the empty text for what is falsy (the number
    0, an absent value). *)
Theorem exported_rows_are_read_back (data : list ExportPanel.Row) (headers : list string) :
  headers <> [] ->
  Forall (fun header => JS.includes header ExportPanel.newline = false) headers ->
  (forall row header s,
     In row data -> In header headers -> row header = DataValidator.VString s ->
     JS.includes s JS.dq = false /\ JS.includes s ExportPanel.newline = false) ->
  exists lines,
    JS.split "010" (ExportPanel.convertToCSV data headers)
    = JS.join "," headers :: lines /\
    map FileParser.parseCSVLine lines
    = map (fun row => map (fun header => JS.trim (shown (row header))) headers) data.
Proof.
  intros Hne Hheaders Hvalues.
  set (line := fun row : ExportPanel.Row =>
         JS.join "," (map (fun header => ExportPanel.joined (ExportPanel.cell (row header)))
                        headers)).
  exists (map line data). split.
  - change (ExportPanel.convertToCSV data headers)
      with (JS.join (String "010" "") (JS.join "," headers :: map line data)).
    apply split_join; [discriminate|]. constructor.
    + apply lacks_join; [reflexivity | exact Hheaders].
    + apply List.Forall_forall. intros text Hin.
      apply in_map_iff in Hin as (row & <- & Hrow). unfold line.
      apply lacks_join; [reflexivity|]. apply List.Forall_forall. intros t Ht.
      apply in_map_iff in Ht as (header & <- & Hheader).
      apply cell_lacks_newline. intros s Hs. now apply (Hvalues row header s).
  - rewrite map_map. apply map_ext_in. intros row Hrow. unfold line.
    rewrite <- (map_map (fun header => shown (row header)) JS.trim).
    apply parseCSVLine_cells.
    + destruct headers; [congruence | discriminate].
    + apply Forall2_map_In. intros header Hheader. apply cell_holds.
      intros s Hs. now apply (Hvalues row header s).
Qed.

Lemma exported_rows_are_read_back_witness :
  exists lines,
    JS.split "010"
      (ExportPanel.convertToCSV [row_Acme] ["ClientID"; "ClientName"; "PriorityLevel"])
    = JS.join "," ["ClientID"; "ClientName"; "PriorityLevel"] :: lines /\
    map FileParser.parseCSVLine lines
    = map (fun row => map (fun header => JS.trim (shown (row header)))
                        ["ClientID"; "ClientName"; "PriorityLevel"]) [row_Acme].
Proof.
  apply (exported_rows_are_read_back [row_Acme] ["ClientID"; "ClientName"; "PriorityLevel"]).
  - discriminate.
  - repeat constructor.
  - intros row header s [<-|[]] [<-|[<-|[<-|[]]]] H; vm_compute in H;
      try discriminate H; injection H as <-; split; reflexivity.
Defined.

(** X12.  [parseCSVLine] always returns at least one field, and every
    field it returns is trimmed and has no quote character: a quote in
    the line only switches the reading of commas and is dropped. *)
Theorem parsed_fields_are_trimmed_and_unquoted (line : string) :
  FileParser.parseCSVLine line <> [] /\
  Forall (fun value => JS.includes value JS.dq = false /\ JS.trim value = value)
    (FileParser.parseCSVLine line).
Proof.
  rewrite parseCSVLine_loop.
  pose proof (csvLoop_bare (list_ascii_of_string line) [] "" false
                (List.Forall_nil _) (lacks_nil _)) as H.
  destruct (fold_left csvStep (list_ascii_of_string line) ([], "", false))
    as [[result current] inQuotes].
  destruct H as [Hr Hc]. split.
  - intros E. now apply app_eq_nil in E as [_ E].
  - apply Forall_app. split; [exact Hr|].
    constructor; [now apply bare_trim | constructor].
Qed.

(* ===================================================================== *)
(** ** Part XX.  Properties of the analysis of skill gaps                 *)
(* ===================================================================== *)

(** X16.  [analyzeSkillGaps] reports a skill at most once, and only a
    skill that some task requires; its [taskCount] is the number of times
    the tasks list the skill and its [workerCount] the number of times the
    workers list it, a skill listed twice by one record counting twice. *)
Theorem skill_gaps_count_the_listings (this : AIEngine.this_t) :
  let demand := requiredSkills (AIEngine.tasks this) in
  let supply := Pushed.allSkills (AIEngine.workers this) in
  let gaps := AIEngine.analyzeSkillGaps this in
  List.NoDup (map AIEngine.skill gaps) /\
  Forall (fun gap =>
    In (AIEngine.skill gap) demand /\
    AIEngine.taskCount gap = listings (AIEngine.skill gap) demand /\
    AIEngine.workerCount gap = listings (AIEngine.skill gap) supply) gaps.
Proof.
  intros demand supply gaps. subst gaps. rewrite analyzeSkillGaps_eq. cbv zeta.
  fold demand supply.
  set (supplied := tabulate (fun k => listings k supply) (distinct supply)).
  assert (Hgap : forall k, forall gap,
            In gap (gapFor supplied (k, listings k demand)) ->
            AIEngine.skill gap = k /\
            AIEngine.taskCount gap = listings k demand /\
            AIEngine.workerCount gap = listings k supply).
  { intros k gap. unfold gapFor.
    assert (Hget : match JS.mapGet supplied k with Some n => n | None => 0 end
                   = listings k supply).
    { destruct (in_dec String.string_dec k supply) as [Hin|Hno].
      - unfold supplied. now rewrite mapGet_tabulate by now apply distinct_In.
      - unfold supplied. rewrite mapGet_tabulate_none by (rewrite distinct_In; exact Hno).
        unfold listings.
        assert (H0 : occurrences (fun s => s) k supply = 0%nat)
          by (apply occurrences_zero; rewrite map_id;
              destruct (JS.arrayIncludes supply k) eqn:E; [|reflexivity];
              apply arrayIncludes_In in E; contradiction).
        now rewrite H0. }
    rewrite Hget. destruct (_ <? _)%float; [|contradiction].
    intros [<-|[]]. now repeat split. }
  split.
  - unfold tabulate. generalize (distinct_NoDup demand).
    induction (distinct demand) as [|k ks IH]; intros Hnd; [constructor|].
    inversion Hnd as [|? ? Hk Hnd']. subst. cbn [map flat_map]. rewrite map_app.
    apply List.NoDup_app; [| now apply IH |].
    + pose proof (Hgap k) as Hk'. destruct (gapFor supplied (k, listings k demand))
        as [|g [|g' rest]] eqn:E; [constructor | repeat constructor; intros [] |].
      exfalso. unfold gapFor in E. destruct (_ <? _)%float; discriminate E.
    + intros s Hs Hs'. apply in_map_iff in Hs as (g & <- & Hg).
      apply Hgap in Hg as (Hg & _). apply in_map_iff in Hs' as (g' & Heq & Hg').
      apply in_flat_map in Hg' as ([k' n] & Hin & Hg').
      apply in_map_iff in Hin as (k'' & Hpair & Hk''). injection Hpair as -> <-.
      apply Hgap in Hg' as (Hg' & _). congruence.
  - apply List.Forall_forall. intros gap Hin.
    apply in_flat_map in Hin as ([k n] & Hin & Hg). unfold tabulate in Hin.
    apply in_map_iff in Hin as (k' & Hpair & Hk'). injection Hpair as -> <-.
    apply Hgap in Hg as (-> & Ht & Hw). split; [now apply distinct_In|]. now split.
Qed.

(* ===================================================================== *)
(** ** Part XXI.  Properties of the mapping of headers                    *)
(* ===================================================================== *)

(** X17.  What [mapHeaders] maps a header to depends on the header alone,
    not on the other headers, their order or their repetitions: it is
    what the header is mapped to when it comes alone.  It depends on the
    header through its normalised form, so that headers which differ by
    case or by punctuation are mapped alike.  And a header is only ever
    mapped to a field that the interface of some entity declares, unless
    its normalised form is the name of an inherited property. *)
Theorem header_mapping_depends_on_the_header_alone :
  (forall headers header,
     Headers.mapHeaders headers !! header
     = if JS.arrayIncludes headers header
       then Headers.mapHeaders [header] !! header else None) /\
  (forall header1 header2,
     Headers.underscore (JS.toLowerCase header1)
     = Headers.underscore (JS.toLowerCase header2) ->
     header1 <> "__proto__" -> header2 <> "__proto__" ->
     Headers.mapHeaders [header1] !! header1 = Headers.mapHeaders [header2] !! header2) /\
  (forall headers header value,
     Headers.mapHeaders headers !! header = Some value ->
     match value with
     | Headers.FieldName name => declared name = true
     | Headers.ObjectConstructor =>
         Headers.underscore (JS.toLowerCase header) = "constructor"
     | Headers.ObjectPrototype =>
         Headers.underscore (JS.toLowerCase header) = "__proto__"
     | Headers.Undefined => False
     end).
Proof.
  split; [|split].
  - intros headers header. rewrite !mapHeaders_lookup.
    assert (Hself : JS.arrayIncludes [header] header = true)
      by (simpl; now rewrite String.eqb_refl).
    rewrite Hself. now destruct (JS.arrayIncludes headers header).
  - intros header1 header2 Hsame H1 H2. rewrite !mapHeaders_lookup.
    fold (normalized header1) in Hsame. fold (normalized header2) in Hsame.
    rewrite Hsame. simpl. rewrite !String.eqb_refl. simpl.
    destruct (String.eqb_spec header1 "__proto__"); [contradiction|].
    destruct (String.eqb_spec header2 "__proto__"); [contradiction|]. reflexivity.
  - intros headers header value. rewrite mapHeaders_lookup.
    destruct (_ && _); [|discriminate].
    pose proof (found_declared (normalized header)) as Hd.
    fold (normalized header).
    assert (Hinherited : forall v, found (normalized header) = v ->
              match v with
              | Headers.ObjectConstructor => normalized header = "constructor"
              | Headers.ObjectPrototype => normalized header = "__proto__"
              | _ => True
              end).
    { intros v <-. unfold found.
      assert (Hp : forall key, match Headers.property allMappings key with
                               | Headers.ObjectConstructor => key = "constructor"
                               | Headers.ObjectPrototype => key = "__proto__"
                               | _ => True
                               end).
      { intros key. unfold Headers.property.
        destruct (JS.mapGet allMappings key); [exact I|].
        destruct (String.eqb_spec key "constructor"); [assumption|].
        destruct (String.eqb_spec key "__proto__"); [assumption | exact I]. }
      destruct (Headers.truthy _); [apply Hp|].
      destruct (List.find _ _) as [bestMatch|] eqn:Hfind; [|exact I].
      apply find_some in Hfind as [Hin _]. rewrite allMappings_keys in Hin.
      pose proof (Hp bestMatch) as Hb.
      destruct (Headers.property allMappings bestMatch); try exact I; subst bestMatch;
        simpl in Hin; exfalso;
        repeat (destruct Hin as [Hin|Hin]; [discriminate Hin|]); contradiction. }
    specialize (Hinherited _ eq_refl).
    destruct (found (normalized header)); intros H; try discriminate H;
      injection H as <-; assumption.
Qed.

(** X18.  A header whose normalised form occurs in [client_id], the first
    key of the tables, is taken for the client ID, unless it is [id]
    itself: so are the empty header and a header of one punctuation
    mark. *)
Theorem header_within_client_id_is_the_client_ID (header : string) :
  header <> "__proto__" ->
  JS.includes "client_id" (Headers.underscore (JS.toLowerCase header)) = true ->
  Headers.underscore (JS.toLowerCase header) <> "id" ->
  Headers.mapHeaders [header] !! header = Some (Headers.FieldName "ClientID").
Proof.
  intros Hproto Hinc Hid. fold (normalized header) in Hinc, Hid.
  rewrite mapHeaders_lookup. simpl. rewrite String.eqb_refl. simpl.
  destruct (String.eqb_spec header "__proto__"); [contradiction|]. simpl.
  assert (Hfound : found (normalized header) = Headers.FieldName "ClientID").
  { destruct (JS.mapGet allMappings (normalized header)) as [name|] eqn:Hget.
    - destruct (keys_in_client_id _ _ Hget Hinc) as [E|E]; [|contradiction].
      rewrite E. vm_compute. reflexivity.
    - apply found_first_key; [|exact Hinc].
      unfold Headers.property. rewrite Hget.
      destruct (String.eqb_spec (normalized header) "constructor") as [E|_];
        [rewrite E in Hinc; discriminate Hinc|].
      destruct (String.eqb_spec (normalized header) "__proto__") as [E|_];
        [rewrite E in Hinc; discriminate Hinc | reflexivity]. }
  now rewrite Hfound.
Qed.

Lemma header_within_client_id_is_the_client_ID_witness :
  Headers.mapHeaders [""] !! "" = Some (Headers.FieldName "ClientID").
Proof.
  apply (header_within_client_id_is_the_client_ID "").
  - discriminate.
  - reflexivity.
  - discriminate.
Defined.

(** X19.  A header that contains [id], whatever the case, and is not a
    key of the tables once normalised is taken for the client ID or for
    the task ID: so is [RequestedTaskIDs], the header of the requested
    tasks in an export. *)
Theorem header_with_id_is_an_ID (header : string) :
  JS.includes (Headers.underscore (JS.toLowerCase header)) "id" = true ->
  JS.mapGet Headers.clientFieldMappings (Headers.underscore (JS.toLowerCase header)) = None ->
  JS.mapGet Headers.workerFieldMappings (Headers.underscore (JS.toLowerCase header)) = None ->
  JS.mapGet Headers.taskFieldMappings (Headers.underscore (JS.toLowerCase header)) = None ->
  Headers.mapHeaders [header] !! header = Some (Headers.FieldName "ClientID") \/
  Headers.mapHeaders [header] !! header = Some (Headers.FieldName "TaskID").
Proof.
  fold (normalized header). intros Hinc Hc Hw Ht.
  assert (Hproto : header <> "__proto__") by (intros ->; discriminate Hinc).
  rewrite mapHeaders_lookup. simpl. rewrite String.eqb_refl. simpl.
  destruct (String.eqb_spec header "__proto__"); [contradiction|]. simpl.
  assert (Hget : JS.mapGet allMappings (normalized header) = None).
  { destruct (JS.mapGet allMappings (normalized header)) as [name|] eqn:Hget;
      [|reflexivity]. exfalso.
    assert (Hkey : In (normalized header) (map fst allMappings)).
    { revert Hget. generalize allMappings. intros m. unfold JS.mapGet.
      induction m as [|[k v] m IH]; intros H; [discriminate|]. simpl in *.
      destruct (String.eqb_spec k (normalized header)); [now left | right; now apply IH]. }
    rewrite allMappings_keys in Hkey. simpl in Hkey.
    repeat (destruct Hkey as [E|Hkey];
            [rewrite <- E in Hc, Hw, Ht;
             first [discriminate Hc | discriminate Hw | discriminate Ht]|]).
    contradiction. }
  assert (Htruthy : Headers.truthy (Headers.property allMappings (normalized header))
                    = false).
  { unfold Headers.property. rewrite Hget.
    destruct (String.eqb_spec (normalized header) "constructor") as [E|_];
      [rewrite E in Hinc; discriminate Hinc|].
    destruct (String.eqb_spec (normalized header) "__proto__") as [E|_];
      [rewrite E in Hinc; discriminate Hinc | reflexivity]. }
  destruct (found_id _ Htruthy Hinc) as [-> | ->]; [now left | now right].
Qed.

Lemma header_with_id_is_an_ID_witness :
  Headers.mapHeaders ["RequestedTaskIDs"] !! "RequestedTaskIDs"
  = Some (Headers.FieldName "ClientID") \/
  Headers.mapHeaders ["RequestedTaskIDs"] !! "RequestedTaskIDs"
  = Some (Headers.FieldName "TaskID").
Proof.
  apply (header_with_id_is_an_ID "RequestedTaskIDs"); reflexivity.
Defined.

(** Five headers of the export, read back: only the first is mapped to
    itself. *)
Example exported_headers_read_back :
  map (fun header => Headers.mapHeaders [header] !! header)
    ["ClientID"; "RequestedTaskIDs"; "GroupTag"; "Skills"; "RequiredSkills"]
  = [Some (Headers.FieldName "ClientID"); Some (Headers.FieldName "TaskID");
     Some (Headers.FieldName "WorkerGroup"); Some (Headers.FieldName "RequiredSkills");
     Some (Headers.FieldName "Skills")].
Proof. vm_compute. reflexivity. Qed.

(* ===================================================================== *)
(** ** Part XXII.  Properties of the rule builder                         *)
(* ===================================================================== *)

(** X20.  When the clock does not advance while the recommendations are
    generated, the recommendations of one type all have the same
    identifier; accepting one of them then adds one rule, with that
    identifier, and removes from the list every recommendation of its
    type, not only the one accepted. *)
Theorem accepting_a_recommendation_drops_its_kind
    (now : Z) (this : AIEngine.this_t) (businessRules : list BusinessRule.t)
    (recommendation : AIRuleRecommendation.t) :
  let recommendations := AIEngine.generateRuleRecommendations (fun _ => now) this in
  In recommendation recommendations ->
  exists rule,
    RuleBuilder.acceptRecommendation businessRules recommendations recommendation
    = (businessRules ++ [rule],
       List.filter (fun r => negb (sameKind r recommendation)) recommendations) /\
    BusinessRule.id rule = AIRuleRecommendation.id recommendation /\
    BusinessRule.type rule = AIRuleRecommendation.type recommendation.
Proof.
  intros recommendations Hin. unfold RuleBuilder.acceptRecommendation.
  eexists. split.
  - f_equal. apply filter_ext_in. intros r Hr. f_equal.
    apply (madeAt_same_id now); now apply (generate_made now this).
  - split; reflexivity.
Qed.

Lemma accepting_a_recommendation_drops_its_kind_witness :
  exists rule,
    RuleBuilder.acceptRecommendation []
      (AIEngine.generateRuleRecommendations (fun _ => 1700000000000) twoPairs) firstPair
    = ([] ++ [rule],
       List.filter (fun r => negb (sameKind r firstPair))
         (AIEngine.generateRuleRecommendations (fun _ => 1700000000000) twoPairs)) /\
    BusinessRule.id rule = AIRuleRecommendation.id firstPair /\
    BusinessRule.type rule = AIRuleRecommendation.type firstPair.
Proof.
  apply (accepting_a_recommendation_drops_its_kind 1700000000000 twoPairs [] firstPair).
  vm_compute. left. reflexivity.
Defined.

(** Two pairs of tasks give two recommendations with one identifier;
    accepting the first leaves none. *)
Example accepting_one_of_two_leaves_none :
  map AIRuleRecommendation.id
    (AIEngine.generateRuleRecommendations (fun _ => 1700000000000) twoPairs)
  = ["corun-rec-1700000000000"; "corun-rec-1700000000000"] /\
  snd (RuleBuilder.acceptRecommendation []
         (AIEngine.generateRuleRecommendations (fun _ => 1700000000000) twoPairs)
         firstPair)
  = [].
Proof. split; vm_compute; reflexivity. Qed.

(* ===================================================================== *)
(** ** Part XIX.  Properties of the search                                *)
(* ===================================================================== *)

(** X13.  [searchData] never throws, and returns at most one result for
    each entity.  A result is for an entity whose name occurs in the
    query, whatever the case; it carries the query as it was typed and
    lists at least one row; and its rows are rows of the collection of
    that entity, selected by a test on the row, in the order of the
    collection.  So a query that names no entity finds nothing. *)
Theorem searchData_lists_selected_rows (this : AIEngine.this_t) (query : string) :
  exists results,
    Search.searchData this query = JS.Normal results /\
    List.NoDup (map AISearchResult.entity results) /\
    Forall (fun r =>
      AISearchResult.query r = query /\
      JS.includes (JS.toLowerCase query) (entityWord (AISearchResult.entity r)) = true /\
      selectedFrom this (AISearchResult.entity r) (AISearchResult.matches r)) results.
Proof.
  eexists. split; [apply searchData_eq|]. cbv zeta.
  set (q := JS.toLowerCase query).
  set (tasks := List.filter _ (AIEngine.tasks this)).
  set (clients := List.filter _ (AIEngine.clients this)).
  set (workers := List.filter _ (AIEngine.workers this)).
  cbn [entityWord].
  assert (Hne : forall A (l : list A), (0 <? length l)%nat = true -> l <> []).
  { intros A l H ->. discriminate H. }
  destruct (JS.includes q "task") eqn:Ht, (JS.includes q "client") eqn:Hc,
    (JS.includes q "worker") eqn:Hw;
    destruct ((0 <? length tasks)%nat) eqn:Hlt, ((0 <? length clients)%nat) eqn:Hlc,
      ((0 <? length workers)%nat) eqn:Hlw; simpl;
    (split;
     [repeat (constructor; [simpl; intuition discriminate|]); constructor
     |repeat (constructor;
              [split; [reflexivity|]; split; [assumption|]; simpl;
               split; [now apply Hne | eexists; reflexivity]|]); constructor]).
Qed.

(** X14.  A row without a name is found by every query about its entity:
    the empty text occurs in every query.  A task whose [TaskName] or
    [Category] is empty is listed for every query that names tasks, a
    client whose [ClientName] or [GroupTag] is empty for every query that
    names clients, and a worker whose [WorkerName] or [WorkerGroup] is
    empty for every query that names workers. *)
Theorem rows_without_names_match_every_query (this : AIEngine.this_t) (query : string) :
  exists results,
    Search.searchData this query = JS.Normal results /\
    (JS.includes (JS.toLowerCase query) "task" = true ->
     forall task, In task (AIEngine.tasks this) ->
       TaskName task = "" \/ Category task = "" -> listsTask results task) /\
    (JS.includes (JS.toLowerCase query) "client" = true ->
     forall client, In client (AIEngine.clients this) ->
       ClientName client = "" \/ GroupTag client = "" -> listsClient results client) /\
    (JS.includes (JS.toLowerCase query) "worker" = true ->
     forall worker, In worker (AIEngine.workers this) ->
       WorkerName worker = "" \/ WorkerGroup worker = "" -> listsWorker results worker).
Proof.
  eexists. split; [apply searchData_eq|]. cbv zeta.
  set (q := JS.toLowerCase query). cbn [entityWord].
  assert (Hpos : forall A (l : list A) x, In x l -> (0 <? length l)%nat = true).
  { intros A [|y l] x H; [contradiction | reflexivity]. }
  split; [|split].
  - intros Hq task Hin Hname.
    assert (Hkept : In task (List.filter (fun x => answer (Search.taskMatch q x))
                               (AIEngine.tasks this))).
    { apply filter_In. split; [exact Hin|].
      destruct (taskMatch_text q task) as (b & ->).
      destruct Hname as [-> | ->]; simpl; rewrite includes_empty;
        [reflexivity | now rewrite orb_true_r]. }
    rewrite Hq, (Hpos _ _ _ Hkept). cbn [andb].
    eexists _, _. split; [left; reflexivity|]. simpl. repeat split. exact Hkept.
  - intros Hq client Hin Hname.
    assert (Hkept : In client (List.filter (fun x => answer (Search.clientMatch q x))
                                 (AIEngine.clients this))).
    { apply filter_In. split; [exact Hin|].
      destruct (clientMatch_text q client) as (b & ->).
      destruct Hname as [-> | ->]; simpl; rewrite includes_empty;
        [reflexivity | now rewrite orb_true_r]. }
    rewrite Hq, (Hpos _ _ _ Hkept). cbn [andb].
    eexists _, _. split; [apply in_or_app; right; apply in_or_app; left; left; reflexivity|].
    simpl. repeat split. exact Hkept.
  - intros Hq worker Hin Hname.
    assert (Hkept : In worker (List.filter (fun x => answer (Search.workerMatch q x))
                                 (AIEngine.workers this))).
    { apply filter_In. split; [exact Hin|].
      destruct (workerMatch_text q worker) as (b & ->).
      destruct Hname as [-> | ->]; simpl; rewrite includes_empty;
        [reflexivity | now rewrite orb_true_r]. }
    rewrite Hq, (Hpos _ _ _ Hkept). cbn [andb].
    eexists _, _. split; [apply in_or_app; right; apply in_or_app; right; left; reflexivity|].
    simpl. repeat split. exact Hkept.
Qed.

(** A task without a name is found by a query about long tasks, although
    it lasts two phases. *)
Example unnamed_task_is_found :
  exists results,
    Search.searchData (AIEngine.new [] [] [task_unnamed])
      "tasks with duration more than 5"
    = JS.Normal results /\
    listsTask results task_unnamed.
Proof.
  eexists. split; [vm_compute; reflexivity|].
  eexists _, _. split; [left; reflexivity|]. simpl. repeat split. now left.
Qed.
